(* ===== verification/_CoqProject ===== *)
-Q . S2P
Prelude.v
Str.v
NetAddr.v
Chrono.v
Json.v
Error.v
World.v
Effects.v
Jose.v
Claims.v
Config.v
ConfigLoad.v
Crypto.v
Doctor.v
JwtApi.v
JwtService.v
JwtTheorems.v
Toy.v
JwtList.v
JwtChain.v
Introspect.v
Security.v
SessionCrypto.v
SessionStore.v
MemoryStore.v
PostgresStore.v
Outbound.v
Registry.v
IdToken.v
Flow.v
LoginRace.v
Axum.v
AccessLog.v
Router.v
Ledger.v
RouterTheorems.v
LedgerHttp.v
HttpChain.v
Answers.v
Boot.v
BootTheorems.v
StackTheorems.v
SweeperLiveness.v
ToyWeb.v
ToyApp.v
Witnesses.v
ServiceWitnesses.v
