(* ===== verification/Prelude.v ===== *)
(** TIM, the Token Identity Manager: a verification library of the service.

    TIM (crate [tim], Rust) issues JSON web tokens, validates, extends, revokes,
    lists and introspects them, logs users in through OpenID Connect providers and
    keeps their sessions.  This library translates its modules into executable
    definitions and proves what they promise.

    ** Method

    Code that reads a clock, draws random bytes or talks to the database or to
    another server is a computation of the monad [M] of Effects.v, a function
    from a [World] (World.v) to an outcome and the next world: [Ret], [Throw] of a
    [TimError], [Panic], or [Dropped] when the future is dropped at an [.await],
    because the time limit of its request has passed or its client has gone away.  The world holds the PostgreSQL tables, the
    in-process session map, the two caches and [tick], the number of
    interactions so far; what the outside answers to interaction number n is an
    oracle of the class [Env] (and [Net] for HTTP), so theorems hold for every
    clock, every random source, every database fault, every instant at which a
    request is cut off and every server.  An SQL statement is a function on the
    tables; a transaction rolls back when its body fails or is dropped; a commit
    that fails or is waited for no longer may or may not have been applied.  Integers are [Z]
    with the wrapping of the source's type written out (release build).

    Third-party crates are type classes with the documented behaviour the code
    relies on as separate law classes: [Jose] (jsonwebtoken and rsa), [Chrono]
    and [ChronoSerde], [UuidLib], [SerdeJson], [HttpLib] (http, base64, tower),
    [Aead] (chacha20poly1305), [JwkKeys], [Net] (reqwest), [FlowLib] (url, sha2),
    [AxumLib] (axum's extractors), [YamlLib] (serde_yaml), [PgLib] (sqlx's pool),
    [ChronoText].  [Files] is the file system at start-up.  Toy.v, ToyWeb.v and
    ToyApp.v instantiate all of them with concrete functions.

    ** Files and the code they model

    - Prelude (this file): [Result], machine integers, list and map lemmas.
    - Str: strings of the Rust standard library, with UTF-8.
    - Chrono, Json, Jose: the interfaces of the crates of these names.
    - Error: src/error.rs.  World: the tables of migrations/ and the process state.
    - Effects: the monad, SQL, transactions; [wp], [preserves] and their tactics.
    - Claims: [StandardClaims] of src/jwt/service.rs and its serde encoding.
    - Config: src/config/mod.rs (records, defaults, [validate]); ConfigLoad: its
      search for the file, the loopback rule, [diagnose].  NetAddr: the address
      parser of std::net that the configuration and the start-up rely on.
    - Doctor: src/doctor.rs.
    - Crypto: src/crypto/mod.rs.  JwtApi: src/jwt/api.rs.
    - JwtService: src/jwt/service.rs, one definition per method; JwtTheorems,
      JwtList and JwtChain hold the theorems about single methods, listing, and
      the service as a transition system with overlapping requests.
    - Introspect: src/introspect/mod.rs.  Security: src/security/.
    - SessionStore, MemoryStore, PostgresStore, SessionCrypto: src/oauth2/session/.
    - Outbound: src/http.rs, src/oauth2/discovery.rs, src/oauth2/jwks.rs.
    - Registry: src/oauth2/registry.rs.  IdToken: src/oauth2/idtoken.rs.
    - Flow: src/oauth2/flow.rs and src/oauth2/state_sweeper.rs; LoginRace: logins,
      callbacks and the sweeper as a transition system in which callbacks overlap.
    - Axum: requests and extractors.  AccessLog: src/access_log.rs, with the line
      that is logged for a request.
    - Router: src/router/mod.rs, one definition per handler, the route table and
      all the layers; RouterTheorems: what the endpoints promise; StackTheorems:
      what the layers do; Answers: that every request is answered, and what a
      request that is cut off leaves behind.
    - Ledger: an abstract specification of the token tables, a ledger of issued and
      revoked identifiers with four kinds of move; LedgerHttp: every handler, hence
      every HTTP request, is a simulation of ledger moves.  HttpChain: extension
      requests that overlap, simulated by the system of JwtChain.
    - Boot: src/main.rs and src/db/mod.rs; BootTheorems: what a start guarantees
      and how the doctor foretells it.  SweeperLiveness: the background task.
    - Toy, ToyWeb, ToyApp, Witnesses, ServiceWitnesses: the theorems at work on a
      concrete deployment.

    The token service calls the signer (Crypto) and the tables; introspection is
    a client of the token service; the login flow goes through the registry, the
    caches of Outbound, ID-token verification and a session store.  The store is
    an interface: [SessionStore] is the trait, [StoreSpec] its contract over an
    abstract map of sessions; both implementations are instances, and theorems
    about sessions are proved from the contract alone.

    A request goes through [Router.serve], from the outside in: the CORS layer,
    the static headers, the access log, the time limit, the body limit, the route
    table, one handler.  A handler waits for its body, checks its gate
    (Security), calls the token service, the login flow or the session store of
    the [AppState], and renders the answer.  [Boot.boot] builds that state from
    the configuration, or the process ends.

    ** What the theorems show

    The service as a whole (C1-C11): an active answer means a signed, unexpired,
    unrevoked and acceptable token, over HTTP too; a service that was started with
    the admin token required lets nobody else touch the token tables; a revoked
    token is refused whatever requests follow; a token issued over HTTP is accepted
    over HTTP; every request refines the abstract ledger, so that whatever is
    served an extension chain has at most one live member; a request that is cut
    off has made its move or none (some, for a bulk revocation), though its answer
    may not tell; a closed
    gate leaves no trace; every request is answered; a start ends in a well-formed
    service.  Tokens (C12-C24): extending is atomic and hands over; extension
    chains are well-founded whatever is served, also when extensions overlap,
    though overlapping extensions may leave two live members (C15); keys rotate
    with a grace period; bearer tokens, bulk revocation, introspection and listing
    are exact.  Logins (C25-C30): an accepted ID token passed every check, a
    session is only opened for a fresh state row, which at most one of several
    overlapping callbacks consumes, and is the session later requests are served;
    outbound fetches end, and the offline switch blocks them.  Sessions (C31-C34):
    the envelope round trip, the store contract and both refinements, the liveness
    of the sweeper, logout.  Gates, start and layers (C35-C40): Basic
    authentication, the doctor against a later start in both directions, the trace
    context, what a log line can tell, what other origins see.

    Further theorems are not numbered: generation and validation
    ([JwtTheorems.generate_valid]), configuration validation
    ([Config.validate_spec]), loopback addresses ([ConfigLoad.loopback_exact]),
    redirect URIs ([Flow.resolve_redirect_uri_spec]), the sweeper of login states
    ([Flow.sweep_keeps_fresh]), bulk revocation
    ([JwtTheorems.bulk_revoke_tallies]), starts that are refused
    ([BootTheorems.defaults_refused], [loopback_names_refused],
    [cors_list_refused]), the registry, the admin gate, static headers, cookies
    ([RouterTheorems.cookies_read_back]), error bodies, details of the HTTP
    interface in RouterTheorems, that an extension handler is the two parts
    HttpChain runs ([HttpChain.extension_split]), and the special cases
    [JwtTheorems.revoke_final], [JwtChain.chain_single_live],
    [JwtChain.chains_rooted], [JwtChain.revoked_forever] and
    [Flow.callback_single_use] of the numbered ones.

    ** Bounds and fuel

    [fetch_attempts] counts down the source's own three retries, so a fetch makes
    at most four attempts; [utf8_valid_from] takes the length of the string as
    fuel and every round consumes a byte.  All other recursion is structural.
    The endless background task is a pair of sequences of worlds
    ([SweeperLiveness.execution]); its liveness assumes that the clock passes
    every instant and that rounds keep succeeding now and then.

    ** Not modelled

    The text of log lines other than the access log and the messages of start-up;
    the spans of TraceLayer; parsing of YAML and of the command line; how tower
    computes the headers of a CORS answer (parameters with laws); coalescing of
    concurrent cache misses (moka); the work of the connection pool and of the
    migration runner (sqlx), whose tables are the records of World.v.  When the
    time limit of a request strikes is the oracle's choice, at any [.await], so
    the configured number of seconds does not occur.  A request is served as one
    run, except in HttpChain and JwtChain, where extensions overlap, and in
    LoginRace, where logins do: the operations whose writes depend on an earlier
    read that another request may invalidate. *)
From stdpp Require Export base gmap strings list sorting pretty countable.
From Stdlib Require Export ZArith Lia Ascii.

#[global] Open Scope Z_scope.

(** ** Rust [Result]: the value a fallible pure function returns. *)
Inductive Result (T E : Type) : Type :=
| Ok (t : T)
| Err (e : E).
Arguments Ok {T E} t.
Arguments Err {T E} e.

Definition is_ok {T E} (r : Result T E) : bool :=
  match r with Ok _ => true | Err _ => false end.

Definition map_err {T E F} (f : E -> F) (r : Result T E) : Result T F :=
  match r with Ok t => Ok t | Err e => Err (f e) end.

Definition ok_or {T E} (o : option T) (e : E) : Result T E :=
  match o with Some t => Ok t | None => Err e end.

#[global] Instance result_eq_dec {T E} `{EqDecision T, EqDecision E} : EqDecision (Result T E).
Proof. solve_decision. Defined.

(** The [?] operator: sequencing of fallible functions. *)
Definition rbind {T U E} (r : Result T E) (f : T -> Result U E) : Result U E :=
  match r with Ok t => f t | Err e => Err e end.

Declare Scope tim_scope.
Delimit Scope tim_scope with tim.
Notation "x <-? r ; k" := (rbind r (fun x => k))
  (at level 20, r at level 100, k at level 200, only parsing) : tim_scope.
Notation "' p <-? r ; k" := (rbind r (fun x => match x with p => k end))
  (at level 20, p pattern, r at level 100, k at level 200, only parsing) : tim_scope.
#[global] Open Scope tim_scope.

Lemma rbind_Ok {T U E} (r : Result T E) (f : T -> Result U E) u :
  rbind r f = Ok u <-> exists t, r = Ok t /\ f t = Ok u.
Proof.
  destruct r; simpl; split; [by eauto | by intros (? & [= <-] & ?) | done | by intros (? & ? & ?)].
Qed.

Lemma ok_or_Ok {T E} (o : option T) (e : E) t : ok_or o e = Ok t <-> o = Some t.
Proof. destruct o; simpl; naive_solver. Qed.

Lemma map_err_Ok {T E F} (f : E -> F) (r : Result T E) t : map_err f r = Ok t <-> r = Ok t.
Proof. destruct r; simpl; naive_solver. Qed.

(** ** Machine integers.  A Rust integer is a [Z] in its range; a cast [as]
    and the arithmetic of the release profile (no [overflow-checks] in
    Cargo.toml) wrap around. *)
Definition wrap_u (bits z : Z) : Z := z mod 2 ^ bits.
Definition wrap_s (bits z : Z) : Z := (z + 2 ^ (bits - 1)) mod 2 ^ bits - 2 ^ (bits - 1).

Definition as_i32 := wrap_s 32.
Definition as_i64 := wrap_s 64.
Definition as_u32 := wrap_u 32.

Definition I64_MAX : Z := 2 ^ 63 - 1.
Definition I32_MAX : Z := 2 ^ 31 - 1.

Definition in_i64 (z : Z) : Prop := - 2 ^ 63 <= z <= I64_MAX.
Definition in_i32 (z : Z) : Prop := - 2 ^ 31 <= z <= I32_MAX.

Definition i64_mul (a b : Z) : Z := as_i64 (a * b).
Definition i64_add (a b : Z) : Z := as_i64 (a + b).
Definition i64_sub (a b : Z) : Z := as_i64 (a - b).

(** [i64::clamp] *)
Definition clamp (z lo hi : Z) : Z :=
  if z <? lo then lo else if hi <? z then hi else z.

Lemma clamp_range z lo hi : lo <= hi -> lo <= clamp z lo hi <= hi.
Proof.
  unfold clamp. intros ?.
  destruct (Z.ltb_spec z lo); [lia|]. destruct (Z.ltb_spec hi z); lia.
Qed.

Lemma clamp_id z lo hi : lo <= z <= hi -> clamp z lo hi = z.
Proof.
  unfold clamp. intros ?.
  destruct (Z.ltb_spec z lo); [lia|]. destruct (Z.ltb_spec hi z); lia.
Qed.

Lemma wrap_s_range bits z : 0 < bits -> - 2 ^ (bits - 1) <= wrap_s bits z < 2 ^ (bits - 1).
Proof.
  intros Hb. unfold wrap_s.
  assert (2 ^ bits = 2 * 2 ^ (bits - 1)) as E.
  { rewrite <- Z.pow_succ_r by lia. f_equal. lia. }
  pose proof (Z.pow_pos_nonneg 2 (bits - 1)).
  pose proof (Z.mod_pos_bound (z + 2 ^ (bits - 1)) (2 ^ bits)). lia.
Qed.

Lemma wrap_s_id bits z : 0 < bits -> - 2 ^ (bits - 1) <= z < 2 ^ (bits - 1) -> wrap_s bits z = z.
Proof.
  intros Hb Hz. unfold wrap_s.
  assert (2 ^ bits = 2 * 2 ^ (bits - 1)) as E.
  { rewrite <- Z.pow_succ_r by lia. f_equal. lia. }
  rewrite Z.mod_small; lia.
Qed.

Lemma as_i64_id z : in_i64 z -> as_i64 z = z.
Proof. unfold in_i64, I64_MAX. intros. apply wrap_s_id; lia. Qed.

Lemma as_i64_range z : in_i64 (as_i64 z).
Proof. unfold in_i64, I64_MAX, as_i64. pose proof (wrap_s_range 64 z). lia. Qed.

Lemma as_i32_id z : in_i32 z -> as_i32 z = z.
Proof. unfold in_i32, I32_MAX. intros. apply wrap_s_id; lia. Qed.

(** ** Automation shared by the whole library *)

(** Case analysis on the boolean comparisons of the code. *)
Ltac zcases :=
  repeat match goal with
  | |- context [?a <? ?b] => destruct (Z.ltb_spec a b)
  | |- context [?a <=? ?b] => destruct (Z.leb_spec a b)
  | |- context [?a =? ?b] => destruct (Z.eqb_spec a b)
  | H : context [?a <? ?b] |- _ => destruct (Z.ltb_spec a b)
  | H : context [?a <=? ?b] |- _ => destruct (Z.leb_spec a b)
  | H : context [?a =? ?b] |- _ => destruct (Z.eqb_spec a b)
  end.

Create HintDb tim discriminated.

(** ** Generic list lemmas *)

Lemma existsb_exists_bool {A} (P : A -> bool) (l : list A) :
  existsb P l = true <-> exists x, x ∈ l /\ P x = true.
Proof.
  rewrite existsb_exists. by setoid_rewrite list_elem_of_In.
Qed.

Lemma forallb_elem {A} (P : A -> bool) (l : list A) :
  forallb P l = true <-> forall x, x ∈ l -> P x = true.
Proof.
  rewrite forallb_forall. by setoid_rewrite list_elem_of_In.
Qed.

(** [Iterator::find] *)
Fixpoint find_first {A} (P : A -> bool) (l : list A) : option A :=
  match l with
  | [] => None
  | x :: l' => if P x then Some x else find_first P l'
  end.

Lemma find_first_Some {A} (P : A -> bool) (l : list A) x :
  find_first P l = Some x -> x ∈ l /\ P x = true.
Proof.
  induction l as [|y l IH]; simpl; [done|].
  destruct (P y) eqn:E; intros Hf; simplify_eq.
  - split; [apply list_elem_of_here | done].
  - destruct (IH Hf). split; [by apply list_elem_of_further | done].
Qed.

Lemma find_first_None {A} (P : A -> bool) (l : list A) :
  find_first P l = None <-> forall x, x ∈ l -> P x = false.
Proof.
  induction l as [|y l IH]; simpl.
  - split; [intros _ x Hx; by apply not_elem_of_nil in Hx | done].
  - destruct (P y) eqn:E; split.
    + done.
    + intros Hall. rewrite Hall in E; [done | apply list_elem_of_here].
    + intros Hf x [->|Hx]%elem_of_cons; [done|]. by apply IH.
    + intros Hall. apply IH. intros x Hx. apply Hall. by apply list_elem_of_further.
Qed.

(** [BTreeMap::keys]: in increasing byte order of the keys. *)
Definition btree_keys {V} (m : gmap string V) : list string :=
  merge_sort String.le (elements (dom m)).

Lemma btree_keys_elem {V} (m : gmap string V) k : k ∈ btree_keys m <-> is_Some (m !! k).
Proof.
  unfold btree_keys. rewrite merge_sort_Permutation, elem_of_elements, elem_of_dom. done.
Qed.

Lemma NoDup_fmap_elem {A B} (f : A -> B) (l : list A) x y :
  NoDup (f <$> l) -> x ∈ l -> y ∈ l -> f x = f y -> x = y.
Proof.
  induction l as [|a l IH]; intros Hnd Hx Hy E; [by apply not_elem_of_nil in Hx|].
  apply list.NoDup_cons in Hnd as [Ha Hnd].
  apply elem_of_cons in Hx as [->|Hx], Hy as [->|Hy].
  - done.
  - exfalso. apply Ha. rewrite E. by apply list_elem_of_fmap_2.
  - exfalso. apply Ha. rewrite <- E. by apply list_elem_of_fmap_2.
  - by apply IH.
Qed.

(** An invariant of the steps holds wherever they lead. *)
Lemma rtc_invariant {A} (R : relation A) (P : A -> Prop) x y :
  (forall a b, R a b -> P a -> P b) -> rtc R x y -> P x -> P y.
Proof. intros Hstep Hr. induction Hr; eauto. Qed.
