(* ===== verification/Str.v ===== *)
(** Strings of the Rust standard library.

    A Rust [str]/[String] is its UTF-8 bytes, a Rocq [string]; a byte vector is
    a [string] too.  [chars] splits at the bytes that are not continuation
    bytes, which on valid UTF-8 is [str::chars]; a "character" is the [string]
    of its one to four bytes.  The functions below are the ones the program
    uses: [chars], [trim], [trim_start], [split], [split_once],
    [strip_prefix], [starts_with], [contains], [eq_ignore_ascii_case],
    [to_ascii_lowercase], [join], [trim_end_matches], [trim_matches]. *)
From S2P Require Import Prelude.

(** ** Bytes *)

Definition u8 (a : ascii) : Z := Z.of_N (N_of_ascii a).
Definition byte_of (z : Z) : ascii := ascii_of_N (Z.to_N (z mod 256)).

Lemma u8_range a : 0 <= u8 a < 256.
Proof. unfold u8. pose proof (N_ascii_bounded a). lia. Qed.

Lemma byte_of_u8 a : byte_of (u8 a) = a.
Proof.
  unfold byte_of. pose proof (u8_range a). rewrite Z.mod_small by lia.
  unfold u8. rewrite N2Z.id. apply ascii_N_embedding.
Qed.

Lemma u8_byte_of z : 0 <= z < 256 -> u8 (byte_of z) = z.
Proof.
  intros ?. unfold byte_of, u8. rewrite Z.mod_small by lia.
  rewrite N_ascii_embedding by lia. lia.
Qed.

(** Length in bytes, [str::len]. *)
Definition slen (s : string) : Z := Z.of_nat (String.length s).

Lemma slen_nonneg s : 0 <= slen s.
Proof. unfold slen. lia. Qed.

Lemma string_app_nil_r s : s +:+ "" = s.
Proof. induction s; simpl; [done|]. unfold String.app in *. simpl. by f_equal. Qed.

Lemma string_app_assoc a b c : (a +:+ b) +:+ c = a +:+ (b +:+ c).
Proof. induction a; simpl; [done|]. unfold String.app in *. simpl. by f_equal. Qed.

Lemma string_length_app a b :
  String.length (a +:+ b) = (String.length a + String.length b)%nat.
Proof. induction a; simpl; [done|]. unfold String.app in *. simpl. lia. Qed.

(** ** UTF-8 *)

(** A continuation byte is [10xxxxxx]. *)
Definition is_cont (a : ascii) : bool :=
  match a with Ascii _ _ _ _ _ _ false true => true | _ => false end.

Definition starts_cont (s : string) : bool :=
  match s with String a _ => is_cont a | EmptyString => false end.

Fixpoint chars (s : string) : list string :=
  match s with
  | EmptyString => []
  | String a s' =>
      if starts_cont s' then
        match chars s' with
        | c :: cs => String a c :: cs
        | [] => [String a ""]
        end
      else String a "" :: chars s'
  end.

(** [collect::<String>()] of characters. *)
Fixpoint concat_str (l : list string) : string :=
  match l with [] => "" | c :: l' => c +:+ concat_str l' end.

Lemma concat_str_app l1 l2 : concat_str (l1 ++ l2) = concat_str l1 +:+ concat_str l2.
Proof. induction l1; simpl; [done|]. by rewrite IHl1, string_app_assoc. Qed.

Lemma concat_chars s : concat_str (chars s) = s.
Proof.
  induction s as [|a s IH]; simpl; [done|].
  destruct (starts_cont s) eqn:E; simpl.
  - destruct (chars s) as [|c cs] eqn:Ec; simpl in *.
    + by rewrite <- IH in E.
    + rewrite <- IH. done.
  - by rewrite IH.
Qed.

(** No character is empty; only the first can start with a continuation byte. *)
Lemma chars_nonempty s c : c ∈ chars s -> c ≠ "".
Proof.
  revert c. induction s as [|a s IH]; simpl; intros c; [set_solver|].
  destruct (starts_cont s).
  - destruct (chars s) as [|d ds]; intros [->|Hc]%elem_of_cons; try done;
      [by apply not_elem_of_nil in Hc | apply IH; by apply list_elem_of_further].
  - intros [->|Hc]%elem_of_cons; [done | by apply IH].
Qed.

Lemma chars_app a b : starts_cont b = false -> chars (a +:+ b) = chars a ++ chars b.
Proof.
  intros Hb. induction a as [|x a IH]; simpl; [done|].
  change (String x a +:+ b) with (String x (a +:+ b)). simpl.
  destruct a as [|y a].
  - change ("" +:+ b) with b. by rewrite Hb.
  - change (starts_cont (String y a +:+ b)) with (is_cont y).
    change (starts_cont (String y a)) with (is_cont y).
    rewrite IH. destruct (is_cont y); [|done].
    destruct (chars (String y a)) as [|c cs] eqn:Ec; [|done].
    apply (f_equal concat_str) in Ec. rewrite concat_chars in Ec. done.
Qed.

(** The tail of [chars] never starts inside a character. *)
Lemma chars_tail_boundary s c cs d : chars s = c :: cs -> d ∈ cs -> starts_cont d = false.
Proof.
  revert c cs d. induction s as [|a s IH]; simpl; intros c cs d H Hd; [done|].
  destruct (starts_cont s) eqn:E.
  - destruct (chars s) as [|e es] eqn:Es; simplify_eq; [by apply not_elem_of_nil in Hd|].
    by eapply IH.
  - simplify_eq. destruct (chars s) as [|e es] eqn:Es; [by apply not_elem_of_nil in Hd|].
    apply elem_of_cons in Hd as [->|Hd]; [|by eapply IH].
    pose proof (concat_chars s) as Hs. rewrite Es in Hs. simpl in Hs.
    destruct e as [|x e].
    { exfalso. apply (chars_nonempty s ""); [|done]. rewrite Es. set_solver. }
    rewrite <- Hs in E. done.
Qed.

(** ** Whitespace (the Unicode [White_Space] property, [char::is_whitespace]) *)

Fixpoint bytes (l : list Z) : string :=
  match l with [] => "" | b :: l' => String (byte_of b) (bytes l') end.

Definition white_space : list string :=
  map bytes ([[9]; [10]; [11]; [12]; [13]; [32]; [194; 133]; [194; 160]; [225; 154; 128];
    [226; 128; 128]; [226; 128; 129]; [226; 128; 130]; [226; 128; 131]; [226; 128; 132];
    [226; 128; 133]; [226; 128; 134]; [226; 128; 135]; [226; 128; 136]; [226; 128; 137];
    [226; 128; 138]; [226; 128; 168]; [226; 128; 169]; [226; 128; 175]; [226; 129; 159];
    [227; 128; 128]]).

Definition is_whitespace (c : string) : bool := bool_decide (c ∈ white_space).

Fixpoint drop_while {A} (P : A -> bool) (l : list A) : list A :=
  match l with
  | [] => []
  | x :: l' => if P x then drop_while P l' else l
  end.

Definition drop_while_end {A} (P : A -> bool) (l : list A) : list A :=
  reverse (drop_while P (reverse l)).

Definition trim_start (s : string) : string :=
  concat_str (drop_while is_whitespace (chars s)).
Definition trim (s : string) : string :=
  concat_str (drop_while_end is_whitespace (drop_while is_whitespace (chars s))).

(** [trim_end_matches(char)] and [trim_matches(char)] for an ASCII character. *)
Definition trim_end_matches (c : ascii) (s : string) : string :=
  concat_str (drop_while_end (fun d => bool_decide (d = String c "")) (chars s)).
Definition trim_matches (c : ascii) (s : string) : string :=
  concat_str (drop_while_end (fun d => bool_decide (d = String c ""))
    (drop_while (fun d => bool_decide (d = String c "")) (chars s))).

Lemma drop_while_all {A} (P : A -> bool) l : (forall x, x ∈ l -> P x = true) -> drop_while P l = [].
Proof.
  induction l as [|x l IH]; simpl; intros H; [done|].
  rewrite H by apply list_elem_of_here. apply IH. intros y Hy. apply H. by apply list_elem_of_further.
Qed.

Lemma drop_while_head {A} (P : A -> bool) x l : P x = false -> drop_while P (x :: l) = x :: l.
Proof. simpl. by intros ->. Qed.

Lemma drop_while_none {A} (P : A -> bool) l : (forall x, x ∈ l -> P x = false) -> drop_while P l = l.
Proof. destruct l as [|x l]; [done|]. intros H. apply drop_while_head, H, list_elem_of_here. Qed.

Lemma drop_while_suffix {A} (P : A -> bool) l : exists k, l = k ++ drop_while P l.
Proof.
  induction l as [|x l [k IH]]; simpl; [by exists []|].
  destruct (P x); [|by exists []]. exists (x :: k). simpl. by f_equal.
Qed.

(** ** Searching and splitting at an ASCII byte *)

(** [str::split(char)]: always at least one piece. *)
Fixpoint split_on (c : ascii) (s : string) : list string :=
  match s with
  | EmptyString => [""]
  | String a s' =>
      if bool_decide (a = c) then "" :: split_on c s'
      else match split_on c s' with
           | p :: ps => String a p :: ps
           | [] => [String a ""]
           end
  end.

(** [str::split_once(char)] *)
Fixpoint split_once (c : ascii) (s : string) : option (string * string) :=
  match s with
  | EmptyString => None
  | String a s' =>
      if bool_decide (a = c) then Some ("", s')
      else match split_once c s' with
           | Some (k, v) => Some (String a k, v)
           | None => None
           end
  end.

(** [str::strip_prefix], [str::starts_with], [str::strip_suffix], [str::contains] *)
Fixpoint strip_prefix (p s : string) : option string :=
  match p, s with
  | EmptyString, _ => Some s
  | String a p', String b s' => if bool_decide (a = b) then strip_prefix p' s' else None
  | String _ _, EmptyString => None
  end.

Definition starts_with (p s : string) : bool :=
  match strip_prefix p s with Some _ => true | None => false end.

Fixpoint contains (p s : string) : bool :=
  starts_with p s || match s with EmptyString => false | String _ s' => contains p s' end.

Definition strip_suffix (p s : string) : option string :=
  match strip_prefix (String.rev p) (String.rev s) with
  | Some r => Some (String.rev r)
  | None => None
  end.

Lemma string_rev_app_eq a b : String.rev_app a b = String.rev a +:+ b.
Proof.
  revert b. induction a as [|x a IH]; intros b; [done|]. unfold String.rev. simpl.
  rewrite (IH (String x b)), (IH (String x "")), string_app_assoc. done.
Qed.

Lemma string_rev_cons x a : String.rev (String x a) = String.rev a +:+ String x "".
Proof. apply (string_rev_app_eq a (String x "")). Qed.

Lemma string_rev_app a b : String.rev (a +:+ b) = String.rev b +:+ String.rev a.
Proof.
  induction a as [|x a IH]; [by rewrite string_app_nil_r|].
  change (String x a +:+ b) with (String x (a +:+ b)). by rewrite !string_rev_cons, IH, string_app_assoc.
Qed.

Lemma string_rev_involutive a : String.rev (String.rev a) = a.
Proof. induction a as [|x a IH]; [done|]. by rewrite string_rev_cons, string_rev_app, IH. Qed.

(** [[String]::join] *)
Fixpoint join (sep : string) (l : list string) : string :=
  match l with
  | [] => ""
  | [x] => x
  | x :: l' => x +:+ sep +:+ join sep l'
  end.

(** [contains_byte c s]: the byte [c] occurs in [s]. *)
Fixpoint contains_byte (c : ascii) (s : string) : bool :=
  match s with
  | EmptyString => false
  | String a s' => bool_decide (a = c) || contains_byte c s'
  end.

Lemma split_on_nonempty c s : split_on c s ≠ [].
Proof. induction s as [|a s IH]; simpl; [done|]. case_bool_decide; [done|]. by destruct (split_on c s). Qed.

Lemma split_on_no c s : contains_byte c s = false -> split_on c s = [s].
Proof.
  induction s as [|a s IH]; simpl; [done|].
  case_bool_decide; simpl; [done|]. intros H'. by rewrite IH.
Qed.

(** [join] undoes [split_on]: splitting loses nothing. *)
Lemma join_split_on c s : join (String c "") (split_on c s) = s.
Proof.
  induction s as [|a s IH]; simpl; [done|]. case_bool_decide; subst.
  - destruct (split_on c s) as [|p ps] eqn:E; [by apply split_on_nonempty in E|].
    change (join (String c "") ("" :: p :: ps)) with ("" +:+ String c "" +:+ join (String c "") (p :: ps)).
    rewrite IH. done.
  - destruct (split_on c s) as [|p ps] eqn:E; [by apply split_on_nonempty in E|].
    destruct ps as [|q ps]; simpl in *; [by rewrite IH|].
    rewrite <- IH. reflexivity.
Qed.

Lemma split_once_Some c s k v :
  split_once c s = Some (k, v) <-> s = k +:+ String c v /\ contains_byte c k = false.
Proof.
  revert k v. induction s as [|a s IH]; intros k v; simpl.
  - split; [done|]. intros [H _]. by destruct k.
  - case_bool_decide; subst.
    + split.
      * intros [= <- <-]. done.
      * destruct k as [|b k]; simpl.
        -- intros [[= <-] _]. done.
        -- intros [H Hn]. injection H as <- _. by rewrite bool_decide_true in Hn.
    + destruct (split_once c s) as [[k' v']|] eqn:E.
      * split.
        -- intros [= <- <-]. destruct (proj1 (IH k' v') eq_refl) as [-> Hn]. split; [done|].
           simpl. by rewrite bool_decide_false, Hn.
        -- destruct k as [|b k]; simpl; intros [He Hn]; injection He; [congruence|].
           intros -> ->. case_bool_decide; [done|]. simpl in Hn.
           assert (Some (k', v') = Some (k, v)) as [= -> ->] by (apply IH; split; done). done.
      * split; [done|].
        destruct k as [|b k]; simpl; intros [He Hn]; injection He; [congruence|].
        intros -> ->. case_bool_decide; [done|]. simpl in Hn.
        assert (None = Some (k, v)) as Habs by (apply IH; split; done). done.
Qed.

Lemma strip_prefix_Some p s r : strip_prefix p s = Some r <-> s = p +:+ r.
Proof.
  revert s. induction p as [|a p IH]; intros s; simpl.
  - split; [by intros [= ->] | by intros ->].
  - destruct s as [|b s]; [done|]. case_bool_decide; subst.
    + rewrite IH. split; [by intros -> | by intros [= ->]].
    + split; [done|]. intros H'. by injection H'.
Qed.

Lemma starts_with_spec p s : starts_with p s = true <-> exists r, s = p +:+ r.
Proof.
  unfold starts_with. destruct (strip_prefix p s) as [r|] eqn:E.
  - split; [|done]. intros _. exists r. by apply strip_prefix_Some.
  - split; [done|]. intros [r H]. apply strip_prefix_Some in H. congruence.
Qed.

(** ** ASCII case *)

Definition to_ascii_lower (a : ascii) : ascii :=
  if (65 <=? u8 a) && (u8 a <=? 90) then byte_of (u8 a + 32) else a.

Fixpoint to_ascii_lowercase (s : string) : string :=
  match s with
  | EmptyString => ""
  | String a s' => String (to_ascii_lower a) (to_ascii_lowercase s')
  end.

Definition eq_ignore_ascii_case (a b : string) : bool :=
  bool_decide (to_ascii_lowercase a = to_ascii_lowercase b).

(** [u8::is_ascii_hexdigit] *)
Definition is_ascii_hexdigit (a : ascii) : bool :=
  ((48 <=? u8 a) && (u8 a <=? 57)) || ((65 <=? u8 a) && (u8 a <=? 70))
  || ((97 <=? u8 a) && (u8 a <=? 102)).

Fixpoint all_bytes (P : ascii -> bool) (s : string) : bool :=
  match s with
  | EmptyString => true
  | String a s' => P a && all_bytes P s'
  end.

Lemma all_bytes_app P a b : all_bytes P (a +:+ b) = all_bytes P a && all_bytes P b.
Proof. induction a; simpl; [done|]. rewrite <- andb_assoc. by f_equal. Qed.

(** ** UTF-8: [std::str::from_utf8]

    Well-formed sequences of one to four bytes: no overlong form, no surrogate,
    nothing above U+10FFFF. *)
Definition in_range (lo hi : Z) (a : ascii) : bool := (lo <=? u8 a) && (u8 a <=? hi).
Definition cont (a : ascii) : bool := in_range 128 191 a.

(** The number of bytes of the well-formed character [s] starts with. *)
Definition utf8_head (s : string) : option nat :=
  match s with
  | EmptyString => None
  | String a s1 =>
      if u8 a <=? 127 then Some 1%nat
      else match s1 with
      | EmptyString => None
      | String b s2 =>
          if in_range 194 223 a then if cont b then Some 2%nat else None
          else match s2 with
          | EmptyString => None
          | String c s3 =>
              let second :=
                if u8 a =? 224 then in_range 160 191 b
                else if u8 a =? 237 then in_range 128 159 b
                else in_range 225 239 a && cont b in
              if (u8 a <=? 239) then if second && cont c then Some 3%nat else None
              else match s3 with
              | EmptyString => None
              | String d _ =>
                  let second4 :=
                    if u8 a =? 240 then in_range 144 191 b
                    else if u8 a =? 244 then in_range 128 143 b
                    else in_range 241 243 a && cont b in
                  if second4 && cont c && cont d then Some 4%nat else None
              end
          end
      end
  end.

Fixpoint utf8_valid_from (fuel : nat) (s : string) : bool :=
  match fuel, s with
  | _, EmptyString => true
  | O, _ => false
  | S f, _ =>
      match utf8_head s with
      | Some n => utf8_valid_from f (String.substring n (String.length s - n) s)
      | None => false
      end
  end.

(** Every step consumes a byte, so the length is enough fuel. *)
Definition from_utf8 (s : string) : option string :=
  if utf8_valid_from (String.length s) s then Some s else None.

Lemma from_utf8_Some s t : from_utf8 s = Some t -> t = s.
Proof. unfold from_utf8. case_match; naive_solver. Qed.

Example from_utf8_ascii : from_utf8 "a:b" = Some "a:b".
Proof. reflexivity. Qed.
Example from_utf8_ellipsis : from_utf8 (bytes [226; 128; 166; 97]) = Some (bytes [226; 128; 166; 97]).
Proof. reflexivity. Qed.
Example from_utf8_overlong : from_utf8 (bytes [192; 128]) = None.
Proof. reflexivity. Qed.
Example from_utf8_surrogate : from_utf8 (bytes [237; 160; 128]) = None.
Proof. reflexivity. Qed.

(** ** Visible ASCII: one byte per character and no white space *)

Definition visible_byte (a : ascii) : bool := (33 <=? u8 a) && (u8 a <=? 126).

Lemma visible_not_cont a : visible_byte a = true -> is_cont a = false.
Proof.
  destruct a as [? ? ? ? ? ? [] []]; try done; intros Hv; exfalso; revert Hv;
    repeat match goal with b : bool |- _ => destruct b end; by vm_compute.
Qed.

Lemma visible_starts s : all_bytes visible_byte s = true -> starts_cont s = false.
Proof. destruct s; simpl; [done|]. intros [Hv _]%andb_true_iff. by apply visible_not_cont. Qed.

Lemma visible_char a : visible_byte a = true -> is_whitespace (String a "") = false.
Proof.
  intros Hv. apply bool_decide_eq_false. intros Hin.
  assert (Forall (fun w => forall b, w = String b "" -> visible_byte b = false) white_space) as Hall.
  { unfold white_space. vm_compute. repeat constructor; intros b Hb; try discriminate Hb; injection Hb as <-; done. }
  rewrite list.Forall_forall in Hall. specialize (Hall _ Hin a eq_refl). congruence.
Qed.

Lemma visible_chars s :
  all_bytes visible_byte s = true -> forall c, c ∈ chars s -> is_whitespace c = false.
Proof.
  induction s as [|a s IH]; cbn [chars all_bytes]; [intros _ c Hc; by apply not_elem_of_nil in Hc|].
  intros [Ha Hs]%andb_true_iff c. rewrite (visible_starts s) by done.
  intros [->|Hc]%elem_of_cons; [by apply visible_char|by apply IH].
Qed.

Lemma drop_while_end_none {A} (P : A -> bool) l : (forall x, x ∈ l -> P x = false) -> drop_while_end P l = l.
Proof.
  intros H. unfold drop_while_end. rewrite drop_while_none; [apply reverse_involutive|].
  intros x Hx. apply H. by apply elem_of_reverse.
Qed.

Lemma trim_visible s : all_bytes visible_byte s = true -> trim s = s.
Proof.
  intros Hv. unfold trim. rewrite drop_while_none, drop_while_end_none by (by apply visible_chars).
  apply concat_chars.
Qed.

Lemma trim_space_visible s : all_bytes visible_byte s = true -> trim (String " " s) = s.
Proof.
  intros Hv. unfold trim. cbn [chars]. rewrite visible_starts by done. cbn [drop_while].
  change (is_whitespace " ") with true. cbv iota.
  rewrite drop_while_none, drop_while_end_none by (by apply visible_chars). apply concat_chars.
Qed.

(** Splitting undoes [join] when the pieces lack the separator. *)
Lemma split_on_app c a s : contains_byte c a = false -> split_on c (a +:+ String c s) = a :: split_on c s.
Proof.
  induction a as [|b a IH]; simpl; [by rewrite bool_decide_true|].
  case_bool_decide; simpl; [done|]. intros Hc. by rewrite IH.
Qed.
