(* ===== verification/NetAddr.v ===== *)
(** [std::net]: parsing of IP and socket addresses, as the standard library's
    [Parser] does it.

    The configuration decides with it whether the service binds to a loopback
    interface, and the start-up code where it listens.  A parser of a value reads
    a prefix of the text, or fails and reads nothing ([read_atomically]).  An
    IPv4 address is its four octets, an IPv6 address its eight 16-bit groups. *)
From S2P Require Import Prelude Str.

Definition Parser (A : Type) : Type := string -> option (A * string).

(** ** Numbers *)

(** [char::to_digit] *)
Definition to_digit (radix : Z) (a : ascii) : option Z :=
  let c := u8 a in
  let d := if (48 <=? c) && (c <=? 57) then c - 48
           else if (97 <=? c) && (c <=? 122) then c - 97 + 10
           else if (65 <=? c) && (c <=? 90) then c - 65 + 10
           else radix in
  if d <? radix then Some d else None.

(** The loop of [read_number]: the value stays below the type's bound and the
    digits below their maximal number. *)
Fixpoint read_digits (radix bound : Z) (max_digits : option Z) (result count : Z) (s : string) :
    option (Z * Z * string) :=
  match s with
  | String a s' =>
      match to_digit radix a with
      | Some d =>
          let n := result * radix + d in
          if bound <=? n then None
          else if match max_digits with Some m => m <? count + 1 | None => false end then None
          else read_digits radix bound max_digits n (count + 1) s'
      | None => Some (result, count, s)
      end
  | EmptyString => Some (result, count, s)
  end.

Definition read_number (radix bound : Z) (max_digits : option Z) (allow_zero_prefix : bool) : Parser Z := fun s =>
  '(n, count, rest) ← read_digits radix bound max_digits 0 0 s;
  if count =? 0 then None
  else if negb allow_zero_prefix && starts_with "0" s && (1 <? count) then None
  else Some (n, rest).

(** ** IPv4 *)

(** [read_separator(sep, index, ..)] *)
Definition read_separator {A} (sep : string) (index : nat) (p : Parser A) : Parser A := fun s =>
  match index with
  | O => p s
  | S _ => r ← strip_prefix sep s; p r
  end.

Definition read_octet : Parser Z := read_number 10 256 (Some 3) false.

Definition read_ipv4_addr : Parser (list Z) := fun s =>
  '(a, s1) ← read_separator "." 0 read_octet s;
  '(b, s2) ← read_separator "." 1 read_octet s1;
  '(c, s3) ← read_separator "." 2 read_octet s2;
  '(d, s4) ← read_separator "." 3 read_octet s3;
  Some ([a; b; c; d], s4).

(** ** IPv6 *)

Definition read_group : Parser Z := read_number 16 65536 (Some 4) true.

(** [read_groups]: [n] groups are left of the [limit], the groups so far are
    [acc]; an IPv4 address may stand for the last two. *)
Fixpoint read_groups (n : nat) (acc : list Z) (s : string) : list Z * bool * string :=
  match n with
  | O => (acc, false, s)
  | S n' =>
      match (if (1 <=? n')%nat then read_separator ":" (length acc) read_ipv4_addr s else None) with
      | Some ([one; two; three; four], r) => (acc ++ [one * 256 + two; three * 256 + four], true, r)
      | _ =>
          match read_separator ":" (length acc) read_group s with
          | Some (g, r) => read_groups n' (acc ++ [g]) r
          | None => (acc, false, s)
          end
      end
  end.

Definition read_ipv6_addr : Parser (list Z) := fun s =>
  let '(head, head_ipv4, r) := read_groups 8 [] s in
  if (length head =? 8)%nat then Some (head, r)
  else if head_ipv4 : bool then None
  else
    r' ← strip_prefix "::" r;
    let '(tail, _, r'') := read_groups (8 - (length head + 1)) [] r' in
    Some (head ++ repeat 0 (8 - length head - length tail) ++ tail, r'').

(** ** Addresses *)

Inductive IpAddr := V4 (octets : list Z) | V6 (groups : list Z).

Definition read_ip_addr : Parser IpAddr := fun s =>
  match read_ipv4_addr s with
  | Some (o, r) => Some (V4 o, r)
  | None => '(g, r) ← read_ipv6_addr s; Some (V6 g, r)
  end.

(** [parse_with]: the parser reads the whole text. *)
Definition parse_with {A} (p : Parser A) (s : string) : option A :=
  '(a, r) ← p s; if bool_decide (r = "") then Some a else None.

(** [str::parse::<IpAddr>()] *)
Definition parse_ip (s : string) : option IpAddr := parse_with read_ip_addr s.

(** [Ipv6Addr::to_ipv4_mapped] and [Ipv6Addr::to_ipv4] *)
Definition to_ipv4_of (sixth : Z -> bool) (groups : list Z) : option (list Z) :=
  match groups with
  | [g0; g1; g2; g3; g4; g5; ab; cd] =>
      if (g0 =? 0) && (g1 =? 0) && (g2 =? 0) && (g3 =? 0) && (g4 =? 0) && sixth g5
      then Some [ab / 256; ab mod 256; cd / 256; cd mod 256] else None
  | _ => None
  end.
Definition to_ipv4_mapped : list Z -> option (list Z) := to_ipv4_of (fun g => g =? 65535).
Definition to_ipv4 : list Z -> option (list Z) := to_ipv4_of (fun g => (g =? 0) || (g =? 65535)).

(** [SocketAddr]: the address, the port and the scope of an IPv6 address. *)
Record SocketAddr := mkSocketAddr { sa_ip : IpAddr; sa_port : Z; sa_scope : Z }.

Definition read_port : Parser Z := fun s => r ← strip_prefix ":" s; read_number 10 65536 None true r.

Definition read_scope_id : Parser Z := fun s => r ← strip_prefix "%" s; read_number 10 (2 ^ 32) None true r.

Definition read_socket_addr_v4 : Parser SocketAddr := fun s =>
  '(o, r) ← read_ipv4_addr s;
  '(p, r') ← read_port r;
  Some (mkSocketAddr (V4 o) p 0, r').

Definition read_socket_addr_v6 : Parser SocketAddr := fun s =>
  r ← strip_prefix "[" s;
  '(g, r1) ← read_ipv6_addr r;
  let '(scope, r2) := match read_scope_id r1 with Some sr => sr | None => (0, r1) end in
  r3 ← strip_prefix "]" r2;
  '(p, r4) ← read_port r3;
  Some (mkSocketAddr (V6 g) p scope, r4).

Definition read_socket_addr : Parser SocketAddr := fun s =>
  match read_socket_addr_v4 s with Some x => Some x | None => read_socket_addr_v6 s end.

(** [str::parse::<SocketAddr>()] *)
Definition parse_socket_addr (s : string) : option SocketAddr := parse_with read_socket_addr s.

(** ** Texts of addresses *)

(** The [Display] of an IPv4 address. *)
Definition ipv4_text (a b c d : Z) : string :=
  pretty a +:+ "." +:+ pretty b +:+ "." +:+ pretty c +:+ "." +:+ pretty d.

Definition octet (z : Z) : Prop := 0 <= z < 256.

(** The text after a number does not go on with a digit. *)
Definition no_digit (radix : Z) (s : string) : Prop :=
  match s with String a _ => to_digit radix a = None | EmptyString => True end.

Lemma read_digits_stop radix bound m n c s : no_digit radix s -> read_digits radix bound m n c s = Some (n, c, s).
Proof. destruct s; simpl; [done|]. by intros ->. Qed.

Lemma pretty_digit x : (x < 10)%N -> to_digit 10 (pretty_N_char x) = Some (Z.of_N x).
Proof.
  intros Hx. assert (x = 0 \/ x = 1 \/ x = 2 \/ x = 3 \/ x = 4 \/ x = 5 \/ x = 6 \/ x = 7 \/ x = 8 \/ x = 9)%N
    as Hcases by lia. repeat destruct Hcases as [->|Hcases]; try reflexivity. by subst.
Qed.

(** Reading what [pretty] wrote, digit by digit. *)
Lemma read_digits_go bound x s :
  Z.of_N x < bound -> exists k, (if decide (x = 0)%N then k = 0 else 0 < k) /\
    read_digits 10 bound None 0 0 (pretty_N_go x s) = read_digits 10 bound None (Z.of_N x) k s.
Proof.
  revert s. induction (N.lt_wf_0 x) as [x _ IH]; intros s Hb.
  destruct (decide (x = 0)%N) as [->|Hx]; [exists 0; split; [done|by rewrite pretty_N_go_0]|].
  rewrite pretty_N_go_step by lia.
  pose proof (N.div_mod x 10 ltac:(lia)) as Hdm. pose proof (N.mod_lt x 10 ltac:(lia)) as Hm.
  pose proof (N.div_lt x 10 ltac:(lia) ltac:(lia)) as Hd.
  destruct (IH (x / 10)%N Hd (String (pretty_N_char (x mod 10)) s)) as (k & Hk & ->); [lia|].
  exists (k + 1). split; [destruct (decide _); lia|]. cbn [read_digits]. rewrite pretty_digit by done.
  destruct (Z.leb_spec bound (Z.of_N (x / 10) * 10 + Z.of_N (x mod 10))); [lia|]. f_equal. lia.
Qed.

Lemma pretty_Z_of_N z : 0 <= z -> pretty z = pretty (Z.to_N z).
Proof. by destruct z. Qed.

(** Printing a number and reading it back. *)
Lemma read_pretty bound z s :
  0 <= z < bound -> no_digit 10 s -> read_number 10 bound None true (pretty z +:+ s) = Some (z, s).
Proof.
  intros Hz Hs. rewrite pretty_Z_of_N by lia. unfold read_number, pretty, pretty_N.
  destruct (decide (Z.to_N z = 0%N)) as [E|Hne].
  - assert (z = 0) as -> by lia. change ("0" +:+ s) with (String "0" s). cbn [read_digits].
    assert (to_digit 10 "0" = Some 0) as -> by reflexivity.
    destruct (Z.leb_spec bound (0 * 10 + 0)); [lia|]. by rewrite read_digits_stop.
  - assert (forall x t, pretty_N_go x t +:+ s = pretty_N_go x (t +:+ s)) as Happ.
    { clear. intros x. induction (N.lt_wf_0 x) as [x _ IH]; intros t.
      destruct (decide (x = 0)%N) as [->|]; [by rewrite !pretty_N_go_0|].
      rewrite !(pretty_N_go_step x) by lia. rewrite IH by (apply N.div_lt; lia). done. }
    rewrite Happ. destruct (read_digits_go bound (Z.to_N z) ("" +:+ s)) as (k & Hk & ->); [lia|].
    rewrite decide_False in Hk by done. rewrite read_digits_stop by done. simpl.
    destruct (Z.eqb_spec k 0); [lia|]. by rewrite Z2N.id by lia.
Qed.

Lemma read_digits_app radix bound m n c p s n' c' :
  read_digits radix bound m n c p = Some (n', c', "") ->
  read_digits radix bound m n c (p +:+ s) = read_digits radix bound m n' c' s.
Proof.
  revert n c. induction p as [|a p IH]; intros n c; simpl; [by intros [= <- <-]|].
  destruct (to_digit radix a); [|done]. destruct (bound <=? _); [done|].
  destruct (match m with Some m => m <? c + 1 | None => false end); [done|]. apply IH.
Qed.

(** What an octet's text reads as, checked for all of them. *)
Definition octet_reads (z : Z) : bool :=
  match read_digits 10 256 (Some 3) 0 0 (pretty z) with
  | Some (n, c, "") => (n =? z) && negb (c =? 0) && ((c =? 1) || negb (starts_with "0" (pretty z)))
                       && negb (bool_decide (pretty z = "")) && all_bytes visible_byte (pretty z)
                       && negb (contains_byte ":" (pretty z))
  | _ => false
  end.

Lemma octets_read : forallb octet_reads (seqZ 0 256) = true.
Proof. vm_compute. reflexivity. Qed.

Lemma octet_reads_ok z : octet z -> octet_reads z = true.
Proof.
  intros Hz. pose proof octets_read as Hall. rewrite forallb_forall in Hall. apply Hall.
  apply list_elem_of_In, elem_of_seqZ. unfold octet in Hz. lia.
Qed.

Lemma octet_visible z : octet z -> all_bytes visible_byte (pretty z) = true.
Proof.
  intros Hz%octet_reads_ok. unfold octet_reads in Hz.
  destruct (read_digits _ _ _ _ _ _) as [[[n c] [|]]|]; try done. rewrite !andb_true_iff in Hz. tauto.
Qed.

Lemma read_octet_pretty z s : octet z -> no_digit 10 s -> read_octet (pretty z +:+ s) = Some (z, s).
Proof.
  intros Hz Hs. apply octet_reads_ok in Hz. unfold octet_reads, read_octet, read_number in *.
  destruct (read_digits 10 256 (Some 3) 0 0 (pretty z)) as [[[n c] [|]]|] eqn:E; try done.
  rewrite (read_digits_app _ _ _ _ _ _ s _ _ E), read_digits_stop by done. cbn.
  rewrite !andb_true_iff, orb_true_iff, !negb_true_iff, bool_decide_eq_false in Hz.
  destruct Hz as [[[[[Hn Hc] Hzero] Hne] _] _]. apply Z.eqb_eq in Hn as ->. rewrite Hc.
  assert (starts_with "0" (pretty z +:+ s) && (1 <? c) = false) as ->; [|done].
  destruct Hzero as [->%Z.eqb_eq|Hz]; [apply andb_false_r|].
  assert (starts_with "0" (pretty z +:+ s) = starts_with "0" (pretty z)) as ->; [|by rewrite Hz].
  destruct (pretty z) as [|a p]; [done|]. unfold starts_with. simpl. by case_bool_decide.
Qed.

Lemma strip_prefix_app p s : strip_prefix p (p +:+ s) = Some s.
Proof. by apply strip_prefix_Some. Qed.

Lemma read_ipv4_text a b c d s :
  octet a -> octet b -> octet c -> octet d -> no_digit 10 s ->
  read_ipv4_addr (ipv4_text a b c d +:+ s) = Some ([a; b; c; d], s).
Proof.
  intros Ha Hb Hc Hd Hs. unfold read_ipv4_addr, ipv4_text, read_separator. rewrite !string_app_assoc.
  rewrite read_octet_pretty by done. cbn [mbind option_bind].
  repeat (rewrite strip_prefix_app; cbn [mbind option_bind]; rewrite read_octet_pretty by done; cbn [mbind option_bind]).
  done.
Qed.

Lemma parse_ipv4_text a b c d :
  octet a -> octet b -> octet c -> octet d -> parse_ip (ipv4_text a b c d) = Some (V4 [a; b; c; d]).
Proof.
  intros. unfold parse_ip, parse_with, read_ip_addr. rewrite <- (string_app_nil_r (ipv4_text a b c d)).
  by rewrite read_ipv4_text.
Qed.

(** An IPv4 address and a port are read back as the address to listen on. *)
Lemma parse_socket_text a b c d p :
  octet a -> octet b -> octet c -> octet d -> 0 <= p < 65536 ->
  parse_socket_addr (ipv4_text a b c d +:+ ":" +:+ pretty p) = Some (mkSocketAddr (V4 [a; b; c; d]) p 0).
Proof.
  intros. unfold parse_socket_addr, parse_with, read_socket_addr, read_socket_addr_v4, read_port.
  rewrite read_ipv4_text by done. cbn [mbind option_bind]. rewrite strip_prefix_app. cbn [mbind option_bind].
  rewrite <- (string_app_nil_r (pretty p)), read_pretty by done. done.
Qed.

Lemma ipv4_text_visible a b c d :
  octet a -> octet b -> octet c -> octet d -> all_bytes visible_byte (ipv4_text a b c d) = true.
Proof. intros. unfold ipv4_text. rewrite !all_bytes_app, !octet_visible by done. reflexivity. Qed.

(** No text that starts with a letter or with [:] is an address to listen on. *)
Lemma not_socket_addr a s :
  to_digit 10 a = None -> a ≠ "["%char -> parse_socket_addr (String a s) = None.
Proof.
  intros Hd Ha. unfold parse_socket_addr, parse_with, read_socket_addr, read_socket_addr_v4, read_ipv4_addr,
    read_separator, read_octet, read_number. cbn [read_digits]. rewrite Hd. cbn.
  unfold read_socket_addr_v6. cbn [strip_prefix]. by rewrite bool_decide_false.
Qed.
