(* ===== verification/Chrono.v ===== *)
(** Instants and durations, as the program uses the [chrono] crate.

    A [DateTime<Utc>] is the number of microseconds since the Unix epoch (the
    precision at which the [timestamptz] columns of the schema keep it), a
    [Duration] a number of microseconds.  The bounds of both types belong to
    [chrono] and are the fields of the class [Chrono]; out of them
    [Duration::minutes], [Duration::seconds] and [DateTime + Duration] panic
    (here [None]) and [DateTime::from_timestamp] answers [None], as their
    documentation says. *)
From S2P Require Import Prelude.

Definition MICROS : Z := 1000000.

Class Chrono := {
  td_max : Z;   (** [TimeDelta::MAX], and [TimeDelta::MIN] is its opposite *)
  utc_min : Z;  (** [DateTime::<Utc>::MIN_UTC] *)
  utc_max : Z;  (** [DateTime::<Utc>::MAX_UTC] *)
}.

(** What the program relies on: the ranges hold the epoch and the clock's
    plausible values are not at their edge. *)
Class ChronoLaws (C : Chrono) := {
  td_max_pos : MICROS <= td_max;
  utc_min_neg : utc_min <= 0;
  utc_max_pos : MICROS <= utc_max;
  utc_seconds : - 2 ^ 63 * MICROS <= utc_min /\ utc_max < 2 ^ 63 * MICROS;
}.

Section Chrono.
Context `{Chrono}.

(** [DateTime::timestamp]: whole seconds, rounded down. *)
Definition timestamp (dt : Z) : Z := dt / MICROS.

Definition td_of_micros (us : Z) : option Z :=
  if (- td_max <=? us) && (us <=? td_max) then Some us else None.

(** [Duration::minutes] and [Duration::seconds] *)
Definition td_minutes (m : Z) : option Z := td_of_micros (m * 60 * MICROS).
Definition td_seconds (s : Z) : option Z := td_of_micros (s * MICROS).

Definition in_utc (dt : Z) : bool := (utc_min <=? dt) && (dt <=? utc_max).

(** [impl Add<Duration> for DateTime] *)
Definition add_signed (dt d : Z) : option Z :=
  if in_utc (dt + d) then Some (dt + d) else None.

(** [DateTime::<Utc>::from_timestamp(s, 0)] *)
Definition from_timestamp (s : Z) : option Z :=
  if in_utc (s * MICROS) then Some (s * MICROS) else None.

Lemma td_minutes_Some m d : td_minutes m = Some d -> d = m * 60 * MICROS.
Proof. unfold td_minutes, td_of_micros. case_match; naive_solver. Qed.

Lemma td_seconds_Some s d : td_seconds s = Some d -> d = s * MICROS.
Proof. unfold td_seconds, td_of_micros. case_match; naive_solver. Qed.

Lemma add_signed_Some dt d r : add_signed dt d = Some r -> r = dt + d.
Proof. unfold add_signed. case_match; naive_solver. Qed.

Lemma from_timestamp_Some s r : from_timestamp s = Some r -> r = s * MICROS.
Proof. unfold from_timestamp. case_match; naive_solver. Qed.

Lemma timestamp_le dt dt' : dt <= dt' -> timestamp dt <= timestamp dt'.
Proof. intros. apply Z.div_le_mono; [done|lia]. Qed.

Lemma timestamp_add_seconds dt s : timestamp (dt + s * MICROS) = timestamp dt + s.
Proof. unfold timestamp. apply Z.div_add. done. Qed.

Lemma timestamp_add_minutes dt m : timestamp (dt + m * 60 * MICROS) = timestamp dt + m * 60.
Proof. apply timestamp_add_seconds. Qed.

(** The timestamp of an instant fits in [i64]. *)
Lemma timestamp_i64 `{!ChronoLaws _} dt : in_utc dt = true -> in_i64 (timestamp dt).
Proof.
  unfold in_utc, in_i64, I64_MAX, timestamp, MICROS. intros [?%Z.leb_le ?%Z.leb_le]%andb_true_iff.
  pose proof utc_seconds as [Hlo Hhi]. unfold MICROS in *. split.
  - apply Z.div_le_lower_bound; lia.
  - enough (dt / 1000000 < 2 ^ 63) by lia. apply Z.div_lt_upper_bound; lia.
Qed.

(** [num_days] rounds toward zero. *)
Definition num_days (d : Z) : Z := Z.quot d (86400 * MICROS).
End Chrono.

(** The documented bounds: [TimeDelta::MAX] is [i64::MAX] milliseconds, and
    [MIN_UTC]/[MAX_UTC] are the first and last instants of the years -262143
    and +262142. *)
#[export] Instance chrono_documented : Chrono := {
  td_max := I64_MAX * 1000;
  utc_min := -8334601228800 * MICROS;
  utc_max := 8210266876799 * MICROS + 999999;
}.

#[export] Instance chrono_documented_laws : ChronoLaws chrono_documented.
Proof. split; vm_compute; repeat split; discriminate. Qed.
