(* ===== verification/Json.v ===== *)
(** JSON values: [serde_json::Value] and the accessors the program calls.

    An object keeps its fields as a list of key/value pairs, in the order of
    the text; the program only looks keys up, so a repeated key is seen by the
    deserialisers alone (Claims.v).  A number is either an integer in [i64] or
    [u64] range or any other JSON number, kept as its text. *)
From S2P Require Import Prelude.

Unset Elimination Schemes.
Inductive Value : Type :=
| VNull
| VBool (b : bool)
| VInt (z : Z)
| VFloat (text : string)
| VString (s : string)
| VArray (l : list Value)
| VObject (fields : list (string * Value)).
Set Elimination Schemes.

(** ** Decidable equality and countability, through [gen_tree] *)

Definition vleaf := sum (sum bool Z) (sum string string).

Fixpoint value_to_tree (v : Value) : gen_tree vleaf :=
  match v with
  | VNull => GenNode 0 []
  | VBool b => GenLeaf (inl (inl b))
  | VInt z => GenLeaf (inl (inr z))
  | VFloat t => GenLeaf (inr (inl t))
  | VString s => GenLeaf (inr (inr s))
  | VArray l => GenNode 1 (map value_to_tree l)
  | VObject fs => GenNode 2 (map (fun kv => GenNode 3 [GenLeaf (inr (inr (fst kv))); value_to_tree (snd kv)]) fs)
  end.

Fixpoint tree_to_value (t : gen_tree vleaf) : Value :=
  match t with
  | GenLeaf (inl (inl b)) => VBool b
  | GenLeaf (inl (inr z)) => VInt z
  | GenLeaf (inr (inl t)) => VFloat t
  | GenLeaf (inr (inr s)) => VString s
  | GenNode 1 l => VArray (map tree_to_value l)
  | GenNode 2 l =>
      VObject (map (fun t => match t with
                             | GenNode _ [GenLeaf (inr (inr k)); v] => (k, tree_to_value v)
                             | _ => ("", VNull)
                             end) l)
  | GenNode _ _ => VNull
  end.

(** The induction scheme with the hypotheses for the nested lists. *)
Fixpoint Value_ind (P : Value -> Prop)
    (Hnull : P VNull) (Hbool : forall b, P (VBool b)) (Hint : forall z, P (VInt z))
    (Hfloat : forall t, P (VFloat t)) (Hstring : forall s, P (VString s))
    (Harray : forall l, Forall P l -> P (VArray l))
    (Hobject : forall fs, Forall (fun kv => P (snd kv)) fs -> P (VObject fs))
    (v : Value) : P v :=
  let go := Value_ind P Hnull Hbool Hint Hfloat Hstring Harray Hobject in
  match v with
  | VNull => Hnull
  | VBool b => Hbool b
  | VInt z => Hint z
  | VFloat t => Hfloat t
  | VString s => Hstring s
  | VArray l => Harray l ((fix all l : Forall P l :=
      match l with [] => Forall_nil_2 P | x :: l' => Forall_cons_2 P x l' (go x) (all l') end) l)
  | VObject fs => Hobject fs ((fix all l : Forall (fun kv => P (snd kv)) l :=
      match l with
      | [] => Forall_nil_2 _
      | x :: l' => Forall_cons_2 (fun kv => P (snd kv)) x l' (go (snd x)) (all l')
      end) fs)
  end.

Lemma tree_to_value_to_tree v : tree_to_value (value_to_tree v) = v.
Proof.
  induction v as [| | | | |l IH|fs IH] using Value_ind; simpl; try done.
  - f_equal. rewrite map_map. induction IH; simpl; congruence.
  - f_equal. rewrite map_map. simpl. induction IH as [|[k v] fs E _ IH]; simpl in *; congruence.
Qed.

#[export] Instance value_eq_dec : EqDecision Value.
Proof.
  intros a b. destruct (decide (value_to_tree a = value_to_tree b)) as [E|E].
  - left. apply (f_equal tree_to_value) in E. by rewrite !tree_to_value_to_tree in E.
  - right. congruence.
Defined.

#[export] Instance value_countable : Countable Value :=
  inj_countable' value_to_tree tree_to_value tree_to_value_to_tree.

(** ** Accessors *)

(** [Value::as_str], [Value::as_object] *)
Definition as_str (v : Value) : option string :=
  match v with VString s => Some s | _ => None end.

Definition as_object (v : Value) : option (list (string * Value)) :=
  match v with VObject fs => Some fs | _ => None end.

(** [Map::get] *)
Fixpoint get_field (fs : list (string * Value)) (k : string) : option Value :=
  match fs with
  | [] => None
  | (k', v) :: fs' => if bool_decide (k' = k) then Some v else get_field fs' k
  end.

(** No number outside the integers: the values whose text form is exact. *)
Fixpoint float_free (v : Value) : bool :=
  match v with
  | VFloat _ => false
  | VArray l => forallb float_free l
  | VObject fs => forallb (fun kv => float_free (snd kv)) fs
  | _ => true
  end.

(** A [BTreeMap<String, Value>] written as an object: its entries in key order. *)
Definition map_fields (m : gmap string Value) : list (string * Value) :=
  omap (fun k => (fun v => (k, v)) <$> m !! k) (btree_keys m).

(** [json!({..})]: the entries in the order of the source, a later one replacing
    an earlier one; the object keeps them in a [BTreeMap]. *)
Definition json_map (fs : list (string * Value)) : Value :=
  VObject (map_fields (list_to_map (reverse fs))).

Definition VStrings (l : list string) : Value := VArray (map VString l).
Definition opt_value {A} (f : A -> Value) (o : option A) : Value :=
  match o with Some a => f a | None => VNull end.
(** A field with [skip_serializing_if = "Option::is_none"]. *)
Definition opt_field {A} (k : string) (f : A -> Value) (o : option A) : list (string * Value) :=
  match o with Some a => [(k, f a)] | None => [] end.

Lemma map_fields_elem m k v : (k, v) ∈ map_fields m <-> m !! k = Some v.
Proof.
  unfold map_fields. rewrite list_elem_of_omap. split.
  - intros (k' & _ & E). destruct (m !! k') eqn:F; naive_solver.
  - intros E. exists k. split; [by apply btree_keys_elem; eauto|]. by rewrite E.
Qed.

Lemma map_fields_keys m : map fst (map_fields m) = btree_keys m.
Proof.
  unfold map_fields. assert (forall k, k ∈ btree_keys m -> is_Some (m !! k)) as Hall
    by (intros k; apply btree_keys_elem).
  induction (btree_keys m) as [|k l IH]; simpl; [done|].
  destruct (Hall k) as [v ->]; [apply list_elem_of_here|]. simpl. f_equal. apply IH.
  intros k' Hk. apply Hall. by apply list_elem_of_further.
Qed.

Lemma btree_keys_NoDup {V} (m : gmap string V) : NoDup (btree_keys m).
Proof. unfold btree_keys. rewrite merge_sort_Permutation. apply NoDup_elements. Qed.

Lemma map_fields_NoDup m : NoDup (map_fields m).*1.
Proof. change (map_fields m).*1 with (map fst (map_fields m)). rewrite map_fields_keys. apply btree_keys_NoDup. Qed.

Lemma list_to_map_fields m : list_to_map (map_fields m) = m.
Proof.
  apply map_eq. intros k. apply option_eq. intros v.
  rewrite <- elem_of_list_to_map by apply map_fields_NoDup. apply map_fields_elem.
Qed.

(** ** Text

    [serde_json::to_vec] and [from_slice]: [None] is an error. *)
Class SerdeJson := {
  json_to_vec : Value -> option string;
  json_from_slice : string -> option Value;
}.

(** The values [serde_json] holds exactly: no float, and the keys of every
    object in increasing order (its map is a [BTreeMap]). *)
Fixpoint increasing (l : list string) : bool :=
  match l with
  | [] => true
  | x :: l' => forallb (fun y => String.ltb x y) l' && increasing l'
  end.

Fixpoint canonical (v : Value) : bool :=
  match v with
  | VFloat _ => false
  | VArray l => forallb canonical l
  | VObject fs => increasing (map fst fs) && forallb (fun kv => canonical (snd kv)) fs
  | _ => true
  end.

Class SerdeLaws (S : SerdeJson) := {
  serde_roundtrip : forall v, canonical v = true ->
    exists b, json_to_vec v = Some b /\ json_from_slice b = Some v;
}.

Lemma sorted_increasing l : StronglySorted String.le l -> NoDup l -> increasing l = true.
Proof.
  induction 1 as [|x l Hs IH Hx]; intros Hnd; [done|]. simpl.
  apply list.NoDup_cons in Hnd as [Hin Hnd]. rewrite IH by done. rewrite andb_true_r.
  apply forallb_elem. intros y Hy. rewrite Forall_forall in Hx.
  assert (String.le x y) as Hle by (by apply Hx, list_elem_of_In).
  unfold String.le, String.leb, String.ltb in *. destruct (String.compare x y) eqn:E; [|done..].
  apply String.compare_eq_iff in E. by subst.
Qed.

Lemma canonical_map m :
  (forall k v, m !! k = Some v -> canonical v = true) -> canonical (VObject (map_fields m)) = true.
Proof.
  intros Hm. simpl. rewrite map_fields_keys, sorted_increasing.
  - apply forallb_elem. intros [k v] Hin%map_fields_elem. by eapply Hm.
  - apply (StronglySorted_merge_sort String.le).
  - apply btree_keys_NoDup.
Qed.
