(* ===== verification/Error.v ===== *)
(** Errors and responses: [src/error.rs].

    [TimError] with its HTTP status and code, its rendering as a response
    ([into_response]) and [clip_untrusted]; with them the [Response] a handler
    of the router returns.  An [sqlx::Error] and an [io::Error] are carried as
    the text they display. *)
From S2P Require Import Prelude Str Json.

Inductive TimError : Type :=
| BadRequest (msg : string)
| Unauthorized
| Forbidden
| NotFound (msg : string)
| PayloadTooLarge (max : Z)
| UnsupportedMediaType
| Unprocessable (msg : string)
| BadGateway (msg : string)
| UpstreamTimeout (msg : string)
| Database (e : string)
| Crypto (msg : string)
| Config (msg : string)
| Io (e : string).

#[export] Instance tim_error_eq_dec : EqDecision TimError.
Proof. solve_decision. Defined.

Definition status (e : TimError) : Z :=
  match e with
  | BadRequest _ => 400
  | Unauthorized => 401
  | Forbidden => 403
  | NotFound _ => 404
  | PayloadTooLarge _ => 413
  | UnsupportedMediaType => 415
  | Unprocessable _ => 422
  | BadGateway _ => 502
  | UpstreamTimeout _ => 504
  | Database _ | Crypto _ | Config _ | Io _ => 500
  end.

Definition code (e : TimError) : string :=
  match e with
  | BadRequest _ => "bad_request"
  | Unauthorized => "unauthorized"
  | Forbidden => "forbidden"
  | NotFound _ => "not_found"
  | PayloadTooLarge _ => "payload_too_large"
  | UnsupportedMediaType => "unsupported_media_type"
  | Unprocessable _ => "unprocessable_entity"
  | BadGateway _ => "bad_gateway"
  | UpstreamTimeout _ => "upstream_timeout"
  | Database _ | Crypto _ | Config _ | Io _ => "internal_error"
  end.

(** The [#[error(...)]] texts ([Display]). *)
Definition display (e : TimError) : string :=
  match e with
  | BadRequest m => "bad request: " +:+ m
  | Unauthorized => "unauthorized"
  | Forbidden => "forbidden"
  | NotFound m => "not found: " +:+ m
  | PayloadTooLarge max => "payload too large: max " +:+ pretty max +:+ " bytes"
  | UnsupportedMediaType => "unsupported media type"
  | Unprocessable m => "unprocessable entity: " +:+ m
  | BadGateway m => "bad gateway: " +:+ m
  | UpstreamTimeout m => "upstream timeout: " +:+ m
  | Database e => "database error: " +:+ e
  | Crypto m => "crypto error: " +:+ m
  | Config m => "config error: " +:+ m
  | Io e => "io error: " +:+ e
  end.

(** ** Responses *)

Inductive Body : Type :=
| BJson (v : Value)
| BText (s : string).

Record Response : Type := mkResponse {
  resp_status : Z;
  resp_headers : list (string * string);
  resp_body : Body;
}.

#[export] Instance body_eq_dec : EqDecision Body.
Proof. solve_decision. Defined.
#[export] Instance response_eq_dec : EqDecision Response.
Proof. solve_decision. Defined.

(** [(status, Json(body)).into_response()] *)
Definition json_response (st : Z) (v : Value) : Response := mkResponse st [] (BJson v).

(** [StatusCode::is_server_error] *)
Definition is_server_error (st : Z) : bool := (500 <=? st) && (st <? 600).

(** [impl IntoResponse for TimError] *)
Definition into_response (e : TimError) : Response :=
  if is_server_error (status e) then
    json_response (status e) (json_map [("error", VString (code e))])
  else
    match e with
    | PayloadTooLarge max =>
        json_response (status e) (json_map [("error", VString (code e)); ("max", VInt max)])
    | _ =>
        json_response (status e)
          (json_map [("error", VString (code e)); ("detail", VString (display e))])
    end.

(** ** Clipping attacker-controlled text *)

(** U+2026, three bytes. *)
Definition ellipsis : string := bytes [226; 128; 166].

Definition clip_untrusted (s : string) (max_chars : nat) : string :=
  let head := concat_str (take max_chars (chars s)) in
  match drop max_chars (chars s) with
  | [] => head
  | _ :: _ => head +:+ ellipsis
  end.

Lemma concat_str_take_drop n s : concat_str (take n (chars s)) +:+ concat_str (drop n (chars s)) = s.
Proof. by rewrite <- concat_str_app, take_drop, concat_chars. Qed.

(** Cutting between characters leaves the characters of both halves as they were. *)
Lemma chars_concat_take n s : chars (concat_str (take n (chars s))) = take n (chars s).
Proof.
  assert (Hcut : chars (concat_str (take n (chars s))) ++ chars (concat_str (drop n (chars s)))
                 = take n (chars s) ++ drop n (chars s)).
  { destruct n as [|n]; [by rewrite drop_0, concat_chars|].
    rewrite <- chars_app; [by rewrite concat_str_take_drop, take_drop|].
    destruct (chars s) as [|c cs] eqn:E; [done|]. simpl.
    destruct (drop n cs) as [|d ds] eqn:F; [done|]. simpl.
    assert (Hd : d ∈ cs) by (rewrite <- (take_drop n cs), F; set_solver).
    pose proof (chars_tail_boundary s c cs d E Hd) as Hb.
    destruct d; [|done]. exfalso. apply (chars_nonempty s ""); [rewrite E; set_solver | done]. }
  assert (Hlen : forall t, concat_str (chars t) = t) by apply concat_chars.
  revert Hcut. set (A := chars (concat_str (take n (chars s)))).
  set (B := chars (concat_str (drop n (chars s)))). intros Hcut.
  assert (EA : concat_str A = concat_str (take n (chars s))) by apply Hlen.
  assert (Hp : forall (l1 l2 r1 r2 : list string), l1 ++ r1 = l2 ++ r2 ->
      concat_str l1 = concat_str l2 -> (forall c, c ∈ l1 ++ r1 -> c ≠ "") -> l1 = l2).
  { clear. induction l1 as [|x l1 IH]; intros [|y l2] r1 r2 Happ Hc Hne; simpl in *; [done|..].
    - symmetry in Hc. destruct y; [|done]. exfalso. apply (Hne ""); [|done].
      rewrite Happ. set_solver.
    - destruct x; [|done]. exfalso. apply (Hne ""); [|done]. set_solver.
    - injection Happ as -> Happ. f_equal. eapply IH; [done| |].
      + by apply (inj (String.append y)) in Hc.
      + intros c Hin. apply Hne. set_solver. }
  eapply Hp; [exact Hcut | exact EA |].
  rewrite Hcut, take_drop. apply chars_nonempty.
Qed.

Lemma clip_untrusted_short s n :
  (length (chars s) <= n)%nat -> clip_untrusted s n = s.
Proof.
  intros Hl. unfold clip_untrusted. rewrite drop_ge, take_ge by done. apply concat_chars.
Qed.

Lemma clip_untrusted_long s n :
  (n < length (chars s))%nat ->
  clip_untrusted s n = concat_str (take n (chars s)) +:+ ellipsis.
Proof.
  intros Hl. unfold clip_untrusted.
  destruct (drop n (chars s)) eqn:E; [|done].
  apply (f_equal length) in E. rewrite length_drop in E. simpl in E. lia.
Qed.

(** Clipped text has at most the given number of characters and an ellipsis, agrees
    with the original up to there, and is the original unless something was cut off. *)
Theorem clip_untrusted_bounded s n :
  (length (chars (clip_untrusted s n)) <= S n)%nat /\
  take n (chars (clip_untrusted s n)) = take n (chars s) /\
  (clip_untrusted s n ≠ s -> exists cut, s = concat_str (take n (chars s)) +:+ cut /\ cut ≠ "" /\
     clip_untrusted s n = concat_str (take n (chars s)) +:+ ellipsis).
Proof.
  destruct (decide (length (chars s) <= n)%nat) as [Hl|Hl].
  - rewrite clip_untrusted_short by done. repeat split; [lia|done].
  - rewrite clip_untrusted_long by lia.
    rewrite chars_app, chars_concat_take by done.
    rewrite length_app, length_take, take_app_le by (rewrite length_take; lia).
    rewrite take_take, Nat.min_id. repeat split.
    + change (length (chars ellipsis)) with 1%nat. lia.
    + intros _. exists (concat_str (drop n (chars s))). repeat split.
      * by rewrite concat_str_take_drop.
      * destruct (drop n (chars s)) as [|d ds] eqn:E.
        { apply (f_equal length) in E. rewrite length_drop in E. simpl in E. lia. }
        simpl. assert (Hd : d ∈ chars s) by (rewrite <- (take_drop n (chars s)), E; set_solver).
        apply chars_nonempty in Hd. by destruct d.
Qed.

Lemma into_response_status e : resp_status (into_response e) = status e.
Proof. unfold into_response. destruct (is_server_error _); [done|]. by destruct e. Qed.

(** The body of a server error is its fixed code and nothing of the message of the
    error. *)
Theorem into_response_no_leak e :
  500 <= status e -> resp_body (into_response e) = BJson (VObject [("error", VString (code e))]).
Proof. destruct e; simpl; try lia; vm_compute; done. Qed.
