(* ===== verification/World.v ===== *)
(** The state the program reads and writes.

    [Pg] is the PostgreSQL database of [migrations/]: one row type per table,
    a table with a primary key the code looks up by is a finite map on it and
    [custom_jwt.jwt_metadata] is the list of its rows in insertion order.
    [World] adds the process's own state: the in-memory session map
    ([DashMap] of [MemoryStore]), the two [moka] caches and a counter of the
    interactions with the outside performed so far, which indexes the oracles
    of Effects.v. *)
From S2P Require Import Prelude Json.

(** [uuid::Uuid]: 128 bits. *)
Abbreviation Uuid := N.

(** ** Tables *)

(** [custom_jwt.jwt_metadata] *)
Record MetaRow := mkMeta {
  m_id : Uuid;
  m_jwt_uuid : Uuid;
  m_created_at : Z;
  m_claim_keys : string;
  m_issued_at : Z;
  m_expires_at : Z;
  m_subject : option string;
  m_jwt_name : option string;
  m_audience : option string;
  m_issuer : option string;
  m_supersedes : option Uuid;
  m_original : Uuid;
}.

(** [custom_jwt.denylist], primary key [jwt_uuid] *)
Record DenyRow := mkDeny {
  d_created_at : Z;
  d_denylisted_at : Z;
  d_expires_at : Z;
  d_reason : option string;
}.

(** [auth.oauth_state], primary key [state] *)
Record StateRow := mkState {
  st_created_at : Z;
  st_provider_id : string;
  st_nonce : string;
  st_pkce_verifier : option string;
  st_redirect_uri : option string;
}.

(** [auth.session], primary key [id] *)
Record SessionRow := mkSessionRow {
  sr_provider_id : string;
  sr_user_id : string;
  sr_created_at : Z;
  sr_last_activity : Z;
  sr_expires_at : Z;
  sr_profile_encrypted : string;
}.

Record Pg := mkPg {
  metadata : list MetaRow;
  denylist : gmap Uuid DenyRow;
  oauth_state : gmap string StateRow;
  session_rows : gmap string SessionRow;
}.

(** ** Process state *)

(** [oauth2::session::store::Session] *)
Record Session := mkSession {
  s_id : string;
  s_provider_id : string;
  s_user_id : string;
  s_created_at : Z;
  s_last_activity : Z;
  s_expires_at : Z;
  s_profile : gmap string Value;
}.

(** [oauth2::discovery::Discovery] *)
Record Discovery := mkDiscovery {
  issuer : string;
  authorization_endpoint : string;
  token_endpoint : string;
  userinfo_endpoint : option string;
  jwks_uri : string;
  grant_types_supported : list string;
  response_types_supported : list string;
}.

(** [jsonwebtoken::jwk]: the parts of a JWK the program looks at. *)
Inductive AlgorithmParameters :=
| RSA (n e : string)
| EllipticCurve (x y : string)
| OctetKeyPair (debug : string)
| OctetKey (debug : string).

Record Jwk := mkJwk {
  key_id : option string;
  key_algorithm : option string;  (** the [Debug] name of the [KeyAlgorithm] *)
  algorithm : AlgorithmParameters;
}.

Record World := mkWorld {
  pg : Pg;
  mem_sessions : gmap string Session;
  discovery_cache : gmap string Discovery;
  jwks_cache : gmap string (list Jwk);
  tick : nat;
}.

#[export] Instance meta_row_eq_dec : EqDecision MetaRow.
Proof. solve_decision. Defined.
#[export] Instance deny_row_eq_dec : EqDecision DenyRow.
Proof. solve_decision. Defined.
#[export] Instance state_row_eq_dec : EqDecision StateRow.
Proof. solve_decision. Defined.
#[export] Instance session_eq_dec : EqDecision Session.
Proof. solve_decision. Defined.

(** ** Updates *)

Definition with_metadata (l : list MetaRow) (p : Pg) : Pg :=
  mkPg l (denylist p) (oauth_state p) (session_rows p).
Definition with_denylist (m : gmap Uuid DenyRow) (p : Pg) : Pg :=
  mkPg (metadata p) m (oauth_state p) (session_rows p).
Definition with_oauth_state (m : gmap string StateRow) (p : Pg) : Pg :=
  mkPg (metadata p) (denylist p) m (session_rows p).
Definition with_session_rows (m : gmap string SessionRow) (p : Pg) : Pg :=
  mkPg (metadata p) (denylist p) (oauth_state p) m.

Definition with_pg (p : Pg) (w : World) : World :=
  mkWorld p (mem_sessions w) (discovery_cache w) (jwks_cache w) (tick w).
Definition with_mem_sessions (m : gmap string Session) (w : World) : World :=
  mkWorld (pg w) m (discovery_cache w) (jwks_cache w) (tick w).
Definition with_discovery_cache (m : gmap string Discovery) (w : World) : World :=
  mkWorld (pg w) (mem_sessions w) m (jwks_cache w) (tick w).
Definition with_jwks_cache (m : gmap string (list Jwk)) (w : World) : World :=
  mkWorld (pg w) (mem_sessions w) (discovery_cache w) m (tick w).
Definition bump (w : World) : World :=
  mkWorld (pg w) (mem_sessions w) (discovery_cache w) (jwks_cache w) (S (tick w)).

Definition empty_pg : Pg := mkPg [] ∅ ∅ ∅.
Definition initial_world : World := mkWorld empty_pg ∅ ∅ ∅ 0.
