(* ===== verification/Effects.v ===== *)
(** The effects of the program's [async fn]s.

    [M A] is a computation on the [World] that returns a value, returns early
    with a [TimError] (the [?] operator), panics, or is dropped at an [.await]:
    the time limit of its request has passed or the client has gone away.  What
    the outside world answers is an oracle of the class [Env], indexed by the
    number of interactions so far: the process clocks, the database server's
    clock, the random sources, the environment variables, whether a cache entry
    is still present, whether an SQL statement fails and whether the future is
    dropped while it waits.  A statement that fails or is waited for no longer
    may have taken effect all the same (the server executed it).  Theorems
    quantify over all oracles.

    [wp m w Q]: running [m] from [w] ends in an outcome and world that satisfy
    [Q].  The lemmas [wp_*] and the tactic [wp_steps] run a computation
    symbolically; [preserves R m] says that [m] relates its initial and final
    world by [R], and the database [effects] proves it compositionally. *)
From S2P Require Import Prelude Error World.

(** Why a future is dropped. *)
Inductive Cut := TimeUp | ClientGone.

Inductive Outcome (A : Type) : Type :=
| Ret (a : A)
| Throw (e : TimError)
| Panic
| Dropped (c : Cut).
Arguments Ret {A} a.
Arguments Throw {A} e.
Arguments Panic {A}.
Arguments Dropped {A} c.

Definition M (A : Type) : Type := World -> Outcome A * World.

Class Env := {
  clock : nat -> Z;                       (** [Utc::now()] *)
  monotonic : nat -> Z;                   (** [Instant::now()], in microseconds *)
  pg_clock : nat -> Z;                    (** [now()] of the server *)
  db_fault : nat -> option (string * bool); (** error text, and whether it was executed *)
  dropped : nat -> option (Cut * bool);   (** the future is dropped while it waits here *)
  uuid_v4 : nat -> Uuid;                  (** [Uuid::new_v4()] *)
  random_bytes : nat -> nat -> string;    (** [RngCore::fill_bytes] on a buffer *)
  env_var : string -> option string;      (** [std::env::var] *)
  cache_live : nat -> bool;               (** a [moka] entry has not expired or been evicted *)
}.

(** The file system while the program starts: it reads files and writes none.
    The [Err] of [read_to_string] is the error's text. *)
Class Files := {
  read_to_string : string -> Result string string;
  path_exists : string -> bool;
}.

#[export] Instance M_ret : MRet M := fun _ a w => (Ret a, w).
#[export] Instance M_bind : MBind M := fun _ _ f m w =>
  match m w with
  | (Ret a, w') => f a w'
  | (Throw e, w') => (Throw e, w')
  | (Panic, w') => (Panic, w')
  | (Dropped c, w') => (Dropped c, w')
  end.

Definition throw {A} (e : TimError) : M A := fun w => (Throw e, w).
Definition panic {A} : M A := fun w => (Panic, w).

(** A pure [Result] with [?]; an operation that panics on [None]. *)
Definition lift {A} (r : Result A TimError) : M A :=
  match r with Ok a => mret a | Err e => throw e end.
Definition or_panic {A} (o : option A) : M A :=
  match o with Some a => mret a | None => panic end.

(** [match call().await { Ok(..) => .., Err(e) => .. }] *)
Definition attempt {A} (m : M A) : M (Result A TimError) := fun w =>
  match m w with
  | (Ret a, w') => (Ret (Ok a), w')
  | (Throw e, w') => (Ret (Err e), w')
  | (Panic, w') => (Panic, w')
  | (Dropped c, w') => (Dropped c, w')
  end.

Section Effects.
Context `{Env}.

(** Ask an oracle, and count the interaction. *)
Definition ask {A} (f : nat -> A) : M A := fun w => (Ret (f (tick w)), bump w).

(** An answer that is awaited. *)
Definition await {A} (f : nat -> A) : M A := fun w =>
  (match dropped (tick w) with Some (c, _) => Dropped c | None => Ret (f (tick w)) end, bump w).

Definition utc_now : M Z := ask clock.
(** Not counted: between two readings of a request there is always an interaction. *)
Definition instant_now : M Z := fun w => (Ret (monotonic (tick w)), w).
Definition new_v4 : M Uuid := ask uuid_v4.
Definition fill_bytes (n : nat) : M string := ask (fun t => random_bytes t n).

(** One SQL statement.  [q now p] is the statement's result and the database
    after it; an [Err] is a constraint violation and leaves the database as it
    was.  [stmt now q] runs it at server time [now]. *)
Definition Sql (A : Type) : Type := Z -> Pg -> Result A string * Pg.

(** How an exchange with the database breaks off, and whether it took effect. *)
Definition broken (A : Type) (t : nat) : option (Outcome A * bool) :=
  match dropped t with
  | Some (c, applied) => Some (Dropped c, applied)
  | None => (fun f => (Throw (Database (fst f)), snd f)) <$> db_fault t
  end.

Definition stmt {A} (now : Z) (q : Sql A) : M A := fun w =>
  match broken A (tick w) with
  | None =>
      (match fst (q now (pg w)) with Ok a => Ret a | Err e => Throw (Database e) end,
       with_pg (snd (q now (pg w))) (bump w))
  | Some (o, applied) => (o, if applied then with_pg (snd (q now (pg w))) (bump w) else bump w)
  end.

(** A statement outside a transaction commits by itself. *)
Definition sql {A} (q : Sql A) : M A := fun w => stmt (pg_clock (tick w)) q w.

(** [pool.begin()] .. [tx.commit()]: the body runs at the transaction's start
    time; an early return, a panic or a drop drops the transaction too, which
    rolls back. *)
Definition transaction {A} (body : Z -> M A) : M A := fun w =>
  match broken A (tick w) with
  | Some (o, _) => (o, bump w)
  | None =>
      match body (pg_clock (tick w)) (bump w) with
      | (Ret a, w') =>
          match broken A (tick w') with
          | None => (Ret a, bump w')
          | Some (o, true) => (o, bump w')
          | Some (o, false) => (o, with_pg (pg w) (bump w'))
          end
      | (o, w') => (o, with_pg (pg w) w')
      end
  end.
End Effects.

(** ** Reasoning *)

Definition wp {A} (m : M A) (w : World) (Q : Outcome A -> World -> Prop) : Prop :=
  Q (fst (m w)) (snd (m w)).

(** What is left to show of a [bind] once its first part has run. *)
Definition bind_post {A B} (f : A -> M B) (Q : Outcome B -> World -> Prop)
    (o : Outcome A) (w : World) : Prop :=
  match o with
  | Ret a => wp (f a) w Q
  | Throw e => Q (Throw e) w
  | Panic => Q Panic w
  | Dropped c => Q (Dropped c) w
  end.

Lemma wp_eq {A} (m : M A) w o w' Q : m w = (o, w') -> wp m w Q -> Q o w'.
Proof. unfold wp. by intros ->. Qed.

Lemma wp_intro {A} (m : M A) w (Q : Outcome A -> World -> Prop) :
  (forall o w', m w = (o, w') -> Q o w') -> wp m w Q.
Proof. unfold wp. intros HQ. apply HQ. by destruct (m w). Qed.

Lemma wp_eq_ne {A} (m : M A) w o w' : wp m w (fun o' _ => o' ≠ o) -> m w ≠ (o, w').
Proof. unfold wp. intros H E. by rewrite E in H. Qed.

Lemma wp_mono {A} (m : M A) w (P Q : Outcome A -> World -> Prop) :
  wp m w P -> (forall o w', P o w' -> Q o w') -> wp m w Q.
Proof. unfold wp. auto. Qed.

Lemma wp_and {A} (m : M A) w (P Q : Outcome A -> World -> Prop) :
  wp m w P -> wp m w Q -> wp m w (fun o w' => P o w' /\ Q o w').
Proof. done. Qed.

Lemma wp_ret {A} (a : A) w Q : Q (Ret a) w -> wp (mret a) w Q.
Proof. done. Qed.

Lemma wp_bind {A B} (m : M A) (f : A -> M B) w Q :
  wp m w (bind_post f Q) -> wp (m ≫= f) w Q.
Proof. unfold wp, mbind, M_bind, bind_post. by destruct (m w) as [[]]. Qed.

Lemma wp_throw {A} e w (Q : Outcome A -> World -> Prop) : Q (Throw e) w -> wp (throw e) w Q.
Proof. done. Qed.

Lemma wp_lift {A} (r : Result A TimError) w Q :
  (forall a, r = Ok a -> Q (Ret a) w) -> (forall e, r = Err e -> Q (Throw e) w) -> wp (lift r) w Q.
Proof. destruct r; unfold wp; simpl; auto. Qed.

Lemma wp_or_panic {A} (o : option A) w Q :
  (forall a, o = Some a -> Q (Ret a) w) -> (o = None -> Q Panic w) -> wp (or_panic o) w Q.
Proof. destruct o; unfold wp; simpl; auto. Qed.

Lemma wp_attempt {A} (m : M A) w Q :
  wp m w (fun o w' => match o with
                      | Ret a => Q (Ret (Ok a)) w'
                      | Throw e => Q (Ret (Err e)) w'
                      | Panic => Q Panic w'
                      | Dropped c => Q (Dropped c) w'
                      end) -> wp (attempt m) w Q.
Proof. unfold wp, attempt. by destruct (m w) as [[]]. Qed.

Section Wp.
Context `{Env}.

Lemma wp_ask {A} (f : nat -> A) w Q : Q (Ret (f (tick w))) (bump w) -> wp (ask f) w Q.
Proof. done. Qed.

(** The outcomes of an exchange that broke off. *)
Inductive lost {A} : Outcome A -> Prop :=
| lost_db e : lost (Throw (Database e))
| lost_dropped c : lost (Dropped c).

Lemma broken_lost {A} t o b : broken A t = Some (o, b) -> lost o.
Proof.
  unfold broken. destruct (dropped t) as [[c a]|]; [intros [= <- _]; constructor|].
  destruct (db_fault t) as [[e a]|]; [|done]. intros [= <- _]. constructor.
Qed.

Lemma wp_await {A} (f : nat -> A) w Q :
  Q (Ret (f (tick w))) (bump w) -> (forall c, Q (Dropped c) (bump w)) -> wp (await f) w Q.
Proof. unfold wp, await. intros Hr Hd. by destruct (dropped (tick w)) as [[c a]|]; simpl. Qed.

(** The three ways a statement can end. *)
Lemma wp_stmt {A} now (q : Sql A) w Q :
  (forall a p, q now (pg w) = (Ok a, p) -> Q (Ret a) (with_pg p (bump w))) ->
  (forall o, lost o -> Q o (bump w)) ->
  (forall o r p, lost o -> q now (pg w) = (r, p) -> Q o (with_pg p (bump w))) ->
  wp (stmt now q) w Q.
Proof.
  unfold wp, stmt. intros HRet Hlost Happ.
  destruct (broken A (tick w)) as [[o b]|] eqn:Eb; simpl.
  { apply broken_lost in Eb. destruct b; [by eapply Happ, surjective_pairing|by apply Hlost]. }
  destruct (q now (pg w)) as [[a|e] p] eqn:E; simpl; [eauto|]. eapply Happ; [constructor|done].
Qed.

Lemma wp_sql {A} (q : Sql A) w Q :
  (forall now, wp (stmt now q) w Q) -> wp (sql q) w Q.
Proof. unfold wp, sql. auto. Qed.

(** A transaction ends with the body's database or with the one it began with. *)
Lemma wp_transaction {A} (body : Z -> M A) w Q :
  (forall o, lost o -> Q o (bump w)) ->
  (forall now, wp (body now) (bump w) (fun o w' =>
     match o with
     | Ret a => Q (Ret a) (bump w')
                /\ (forall o', lost o' -> Q o' (bump w') /\ Q o' (with_pg (pg w) (bump w')))
     | _ => Q o (with_pg (pg w) w')
     end)) ->
  wp (transaction body) w Q.
Proof.
  unfold wp, transaction. intros Hb Hbody.
  destruct (broken A (tick w)) as [[o b]|] eqn:Eb; [by eapply Hb, broken_lost|].
  specialize (Hbody (pg_clock (tick w))).
  destruct (body (pg_clock (tick w)) (bump w)) as [[a|e| |c] w']; simpl in *; [|exact Hbody..].
  destruct Hbody as [? Hl]. destruct (broken A (tick w')) as [[o b]|] eqn:Eo; simpl; [|done].
  apply broken_lost, Hl in Eo as [? ?]. by destruct b.
Qed.

(** No statement fails and no future is dropped: the runs in which the functional
    behaviour is exact. *)
Definition healthy : Prop := forall n, db_fault n = None /\ dropped n = None.

Lemma not_broken A n : db_fault n = None /\ dropped n = None -> broken A n = None.
Proof. unfold broken. by intros [-> ->]. Qed.

Lemma healthy_not_broken A n : healthy -> broken A n = None.
Proof. intros Hh. by apply not_broken. Qed.

Lemma stmt_healthy {A} now (q : Sql A) w :
  healthy ->
  stmt now q w = (match fst (q now (pg w)) with Ok a => Ret a | Err e => Throw (Database e) end,
                  with_pg (snd (q now (pg w))) (bump w)).
Proof. unfold stmt. intros Hh. by rewrite not_broken. Qed.

Lemma wp_sql_healthy {A} (q : Sql A) w Q :
  healthy ->
  (forall a p, q (pg_clock (tick w)) (pg w) = (Ok a, p) -> Q (Ret a) (with_pg p (bump w))) ->
  (forall e p, q (pg_clock (tick w)) (pg w) = (Err e, p) -> Q (Throw (Database e)) (with_pg p (bump w))) ->
  wp (sql q) w Q.
Proof.
  intros Hh H1 H2. unfold wp, sql. rewrite stmt_healthy by done. simpl.
  destruct (q (pg_clock (tick w)) (pg w)) as [[a|e] p] eqn:E; simpl; eauto.
Qed.

(** ** Relations between the world before and after *)

Definition preserves {A} (R : World -> World -> Prop) (m : M A) : Prop :=
  forall w, wp m w (fun _ w' => R w w').

Section Preserves.
Context (R : World -> World -> Prop) {PO : PreOrder R}.

Lemma preserves_ret {A} (a : A) : preserves R (mret a).
Proof. intros w. apply wp_ret. reflexivity. Qed.
Lemma preserves_throw {A} e : preserves R (throw (A := A) e).
Proof. intros w. apply wp_throw. reflexivity. Qed.
Lemma preserves_panic {A} : preserves R (panic (A := A)).
Proof. intros w. unfold wp. simpl. reflexivity. Qed.
Lemma preserves_lift {A} (r : Result A TimError) : preserves R (lift r).
Proof. destruct r; [apply preserves_ret | apply preserves_throw]. Qed.
Lemma preserves_or_panic {A} (o : option A) : preserves R (or_panic o).
Proof. destruct o; [apply preserves_ret | apply preserves_panic]. Qed.

Lemma preserves_bind {A B} (m : M A) (f : A -> M B) :
  preserves R m -> (forall a, preserves R (f a)) -> preserves R (m ≫= f).
Proof.
  intros Hm Hf w. apply wp_bind. eapply wp_mono; [apply Hm|].
  intros [a|e| |c] w' Hw; simpl; [|done..].
  eapply wp_mono; [apply Hf|]. intros. by etrans.
Qed.

Lemma preserves_attempt {A} (m : M A) : preserves R m -> preserves R (attempt m).
Proof.
  intros Hm w. apply wp_attempt. eapply wp_mono; [apply Hm|]. by intros [] ? ?.
Qed.

Lemma preserves_ask {A} (f : nat -> A) : (forall w, R w (bump w)) -> preserves R (ask f).
Proof. intros Hb w. apply wp_ask. auto. Qed.

Lemma preserves_await {A} (f : nat -> A) : (forall w, R w (bump w)) -> preserves R (await f).
Proof. intros Hb w. apply wp_await; auto. Qed.

Lemma preserves_stmt {A} now (q : Sql A) :
  (forall w, R w (bump w)) ->
  (forall w, R w (with_pg (snd (q now (pg w))) (bump w))) ->
  preserves R (stmt now q).
Proof.
  intros Hb Hq w. apply wp_stmt.
  - intros a p E. specialize (Hq w). by rewrite E in Hq.
  - auto.
  - intros o r p _ E. specialize (Hq w). by rewrite E in Hq.
Qed.

Lemma preserves_sql {A} (q : Sql A) :
  (forall w, R w (bump w)) ->
  (forall now w, R w (with_pg (snd (q now (pg w))) (bump w))) ->
  preserves R (sql q).
Proof. intros Hb Hq w. apply wp_sql. intros now. by apply preserves_stmt. Qed.

(** A transaction: what the body does, or nothing. *)
Lemma preserves_transaction {A} (body : Z -> M A) :
  (forall w, R w (bump w)) ->
  (forall w w1, R (bump w) w1 -> R w (with_pg (pg w) w1)) ->
  (forall now, preserves R (body now)) ->
  preserves R (transaction body).
Proof.
  intros Hb Hroll Hbody w. apply wp_transaction; [intros; apply Hb|].
  intros now. eapply wp_mono; [apply Hbody|]. intros [a|e| |c] w1 Hw; simpl; [|by apply Hroll..].
  assert (R w (bump w1)) by (etrans; [apply Hb|]; etrans; [apply Hw|apply Hb]).
  split; [done|]. intros o _. split; [done|]. apply (Hroll w (bump w1)). by etrans.
Qed.
End Preserves.
End Wp.

(** Run a computation symbolically as far as it is determined. *)
Ltac wp_step :=
  lazymatch goal with
  | |- wp (mret _) _ _ => apply wp_ret
  | |- wp (throw _) _ _ => apply wp_throw
  | |- wp (mbind _ _) _ _ => apply wp_bind
  | |- wp (lift _) _ _ => apply wp_lift; intros
  | |- wp (or_panic _) _ _ => apply wp_or_panic; intros
  | |- wp (attempt _) _ _ => apply wp_attempt
  | |- wp utc_now _ _ => unfold utc_now; apply wp_ask
  | |- wp new_v4 _ _ => unfold new_v4; apply wp_ask
  | |- wp (ask _) _ _ => apply wp_ask
  | |- wp (await _) _ _ => apply wp_await; [|intros ?]
  | |- bind_post _ _ _ _ => simpl
  end.
Ltac wp_steps := repeat (wp_step; cbv beta).

(** ** Inverting a run that returned *)

Lemma bind_Ret_inv {A B} (m : M A) (f : A -> M B) w b w' :
  (m ≫= f) w = (Ret b, w') -> exists a w1, m w = (Ret a, w1) /\ f a w1 = (Ret b, w').
Proof. unfold mbind, M_bind. destruct (m w) as [[a|e| |c] w1]; [by eauto|done..]. Qed.

Lemma ret_Ret_inv {A} (a b : A) w w' : (mret a : M A) w = (Ret b, w') -> b = a /\ w' = w.
Proof. by intros [= <- <-]. Qed.

Lemma lift_Ret_inv {A} (r : Result A TimError) w a w' : lift r w = (Ret a, w') -> r = Ok a /\ w' = w.
Proof. destruct r; [by intros [= -> ->] | done]. Qed.

Lemma or_panic_Ret_inv {A} (o : option A) w a w' : or_panic o w = (Ret a, w') -> o = Some a /\ w' = w.
Proof. destruct o; [by intros [= -> ->] | done]. Qed.

Lemma instant_Ret_inv `{Env} w a w' : instant_now w = (Ret a, w') -> a = monotonic (tick w) /\ w' = w.
Proof. by intros [= <- <-]. Qed.

Lemma await_Ret_inv `{Env} {A} (f : nat -> A) w a w' :
  await f w = (Ret a, w') -> a = f (tick w) /\ w' = bump w.
Proof. unfold await. destruct (dropped (tick w)) as [[c b]|]; [done|]. by intros [= <- <-]. Qed.

Lemma ask_Ret_inv {A} (f : nat -> A) w a w' : ask f w = (Ret a, w') -> a = f (tick w) /\ w' = bump w.
Proof. by intros [= <- <-]. Qed.

Lemma attempt_Ret_inv {A} (m : M A) w r w' :
  attempt m w = (Ret r, w') ->
  (exists a, r = Ok a /\ m w = (Ret a, w')) \/ (exists e, r = Err e /\ m w = (Throw e, w')).
Proof. unfold attempt. destruct (m w) as [[a|e| |c] w1]; intros [= <- <-]; eauto. Qed.

Lemma run_bind {A B} (m : M A) (f : A -> M B) w a w' : m w = (Ret a, w') -> (m ≫= f) w = f a w'.
Proof. unfold mbind, M_bind. by intros ->. Qed.

Lemma run_bind_throw {A B} (m : M A) (f : A -> M B) w e w' :
  m w = (Throw e, w') -> (m ≫= f) w = (Throw e, w').
Proof. unfold mbind, M_bind. by intros ->. Qed.

Lemma run_ret {A B} (a : A) (f : A -> M B) w : (mret a ≫= f) w = f a w.
Proof. done. Qed.

Lemma run_lift {A B} (a : A) (f : A -> M B) w : (lift (Ok a) ≫= f) w = f a w.
Proof. done. Qed.

Section Invert.
Context `{Env}.

Lemma run_utc_now {B} (f : Z -> M B) w : (utc_now ≫= f) w = f (clock (tick w)) (bump w).
Proof. done. Qed.

Lemma run_new_v4 {B} (f : Uuid -> M B) w : (new_v4 ≫= f) w = f (uuid_v4 (tick w)) (bump w).
Proof. done. Qed.

Lemma stmt_Ret_inv {A} now (q : Sql A) w a w' :
  stmt now q w = (Ret a, w') ->
  q now (pg w) = (Ok a, pg w') /\ w' = with_pg (pg w') (bump w) /\ broken A (tick w) = None.
Proof.
  unfold stmt. destruct (broken A (tick w)) as [[o b]|] eqn:Eb.
  { apply broken_lost in Eb. destruct Eb; discriminate. }
  destruct (q now (pg w)) as [[a'|e] p]; simpl; intros [= -> <-]; done.
Qed.

Lemma sql_Ret_inv {A} (q : Sql A) w a w' :
  sql q w = (Ret a, w') ->
  q (pg_clock (tick w)) (pg w) = (Ok a, pg w') /\ w' = with_pg (pg w') (bump w) /\ broken A (tick w) = None.
Proof. apply stmt_Ret_inv. Qed.

(** A statement that finds no fault runs. *)
Lemma run_sql {A} (q : Sql A) w a p :
  broken A (tick w) = None -> q (pg_clock (tick w)) (pg w) = (Ok a, p) ->
  sql q w = (Ret a, with_pg p (bump w)).
Proof. unfold sql, stmt. intros -> ->. done. Qed.
End Invert.

(** [minv]: take a run that returned apart into the runs of its parts. *)
Ltac minv :=
  repeat match goal with
  | H : mbind _ _ _ = (Ret _, _) |- _ =>
      let a := fresh "a" in let w := fresh "w" in let E := fresh "E" in
      apply bind_Ret_inv in H as (a & w & E & H); cbv beta in H
  | H : mret ?a _ = (Ret ?a, _) |- _ => apply ret_Ret_inv in H as [_ ->]
  | H : mret _ _ = (Ret _, _) |- _ => apply ret_Ret_inv in H as [-> ->]
  | H : lift _ _ = (Ret _, _) |- _ => apply lift_Ret_inv in H as [H ->]
  | H : or_panic _ _ = (Ret _, _) |- _ => apply or_panic_Ret_inv in H as [H ->]
  | H : utc_now _ = (Ret _, _) |- _ => apply ask_Ret_inv in H as [-> ->]
  | H : new_v4 _ = (Ret _, _) |- _ => apply ask_Ret_inv in H as [-> ->]
  | H : ask _ _ = (Ret _, _) |- _ => apply ask_Ret_inv in H as [-> ->]
  | H : instant_now _ = (Ret _, _) |- _ => apply instant_Ret_inv in H as [-> ->]
  | H : await _ _ = (Ret _, _) |- _ => apply await_Ret_inv in H as [-> ->]
  | H : throw _ _ = (Ret _, _) |- _ => discriminate H
  | H : panic _ = (Ret _, _) |- _ => discriminate H
  | H : ok_or _ _ = Ok _ |- _ => apply ok_or_Ok in H
  | H : map_err _ _ = Ok _ |- _ => apply map_err_Ok in H
  end.

(** ** A concrete environment, for the witnesses: a clock that stands at [now],
    no fault, distinct UUIDs, zero bytes from the random source. *)
Module ToyEnv.

Fixpoint zeros (n : nat) : string :=
  match n with O => "" | S n' => String "000" (zeros n') end.

Definition toy_env (now : Z) : Env := {|
  clock _ := now;
  pg_clock _ := now;
  monotonic _ := 0;
  db_fault _ := None;
  dropped _ := None;
  uuid_v4 t := (1000 + N.of_nat t)%N;
  random_bytes _ n := zeros n;
  env_var _ := None;
  cache_live _ := true;
|}.
End ToyEnv.
