(* ===== verification/Jose.v ===== *)
(** The interface of the [jsonwebtoken] and [rsa] crates.

    Signing and verification are third-party code: the class [Jose] has the
    operations the program calls and [JoseLaws] the documented behaviour it
    relies on.  A token's claims pass through as the fields of a JSON object;
    decoding takes the deserialiser of the claims type, as
    [decode::<C>] takes its [C: Deserialize].

    [ToyJose] at the end is a concrete instance of the laws (a "signature" is
    the key itself), on which the witnesses of the library compute. *)
From S2P Require Import Prelude Str Json.

(** [jsonwebtoken::Algorithm] *)
Inductive Algorithm :=
| HS256 | HS384 | HS512 | ES256 | ES384
| RS256 | RS384 | RS512 | PS256 | PS384 | PS512 | EdDSA.

#[export] Instance algorithm_eq_dec : EqDecision Algorithm.
Proof. solve_decision. Defined.

(** [jsonwebtoken::Header]: the fields the program sets or reads. *)
Record Header := mkHeader { h_alg : Algorithm; h_kid : option string }.

#[export] Instance header_eq_dec : EqDecision Header.
Proof. solve_decision. Defined.

(** [jsonwebtoken::errors::ErrorKind]: the kinds the program names, the rest in one. *)
Inductive ErrorKind :=
| ExpiredSignature
| InvalidSignature
| InvalidAudience
| InvalidIssuer
| ImmatureSignature
| InvalidToken
| MissingRequiredClaim (claim : string)
| InvalidEcdsaKey
| InvalidRsaKey (why : string)
| InvalidAlgorithmName
| InvalidKeyFormat
| InvalidAlgorithm
| OtherErrorKind (why : string).

#[export] Instance error_kind_eq_dec : EqDecision ErrorKind.
Proof. solve_decision. Defined.

(** [jsonwebtoken::Validation] *)
Record Validation := mkValidation {
  v_algorithms : list Algorithm;
  v_leeway : Z;
  v_validate_exp : bool;
  v_validate_nbf : bool;
  v_validate_aud : bool;
  v_required_spec_claims : list string;
  v_iss : option (list string);
}.

(** [Validation::new(alg)], with its documented defaults. *)
Definition Validation_new (alg : Algorithm) : Validation :=
  mkValidation [alg] 60 true false true ["exp"] None.

(** [jsonwebtoken::TokenData] *)
Record TokenData (C : Type) := mkTokenData { td_header : Header; td_claims : C }.
Arguments mkTokenData {C} _ _.
Arguments td_header {C} _.
Arguments td_claims {C} _.

(** The claims type's [Deserialize]: [None] is an error. *)
Abbreviation Deserializer C := (list (string * Value) -> option C).

Class Jose := {
  EncodingKey : Type;
  DecodingKey : Type;
  RsaPublicKey : Type;
  jwt_encode : Header -> list (string * Value) -> EncodingKey -> Result string ErrorKind;
  jwt_decode_header : string -> Result Header ErrorKind;
  (** the last argument is the Unix time at which the token is checked *)
  jwt_decode : forall C : Type, Deserializer C -> string -> DecodingKey -> Validation -> Z ->
    Result (TokenData C) ErrorKind;
  jwt_error_display : ErrorKind -> string;
  (** [RsaPrivateKey::from_pkcs8_pem] then [RsaPublicKey::from] *)
  rsa_public_of_pkcs8_pem : string -> Result RsaPublicKey string;
  (** [EncodingKey::from_rsa_pem], [to_pkcs1_pem], [DecodingKey::from_rsa_pem] *)
  encoding_key_from_rsa_pem : string -> Result EncodingKey ErrorKind;
  to_pkcs1_pem : RsaPublicKey -> Result string string;
  decoding_key_from_rsa_pem : string -> Result DecodingKey ErrorKind;
  (** [URL_SAFE_NO_PAD.encode] of the big-endian modulus and exponent *)
  rsa_n_b64 : RsaPublicKey -> string;
  rsa_e_b64 : RsaPublicKey -> string;
}.
Arguments jwt_decode {_ C} _ _ _ _ _.

(** Checks neither time, nor audience, nor issuer, nor the presence of claims. *)
Definition permissive (v : Validation) : Prop :=
  v_validate_exp v = false /\ v_validate_nbf v = false /\ v_validate_aud v = false /\
  v_required_spec_claims v = [] /\ v_iss v = None.

Definition float_free_fields (js : list (string * Value)) : bool :=
  forallb (fun kv => float_free (snd kv)) js.

Class JoseLaws (J : Jose) := {
  (** the two keys are halves of one key pair *)
  keys_match : EncodingKey -> DecodingKey -> Prop;
  (** verifying with the signer's public key gives back what was signed *)
  jose_roundtrip : forall C (de : Deserializer C) h js ek dk tok v now c,
    keys_match ek dk -> jwt_encode h js ek = Ok tok -> h_alg h ∈ v_algorithms v ->
    permissive v -> float_free_fields js = true -> de js = Some c ->
    jwt_decode de tok dk v now = Ok (mkTokenData h c);
  (** another key does not verify it *)
  jose_wrong_key : forall C (de : Deserializer C) h js ek dk tok v now,
    ~ keys_match ek dk -> jwt_encode h js ek = Ok tok -> h_alg h ∈ v_algorithms v ->
    jwt_decode de tok dk v now = Err InvalidSignature;
  jose_header : forall h js ek tok,
    jwt_encode h js ek = Ok tok -> jwt_decode_header tok = Ok h;
  (** validation flags only add checks *)
  jose_weaken : forall C (de : Deserializer C) tok dk v v' now now' d,
    jwt_decode de tok dk v now = Ok d -> permissive v' -> v_algorithms v' = v_algorithms v ->
    jwt_decode de tok dk v' now' = Ok d;
  (** what a successful decode has checked of the claims: a (non-negative) [exp]
      is not further past than the leeway, an [nbf] not further ahead, the
      issuer is one of those accepted, and required claims are there *)
  jose_checks : forall C (de : Deserializer C) tok dk v now d,
    jwt_decode de tok dk v now = Ok d ->
    exists js, de js = Some (td_claims d) /\ h_alg (td_header d) ∈ v_algorithms v /\
      (v_validate_exp v = true ->
         forall z, get_field js "exp" = Some (VInt z) -> 0 <= z -> now - v_leeway v <= z) /\
      (v_validate_nbf v = true ->
         forall z, get_field js "nbf" = Some (VInt z) -> 0 <= z -> z <= now + v_leeway v) /\
      (forall l i, v_iss v = Some l -> get_field js "iss" = Some (VString i) -> i ∈ l) /\
      ("iss" ∈ v_required_spec_claims v -> get_field js "iss" ≠ None);
}.

(** ** A concrete instance

    Keys are numbers, equal when they match; a token is the binary numeral of
    the countable encoding of its key, header and claims. *)
Module ToyJose.

#[export] Instance algorithm_countable : Countable Algorithm.
Proof.
  refine (inj_countable' (fun a => match a with
    | HS256 => 0%nat | HS384 => 1%nat | HS512 => 2%nat | ES256 => 3%nat | ES384 => 4%nat | RS256 => 5%nat
    | RS384 => 6%nat | RS512 => 7%nat | PS256 => 8%nat | PS384 => 9%nat | PS512 => 10%nat | EdDSA => 11%nat end)
    (fun n => match n with
    | 0 => HS256 | 1 => HS384 | 2 => HS512 | 3 => ES256 | 4 => ES384 | 5 => RS256
    | 6 => RS384 | 7 => RS512 | 8 => PS256 | 9 => PS384 | 10 => PS512 | _ => EdDSA end%nat) _).
  by intros [].
Defined.

Definition content : Type := N * (Algorithm * option string) * list (string * Value).

Fixpoint bits_of_pos (p : positive) : string :=
  match p with
  | xH => "1"
  | xO p' => String "0" (bits_of_pos p')
  | xI p' => String "1" (bits_of_pos p')
  end.

Fixpoint pos_of_bits (s : string) : option positive :=
  match s with
  | EmptyString => None
  | String c s' =>
      match s' with
      | EmptyString => if bool_decide (c = "1"%char) then Some xH else None
      | _ => if bool_decide (c = "1"%char) then xI <$> pos_of_bits s'
             else if bool_decide (c = "0"%char) then xO <$> pos_of_bits s' else None
      end
  end.

Lemma pos_of_bits_of_pos p : pos_of_bits (bits_of_pos p) = Some p.
Proof.
  induction p as [p IH|p IH|]; simpl; [| |done]; rewrite IH; by destruct p.
Qed.

Definition pack (c : content) : string := bits_of_pos (countable.encode c).
Definition unpack (s : string) : option content := pos_of_bits s ≫= countable.decode.

Lemma unpack_pack c : unpack (pack c) = Some c.
Proof. unfold unpack, pack. rewrite pos_of_bits_of_pos. simpl. apply decode_encode. Qed.

Definition toy_decode C (de : Deserializer C) (tok : string) (dk : N) (v : Validation) (now : Z) :
    Result (TokenData C) ErrorKind :=
  match unpack tok with
  | None => Err InvalidToken
  | Some (k, (alg, kid), js) =>
      if negb (bool_decide (alg ∈ v_algorithms v)) then Err InvalidAlgorithm
      else if negb (bool_decide (k = dk)) then Err InvalidSignature
      else match de js with
           | None => Err (OtherErrorKind "json")
           | Some c =>
               let expired := match get_field js "exp" with
                              | Some (VInt z) => z <? now - v_leeway v
                              | _ => false
                              end in
               let early := match get_field js "nbf" with
                            | Some (VInt z) => now + v_leeway v <? z
                            | _ => false
                            end in
               let foreign := match v_iss v, get_field js "iss" with
                              | Some l, Some (VString i) => negb (bool_decide (i ∈ l))
                              | _, _ => false
                              end in
               let missing := existsb (fun k => bool_decide (get_field js k = None))
                                (v_required_spec_claims v) in
               if v_validate_exp v && expired then Err ExpiredSignature
               else if v_validate_nbf v && early then Err ImmatureSignature
               else if foreign then Err InvalidIssuer
               else if missing then Err (MissingRequiredClaim "")
               else Ok (mkTokenData (mkHeader alg kid) c)
           end
  end.

(** A PEM is the numeral of its key. *)
Definition key_of_pem (pem : string) : option N := Npos <$> pos_of_bits pem.
Definition pem_of_key (k : N) : string := match k with Npos p => bits_of_pos p | N0 => "" end.

#[export] Instance toy_jose : Jose := {
  EncodingKey := N;
  DecodingKey := N;
  RsaPublicKey := N;
  jwt_encode h js ek := Ok (pack (ek, (h_alg h, h_kid h), js));
  jwt_decode_header tok :=
    match unpack tok with
    | Some (_, (alg, kid), _) => Ok (mkHeader alg kid)
    | None => Err InvalidToken
    end;
  jwt_decode := toy_decode;
  jwt_error_display _ := "jwt error";
  rsa_public_of_pkcs8_pem pem := ok_or (key_of_pem pem) "bad pem";
  encoding_key_from_rsa_pem pem := ok_or (key_of_pem pem) InvalidKeyFormat;
  to_pkcs1_pem k := Ok (pem_of_key k);
  decoding_key_from_rsa_pem pem := ok_or (key_of_pem pem) InvalidKeyFormat;
  rsa_n_b64 k := pem_of_key k;
  rsa_e_b64 _ := "AQAB";
}.

#[export] Instance toy_jose_laws : JoseLaws toy_jose.
Proof.
  refine {| keys_match := (eq : N -> N -> Prop) |}; simpl.
  - intros C de h js ek dk tok v now c <- [= <-] Halg (He & Hn & _ & Hr & Hi) _ Hde.
    unfold toy_decode. rewrite unpack_pack, !bool_decide_true by done. simpl.
    rewrite Hde, He, Hn, Hr, Hi. simpl. by destruct h.
  - intros C de h js ek dk tok v now Hne [= <-] Halg.
    unfold toy_decode. rewrite unpack_pack, bool_decide_true, bool_decide_false by done. done.
  - intros h js ek tok [= <-]. rewrite unpack_pack. by destruct h.
  - intros C de tok dk v v' now now' d Hd (He & Hn & _ & Hr & Hi) Halg. revert Hd. unfold toy_decode.
    destruct (unpack tok) as [[[k [alg kid]] js]|]; [|done]. rewrite Halg, He, Hn, Hr, Hi.
    do 2 (case_bool_decide; cbn [negb]; [|done]). destruct (de js); [|done]. cbn [andb existsb].
    do 4 (match goal with |- (if ?b then _ else _) = _ -> _ => destruct b; [done|] end). done.
  - intros C de tok dk v now d Hd. revert Hd. unfold toy_decode.
    destruct (unpack tok) as [[[k [alg kid]] js]|]; [|done].
    case_bool_decide as Ha; cbn [negb]; [|done]. case_bool_decide; cbn [negb]; [|done].
    destruct (de js) as [c|] eqn:E; [|done].
    destruct (v_validate_exp v && _) eqn:F1; [done|]. destruct (v_validate_nbf v && _) eqn:F2; [done|].
    destruct (match v_iss v with Some _ => _ | None => false end) eqn:F3; [done|].
    destruct (existsb _ _) eqn:F4; [done|]. intros [= <-]. exists js. simpl.
    split; [done|]. split; [done|]. split; [|split; [|split]].
    + intros He z Hz _. rewrite He, Hz in F1. simpl in F1. zcases; [done|lia].
    + intros He z Hz _. rewrite He, Hz in F2. simpl in F2. zcases; [done|lia].
    + intros l i Hl Hi. rewrite Hl, Hi in F3. by apply negb_false_iff, bool_decide_eq_true in F3.
    + intros Hin Hnone. assert (existsb (fun k => bool_decide (get_field js k = None))
        (v_required_spec_claims v) = true) as Ht; [|congruence].
      apply existsb_exists_bool. exists "iss". split; [done|]. by apply bool_decide_eq_true.
Defined.
End ToyJose.
