(* ===== verification/Claims.v ===== *)
(** The claims of the tokens TIM signs: [StandardClaims] of
    [src/jwt/service.rs] with its derived [Serialize] and [Deserialize].

    [extra] is flattened: its entries stand beside the typed members in the
    same JSON object.  The derived deserialiser refuses a repeated member,
    defaults a missing [Option] to [None] and collects the other keys in
    [extra].  The main lemma is the round trip, which needs that no [extra] key
    is a typed member's name; [strip_reserved] establishes that. *)
From S2P Require Import Prelude Str Json.

Record StandardClaims := mkClaims {
  iss : string;
  sub : option string;
  aud : option (list string);
  exp : Z;
  iat : Z;
  jti : string;
  extra : gmap string Value;
}.

#[export] Instance standard_claims_eq_dec : EqDecision StandardClaims.
Proof. solve_decision. Defined.

(** The members with a type of their own. *)
Definition typed_members : list string := ["iss"; "sub"; "aud"; "exp"; "iat"; "jti"].

(** [#[derive(Serialize)]] with [flatten]. *)
Definition claims_to_json (c : StandardClaims) : list (string * Value) :=
  [("iss", VString (iss c)); ("sub", opt_value VString (sub c));
   ("aud", opt_value VStrings (aud c)); ("exp", VInt (exp c)); ("iat", VInt (iat c));
   ("jti", VString (jti c))] ++ map_fields (extra c).

(** A member of the derived deserialiser: [None] when the key is repeated. *)
Definition unique_field (fs : list (string * Value)) (k : string) : option (option Value) :=
  match filter (fun kv => fst kv = k) fs with
  | [] => Some None
  | [kv] => Some (Some (snd kv))
  | _ => None
  end.

Definition de_string (v : Value) : option string := as_str v.
Definition de_i64 (v : Value) : option Z :=
  match v with
  | VInt z => if (- 2 ^ 63 <=? z) && (z <=? I64_MAX) then Some z else None
  | _ => None
  end.
Definition de_strings (v : Value) : option (list string) :=
  match v with VArray l => mapM as_str l | _ => None end.

(** A required member; an [Option] member, [None] when missing or [null]. *)
Definition required {T} (de : Value -> option T) (o : option (option Value)) : option T :=
  match o with Some (Some v) => de v | _ => None end.
Definition optional {T} (de : Value -> option T) (o : option (option Value)) : option (option T) :=
  match o with
  | None => None
  | Some None => Some None
  | Some (Some VNull) => Some None
  | Some (Some v) => Some <$> de v
  end.

(** The keys left for [#[serde(flatten)]]; a later entry replaces an earlier one. *)
Definition flattened (members : list string) (fs : list (string * Value)) : gmap string Value :=
  list_to_map (reverse (filter (fun kv => fst kv ∉ members) fs)).

(** [#[derive(Deserialize)]] with [flatten]. *)
Definition claims_of_json (fs : list (string * Value)) : option StandardClaims :=
  i ← required de_string (unique_field fs "iss");
  s ← optional de_string (unique_field fs "sub");
  a ← optional de_strings (unique_field fs "aud");
  e ← required de_i64 (unique_field fs "exp");
  t ← required de_i64 (unique_field fs "iat");
  j ← required de_string (unique_field fs "jti");
  Some (mkClaims i s a e t j (flattened typed_members fs)).

(** Registered claim names, never signed from caller-supplied content. *)
Definition RESERVED_CLAIM_NAMES : list string :=
  ["iss"; "sub"; "aud"; "exp"; "iat"; "jti"; "nbf"].

Definition strip_reserved (m : gmap string Value) : gmap string Value :=
  foldl (fun m k => delete k m) m RESERVED_CLAIM_NAMES.

(** ** Lemmas *)

Lemma strip_reserved_lookup m k :
  strip_reserved m !! k = if decide (k ∈ RESERVED_CLAIM_NAMES) then None else m !! k.
Proof.
  assert (forall l m, foldl (fun m k => delete k m) m l !! k
    = if decide (k ∈ l) then None else (m : gmap string Value) !! k) as Hgo; [|apply Hgo].
  clear m. induction l as [|x l IH]; intros m; simpl; [done|]. rewrite IH.
  destruct (decide (k = x)) as [->|Hne].
  - rewrite lookup_delete_eq, (decide_True (P := x ∈ x :: l)) by apply list_elem_of_here.
    by case_decide.
  - rewrite lookup_delete_ne by done. do 2 case_decide; try done; exfalso;
      rewrite elem_of_cons in *; naive_solver.
Qed.

(** The typed members do not occur in [extra]: what signing needs. *)
Definition extra_ok (c : StandardClaims) : Prop :=
  forall k, k ∈ typed_members -> extra c !! k = None.

Lemma extra_ok_keys c k v : extra_ok c -> (k, v) ∈ map_fields (extra c) -> k ∉ typed_members.
Proof. intros Hok Hin Hk. apply map_fields_elem in Hin. rewrite Hok in Hin; done. Qed.

Lemma filter_key_none (l : list (string * Value)) k :
  (forall k' v, (k', v) ∈ l -> k' ≠ k) -> filter (fun kv => fst kv = k) l = [].
Proof.
  induction l as [|[k' v] l IH]; intros H; [done|].
  rewrite filter_cons_False; [|apply (H k' v), list_elem_of_here].
  apply IH. intros k'' v' Hin. eapply H. by apply list_elem_of_further.
Qed.

Lemma unique_field_claims c k v :
  extra_ok c -> bool_decide (k ∈ typed_members) = true -> get_field (claims_to_json c) k = Some v ->
  unique_field (claims_to_json c) k = Some (Some v).
Proof.
  intros Hok Hk%bool_decide_eq_true. unfold unique_field, claims_to_json.
  rewrite list.filter_app.
  rewrite (filter_key_none (map_fields (extra c)) k), app_nil_r.
  - unfold typed_members in Hk.
    repeat (apply elem_of_cons in Hk as [->|Hk]; [intros [= <-]; reflexivity|]).
    by apply not_elem_of_nil in Hk.
  - intros k' v' Hin ->. by eapply extra_ok_keys.
Qed.

Lemma flattened_claims c :
  extra_ok c -> flattened typed_members (claims_to_json c) = extra c.
Proof.
  intros Hok. unfold flattened, claims_to_json. rewrite list.filter_app.
  assert (filter (fun kv : string * Value => kv.1 ∉ typed_members)
    [("iss", VString (iss c)); ("sub", opt_value VString (sub c));
     ("aud", opt_value VStrings (aud c)); ("exp", VInt (exp c)); ("iat", VInt (iat c));
     ("jti", VString (jti c))] = []) as -> by done.
  simpl. assert (filter (fun kv : string * Value => kv.1 ∉ typed_members) (map_fields (extra c))
    = map_fields (extra c)) as ->.
  { assert (forall k v, (k, v) ∈ map_fields (extra c) -> k ∉ typed_members) as Hall
      by (intros; by eapply extra_ok_keys).
    induction (map_fields (extra c)) as [|[k v] l IH]; [done|].
    rewrite filter_cons_True by (simpl; eapply Hall, list_elem_of_here). f_equal.
    apply IH. intros. eapply Hall. by apply list_elem_of_further. }
  rewrite <- (list_to_map_fields (extra c)) at 2. apply list_to_map_proper.
  - rewrite fmap_reverse, reverse_Permutation. apply map_fields_NoDup.
  - apply reverse_Permutation.
Qed.

Lemma mapM_as_str l : mapM as_str (map VString l) = Some l.
Proof. induction l as [|x l IH]; simpl; [done|]. by rewrite IH. Qed.

Lemma optional_opt {T} (f : T -> Value) (de : Value -> option T) (o : option T) :
  (forall t, de (f t) = Some t /\ f t ≠ VNull) ->
  optional de (Some (Some (opt_value f o))) = Some o.
Proof.
  intros Hf. destruct o as [t|]; [|done]. simpl. destruct (Hf t) as [E Hn].
  destruct (f t); [done|..]; rewrite E; done.
Qed.

Lemma claims_roundtrip c :
  extra_ok c -> in_i64 (exp c) -> in_i64 (iat c) -> claims_of_json (claims_to_json c) = Some c.
Proof.
  intros Hok He Hi. unfold claims_of_json.
  rewrite (unique_field_claims c "iss" (VString (iss c))) by done.
  rewrite (unique_field_claims c "sub" (opt_value VString (sub c))) by done.
  rewrite (unique_field_claims c "aud" (opt_value VStrings (aud c))) by done.
  rewrite (unique_field_claims c "exp" (VInt (exp c))) by done.
  rewrite (unique_field_claims c "iat" (VInt (iat c))) by done.
  rewrite (unique_field_claims c "jti" (VString (jti c))) by done.
  rewrite (optional_opt VString), (optional_opt VStrings)
    by (intros; split; [simpl; by rewrite ?mapM_as_str | done]).
  rewrite flattened_claims by done. cbn.
  unfold in_i64 in *. rewrite !(proj2 (andb_true_iff _ _)) by (split; apply Z.leb_le; lia).
  by destruct c.
Qed.

Lemma float_free_claims c :
  (forall k v, extra c !! k = Some v -> float_free v = true) ->
  forallb (fun kv => float_free (snd kv)) (claims_to_json c) = true.
Proof.
  intros Hf. unfold claims_to_json. rewrite forallb_app. apply andb_true_iff. split.
  - simpl. assert (forall o, float_free (opt_value VString o) = true) as -> by (by intros []).
    assert (forall o, float_free (opt_value VStrings o) = true) as ->; [|done].
    intros [l|]; [|done]. simpl. induction l; [done|]. done.
  - apply forallb_elem. intros [k v] Hin. apply map_fields_elem in Hin. by eapply Hf.
Qed.

(** The [exp] that was parsed is the field of that name. *)
Lemma unique_get_field fs k v : unique_field fs k = Some (Some v) -> get_field fs k = Some v.
Proof.
  unfold unique_field. induction fs as [|[k' v'] fs IH]; [done|]. simpl.
  destruct (decide (k' = k)) as [->|Hne].
  - rewrite filter_cons_True, bool_decide_true by done. by destruct (filter _ fs); [intros [= ->]|].
  - rewrite filter_cons_False, bool_decide_false by done. apply IH.
Qed.

Lemma claims_of_json_exp fs c : claims_of_json fs = Some c -> get_field fs "exp" = Some (VInt (exp c)).
Proof.
  unfold claims_of_json. intros Hc.
  repeat match type of Hc with mbind _ ?o = _ => destruct o eqn:?; simpl in Hc; [|done] end.
  injection Hc as <-. simpl. apply unique_get_field.
  destruct (unique_field fs "exp") as [[v|]|]; try done. simpl in *.
  destruct v; try done. simpl in *. case_match; naive_solver.
Qed.

Lemma unique_field_missing fs k : unique_field fs k = Some None -> get_field fs k = None.
Proof.
  unfold unique_field. induction fs as [|[k' v'] fs IH]; [done|]. simpl.
  destruct (decide (k' = k)) as [->|Hne].
  - rewrite filter_cons_True by done. by destruct (filter _ fs).
  - rewrite filter_cons_False, bool_decide_false by done. apply IH.
Qed.
