(* ===== verification/Config.v ===== *)
(** Configuration: [src/config/mod.rs].

    The configuration records with their [serde] defaults ([*_default] is the
    [Default] instance, [default_*] the per-field functions) and
    [AppConfig::validate].  Parsing the YAML is [serde]'s.  A [HashMap] is a
    [gmap]; where the code iterates over one, the model takes the order of
    [map_to_list] and the theorems hold whichever entry comes first. *)
From S2P Require Import Prelude Str Error.

(** ** Records *)

Record ServerConfig := mkServerConfig {
  bind : string;
  port : Z;
  max_request_bytes : Z;
  request_timeout_seconds : Z;
  public_base_url : string;
}.

Record DatabaseConfig := mkDatabaseConfig {
  url_env : string;
  min_connections : Z;
  max_connections : Z;
  auto_migrate : bool;
  acquire_timeout_seconds : Z;
  idle_timeout_seconds : Z;
  max_lifetime_seconds : Z;
}.

Record PreviousKeyConfig := mkPreviousKeyConfig {
  pk_private_key_path : string;
  pk_key_id : string;
  pk_retires_at : Z;
}.

Record AudienceConfig := mkAudienceConfig {
  validation_enabled : bool;
  allowed : list string;
  aud_default : string;
}.

Record JwtConfig := mkJwtConfig {
  private_key_path : string;
  cfg_key_id : string;
  cfg_issuer : string;
  audience : AudienceConfig;
  max_claims_bytes : Z;
  bulk_revoke_max : Z;
  cookie_name : string;
  previous_key : option PreviousKeyConfig;
  rotation_warn_days : Z;
}.

Record TokenValidationConfig := mkTokenValidationConfig {
  clock_skew_seconds : Z;
  cache_ttl_seconds : Z;
}.

Record ProviderConfig := mkProviderConfig {
  p_name : string;
  discovery_url : string;
  client_id_env : string;
  client_secret_env : string;
  scopes : list string;
  claim_mappings : gmap string string;
  token_validation : TokenValidationConfig;
  allowed_redirect_uris : list string;
  allow_http_discovery : bool;
  pinned_jwks_uri : option string;
}.

Record OAuth2Config := mkOAuth2Config {
  session_store : string;
  discovery_cache_ttl_seconds : Z;
  session_ttl_seconds : Z;
  session_sweep_interval_seconds : Z;
  state_max_age_seconds : Z;
  session_encryption_key_env : string;
  providers : gmap string ProviderConfig;
}.

Record IntrospectionClient := mkIntrospectionClient {
  ic_client_id : string;
  ic_client_secret_env : string;
}.

Record IntrospectionConfig := mkIntrospectionConfig {
  required_client_auth : bool;
  gate_validation_endpoints : bool;
  gate_jvm_compat_endpoints : bool;
  clients : list IntrospectionClient;
}.

Record SecurityConfig := mkSecurityConfig {
  admin_token_env : string;
  require_admin_token : bool;
  cors_allowed_origins : list string;
  content_security_policy : string;
  strict_transport_security : string;
  referrer_policy : string;
  x_frame_options : string;
  x_content_type_options : string;
}.

Record AppConfig := mkAppConfig {
  server : ServerConfig;
  database : DatabaseConfig;
  jwt : JwtConfig;
  oauth2 : OAuth2Config;
  security : SecurityConfig;
  introspection : IntrospectionConfig;
}.

(** ** Defaults *)

Definition default_bind := "0.0.0.0".
Definition default_port := 8085.
Definition default_max_request_bytes := 1048576.
Definition default_request_timeout := 30.
Definition default_db_url_env := "TIM_DATABASE_URL".
Definition default_min_conn := 2.
Definition default_max_conn := 10.
Definition default_auto_migrate := true.
Definition default_acquire_timeout := 30.
Definition default_idle_timeout := 600.
Definition default_max_lifetime := 1800.
Definition default_private_key_path := "/opt/tim/keys/jwt-private.pem".
Definition default_kid := "tim-rs-1".
Definition default_issuer := "TIM".
Definition default_max_claims_bytes := 32768.
Definition default_bulk_revoke_max := 100.
Definition default_cookie_name := "jwt".
Definition default_rotation_warn_days := 7.
Definition default_session_store := "memory".
Definition default_discovery_ttl := 3600.
Definition default_session_ttl := 86400.
Definition default_session_sweep_interval := 60.
Definition default_state_max_age := 300.
Definition default_session_key_env := "TIM_SESSION_ENCRYPTION_KEY".
Definition default_clock_skew := 60.
Definition default_validation_cache_ttl := 3600.
Definition default_require_admin_token := true.
Definition default_required_client_auth := true.
Definition default_csp := "default-src 'none'; frame-ancestors 'none'".
Definition default_hsts := "max-age=63072000; includeSubDomains".
Definition default_referrer_policy := "no-referrer".
Definition default_frame_options := "DENY".
Definition default_content_type_options := "nosniff".

Definition server_default : ServerConfig :=
  mkServerConfig default_bind default_port default_max_request_bytes default_request_timeout "".

Definition database_default : DatabaseConfig :=
  mkDatabaseConfig default_db_url_env default_min_conn default_max_conn default_auto_migrate
    default_acquire_timeout default_idle_timeout default_max_lifetime.

(** [#[derive(Default)]]: the field-level [serde] default does not apply here. *)
Definition audience_default : AudienceConfig := mkAudienceConfig false [] "".

Definition jwt_default : JwtConfig :=
  mkJwtConfig default_private_key_path default_kid default_issuer audience_default
    default_max_claims_bytes default_bulk_revoke_max default_cookie_name None
    default_rotation_warn_days.

Definition token_validation_default : TokenValidationConfig :=
  mkTokenValidationConfig default_clock_skew default_validation_cache_ttl.

Definition oauth2_default : OAuth2Config :=
  mkOAuth2Config default_session_store default_discovery_ttl default_session_ttl
    default_session_sweep_interval default_state_max_age default_session_key_env ∅.

Definition introspection_default : IntrospectionConfig :=
  mkIntrospectionConfig default_required_client_auth false false [].

Definition security_default : SecurityConfig :=
  mkSecurityConfig "" default_require_admin_token [] default_csp default_hsts
    default_referrer_policy default_frame_options default_content_type_options.

Definition app_default : AppConfig :=
  mkAppConfig server_default database_default jwt_default oauth2_default security_default
    introspection_default.

(** ** [AppConfig::validate] *)

(** A text between double quotes. *)
Definition quoted (s : string) : string := String (ascii_of_N 34) (s +:+ String (ascii_of_N 34) "").

Fixpoint validate_clients (cs : list IntrospectionClient) : Result unit TimError :=
  match cs with
  | [] => Ok tt
  | c :: cs' =>
      if bool_decide (trim (ic_client_id c) = "") then
        Err (Config "introspection.clients[*].client_id must be non-empty")
      else if bool_decide (trim (ic_client_secret_env c) = "") then
        Err (Config ("introspection.clients[" +:+ ic_client_id c
                     +:+ "].client_secret_env must be non-empty"))
      else validate_clients cs'
  end.

Fixpoint validate_pins (ps : list (string * ProviderConfig)) : Result unit TimError :=
  match ps with
  | [] => Ok tt
  | (id, provider) :: ps' =>
      match pinned_jwks_uri provider with
      | Some pin =>
          if bool_decide (trim pin = "") then
            Err (Config ("oauth2.providers[" +:+ id +:+ "].jwks_uri must be non-empty when set (omit the field entirely to disable pinning)"))
          else validate_pins ps'
      | None => validate_pins ps'
      end
  end.

Definition validate_previous_key (j : JwtConfig) : Result unit TimError :=
  match previous_key j with
  | Some prev =>
      if bool_decide (trim (pk_key_id prev) = "") then
        Err (Config "jwt.previous_key.key_id must be non-empty")
      else if bool_decide (pk_key_id prev = cfg_key_id j) then
        Err (Config ("jwt.previous_key.key_id (`" +:+ pk_key_id prev +:+ "`) must differ from jwt.key_id so downstream JWKS verifiers can distinguish the two keys"))
      else Ok tt
  | None => Ok tt
  end.

(** The warning about [public_base_url] is logging only. *)
Definition validate (c : AppConfig) : Result unit TimError :=
  if negb (bool_decide (session_store (oauth2 c) = "memory")
           || bool_decide (session_store (oauth2 c) = "postgres")) then
    Err (Config ("oauth2.session_store must be " +:+ quoted "memory" +:+ " or " +:+ quoted "postgres"
                 +:+ ", got " +:+ quoted (session_store (oauth2 c))))
  else if bool_decide (session_store (oauth2 c) = "postgres")
          && bool_decide (session_encryption_key_env (oauth2 c) = "") then
    Err (Config "oauth2.session_store=postgres requires oauth2.session_encryption_key_env")
  else if required_client_auth (introspection c) && bool_decide (clients (introspection c) = []) then
    Err (Config "introspection.required_client_auth=true requires at least one entry in introspection.clients")
  else
    _ <-? validate_clients (clients (introspection c));
    _ <-? validate_pins (map_to_list (providers (oauth2 c)));
    validate_previous_key (jwt c).

(** ** What a validated configuration guarantees *)

(** The conditions the rest of the program relies on. *)
Record valid_config (c : AppConfig) : Prop := {
  valid_store : session_store (oauth2 c) = "memory" \/ session_store (oauth2 c) = "postgres";
  valid_key_env : session_store (oauth2 c) = "postgres" -> session_encryption_key_env (oauth2 c) ≠ "";
  valid_introspection : required_client_auth (introspection c) = true -> clients (introspection c) ≠ [];
  valid_clients : forall cl, cl ∈ clients (introspection c) ->
    trim (ic_client_id cl) ≠ "" /\ trim (ic_client_secret_env cl) ≠ "";
  valid_pins : forall id p pin, providers (oauth2 c) !! id = Some p ->
    pinned_jwks_uri p = Some pin -> trim pin ≠ "";
  valid_previous : forall prev, previous_key (jwt c) = Some prev ->
    trim (pk_key_id prev) ≠ "" /\ pk_key_id prev ≠ cfg_key_id (jwt c);
}.

Lemma validate_clients_ok cs :
  validate_clients cs = Ok tt <->
  forall cl, cl ∈ cs -> trim (ic_client_id cl) ≠ "" /\ trim (ic_client_secret_env cl) ≠ "".
Proof.
  induction cs as [|c cs IH]; simpl.
  - split; [intros _ cl Hcl; by apply not_elem_of_nil in Hcl | done].
  - repeat case_bool_decide; [split; [done|] ..|].
    + intros Hall. destruct (Hall c); [apply list_elem_of_here|done].
    + intros Hall. destruct (Hall c); [apply list_elem_of_here|done].
    + rewrite IH. setoid_rewrite elem_of_cons. naive_solver.
Qed.

Lemma validate_pins_ok ps :
  validate_pins ps = Ok tt <->
  forall id p pin, (id, p) ∈ ps -> pinned_jwks_uri p = Some pin -> trim pin ≠ "".
Proof.
  induction ps as [|[id p] ps IH]; simpl.
  - split; [intros _ id p pin Hin; by apply not_elem_of_nil in Hin | done].
  - setoid_rewrite elem_of_cons.
    destruct (pinned_jwks_uri p) as [pin|] eqn:E; [case_bool_decide|];
      [|rewrite IH; naive_solver..].
    split; [done|]. intros Hall. exfalso. by eapply (Hall id p pin); [left|..].
Qed.

Lemma validate_previous_key_ok j :
  validate_previous_key j = Ok tt <->
  forall prev, previous_key j = Some prev -> trim (pk_key_id prev) ≠ "" /\ pk_key_id prev ≠ cfg_key_id j.
Proof.
  unfold validate_previous_key. destruct (previous_key j); [|naive_solver].
  repeat case_bool_decide; naive_solver.
Qed.

(** Configuration validation accepts exactly the configurations that meet its
    stated conditions. *)
Theorem validate_spec c : validate c = Ok tt <-> valid_config c.
Proof.
  unfold validate. split.
  - intros Hv. destruct (negb _) eqn:Hs; [done|].
    destruct (bool_decide (_ = "postgres") && _) eqn:Hk; [done|].
    destruct (required_client_auth _ && _) eqn:Hc; [done|].
    destruct (validate_clients _) as [[]|] eqn:Ecl; [|done].
    destruct (validate_pins _) as [[]|] eqn:Epin; [|done]. simpl in Hv.
    rewrite validate_clients_ok in Ecl. rewrite validate_pins_ok in Epin.
    rewrite validate_previous_key_ok in Hv.
    rewrite negb_false_iff, orb_true_iff, !bool_decide_eq_true in Hs.
    rewrite andb_false_iff, !bool_decide_eq_false in Hk.
    rewrite andb_false_iff, bool_decide_eq_false in Hc.
    split; try done.
    + intros E. by destruct Hk.
    + intros E. destruct Hc as [Hc|Hc]; [congruence|done].
    + intros id p pin Hp. eapply Epin. by apply elem_of_map_to_list.
  - intros [Hs Hk Hc Hcl Hp Hprev].
    rewrite (proj2 (negb_false_iff _)) by
      (rewrite orb_true_iff, !bool_decide_eq_true; done).
    rewrite (proj2 (andb_false_iff (bool_decide (_ = "postgres")) _)) by
      (rewrite !bool_decide_eq_false; destruct (decide (session_store (oauth2 c) = "postgres")); auto).
    rewrite (proj2 (andb_false_iff (required_client_auth _) _)) by
      (rewrite bool_decide_eq_false; destruct (required_client_auth _); auto).
    rewrite (proj2 (validate_clients_ok _)) by done.
    rewrite (proj2 (validate_pins_ok _)); [by apply validate_previous_key_ok|].
    intros id p pin Hin%elem_of_map_to_list. eauto.
Qed.
