(* ===== verification/ConfigLoad.v ===== *)
(** Finding and judging the configuration: the rest of [src/config/mod.rs].

    [load] searches the file, [diagnose] is what the service logs about a
    configuration when it starts, [bind_is_loopback] the rule both it and
    [validate] use.  Parsing the YAML text into the records is the crate's
    ([serde_yaml_ng]) and [serde]'s derived code, a parameter. *)
From S2P Require Import Prelude Str NetAddr Error World Effects Config.

(** [serde_yaml_ng::from_str::<AppConfig>]; the [Err] is the error's text. *)
Class YamlLib := { yaml_config : string -> Result AppConfig string }.

Section Load.
Context `{Files, YamlLib}.

Definition from_path (path : string) : Result AppConfig TimError :=
  raw <-? map_err (fun e => Config ("read " +:+ path +:+ ": " +:+ e)) (read_to_string path);
  cfg <-? map_err (fun e => Config ("parse " +:+ path +:+ ": " +:+ e)) (yaml_config raw);
  _ <-? validate cfg;
  Ok cfg.

(** The loop over the candidates of the working directory. *)
Fixpoint load_candidates (candidates : list string) : Result AppConfig TimError :=
  match candidates with
  | [] => Ok app_default
  | p :: candidates' => if path_exists p then from_path p else load_candidates candidates'
  end.

Definition load (explicit : option string) : Result AppConfig TimError :=
  match explicit with
  | Some path => from_path path
  | None => load_candidates ["tim.yaml"; "tim.yml"]
  end.
End Load.

(** ** Loopback addresses *)

Definition first_is_127 (octets : list Z) : bool := match octets with o :: _ => o =? 127 | [] => false end.

Definition unbracketed (raw : string) : string :=
  default raw (s ← strip_prefix "[" raw; strip_suffix "]" s).

Definition ip_is_loopback (ip : IpAddr) : bool :=
  match ip with
  | V4 o => first_is_127 o
  | V6 g =>
      bool_decide (g = [0; 0; 0; 0; 0; 0; 0; 1])
      || match to_ipv4_mapped g with Some m => first_is_127 m | None => false end
      || match to_ipv4 g with
         | Some m => negb (bool_decide (m = [0; 0; 0; 0])) && first_is_127 m
         | None => false
         end
  end.

Definition bind_is_loopback (bind : string) : bool :=
  let raw := trim bind in
  if eq_ignore_ascii_case raw "localhost" then true
  else match parse_ip (unbracketed raw) with Some ip => ip_is_loopback ip | None => false end.

(** ** Diagnostics *)

Inductive Level := INFO | WARN.

(** A [tracing] event; its fields, the values of the section, are left out. *)
Definition Event : Type := Level * string.

Definition warn_if (b : bool) (message : string) : list Event := if b then [(WARN, message)] else [].

(** [to_lowercase]: no letter outside ASCII has a letter of this word as its lower case. *)
Definition hsts_has_preload (c : AppConfig) : bool :=
  contains "preload" (to_ascii_lowercase (strict_transport_security (security c))).

Definition wildcard_origin (c : AppConfig) : bool :=
  existsb (fun o => bool_decide (o = "*")) (cors_allowed_origins (security c)).

Definition diagnose_server (c : AppConfig) : list Event :=
  [(INFO, "server")]
  ++ warn_if (bool_decide (public_base_url (server c) = "") && negb (bind_is_loopback (bind (server c))))
       "server.public_base_url is empty on a non-loopback bind — OAuth2 callbacks that omit ?redirect_uri= will fail. See docs/book/src/security-hardening.md.".

Definition diagnose_jwt (c : AppConfig) : list Event :=
  [(INFO, "jwt")]
  ++ warn_if (negb (validation_enabled (audience (jwt c))))
       "jwt.audience.validation_enabled = false. Any caller can generate a token for any audience. Set true + populate jwt.audience.allowed for prod."
  ++ warn_if (bool_decide (cfg_issuer (jwt c) = "localhost"))
       ("jwt.issuer = " +:+ quoted "localhost" +:+ " — downstream introspection will refuse unless it expects this issuer.")
  ++ match previous_key (jwt c) with
     | Some _ => [(INFO, "jwt.previous_key (rotation grace period)")]
     | None => []
     end.

Definition diagnose_security (c : AppConfig) : list Event :=
  [(INFO, "security")]
  ++ warn_if (negb (require_admin_token (security c)) || bool_decide (admin_token_env (security c) = ""))
       "security.admin_token_env is unset OR require_admin_token = false — /jwt/custom/{generate,revoke,revoke/bulk,extend} and legacy blacklist endpoints are UNGATED. Do not deploy to production."
  ++ (if bool_decide (cors_allowed_origins (security c) = []) then
        [(INFO, "security.cors_allowed_origins empty — no CORS layer emitted. Cross-origin browsers cannot call TIM directly.")]
      else
        warn_if (wildcard_origin c)
          ("security.cors_allowed_origins contains " +:+ quoted "*" +:+ " — wildcard CORS exposes every unauthenticated read cross-origin. Set an explicit list for production. RFC 6265 blocks cookie use with wildcard so admin auth is unaffected, but public endpoints are readable from any browser."))
  ++ warn_if (bool_decide (content_security_policy (security c) = ""))
       ("security.content_security_policy = " +:+ quoted "" +:+ " — CSP header not emitted.")
  ++ warn_if (negb (bind_is_loopback (bind (server c))) && negb (hsts_has_preload c))
       "HSTS header lacks `preload` and bind is not loopback — first-request MITM against TIM leaks bearer tokens in the clear. Add `preload` to security.strict_transport_security AND submit the deployment domain to https://hstspreload.org.".

Definition diagnose_introspection (c : AppConfig) : list Event :=
  [(INFO, "introspection")]
  ++ warn_if (negb (required_client_auth (introspection c)))
       "introspection.required_client_auth = false — POST /introspect is unauthenticated. RFC 7662 §2.1 recommends client auth on public deployments; enable it and populate introspection.clients.".

Definition diagnose_provider (c : AppConfig) (p : ProviderConfig) : list Event :=
  [(INFO, "provider")]
  ++ warn_if (bool_decide (allowed_redirect_uris p = []) && bool_decide (public_base_url (server c) = ""))
       "provider has neither allowed_redirect_uris NOR server.public_base_url. Every login attempt will 400.".

Definition diagnose_oauth2 (c : AppConfig) : list Event :=
  [(INFO, "oauth2")]
  ++ warn_if (bool_decide (session_store (oauth2 c) = "memory"))
       ("oauth2.session_store = " +:+ quoted "memory" +:+ " — sessions do not survive restart or span replicas. Set " +:+ quoted "postgres" +:+ " for production multi-replica.")
  ++ warn_if (session_sweep_interval_seconds (oauth2 c) =? 0)
       "oauth2.session_sweep_interval_seconds = 0 — sweeper disabled. Expired sessions + stale oauth_state rows will not be reaped."
  ++ concat (map (fun kv => diagnose_provider c (snd kv)) (map_to_list (providers (oauth2 c)))).

(** The events of [AppConfig::diagnose] in their order. *)
Definition diagnose (c : AppConfig) : list Event :=
  diagnose_server c ++ [(INFO, "database")] ++ diagnose_jwt c ++ diagnose_security c
  ++ diagnose_introspection c ++ diagnose_oauth2 c.

(** ** Properties *)

Lemma unbracketed_v4 a b c d : octet a -> unbracketed (ipv4_text a b c d) = ipv4_text a b c d.
Proof.
  intros Ha. unfold unbracketed. destruct (strip_prefix "[" (ipv4_text a b c d)) as [r|] eqn:E; [|done].
  apply strip_prefix_Some in E. apply octet_reads_ok in Ha. exfalso. revert Ha E. unfold octet_reads, ipv4_text.
  destruct (pretty a) as [|x p]; [done|]. simpl. intros Hr [= -> _]. done.
Qed.

Lemma unbracketed_bracketed s : unbracketed ("[" +:+ s +:+ "]") = s.
Proof.
  unfold unbracketed. change (strip_prefix "[" ("[" +:+ s +:+ "]")) with (Some (s +:+ "]")). cbn [mbind option_bind].
  unfold strip_suffix. rewrite string_rev_app, strip_prefix_app. simpl. by rewrite string_rev_involutive.
Qed.

Lemma ipv4_not_localhost a b c d : octet a -> eq_ignore_ascii_case (ipv4_text a b c d) "localhost" = false.
Proof.
  intros Ha%octet_reads_ok. apply bool_decide_eq_false. revert Ha. unfold octet_reads, ipv4_text.
  destruct (pretty a) as [|x p]; [done|]. intros Hr [= Hx _]. revert Hr. cbn [read_digits].
  by destruct x as [[] [] [] [] [] [] [] []].
Qed.

Lemma bracket_not_localhost s : eq_ignore_ascii_case ("[" +:+ s) "localhost" = false.
Proof. by apply bool_decide_eq_false. Qed.

Lemma load_ok `{Files, YamlLib} explicit c :
  load explicit = Ok c -> valid_config c \/ c = app_default.
Proof.
  assert (forall p c', from_path p = Ok c' -> valid_config c') as Hp.
  { intros p c' (raw & _ & (cfg & _ & ([] & Hv & [= <-])%rbind_Ok)%rbind_Ok)%rbind_Ok. by apply validate_spec. }
  unfold load. destruct explicit as [p|]; [eauto|]. cbn [load_candidates].
  destruct (path_exists "tim.yaml"); [eauto|]. destruct (path_exists "tim.yml"); [eauto|]. intros [= <-]. by right.
Qed.

(** An IPv4 address is a loopback address when its first octet is 127, in
    brackets or behind a space too. *)
Theorem loopback_exact a b c d :
  octet a -> octet b -> octet c -> octet d ->
  bind_is_loopback (ipv4_text a b c d) = (a =? 127) /\
  bind_is_loopback (" " +:+ ipv4_text a b c d) = (a =? 127) /\
  bind_is_loopback ("[" +:+ ipv4_text a b c d +:+ "]") = (a =? 127).
Proof.
  intros Ha Hb Hc Hd. pose proof (ipv4_text_visible _ _ _ _ Ha Hb Hc Hd) as Hv.
  assert (forall raw, trim raw = ipv4_text a b c d -> bind_is_loopback raw = (a =? 127)) as Hraw.
  { intros raw Ht. unfold bind_is_loopback. rewrite Ht, ipv4_not_localhost, unbracketed_v4, parse_ipv4_text by done.
    done. }
  split; [by apply Hraw, trim_visible|]. split; [by apply Hraw, trim_space_visible|].
  unfold bind_is_loopback. rewrite trim_visible by (rewrite !all_bytes_app, Hv; done).
  rewrite bracket_not_localhost, unbracketed_bracketed, parse_ipv4_text by done. done.
Qed.
