(* ===== verification/Doctor.v ===== *)
(** The pre-boot validator: [src/doctor.rs].

    [run] collects a [Report] of checks; the exit code of [tim doctor] follows
    from it.  One definition per block of [run], in the order of the source.
    What the report says about a later start is proved in BootTheorems.v. *)
From S2P Require Import Prelude Str Json Error World Effects Jose Chrono Config ConfigLoad Crypto.

(** ** Reports *)

Inductive Severity := Pass | Warn | Fail.

(** [impl Display] *)
Definition severity_text (s : Severity) : string :=
  match s with Pass => "  OK  " | Warn => " WARN " | Fail => " FAIL " end.

(** The derived order. *)
Definition severity_rank (s : Severity) : Z := match s with Pass => 0 | Warn => 1 | Fail => 2 end.

#[export] Instance severity_eq_dec : EqDecision Severity.
Proof. solve_decision. Defined.

Record Check := mkCheck { severity : Severity; category : string; message : string }.

Definition pass : string -> string -> Check := mkCheck Pass.
Definition warn : string -> string -> Check := mkCheck Warn.
Definition fail : string -> string -> Check := mkCheck Fail.

(** Its checks in the order they were pushed. *)
Record Report := mkReport { checks : list Check }.

Definition push (r : Report) (c : Check) : Report := mkReport (checks r ++ [c]).

(** The [for] loop of [counts]. *)
Definition count_check (acc : Z * Z * Z) (c : Check) : Z * Z * Z :=
  let '(p, w, f) := acc in
  match severity c with Pass => (p + 1, w, f) | Warn => (p, w + 1, f) | Fail => (p, w, f + 1) end.

Definition counts (r : Report) : Z * Z * Z := fold_left count_check (checks r) (0, 0, 0).

Definition exit_code (r : Report) (strict : bool) : Z :=
  let '(_, w, f) := counts r in
  if (0 <? f) || (strict && (0 <? w)) then 1 else 0.

(** [render_to] writes these lines. *)
Definition render (r : Report) : list string :=
  let '(p, w, f) := counts r in
  map (fun c => "[" +:+ severity_text (severity c) +:+ "] " +:+ category c +:+ ": " +:+ message c) (checks r)
  ++ ["---";
      "Summary: " +:+ pretty p +:+ " pass, " +:+ pretty w +:+ " warn, " +:+ pretty f +:+ " fail (total "
      +:+ pretty (length (checks r)) +:+ ")"].

(** ** The life of a retiring key *)

Inductive Retirement := AlreadyRetired (days_ago : Z) | RetiresSoon (days_left : Z) | RetiresLater (days_left : Z).

(** The cast [as u32] of a number that is not negative. *)
Definition retirement (j : JwtConfig) (prev : PreviousKeyConfig) (now : Z) : Retirement :=
  let days_left := num_days (pk_retires_at prev - now) in
  if days_left <? 0 then AlreadyRetired (- days_left)
  else if as_u32 days_left <=? rotation_warn_days j then RetiresSoon days_left
  else RetiresLater days_left.

(** The [Display] of a [DateTime<Utc>]. *)
Class ChronoText := { instant_text : Z -> string }.

Section Doctor.
Context `{Env, Files, YamlLib, Jose, ChronoText}.

(** ** The checks *)

Definition nonempty_env (name : string) : bool :=
  match env_var name with Some v => negb (bool_decide (v = "")) | None => false end.

Definition loaded_from (config_path : option string) : string :=
  match config_path with
  | Some p => "loaded from " +:+ p
  | None => "loaded from default resolution (--config / TIM_CONFIG / ./tim.yaml / built-in)"
  end.

Definition check_validate (c : AppConfig) : Check :=
  match validate c with
  | Err e => fail "config" ("validate: " +:+ display e)
  | Ok _ => pass "config" "validate: all cross-field checks pass"
  end.

Definition check_private_key (j : JwtConfig) : Check :=
  let path := private_key_path j in
  if negb (path_exists path) then
    fail "jwt.private_key" ("file not present at `" +:+ path +:+ "` — provision an RSA PKCS#8 PEM before boot")
  else
    match load_from_pem path (cfg_key_id j) with
    | Ok signer => pass "jwt.private_key" ("parsed OK from " +:+ path +:+ " (kid=" +:+ signer_kid signer +:+ ")")
    | Err e => fail "jwt.private_key" ("parse from " +:+ path +:+ ": " +:+ display e)
    end.

Definition retirement_check (j : JwtConfig) (prev : PreviousKeyConfig) (now : Z) : Check :=
  match retirement j prev now with
  | AlreadyRetired d =>
      warn "jwt.previous_key" ("kid=" +:+ pk_key_id prev +:+ " retired " +:+ pretty d +:+
        " day(s) ago; excluded from JWKS + refused on verification. Remove the block from tim.yaml to clear this WARN.")
  | RetiresSoon d =>
      warn "jwt.previous_key" ("kid=" +:+ pk_key_id prev +:+ " retires in " +:+ pretty d +:+
        " day(s) (retires_at=" +:+ instant_text (pk_retires_at prev) +:+ ") — plan the next rotation.")
  | RetiresLater d =>
      pass "jwt.previous_key" ("kid=" +:+ pk_key_id prev +:+ " loaded; active until " +:+
        instant_text (pk_retires_at prev) +:+ " (" +:+ pretty d +:+ " day(s) left)")
  end.

Definition check_previous_key (j : JwtConfig) : M (list Check) :=
  match previous_key j with
  | None => mret []
  | Some prev =>
      let path := pk_private_key_path prev in
      if bool_decide (pk_key_id prev = cfg_key_id j) then
        mret [fail "jwt.previous_key" ("key_id `" +:+ pk_key_id prev +:+
          "` collides with jwt.key_id — must differ so JWKS downstream can distinguish the two keys")]
      else if negb (path_exists path) then
        mret [fail "jwt.previous_key" ("file not present at `" +:+ path +:+
          "` — remove `jwt.previous_key` block if the previous key is no longer needed")]
      else
        match load_from_pem path (pk_key_id prev) with
        | Ok _ => now ← utc_now; mret [retirement_check j prev now]
        | Err e => mret [fail "jwt.previous_key" ("parse from " +:+ path +:+ ": " +:+ display e)]
        end
  end.

Definition check_database (d : DatabaseConfig) : Check :=
  if nonempty_env (url_env d) then
    pass "database.url_env" ("`" +:+ url_env d +:+ "` resolved to a non-empty value")
  else fail "database.url_env" ("env var `" +:+ url_env d +:+ "` is unset or empty; startup will refuse").

Definition check_admin (c : SecurityConfig) : Check :=
  if require_admin_token c then
    if nonempty_env (admin_token_env c) then
      pass "security.admin_token_env" ("`" +:+ admin_token_env c +:+ "` resolved (require_admin_token = true)")
    else
      fail "security.admin_token_env" ("`" +:+ admin_token_env c +:+
        "` is unset or empty while require_admin_token = true; startup will refuse")
  else
    warn "security.admin_token_env" "require_admin_token = false — privileged endpoints are UNGATED. Do not deploy to production.".

Definition check_session_key (o : OAuth2Config) : list Check :=
  if bool_decide (session_store o = "postgres") then
    let env := session_encryption_key_env o in
    [match env_var env with
     | Some v =>
         if slen v =? 64 then
           pass "oauth2.session_encryption_key_env" ("`" +:+ env +:+ "` resolved (64 hex chars, session_store = postgres)")
         else
           fail "oauth2.session_encryption_key_env" ("`" +:+ env +:+ "` resolved to " +:+ pretty (slen v) +:+
             " chars; must be 64 hex chars (32 bytes)")
     | None =>
         fail "oauth2.session_encryption_key_env" ("`" +:+ env +:+
           "` is unset while session_store = postgres; startup will refuse")
     end]
  else [].

Definition check_credential (id name env : string) : Check :=
  if nonempty_env env then
    pass "oauth2.providers" ("provider[" +:+ id +:+ "]." +:+ name +:+ " `" +:+ env +:+ "` resolved")
  else fail "oauth2.providers" ("provider[" +:+ id +:+ "]." +:+ name +:+ " `" +:+ env +:+ "` unset or empty").

Definition check_providers (o : OAuth2Config) : list Check :=
  concat (map (fun kv => [check_credential (fst kv) "client_id_env" (client_id_env (snd kv));
                          check_credential (fst kv) "client_secret_env" (client_secret_env (snd kv))])
              (map_to_list (providers o))).

Definition check_client (c : IntrospectionClient) : Check :=
  let name := "client[" +:+ ic_client_id c +:+ "].client_secret_env `" +:+ ic_client_secret_env c +:+ "` " in
  if nonempty_env (ic_client_secret_env c) then pass "introspection.clients" (name +:+ "resolved")
  else fail "introspection.clients" (name +:+ "unset or empty").

Definition check_introspection (i : IntrospectionConfig) : list Check :=
  if required_client_auth i then
    (if bool_decide (clients i = []) then
       [fail "introspection.clients" "required_client_auth = true but clients is empty — startup will refuse"]
     else [])
    ++ map check_client (clients i)
  else
    [warn "introspection" "required_client_auth = false — POST /introspect is unauthenticated. RFC 7662 §2.1 recommends client auth on public deployments."].

Definition warn_when (b : bool) (c : Check) : list Check := if b then [c] else [].

(** The doctor's own rule for loopback addresses. *)
Definition doctor_loopback (bind : string) : bool := bool_decide (bind = "127.0.0.1") || bool_decide (bind = "::1").

Definition check_posture (c : AppConfig) : list Check :=
  warn_when (bool_decide (session_store (oauth2 c) = "memory"))
    (warn "oauth2.session_store" (quoted "memory" +:+
       " — sessions do not survive restart or span replicas. Use " +:+ quoted "postgres" +:+ " for production multi-replica."))
  ++ warn_when (negb (validation_enabled (audience (jwt c))))
       (warn "jwt.audience" "validation_enabled = false — every caller can request any audience.")
  ++ warn_when (wildcard_origin c)
       (warn "security.cors_allowed_origins" ("contains " +:+ quoted "*" +:+
          " — every unauthenticated read is cross-origin readable."))
  ++ warn_when (negb (doctor_loopback (bind (server c))) && negb (hsts_has_preload c))
       (warn "security.strict_transport_security" ("bind = " +:+ bind (server c) +:+
          " is not loopback AND HSTS lacks `preload` — first-request MITM leaks bearer tokens. Add preload + submit domain to https://hstspreload.org.")).

(** Everything after the configuration could be loaded. *)
Definition checks_of (c : AppConfig) : M (list Check) :=
  prev ← check_previous_key (jwt c);
  mret ([check_validate c; check_private_key (jwt c)] ++ prev
        ++ [check_database (database c); check_admin (security c)]
        ++ check_session_key (oauth2 c) ++ check_providers (oauth2 c)
        ++ check_introspection (introspection c) ++ check_posture c).

(** Every check is pushed onto the report as it is made. *)
Definition run (config_path : option string) : M Report :=
  let r := mkReport [] in
  match load config_path with
  | Ok c =>
      let r := push r (pass "config" (loaded_from config_path)) in
      cs ← checks_of c;
      mret (fold_left push cs r)
  | Err e => mret (push r (fail "config" ("load: " +:+ display e)))
  end.

(** ** Lemmas *)

Definition no_fail (l : list Check) : Prop := forall c, c ∈ l -> severity c ≠ Fail.

Lemma pushed cs r : fold_left push cs r = mkReport (checks r ++ cs).
Proof.
  revert r. induction cs as [|c cs IH]; intros r; simpl.
  - rewrite app_nil_r. by destruct r.
  - rewrite IH. simpl. by rewrite <- (assoc_L (++)).
Qed.

Lemma triple_eq {A} (a b c a' b' c' : A) : a = a' -> b = b' -> c = c' -> (a, b, c) = (a', b', c').
Proof. by intros -> -> ->. Qed.

Lemma counts_from r p w f :
  fold_left count_check r (p, w, f) =
    (p + Z.of_nat (length (filter (fun c => severity c = Pass) r)),
     w + Z.of_nat (length (filter (fun c => severity c = Warn) r)),
     f + Z.of_nat (length (filter (fun c => severity c = Fail) r))).
Proof.
  revert p w f. induction r as [|c r IH]; intros p w f; [simpl; apply triple_eq; lia|].
  cbn [fold_left]. unfold count_check at 2. rewrite !filter_cons.
  destruct (severity c) eqn:E; rewrite IH; repeat case_decide; try congruence; cbn [length];
    apply (triple_eq (A := Z)); lia.
Qed.

Lemma counts_spec r :
  counts r = (Z.of_nat (length (filter (fun c => severity c = Pass) (checks r))),
              Z.of_nat (length (filter (fun c => severity c = Warn) (checks r))),
              Z.of_nat (length (filter (fun c => severity c = Fail) (checks r)))).
Proof. apply (counts_from (checks r) 0 0 0). Qed.

Lemma filter_positive (s : Severity) (r : list Check) :
  0 < Z.of_nat (length (filter (fun c => severity c = s) r)) <-> exists c, c ∈ r /\ severity c = s.
Proof.
  split.
  - destruct (filter _ r) as [|c l] eqn:E; [simpl; lia|]. intros _. exists c.
    assert (c ∈ filter (fun c => severity c = s) r) as Hc by (rewrite E; left).
    apply list_elem_of_filter in Hc. tauto.
  - intros (c & Hc & Hs). assert (c ∈ filter (fun c => severity c = s) r) as Hin by (by apply list_elem_of_filter).
    destruct (filter _ r); [by apply not_elem_of_nil in Hin|]. simpl. lia.
Qed.

Lemma exit_code_one r strict :
  exit_code r strict = 1 <->
  (exists c, c ∈ checks r /\ severity c = Fail) \/ (strict = true /\ exists c, c ∈ checks r /\ severity c = Warn).
Proof.
  unfold exit_code. rewrite counts_spec. rewrite <- !filter_positive.
  destruct ((0 <? _) || (strict && (0 <? _))) eqn:E.
  - rewrite orb_true_iff, andb_true_iff, !Z.ltb_lt in E. tauto.
  - rewrite orb_false_iff, andb_false_iff, !Z.ltb_ge in E. destruct strict; intuition (done || lia).
Qed.

Lemma exit_code_zero r : exit_code r false = 0 <-> no_fail (checks r).
Proof.
  destruct (decide (exit_code r false = 1)) as [E|E].
  - rewrite E. split; [done|]. intros Hno. apply exit_code_one in E as [(c & Hc & Hs)|[? _]]; [|done].
    by destruct (Hno c Hc).
  - assert (exit_code r false = 0) as E0.
    { revert E. unfold exit_code. destruct (counts r) as [[p w] f]. by destruct (_ || _). }
    split; [|done]. intros _ c Hc Hs. apply E, exit_code_one. left. eauto.
Qed.
End Doctor.
