(* ===== verification/JwtService.v ===== *)
(** The token service: [JwtService] of [src/jwt/service.rs].

    Definitions first: the SQL statements as functions on [Pg], then one
    definition per method, in the order of the source.  The [uuid] and
    [serde_json] crates enter through [UuidLib] and [SerdeJson].  The lemmas at
    the end say what each statement changes, that the service only ever appends
    to its two tables ([pg_grows]), and how each method runs when no statement
    fails; JwtTheorems.v and JwtChain.v build on them. *)
From S2P Require Import Prelude Str Chrono Json Error World Effects Jose Claims Config Crypto.
From S2P Require Import JwtApi.

(** [Uuid::to_string] and [Uuid::parse_str] *)
Class UuidLib := {
  uuid_to_string : Uuid -> string;
  uuid_parse : string -> option Uuid;
}.

(** Parsing accepts what [to_string] prints. *)
Class UuidLaws (U : UuidLib) := {
  uuid_roundtrip : forall u, uuid_parse (uuid_to_string u) = Some u;
}.

(** ** Statements *)

(** [INSERT INTO custom_jwt.jwt_metadata]; [created_at] has the default [now()]. *)
Definition insert_metadata (id jwt_uuid : Uuid) (claim_keys : string) (issued_at expires_at : Z)
    (subject jwt_name audience issuer : option string) (supersedes : option Uuid)
    (original_jwt_uuid : Uuid) : Sql unit := fun now p =>
  if existsb (fun r => (m_id r =? id)%N) (metadata p) then (Err "duplicate key jwt_metadata_pkey", p)
  else (Ok tt, with_metadata (metadata p ++
          [mkMeta id jwt_uuid now claim_keys issued_at expires_at subject jwt_name audience issuer
             supersedes original_jwt_uuid]) p).

(** [INSERT INTO custom_jwt.denylist .. ON CONFLICT (jwt_uuid) DO NOTHING]:
    the number of rows affected. *)
Definition insert_denylist (jwt_uuid : Uuid) (expires_at : Z) (reason : option string) : Sql Z :=
  fun now p =>
    match denylist p !! jwt_uuid with
    | Some _ => (Ok 0, p)
    | None => (Ok 1, with_denylist (<[jwt_uuid := mkDeny now now expires_at reason]> (denylist p)) p)
    end.

Definition select_denylist (jwt_uuid : Uuid) : Sql (option DenyRow) := fun _ p =>
  (Ok (denylist p !! jwt_uuid), p).

(** [WHERE jwt_uuid = $1 ORDER BY created_at DESC LIMIT 1].  SQL leaves open
    which of several rows of one instant comes first; here the earliest inserted. *)
Fixpoint latest (jwt_uuid : Uuid) (l : list MetaRow) : option MetaRow :=
  match l with
  | [] => None
  | r :: l' =>
      let rest := latest jwt_uuid l' in
      if (m_jwt_uuid r =? jwt_uuid)%N then
        match rest with
        | Some r' => if m_created_at r <? m_created_at r' then Some r' else Some r
        | None => Some r
        end
      else rest
  end.

Definition select_latest (jwt_uuid : Uuid) : Sql (option MetaRow) := fun _ p =>
  (Ok (latest jwt_uuid (metadata p)), p).

(** The [WHERE] clause of [list_for_subject]. *)
Definition after (bound : option Z) (t : Z) : bool :=
  match bound with Some b => b <=? t | None => true end.
Definition before (bound : option Z) (t : Z) : bool :=
  match bound with Some b => t <=? b | None => true end.

Definition list_filter (subject : string) (req : ListRequest) (r : MetaRow) : bool :=
  bool_decide (m_subject r = Some subject) &&
  after (lr_issued_after req) (m_issued_at r) && before (lr_issued_before req) (m_issued_at r) &&
  after (lr_expires_after req) (m_expires_at r) && before (lr_expires_before req) (m_expires_at r) &&
  match lr_jwt_name req with
  | Some n => bool_decide (m_jwt_name r = Some n)
  | None => true
  end.

(** [ORDER BY issued_at DESC] *)
Definition issued_desc (a b : MetaRow) : Prop := m_issued_at b <= m_issued_at a.
#[export] Instance issued_desc_dec : RelDecision issued_desc.
Proof. intros a b. apply Z_le_dec. Defined.

Definition select_list (subject : string) (req : ListRequest) (size row_offset : Z) : Sql (list MetaRow) :=
  fun _ p =>
    if row_offset <? 0 then (Err "OFFSET must not be negative", p)
    else (Ok (take (Z.to_nat size) (drop (Z.to_nat row_offset)
               (merge_sort issued_desc (filter (fun r => list_filter subject req r = true) (metadata p))))), p).

Definition select_count (subject : string) (req : ListRequest) : Sql Z := fun _ p =>
  (Ok (Z.of_nat (length (filter (fun r => list_filter subject req r = true) (metadata p)))), p).

(** ** Pure parts *)

Definition permissive_validation : Validation :=
  let v := Validation_new RS256 in
  mkValidation (v_algorithms v) (v_leeway v) false (v_validate_nbf v) false [] (v_iss v).

Definition classify_jwt_error (e : ErrorKind) : string :=
  match e with
  | ExpiredSignature => "expired"
  | InvalidSignature => "signature_mismatch"
  | InvalidAudience => "invalid_audience"
  | InvalidIssuer => "invalid_issuer"
  | ImmatureSignature => "not_yet_valid"
  | InvalidToken | MissingRequiredClaim _ | InvalidEcdsaKey | InvalidRsaKey _ => "malformed_token"
  | InvalidAlgorithmName | InvalidKeyFormat | InvalidAlgorithm => "key_mismatch"
  | OtherErrorKind _ => "validation_failed"
  end.

(** The answer to a token that does not decode. *)
Definition undecoded (why : string) : ValidateResponse :=
  mkValidateResponse false false (Some why) None None None None None None None.

Section Responses.
Context `{Chrono}.

Definition response_from (c : StandardClaims) (valid active : bool) (reason : string) : ValidateResponse :=
  mkValidateResponse valid active (Some reason) (sub c) (Some (iss c)) (aud c)
    (from_timestamp (exp c)) (from_timestamp (iat c)) (Some (jti c)) (Some (extra c)).

Definition response_from_valid (c : StandardClaims) : ValidateResponse :=
  mkValidateResponse true true None (sub c) (Some (iss c)) (aud c)
    (from_timestamp (exp c)) (from_timestamp (iat c)) (Some (jti c)) (Some (extra c)).
End Responses.

(** [claims.extra.keys().collect().join(",")] *)
Definition join_keys (m : gmap string Value) : string := join "," (btree_keys m).

(** The audience a token of the caller's choice gets. *)
Fixpoint check_allowed (allowed : list string) (aud : list string) : Result unit TimError :=
  match aud with
  | [] => Ok tt
  | a :: aud' =>
      if bool_decide (a ∈ allowed) then check_allowed allowed aud'
      else Err (Unprocessable ("audience '" +:+ a +:+ "' not in allowed set"))
  end.

Definition enforced (a : AudienceConfig) : bool :=
  validation_enabled a && negb (bool_decide (allowed a = [])).

Definition resolve_audience (a : AudienceConfig) (requested : option Audience) :
    Result (list string) TimError :=
  let aud := match requested with Some r => into_vec r | None => [aud_default a] end in
  if enforced a then
    _ <-? check_allowed (allowed a) aud;
    Ok aud
  else Ok aud.

(** The checks [validate] makes before it asks the denylist: the first that
    fails, as [(valid, reason)]. *)
Definition claims_fault (a : AudienceConfig) (req : ValidateRequest) (c : StandardClaims) (now : Z) :
    option (bool * string) :=
  let in_aud (P : string -> bool) := match aud c with Some l => existsb P l | None => false end in
  if match vr_issuer req with Some want => negb (bool_decide (want = iss c)) | None => false end
  then Some (false, "issuer_mismatch")
  else if match vr_audience req with
          | Some want => negb (in_aud (fun a => bool_decide (a = want)))
          | None => false
          end
  then Some (true, "audience_mismatch")
  else if enforced a && negb (in_aud (fun x => bool_decide (x ∈ allowed a)))
  then Some (true, "audience_mismatch")
  else if exp c <? now then Some (true, "expired")
  else None.

Section JwtService.
Context `{Env, Jose, Chrono, UuidLib, SerdeJson}.

(** The pool is the [World]. *)
Record JwtService := mkService { signer : JwtSigner; cfg : JwtConfig }.

Implicit Type s : JwtService.

(** ** [generate] *)

(** [serde_json::to_vec(..).unwrap_or_default().len()] *)
Definition content_len (content : gmap string Value) : Z :=
  match json_to_vec (VObject (map_fields content)) with Some b => slen b | None => 0 end.

(** The claims [generate] signs. *)
Definition generate_claims s (content : gmap string Value) (aud : list string) (jti : Uuid)
    (now exp : Z) : StandardClaims :=
  mkClaims (cfg_issuer (cfg s)) (v ← content !! "sub"; as_str v) (Some aud)
    (timestamp exp) (timestamp now) (uuid_to_string jti)
    (<["token_type" := VString "custom_jwt"]> (strip_reserved content)).

Definition generate s (req : GenerateRequest) : M TokenResponse :=
  if gr_expiration_in_minutes req <=? 0 then throw (BadRequest "expirationInMinutes must be > 0")
  else if max_claims_bytes (cfg s) <? content_len (gr_content req) then
    throw (PayloadTooLarge (max_claims_bytes (cfg s)))
  else
    aud ← lift (resolve_audience (audience (cfg s)) (gr_audience req));
    jti ← new_v4;
    now ← utc_now;
    d ← or_panic (td_minutes (gr_expiration_in_minutes req));
    exp ← or_panic (add_signed now d);
    let claims := generate_claims s (gr_content req) aud jti now exp in
    token ← lift (sign (signer s) (claims_to_json claims));
    id ← new_v4;
    _ ← sql (insert_metadata id jti (join_keys (extra claims)) now exp (sub claims)
               (Some (gr_jwt_name req)) (Some (join "," aud)) (Some (cfg_issuer (cfg s))) None jti);
    mret (mkTokenResponse "created" (gr_jwt_name req) token exp).

(** ** [validate] *)

Definition denylist_lookup (jti : Uuid) : M bool :=
  row ← sql (select_denylist jti);
  mret (bool_decide (is_Some row)).

Definition is_denylisted (jti : Uuid) : M bool := denylist_lookup jti.

Definition validate s (req : ValidateRequest) : M ValidateResponse :=
  decoded ← verify_raw (signer s) claims_of_json (vr_token req) permissive_validation;
  match decoded with
  | Err e => mret (undecoded (classify_jwt_error e))
  | Ok d =>
      let claims := td_claims d in
      now ← utc_now;
      match claims_fault (audience (cfg s)) req claims (timestamp now) with
      | Some (valid, reason) => mret (response_from claims valid false reason)
      | None =>
          jti ← lift (ok_or (uuid_parse (jti claims)) (BadRequest "token jti is not a UUID"));
          revoked ← is_denylisted jti;
          if revoked : bool then mret (response_from claims true false "revoked")
          else mret (response_from_valid claims)
      end
  end.

(** [Validation::new(RS256)] with [exp] enforced and the default leeway. *)
Definition bearer_validation : Validation :=
  let v := Validation_new RS256 in
  mkValidation (v_algorithms v) (v_leeway v) true (v_validate_nbf v) false [] (v_iss v).

Definition authenticate_bearer s (token : string) : M string :=
  decoded ← verify (signer s) claims_of_json token bearer_validation;
  d ← lift (map_err (fun _ => Unauthorized) decoded);
  let claims := td_claims d in
  jti ← lift (ok_or (uuid_parse (jti claims)) Unauthorized);
  revoked ← denylist_lookup jti;
  if revoked : bool then throw Unauthorized
  else lift (ok_or (sub claims) Unauthorized).

(** ** [revoke] *)

Definition revoke_by_jti (jti : Uuid) (reason : option string) : M (option bool) :=
  row ← sql (select_latest jti);
  match row with
  | None => mret None
  | Some r =>
      n ← sql (insert_denylist jti (m_expires_at r) reason);
      mret (Some (n =? 1))
  end.

Definition revoke s (token : string) (reason : option string) : M bool :=
  decoded ← verify (signer s) claims_of_json token permissive_validation;
  d ← lift (map_err (fun _ => BadRequest "token signature invalid; nothing to revoke") decoded);
  let claims := td_claims d in
  jti ← lift (ok_or (uuid_parse (jti claims)) (BadRequest "token jti is not a UUID"));
  exp ← lift (ok_or (from_timestamp (exp claims)) (BadRequest "token exp out of range"));
  n ← sql (insert_denylist jti exp reason);
  mret (n =? 1).

(** What [bulk_revoke] records of one token. *)
Definition bulk_item (token : string) (r : Result bool TimError) : BulkRevokeItem :=
  match r with
  | Ok true => mkBulkRevokeItem token "revoked" None
  | Ok false => mkBulkRevokeItem token "already" None
  | Err e => mkBulkRevokeItem token "failed" (Some (display e))
  end.

Definition bulk_add (token : string) (r : Result bool TimError) (acc : BulkRevokeResponse) :
    BulkRevokeResponse :=
  let '(mkBulkRevokeResponse n a f l) := acc in
  match r with
  | Ok true => mkBulkRevokeResponse (n + 1) a f (l ++ [bulk_item token r])
  | Ok false => mkBulkRevokeResponse n (a + 1) f (l ++ [bulk_item token r])
  | Err _ => mkBulkRevokeResponse n a (f + 1) (l ++ [bulk_item token r])
  end.

(** The [for] loop. *)
Fixpoint bulk_loop s (reason : option string) (toks : list string) (acc : BulkRevokeResponse) :
    M BulkRevokeResponse :=
  match toks with
  | [] => mret acc
  | tok :: toks' =>
      r ← attempt (revoke s tok reason);
      bulk_loop s reason toks' (bulk_add tok r acc)
  end.

Definition bulk_revoke s (req : BulkRevokeRequest) : M BulkRevokeResponse :=
  match br_tokens req with
  | [] => throw (BadRequest "tokens must not be empty")
  | _ =>
      if bulk_revoke_max (cfg s) <? Z.of_nat (length (br_tokens req)) then
        throw (BadRequest ("tokens exceeds bulk_revoke_max (" +:+ pretty (bulk_revoke_max (cfg s)) +:+ ")"))
      else bulk_loop s (br_reason req) (br_tokens req) (mkBulkRevokeResponse 0 0 0 [])
  end.

(** ** [extend] *)

(** What the reads of [extend] establish about the token and its chain. *)
Record Extendable := mkExtendable {
  x_old : StandardClaims;
  x_now : Z;
  x_old_jti : Uuid;
  x_original : Uuid;
  x_prev_row : option Uuid;
  x_jwt_name : option string;
}.

(** The first half: checks and reads, each its own statement. *)
Definition extend_check s (token : string) : M Extendable :=
  decoded ← verify (signer s) claims_of_json token permissive_validation;
  d ← lift (map_err (fun _ => BadRequest "token signature invalid; cannot extend") decoded);
  let old := td_claims d in
  now ← utc_now;
  if exp old <? timestamp now then throw (Unprocessable "token already expired")
  else
    old_jti ← lift (ok_or (uuid_parse (jti old)) (BadRequest "token jti is not a UUID"));
    revoked ← is_denylisted old_jti;
    if revoked : bool then throw (Unprocessable "token already revoked")
    else
      row ← sql (select_latest old_jti);
      mret (match row with
            | Some r => mkExtendable old now old_jti (m_original r) (Some (m_id r)) (m_jwt_name r)
            | None => mkExtendable old now old_jti old_jti None None
            end).

(** [entry("token_type").or_insert_with(..)] *)
Definition ensure_token_type (m : gmap string Value) : gmap string Value :=
  match m !! "token_type" with
  | Some _ => m
  | None => <["token_type" := VString "custom_jwt"]> m
  end.

Definition extend_claims s (old : StandardClaims) (jti : Uuid) (now exp : Z) : StandardClaims :=
  mkClaims (cfg_issuer (cfg s)) (sub old) (aud old) (timestamp exp) (timestamp now)
    (uuid_to_string jti) (ensure_token_type (extra old)).

(** The second half: sign the successor, then record it and retire the old
    token in one transaction. *)
Definition extend_issue s (req : ExtendRequest) (x : Extendable) : M TokenResponse :=
  let exp_minutes := default 60 (er_expiration_in_minutes req) in
  if exp_minutes <=? 0 then throw (BadRequest "expirationInMinutes must be > 0")
  else
    d ← or_panic (td_minutes exp_minutes);
    new_exp ← or_panic (add_signed (x_now x) d);
    new_jti ← new_v4;
    let claims := extend_claims s (x_old x) new_jti (x_now x) new_exp in
    token ← lift (sign (signer s) (claims_to_json claims));
    _ ← transaction (fun begun =>
      id ← new_v4;
      _ ← stmt begun (insert_metadata id new_jti (join_keys (extra claims)) (x_now x) new_exp
                        (sub (x_old x)) (x_jwt_name x)
                        (Some (default "" (join "," <$> aud (x_old x))))
                        (Some (cfg_issuer (cfg s))) (x_prev_row x) (x_original x));
      old_exp ← lift (ok_or (from_timestamp (exp (x_old x))) (BadRequest "old exp out of range"));
      stmt begun (insert_denylist (x_old_jti x) old_exp (Some "superseded_by_extend")));
    mret (mkTokenResponse "extended" (default "EXTENDED_TOKEN" (x_jwt_name x)) token new_exp).

Definition extend s (req : ExtendRequest) : M TokenResponse :=
  x ← extend_check s (er_token req);
  extend_issue s req x.

(** ** [list_for_subject] *)

Definition denylist_entry (jti : Uuid) : M (option Z * option string) :=
  row ← sql (select_denylist jti);
  mret (match row with
        | Some r => (Some (d_denylisted_at r), d_reason r)
        | None => (None, None)
        end).

(** Page size, page number and row offset. *)
Definition list_page (req : ListRequest) : Z * Z * Z :=
  let size := clamp (default 20 (lr_limit req)) 1 200 in
  let off := Z.max (default 0 (lr_offset req)) 0 in
  if lr_by_row req then (size, Z.quot off size, off) else (size, off, i64_mul off size).

Definition summary (r : MetaRow) (now : Z) (entry : option Z * option string) : TokenSummary :=
  mkTokenSummary (uuid_to_string (m_jwt_uuid r)) (m_subject r) (m_jwt_name r) (m_issued_at r)
    (m_expires_at r) (m_issuer r) (m_audience r)
    (match fst entry with
     | Some _ => "revoked"
     | None => if m_expires_at r <? now then "expired" else "active"
     end) (fst entry) (snd entry).

(** The [for] loop over the rows. *)
Fixpoint summaries (now : Z) (rows : list MetaRow) : M (list TokenSummary) :=
  match rows with
  | [] => mret []
  | r :: rows' =>
      entry ← denylist_entry (m_jwt_uuid r);
      rest ← summaries now rows';
      mret (summary r now entry :: rest)
  end.

Definition list_for_subject (subject : string) (req : ListRequest) : M ListResponse :=
  let '(size, page, row_offset) := list_page req in
  rows ← sql (select_list subject req size row_offset);
  total ← sql (select_count subject req);
  now ← utc_now;
  toks ← summaries now rows;
  let total_pages :=
    if size =? 0 then 0 else Z.quot (i64_sub (i64_add total size) 1) size in
  mret (mkListResponse toks (mkPagination total row_offset size page size total_pages)).
End JwtService.

(** ** What the service may change

    [grows w w']: rows were appended to [jwt_metadata], entries were added to
    the denylist and none was changed or removed; nothing else was touched. *)
Record grows (w w' : World) : Prop := {
  grows_metadata : metadata (pg w) `prefix_of` metadata (pg w');
  grows_denylist : denylist (pg w) ⊆ denylist (pg w');
  grows_rest : oauth_state (pg w') = oauth_state (pg w) /\ session_rows (pg w') = session_rows (pg w)
    /\ mem_sessions w' = mem_sessions w /\ discovery_cache w' = discovery_cache w
    /\ jwks_cache w' = jwks_cache w;
  grows_tick : (tick w <= tick w')%nat;
}.

#[export] Instance grows_preorder : PreOrder grows.
Proof.
  split; [by intros w; split|].
  intros w1 w2 w3 [? ? (?&?&?&?&?) ?] [? ? (?&?&?&?&?) ?]. split.
  - by etrans.
  - by etrans.
  - repeat split; congruence.
  - lia.
Qed.

Lemma grows_bump w : grows w (bump w).
Proof. split; try done. simpl. lia. Qed.

Lemma grows_same_state w w' : same_state w w' -> grows w w'.
Proof. intros (E & ? & ? & ? & ?). split; rewrite ?E; done. Qed.

Lemma grows_rollback w w1 : grows (bump w) w1 -> grows w (with_pg (pg w) w1).
Proof. intros [_ _ (_&_&?&?&?) Ht]. split; try done. simpl in *. lia. Qed.

Lemma preserves_same_grows {A} (m : M A) : preserves same_state m -> preserves grows m.
Proof. intros Hm w. eapply wp_mono; [apply Hm|]. intros. by apply grows_same_state. Qed.

(** The token tables stand still and time passes. *)
Definition tokens_kept (w w' : World) : Prop :=
  metadata (pg w') = metadata (pg w) /\ denylist (pg w') = denylist (pg w) /\ (tick w <= tick w')%nat.

#[export] Instance tokens_kept_preorder : PreOrder tokens_kept.
Proof.
  split; [by intros w|]. intros w1 w2 w3 (? & ? & ?) (? & ? & ?).
  split; [congruence|]. split; [congruence|lia].
Qed.

(** A statement that reads leaves the database alone. *)
Definition reads_only {A} (q : Sql A) : Prop := forall now p, snd (q now p) = p.

Lemma select_denylist_reads j : reads_only (select_denylist j).
Proof. done. Qed.
Lemma select_latest_reads j : reads_only (select_latest j).
Proof. done. Qed.
Lemma select_list_reads sub req size off : reads_only (select_list sub req size off).
Proof. intros now p. unfold select_list. by case_match. Qed.
Lemma select_count_reads sub req : reads_only (select_count sub req).
Proof. done. Qed.

Create HintDb effects discriminated.
#[export] Hint Resolve select_denylist_reads select_latest_reads select_list_reads
  select_count_reads : effects.

Lemma with_pg_same_state w : same_state w (with_pg (pg w) (bump w)).
Proof. repeat split. simpl. lia. Qed.

Lemma preserves_same_reads `{Env} {A} (q : Sql A) : reads_only q -> preserves same_state (sql q).
Proof.
  intros Hq. apply preserves_sql; [apply same_state_bump|].
  intros now w. rewrite Hq. apply with_pg_same_state.
Qed.

Lemma insert_metadata_grows id j ck i e su n a iu sp o now p :
  snd (insert_metadata id j ck i e su n a iu sp o now p) = p \/
  snd (insert_metadata id j ck i e su n a iu sp o now p)
  = with_metadata (metadata p ++ [mkMeta id j now ck i e su n a iu sp o]) p.
Proof. unfold insert_metadata. case_match; simpl; auto. Qed.

Lemma insert_denylist_grows j e r now p :
  denylist p ⊆ denylist (snd (insert_denylist j e r now p)) /\
  snd (insert_denylist j e r now p)
  = with_denylist (denylist (snd (insert_denylist j e r now p))) p.
Proof.
  unfold insert_denylist. destruct (denylist p !! j) eqn:E; simpl; [by destruct p|].
  split; [by apply insert_subseteq|done].
Qed.

Lemma grows_with_metadata w l : grows w (with_pg (with_metadata (metadata (pg w) ++ l) (pg w)) (bump w)).
Proof. split; simpl; try done; [by apply prefix_app_r|lia]. Qed.

Lemma grows_insert_metadata id j ck i e su n a iu sp o now w :
  grows w (with_pg (snd (insert_metadata id j ck i e su n a iu sp o now (pg w))) (bump w)).
Proof.
  destruct (insert_metadata_grows id j ck i e su n a iu sp o now (pg w)) as [-> | ->].
  - apply grows_same_state, with_pg_same_state.
  - apply grows_with_metadata.
Qed.

Lemma grows_insert_denylist j e r now w :
  grows w (with_pg (snd (insert_denylist j e r now (pg w))) (bump w)).
Proof.
  destruct (insert_denylist_grows j e r now (pg w)) as [Hs ->]. split; simpl; try done. lia.
Qed.

(** Decompose a computation for [preserves], leaving its statements. *)
Ltac preserve :=
  repeat match goal with
  | |- preserves _ (mbind _ _) => apply preserves_bind; [apply _| |intros ?]
  | |- preserves _ (mret _) => by apply preserves_ret, _
  | |- preserves _ (throw _) => by apply preserves_throw, _
  | |- preserves _ (lift _) => by apply preserves_lift, _
  | |- preserves _ (or_panic _) => by apply preserves_or_panic, _
  | |- preserves _ (attempt _) => apply preserves_attempt
  | |- preserves grows utc_now => apply preserves_ask, grows_bump
  | |- preserves grows new_v4 => apply preserves_ask, grows_bump
  | |- preserves grows (verify_raw _ _ _ _) => apply preserves_same_grows, verify_raw_same
  | |- preserves grows (sql (insert_metadata _ _ _ _ _ _ _ _ _ _ _)) =>
      apply preserves_sql; [apply grows_bump|intros; apply grows_insert_metadata]
  | |- preserves grows (sql (insert_denylist _ _ _)) =>
      apply preserves_sql; [apply grows_bump|intros; apply grows_insert_denylist]
  | |- preserves grows (stmt _ (insert_metadata _ _ _ _ _ _ _ _ _ _ _)) =>
      apply preserves_stmt; [apply grows_bump|intros; apply grows_insert_metadata]
  | |- preserves grows (stmt _ (insert_denylist _ _ _)) =>
      apply preserves_stmt; [apply grows_bump|intros; apply grows_insert_denylist]
  | |- preserves grows (sql _) => apply preserves_same_grows, preserves_same_reads; auto with effects
  | |- preserves grows (transaction _) =>
      apply preserves_transaction; [apply _|apply grows_bump|apply grows_rollback|intros ?]
  | |- preserves _ (match ?x with _ => _ end) => destruct x
  end.

Section Grows.
Context `{Env, Jose, Chrono, UuidLib, SerdeJson}.
Implicit Type s : JwtService.

Lemma denylist_lookup_grows j : preserves grows (denylist_lookup j).
Proof. unfold denylist_lookup. preserve. Qed.

Lemma verify_grows {C} s (de : Deserializer C) t v : preserves grows (verify (signer s) de t v).
Proof. unfold verify. preserve. Qed.
#[local] Hint Resolve denylist_lookup_grows verify_grows : effects.

Lemma generate_grows s req : preserves grows (generate s req).
Proof. unfold generate. preserve. Qed.

Lemma validate_grows s req : preserves grows (validate s req).
Proof. unfold validate, is_denylisted. preserve; auto with effects. Qed.

Lemma authenticate_bearer_grows s t : preserves grows (authenticate_bearer s t).
Proof. unfold authenticate_bearer. preserve; auto with effects. Qed.

Lemma revoke_grows s t r : preserves grows (revoke s t r).
Proof. unfold revoke. preserve; auto with effects. Qed.

Lemma revoke_by_jti_grows j r : preserves grows (revoke_by_jti j r).
Proof. unfold revoke_by_jti. preserve; auto with effects. Qed.

Lemma bulk_loop_grows s r toks acc : preserves grows (bulk_loop s r toks acc).
Proof.
  revert acc. induction toks as [|t toks IH]; intros acc; simpl; preserve; auto using revoke_grows.
Qed.

Lemma bulk_revoke_grows s req : preserves grows (bulk_revoke s req).
Proof. unfold bulk_revoke. preserve; auto using bulk_loop_grows. Qed.

Lemma extend_check_grows s t : preserves grows (extend_check s t).
Proof. unfold extend_check, is_denylisted. preserve; auto with effects. Qed.

Lemma extend_issue_grows s req x : preserves grows (extend_issue s req x).
Proof. unfold extend_issue. preserve. Qed.

Lemma extend_grows s req : preserves grows (extend s req).
Proof. unfold extend. preserve; auto using extend_check_grows, extend_issue_grows. Qed.

Lemma summaries_grows now rows : preserves grows (summaries now rows).
Proof.
  induction rows as [|r rows IH]; simpl; preserve; auto. unfold denylist_entry. preserve.
Qed.

Lemma list_for_subject_grows sub req : preserves grows (list_for_subject sub req).
Proof.
  unfold list_for_subject. destruct (list_page req) as [[? ?] ?]. preserve; auto using summaries_grows.
Qed.
End Grows.

Lemma latest_Some j l r : latest j l = Some r -> r ∈ l /\ m_jwt_uuid r = j.
Proof.
  revert r. induction l as [|x l IH]; intros r; simpl; [done|].
  assert (forall r', latest j l = Some r' -> r' ∈ x :: l /\ m_jwt_uuid r' = j) as IH'.
  { intros r' Hr'. destruct (IH r' Hr'). split; [by apply list_elem_of_further|done]. }
  destruct (N.eqb_spec (m_jwt_uuid x) j) as [Ex|]; [|auto].
  assert (x ∈ x :: l) by apply list_elem_of_here.
  destruct (latest j l) as [r'|]; [destruct (_ <? _)|]; intros [= <-]; auto.
Qed.

Lemma latest_None j l : latest j l = None -> forall r, r ∈ l -> m_jwt_uuid r ≠ j.
Proof.
  induction l as [|x l IH]; simpl; [intros _ r Hr; by apply not_elem_of_nil in Hr|].
  destruct (N.eqb_spec (m_jwt_uuid x) j) as [Ex|].
  - destruct (latest j l); [destruct (_ <? _)|]; done.
  - intros Hn r [->|Hr]%elem_of_cons; [done|by apply IH].
Qed.
