(* ===== verification/JwtTheorems.v ===== *)
(** What the token service promises, method by method: [validate] answers
    [active] exactly for the live tokens of this signer, a generated token is
    live until it expires or is revoked, [revoke] and [bulk_revoke] retire
    tokens and count them truly, [extend] is all or nothing. *)
From S2P Require Import Prelude Str Chrono Json Error World Effects Jose Claims Config Crypto.
From S2P Require Import JwtApi JwtService.

(** The denylist, as an abstract set: the token identifiers that are revoked. *)
Definition is_revoked (j : Uuid) (w : World) : Prop := is_Some (denylist (pg w) !! j).

#[export] Instance is_revoked_dec j w : Decision (is_revoked j w).
Proof. unfold is_revoked. apply _. Defined.

(** What the caller and the configuration ask of a token's issuer and audience. *)
Record acceptable (a : AudienceConfig) (req : ValidateRequest) (c : StandardClaims) : Prop := {
  acc_issuer : forall want, vr_issuer req = Some want -> iss c = want;
  acc_audience : forall want, vr_audience req = Some want -> exists l, aud c = Some l /\ want ∈ l;
  acc_allowed : enforced a = true -> exists l x, aud c = Some l /\ x ∈ l /\ x ∈ allowed a;
}.

Lemma aud_exists (c : StandardClaims) (P : string -> bool) :
  match aud c with Some l => existsb P l | None => false end = true <->
  exists l x, aud c = Some l /\ x ∈ l /\ P x = true.
Proof.
  destruct (aud c) as [l|]; [rewrite existsb_exists_bool|]; naive_solver.
Qed.

Lemma claims_fault_None a req c now :
  claims_fault a req c now = None <-> acceptable a req c /\ now <= exp c.
Proof.
  unfold claims_fault. split.
  - destruct (match vr_issuer req with Some _ => _ | None => false end) eqn:E1; [done|].
    destruct (match vr_audience req with Some _ => _ | None => false end) eqn:E2; [done|].
    destruct (enforced a && _) eqn:E3; [done|].
    destruct (Z.ltb_spec (exp c) now); [done|]. intros _. split; [split|lia].
    + intros want Hw. rewrite Hw in E1. by apply negb_false_iff, bool_decide_eq_true in E1.
    + intros want Hw. rewrite Hw in E2. apply negb_false_iff, aud_exists in E2
        as (l & x & ? & ? & ->%bool_decide_eq_true). eauto.
    + intros He. rewrite He in E3. apply negb_false_iff, aud_exists in E3
        as (l & x & ? & ? & ?%bool_decide_eq_true). eauto 6.
  - intros [[H1 H2 H3] Hexp].
    assert (match vr_issuer req with Some want => negb (bool_decide (want = iss c)) | None => false end
      = false) as ->.
    { destruct (vr_issuer req) as [want|]; [|done]. rewrite bool_decide_true; [done|].
      symmetry. by apply H1. }
    assert (match vr_audience req with
      | Some want => negb match aud c with
                          | Some l => existsb (fun a => bool_decide (a = want)) l
                          | None => false end
      | None => false end = false) as ->.
    { destruct (vr_audience req) as [want|]; [|done]. apply negb_false_iff, aud_exists.
      destruct (H2 want) as (l & ? & ?); [done|]. exists l, want. by rewrite bool_decide_true. }
    assert (enforced a && negb match aud c with
                          | Some l => existsb (fun x => bool_decide (x ∈ allowed a)) l
                          | None => false end = false) as ->.
    { destruct (enforced a); [|done]. apply negb_false_iff, aud_exists.
      destruct H3 as (l & x & ? & ? & ?); [done|]. exists l, x. by rewrite bool_decide_true. }
    by destruct (Z.ltb_spec (exp c) now); [lia|].
Qed.

Section Theorems.
Context `{Env, Jose, Chrono, UuidLib, SerdeJson}.
Implicit Type s : JwtService.

(** ** [validate] *)

(** A token is live at [w]: it decodes to the claims [c] with an accepted key,
    its [jti] is a UUID and is not revoked. *)
Record live_token s (token : string) (c : StandardClaims) (w w' : World) : Prop := {
  lt_key : exists h, key_used (signer s) claims_of_json token permissive_validation w w' (mkTokenData h c);
  lt_jti : exists j, uuid_parse (jti c) = Some j /\ ~ is_revoked j w;
}.

Lemma denylist_lookup_Ret j w b w' :
  denylist_lookup j w = (Ret b, w') -> b = bool_decide (is_revoked j w) /\ same_state w w'.
Proof.
  unfold denylist_lookup. intros Hr. minv. apply sql_Ret_inv in E as ([= <- Hp] & -> & _).
  split; [done|]. rewrite <- Hp. apply with_pg_same_state.
Qed.

Lemma key_used_ticks {C} (sg : JwtSigner) (de : Deserializer C) t v w w1 w2 d :
  key_used sg de t v w w1 d -> (tick w1 <= tick w2)%nat -> key_used sg de t v w w2 d.
Proof. intros (k & n & m & ? & ? & ? & ?) ?. exists k, n, m. repeat split; try lia; done. Qed.

Lemma same_state_revoked w w' j : same_state w w' -> is_revoked j w' <-> is_revoked j w.
Proof. intros (E & _). unfold is_revoked. by rewrite E. Qed.

Lemma validate_active_inv s req w r w' :
  validate s req w = (Ret r, w') -> active r = true ->
  exists c n, r = response_from_valid c /\ live_token s (vr_token req) c w w' /\
    acceptable (audience (cfg s)) req c /\
    (tick w <= n < tick w')%nat /\ timestamp (clock n) <= exp c.
Proof.
  unfold validate, is_denylisted. intros Hr Ha. minv.
  destruct (verify_raw_total (signer s) claims_of_json (vr_token req) permissive_validation w)
    as (x & w1 & E1 & Hs). rewrite E1 in E. injection E as <- <-.
  destruct x as [d|e]; minv; [|done].
  apply verify_raw_sound in E1.
  destruct (claims_fault _ _ _ _) as [[v why]|] eqn:Ef; minv; [done|].
  apply denylist_lookup_Ret in E0 as [-> Hs2].
  apply claims_fault_None in Ef as [Hacc Hexp].
  pose proof Hs as (_ & _ & _ & _ & Ht1). pose proof Hs2 as (_ & _ & _ & _ & Ht2). simpl in *.
  case_bool_decide as Hrev; minv; [done|].
  exists (td_claims d), (tick w1).
  split; [done|]. split; [|split; [done|split; [lia|done]]]. split.
  - exists (td_header d). eapply key_used_ticks; [by destruct d|]. lia.
  - exists a. split; [done|]. by rewrite <- (same_state_revoked w w1).
Qed.

(** C1: When validate answers active, the token decodes under a key the signer accepted
    during the call, its jti is a UUID that was not on the denylist, issuer and audience
    are what the request and the configuration ask for, and it had not expired; the
    answer carries exactly its claims. *)
Theorem validate_active s req w r w' :
  validate s req w = (Ret r, w') -> active r = true ->
  exists c n, r = response_from_valid c /\ live_token s (vr_token req) c w w' /\
    acceptable (audience (cfg s)) req c /\
    (tick w <= n < tick w')%nat /\ timestamp (clock n) <= exp c.
Proof. apply validate_active_inv. Qed.

Lemma is_revoked_grows j w w' : grows w w' -> is_revoked j w -> is_revoked j w'.
Proof. intros Hg [row Hrow]. exists row. eapply lookup_weaken; [exact Hrow|apply Hg]. Qed.

(** How [validate] goes on once the token decoded. *)
Lemma validate_dead s req w d w1 r w' j :
  verify_raw (signer s) claims_of_json (vr_token req) permissive_validation w = (Ret (Ok d), w1) ->
  uuid_parse (jti (td_claims d)) = Some j -> is_revoked j w1 ->
  validate s req w = (Ret r, w') -> active r = false.
Proof.
  intros Hv Hj Hrev. unfold validate, is_denylisted. rewrite (run_bind _ _ _ _ _ Hv).
  rewrite run_utc_now.
  destruct (claims_fault _ _ _ _) as [[v why]|]; [by intros [= <- _]|].
  rewrite Hj. simpl ok_or. rewrite run_lift. intros Hr. minv.
  apply denylist_lookup_Ret in E as [-> _]. rewrite bool_decide_true in Hr by done. minv. done.
Qed.

Lemma validate_live s req w d w1 j :
  healthy ->
  verify_raw (signer s) claims_of_json (vr_token req) permissive_validation w = (Ret (Ok d), w1) ->
  acceptable (audience (cfg s)) req (td_claims d) ->
  timestamp (clock (tick w1)) <= exp (td_claims d) ->
  uuid_parse (jti (td_claims d)) = Some j -> ~ is_revoked j w1 ->
  exists w', validate s req w = (Ret (response_from_valid (td_claims d)), w') /\ same_state w1 w'.
Proof.
  intros Hh Hv Hacc Hexp Hj Hrev. unfold validate, is_denylisted, denylist_lookup.
  rewrite (run_bind _ _ _ _ _ Hv), run_utc_now.
  rewrite (proj2 (claims_fault_None _ _ _ _)) by done. rewrite Hj. simpl ok_or. rewrite run_lift.
  erewrite run_bind; [|by erewrite run_bind; [|apply run_sql; [by apply healthy_not_broken | reflexivity]]].
  rewrite bool_decide_false by done. eexists. split; [reflexivity|].
  repeat split. simpl. lia.
Qed.

(** ** Tokens of this signer *)

(** The signer's keys belong together. *)
Record good_signer `{JoseLaws} (sg : JwtSigner) : Prop := {
  gs_kids : distinct_kids sg;
  gs_keys : keys_match (encoding (current sg)) (decoding (current sg));
}.

(** [token] carries the claims [c], signed with the current key. *)
Record signed s (token : string) (c : StandardClaims) : Prop := {
  sg_token : sign (signer s) (claims_to_json c) = Ok token;
  sg_extra : extra_ok c;
  sg_exp : in_i64 (exp c);
  sg_iat : in_i64 (iat c);
  sg_float : forall k v, extra c !! k = Some v -> float_free v = true;
}.

(** The process clock stays within the calendar. *)
Definition sane_clock : Prop := forall n, in_utc (clock n) = true.

Section Signed.
Context {CL : ChronoLaws _} {UL : UuidLaws _} {JL : JoseLaws _}.

Lemma signed_verifies s token c v w :
  good_signer (signer s) -> signed s token c -> permissive v -> RS256 ∈ v_algorithms v ->
  exists h w1, verify_raw (signer s) claims_of_json token v w = (Ret (Ok (mkTokenData h c)), w1)
    /\ same_state w w1.
Proof.
  intros [Hk Hm] [Hs Hx He Hi Hf] Hp Ha.
  destruct (sign_verify_roundtrip (signer s) claims_of_json (claims_to_json c) token c v w)
    as (w1 & E & Hsame); try done; [by apply float_free_claims | by apply claims_roundtrip|].
  eauto.
Qed.

Lemma permissive_validation_permissive :
  permissive permissive_validation /\ RS256 ∈ v_algorithms permissive_validation.
Proof. split; [done | by apply list_elem_of_singleton]. Qed.

Lemma strip_reserved_ok s content aud j now e : extra_ok (generate_claims s content aud j now e).
Proof.
  intros k Hk. simpl. rewrite lookup_insert_ne.
  - rewrite strip_reserved_lookup. rewrite decide_True; [done|].
    unfold typed_members, RESERVED_CLAIM_NAMES in *. set_solver.
  - intros <-. unfold typed_members in Hk. set_solver.
Qed.

Lemma generate_claims_signed s content aud j now e token :
  in_utc now = true -> in_utc e = true ->
  (forall k v, content !! k = Some v -> float_free v = true) ->
  sign (signer s) (claims_to_json (generate_claims s content aud j now e)) = Ok token ->
  signed s token (generate_claims s content aud j now e).
Proof.
  intros Hn He Hf Hs. split; [done|apply strip_reserved_ok|by apply timestamp_i64..|].
  intros k v. simpl. intros [[<- <-]|[_ Hv]]%lookup_insert_Some; [done|].
  rewrite strip_reserved_lookup in Hv. case_decide; [done|]. by eapply Hf.
Qed.

Lemma add_signed_in_utc dt d r : add_signed dt d = Some r -> in_utc r = true.
Proof. unfold add_signed. destruct (in_utc (dt + d)) eqn:E; [|done]. by intros [= <-]. Qed.

(** What a successful [generate] did. *)
Lemma generate_Ret s req w r w' :
  generate s req w = (Ret r, w') ->
  exists aud j now id created,
    resolve_audience (audience (cfg s)) (gr_audience req) = Ok aud /\
    j = uuid_v4 (tick w) /\ now = clock (S (tick w)) /\ 0 < gr_expiration_in_minutes req /\
    tr_expires_at r = now + gr_expiration_in_minutes req * 60 * MICROS /\
    in_utc (tr_expires_at r) = true /\ tr_jwt_name r = gr_jwt_name req /\
    content_len (gr_content req) <= max_claims_bytes (cfg s) /\
    let c := generate_claims s (gr_content req) aud j now (tr_expires_at r) in
    sign (signer s) (claims_to_json c) = Ok (tr_token r) /\
    pg w' = with_metadata (metadata (pg w) ++
      [mkMeta id j created (join_keys (extra c)) now (tr_expires_at r) (sub c) (Some (gr_jwt_name req))
         (Some (join "," aud)) (Some (cfg_issuer (cfg s))) None j]) (pg w) /\
    (tick w < tick w')%nat.
Proof.
  unfold generate. destruct (Z.leb_spec (gr_expiration_in_minutes req) 0); [done|].
  destruct (Z.ltb_spec (max_claims_bytes (cfg s)) (content_len (gr_content req))); [done|].
  intros Hr. minv. apply sql_Ret_inv in E6 as (Hq & Hw & _). rewrite Hw. simpl.
  unfold insert_metadata in Hq. destruct (existsb _ _); [done|]. injection Hq as _ Hp.
  apply td_minutes_Some in E2 as ->. pose proof (add_signed_in_utc _ _ _ E3).
  apply add_signed_Some in E3 as ->.
  eexists a, _, _, _, _. rewrite <- Hp. repeat split; try done. simpl. lia.
Qed.

(** A signed token is live until it expires or is revoked .. *)
Lemma signed_live s vreq c j w :
  good_signer (signer s) -> healthy -> signed s (vr_token vreq) c -> uuid_parse (jti c) = Some j ->
  acceptable (audience (cfg s)) vreq c -> ~ is_revoked j w ->
  (forall n, (tick w <= n)%nat -> timestamp (clock n) <= exp c) ->
  exists w', validate s vreq w = (Ret (response_from_valid c), w') /\ pg w' = pg w.
Proof.
  intros Hg Hh Hsig Hj Hacc Hrev Hlive.
  destruct (signed_verifies s _ _ permissive_validation w Hg Hsig) as (h & w1 & Hv & Hsame);
    [apply permissive_validation_permissive..|].
  pose proof Hsame as (Epg & _ & _ & _ & Ht).
  destruct (validate_live s vreq w _ _ j Hh Hv) as (w2 & E & Hs2); simpl; try done.
  - apply Hlive. lia.
  - by rewrite (same_state_revoked _ _ _ Hsame).
  - exists w2. split; [exact E|]. destruct Hs2 as (E2 & _). by rewrite E2.
Qed.

(** .. and not after. *)
Lemma signed_dead s vreq c j w v w' :
  good_signer (signer s) -> signed s (vr_token vreq) c -> uuid_parse (jti c) = Some j ->
  is_revoked j w \/ (forall n, (tick w <= n)%nat -> exp c < timestamp (clock n)) ->
  validate s vreq w = (Ret v, w') -> active v = false.
Proof.
  intros Hg Hsig Hj Hdead Hval.
  destruct (signed_verifies s _ _ permissive_validation w Hg Hsig) as (h & w1 & Hv & Hsame);
    [apply permissive_validation_permissive..|].
  destruct Hdead as [Hrev|Hexp].
  - eapply validate_dead; [exact Hv|done| |exact Hval]. by rewrite (same_state_revoked _ _ _ Hsame).
  - revert Hval. unfold validate. rewrite (run_bind _ _ _ _ _ Hv), run_utc_now. simpl td_claims.
    destruct (claims_fault _ _ _ _) as [[v' why]|] eqn:Ef; [by intros [= <- _]|].
    apply claims_fault_None in Ef as [_ Hle]. destruct Hsame as (_ & _ & _ & _ & Ht).
    specialize (Hexp (tick w1) Ht). simpl in Hle. lia.
Qed.

(** The token [generate] hands out is the signed one of its claims. *)
Lemma generate_signed s req w r w1 :
  sane_clock -> (forall k v, gr_content req !! k = Some v -> float_free v = true) ->
  generate s req w = (Ret r, w1) ->
  exists aud,
    resolve_audience (audience (cfg s)) (gr_audience req) = Ok aud /\
    tr_expires_at r = clock (S (tick w)) + gr_expiration_in_minutes req * 60 * MICROS /\
    signed s (tr_token r) (generate_claims s (gr_content req) aud (uuid_v4 (tick w)) (clock (S (tick w))) (tr_expires_at r)).
Proof.
  intros Hclk Hf (aud & j & now & id & created & Haud & -> & -> & _ & Hexp & Hin & _ & _ & Hs & _)%generate_Ret.
  exists aud. split; [done|]. split; [done|].
  exact (generate_claims_signed s _ aud (uuid_v4 (tick w)) _ _ _ (Hclk (S (tick w))) Hin Hf Hs).
Qed.

(** A generated token has an audience the configuration resolves, expires after
    exactly the requested minutes, and validates with the claims it was generated from
    as long as it is acceptable, unrevoked and unexpired; after its expiry it never
    validates as active. *)
Theorem generate_valid s req w r w1 :
  good_signer (signer s) -> sane_clock -> healthy ->
  (forall k v, gr_content req !! k = Some v -> float_free v = true) ->
  generate s req w = (Ret r, w1) ->
  exists aud j now,
    resolve_audience (audience (cfg s)) (gr_audience req) = Ok aud /\
    tr_expires_at r = now + gr_expiration_in_minutes req * 60 * MICROS /\
    let c := generate_claims s (gr_content req) aud j now (tr_expires_at r) in
    forall vreq w2, vr_token vreq = tr_token r ->
      (acceptable (audience (cfg s)) vreq c -> ~ is_revoked j w2 ->
       (forall n, (tick w2 <= n)%nat -> clock n <= tr_expires_at r) ->
       exists w3, validate s vreq w2 = (Ret (response_from_valid c), w3) /\ pg w3 = pg w2) /\
      ((forall n, (tick w2 <= n)%nat -> timestamp (tr_expires_at r) < timestamp (clock n)) ->
       forall v w3, validate s vreq w2 = (Ret v, w3) -> active v = false).
Proof.
  intros Hg Hclk Hh Hf Hgen. destruct (generate_signed s req w r w1 Hclk Hf Hgen) as (aud & Haud & Hexp & Hsig).
  exists aud, (uuid_v4 (tick w)), (clock (S (tick w))). split; [done|]. split; [done|].
  intros c vreq w2 Htok. rewrite <- Htok in Hsig. pose proof (uuid_roundtrip (uuid_v4 (tick w))) as Hj. split.
  - intros Hacc Hrev Hlive. eapply signed_live; try done. intros n Hn. by apply timestamp_le, Hlive.
  - intros Hdead v w3 Hval. eapply signed_dead; [done|exact Hsig|exact Hj|by right|exact Hval].
Qed.

Lemma verified_signed s token c v w r w1 :
  good_signer (signer s) -> signed s token c -> permissive v -> RS256 ∈ v_algorithms v ->
  verify (signer s) claims_of_json token v w = (Ret r, w1) ->
  exists h, r = Ok (mkTokenData h c) /\ same_state w w1.
Proof.
  intros Hg Hsig Hp Ha Hv. destruct (signed_verifies s token c v w Hg Hsig Hp Ha) as (h & w2 & E & Hs).
  rewrite (verify_run _ _ _ _ _ _ _ E) in Hv. injection Hv as <- <-. by exists h.
Qed.

(** The denylist statement: the entry is there afterwards, and the first one stays. *)
Lemma insert_denylist_run j e reason now p n p' :
  insert_denylist j e reason now p = (Ok n, p') ->
  is_Some (denylist p' !! j) /\ (n =? 1) = bool_decide (denylist p !! j = None) /\
  (denylist p !! j = None -> p' = with_denylist (<[j := mkDeny now now e reason]> (denylist p)) p) /\
  (denylist p !! j ≠ None -> p' = p).
Proof.
  unfold insert_denylist. destruct (denylist p !! j) eqn:E; intros [= <- <-].
  - rewrite E. repeat split; [by eauto|done].
  - simpl. rewrite lookup_insert_eq. repeat split; [by eauto|done].
Qed.

(** What a [revoke] that returned did. *)
Lemma revoke_Ret s token reason w b w1 :
  revoke s token reason w = (Ret b, w1) ->
  exists d w0 j e now,
    verify (signer s) claims_of_json token permissive_validation w = (Ret (Ok d), w0) /\
    uuid_parse (jti (td_claims d)) = Some j /\ from_timestamp (exp (td_claims d)) = Some e /\
    b = bool_decide (~ is_revoked j w) /\ is_revoked j w1 /\
    (b = true -> pg w1 = with_denylist (<[j := mkDeny now now e reason]> (denylist (pg w))) (pg w)) /\
    (b = false -> pg w1 = pg w).
Proof.
  unfold revoke. intros Hr. minv. subst. apply sql_Ret_inv in E3 as (Hq & _ & _).
  destruct (verify_raw_total (signer s) claims_of_json token permissive_validation w) as (x & wv & Ev & Hs).
  pose proof E as Hv. rewrite (verify_run _ _ _ _ _ _ _ Ev) in Hv. injection Hv as _ <-.
  destruct Hs as (Epg & _). rewrite Epg in Hq.
  apply insert_denylist_run in Hq as (Hin & Hn & Hnew & Hold). rewrite Hn.
  eexists a0, _, a1, a2, _. split; [exact E|]. repeat split; try done.
  - apply bool_decide_ext. unfold is_revoked. by rewrite eq_None_not_Some.
  - intros Hb%bool_decide_eq_true. by rewrite (Hnew Hb).
  - intros Hb%bool_decide_eq_false. by apply Hold.
Qed.

(** Revoking a signed token puts its jti on the denylist, reports whether it was new
    there, and no later state of the database lets validate answer active for it. *)
Theorem revoke_final s token c j reason w b w1 :
  good_signer (signer s) -> signed s token c -> uuid_parse (jti c) = Some j ->
  revoke s token reason w = (Ret b, w1) ->
  is_revoked j w1 /\ b = bool_decide (~ is_revoked j w) /\
  forall w2 vreq v w3, grows w1 w2 -> vr_token vreq = token ->
    validate s vreq w2 = (Ret v, w3) -> active v = false.
Proof.
  intros Hg Hsig Hj (d & w0 & j' & e & now & Hv & Hj' & _ & Hb & Hrev & _)%revoke_Ret.
  apply (verified_signed s token c) in Hv as (h & [= ->] & _);
    [|done|done|apply permissive_validation_permissive..].
  simpl in Hj'. replace j' with j in * by congruence. split; [done|]. split; [done|].
  intros w2 vreq v w3 Hgr Htok Hval.
  rewrite <- Htok in Hsig. eapply signed_dead; [done|exact Hsig|exact Hj| |exact Hval].
  left. by eapply is_revoked_grows.
Qed.
End Signed.

(** ** [bulk_revoke] *)

Definition count_status (status : string) (l : list BulkRevokeItem) : Z :=
  Z.of_nat (length (filter (fun i => bi_status i = status) l)).

(** The three counters agree with the list of results. *)
Record tallied (r : BulkRevokeResponse) : Prop := {
  ta_newly : newly_revoked r = count_status "revoked" (results r);
  ta_already : already_revoked r = count_status "already" (results r);
  ta_failed : failed r = count_status "failed" (results r);
  ta_total : newly_revoked r + already_revoked r + failed r = Z.of_nat (length (results r));
}.

Lemma count_status_snoc st l i :
  count_status st (l ++ [i]) = count_status st l + (if decide (bi_status i = st) then 1 else 0).
Proof.
  unfold count_status. rewrite list.filter_app, length_app, Nat2Z.inj_add. f_equal.
  case_decide; [by rewrite filter_cons_True | by rewrite filter_cons_False].
Qed.

Lemma bulk_add_tallied tok r acc : tallied acc -> tallied (bulk_add tok r acc).
Proof.
  destruct acc as [n a f l]. intros [? ? ? ?].
  destruct r as [[]|]; split; simpl in *; rewrite ?count_status_snoc, ?length_app; simpl; lia.
Qed.

Lemma bulk_add_results tok r acc : results (bulk_add tok r acc) = results acc ++ [bulk_item tok r].
Proof. by destruct acc, r as [[]|]. Qed.

(** The token decoded at some moment and its identifier is revoked at [w]. *)
Definition token_revoked s (token : string) (w : World) : Prop :=
  exists wa wb d j, verify (signer s) claims_of_json token permissive_validation wa = (Ret (Ok d), wb) /\
    uuid_parse (jti (td_claims d)) = Some j /\ is_revoked j w.

Lemma token_revoked_grows s token w w' : grows w w' -> token_revoked s token w -> token_revoked s token w'.
Proof.
  intros Hg (wa & wb & d & j & ? & ? & ?). exists wa, wb, d, j. repeat split; try done.
  by eapply is_revoked_grows.
Qed.

Lemma bulk_item_token tok r : bi_token (bulk_item tok r) = tok.
Proof. by destruct r as [[]|]. Qed.

Lemma preserves_run {A} R (m : M A) w o w' : preserves R m -> m w = (o, w') -> R w w'.
Proof. intros Hm E. specialize (Hm w). unfold wp in Hm. by rewrite E in Hm. Qed.

Lemma bulk_loop_Ret s reason toks acc w r w' :
  bulk_loop s reason toks acc w = (Ret r, w') -> tallied acc ->
  tallied r /\ exists items, results r = results acc ++ items /\ map bi_token items = toks /\
    forall i, i ∈ items -> bi_status i ≠ "failed" -> token_revoked s (bi_token i) w'.
Proof.
  revert acc w. induction toks as [|tok toks IH]; intros acc w; simpl.
  - intros Hr Hta. minv. split; [done|]. exists []. rewrite app_nil_r. repeat split; set_solver.
  - intros Hr Hta. minv.
    pose proof (preserves_run _ _ _ _ _ (bulk_loop_grows _ _ _ _) Hr) as Hg.
    apply IH in Hr as (Hta' & items & Hres & Htok & Hdone); [|by apply bulk_add_tallied].
    split; [done|]. exists (bulk_item tok a :: items).
    rewrite Hres, bulk_add_results, <- (assoc_L (++)). split; [done|]. split.
    { simpl. by rewrite bulk_item_token, Htok. }
    intros i [->|Hi]%elem_of_cons Hnf; [|by apply Hdone].
    rewrite bulk_item_token. eapply token_revoked_grows; [exact Hg|].
    apply attempt_Ret_inv in E as [(b & -> & E)|(e & -> & _)]; [|done].
    apply revoke_Ret in E as (d & w2 & j & e & now & Hv & Hj & _ & _ & Hrev & _).
    by exists w, w2, d, j.
Qed.

Lemma revoke_no_panic s tok reason w : fst (revoke s tok reason w) ≠ Panic.
Proof.
  change (wp (revoke s tok reason) w (fun o _ => o ≠ Panic)). unfold revoke. apply wp_bind.
  destruct (verify_raw_total (signer s) claims_of_json tok permissive_validation w) as (x & w0 & E & _).
  unfold wp. rewrite (verify_run _ _ _ _ _ _ _ E). simpl. wp_steps; try done.
  apply wp_sql. intros now. by apply wp_stmt; [|intros ? []|intros ? ? ? []].
Qed.

Lemma bulk_loop_total s reason toks acc w :
  exists o w', bulk_loop s reason toks acc w = (o, w') /\ ((exists r, o = Ret r) \/ exists c, o = Dropped c).
Proof.
  revert acc w. induction toks as [|tok toks IH]; intros acc w; simpl; [eexists _, _; split; [done|left; by eexists]|].
  pose proof (revoke_no_panic s tok reason w) as Hnp. unfold attempt, mbind, M_bind.
  destruct (revoke s tok reason w) as [[b|e| |c] w1]; [apply IH..|done|].
  eexists _, _. split; [done|right; by eexists].
Qed.

(** A bulk revocation that answered. *)
Lemma bulk_revoke_Ret s req w r w' :
  bulk_revoke s req w = (Ret r, w') ->
  br_tokens req ≠ [] /\ tallied r /\ map bi_token (results r) = br_tokens req /\
  forall i, i ∈ results r -> bi_status i ≠ "failed" -> token_revoked s (bi_token i) w'.
Proof.
  unfold bulk_revoke. destruct (br_tokens req) as [|t ts]; [done|]. destruct (_ <? _); [done|].
  intros E. apply bulk_loop_Ret in E as (Hta & items & Hres & Htok & Hdone); [|done].
  simpl in Hres. rewrite Hres. done.
Qed.

(** Bulk revocation of an admissible list always answers unless it is cut off, with
    one item per requested token in order, with counters that are the numbers of
    items of each status, and every token not reported as failed is revoked. *)
Theorem bulk_revoke_tallies s req w :
  (1 <= length (br_tokens req))%nat -> Z.of_nat (length (br_tokens req)) <= bulk_revoke_max (cfg s) ->
  exists o w', bulk_revoke s req w = (o, w') /\
    ((exists c, o = Dropped c) \/
     exists r, o = Ret r /\ tallied r /\ map bi_token (results r) = br_tokens req /\
       forall i, i ∈ results r -> bi_status i ≠ "failed" -> token_revoked s (bi_token i) w').
Proof.
  intros Hlo Hhi. unfold bulk_revoke. destruct (br_tokens req) as [|t ts] eqn:Et; [simpl in Hlo; lia|].
  destruct (Z.ltb_spec (bulk_revoke_max (cfg s)) (Z.of_nat (length (t :: ts)))); [lia|].
  destruct (bulk_loop_total s (br_reason req) (t :: ts) (mkBulkRevokeResponse 0 0 0 []) w)
    as (o & w' & E & [[r ->]|Hd]); eexists _, w'; (split; [exact E|]); [right|by left].
  exists r. split; [done|]. rewrite <- Et. apply (bulk_revoke_Ret s req w).
  unfold bulk_revoke. rewrite Et. by destruct (Z.ltb_spec (bulk_revoke_max (cfg s)) (Z.of_nat (length (t :: ts)))); [lia|].
Qed.

Lemma revoke_size s tok reason w r w' :
  healthy -> attempt (revoke s tok reason) w = (Ret r, w') ->
  base.size (denylist (pg w')) = (base.size (denylist (pg w)) + if decide (r = Ok true) then 1 else 0)%nat.
Proof.
  intros Hh E. apply attempt_Ret_inv in E as [(b & -> & E)|(e & -> & E)].
  - apply revoke_Ret in E as (d & w2 & j & e & now & _ & _ & _ & Hb & _ & Ht & Hf).
    destruct b; simpl.
    + rewrite Ht by done. simpl. symmetry in Hb. apply bool_decide_eq_true in Hb.
      rewrite map_size_insert_None by (by apply eq_None_not_Some). lia.
    + rewrite Hf by done. lia.
  - simpl. enough (pg w' = pg w) as -> by lia.
    assert (wp (revoke s tok reason) w (fun o w' => forall e, o = Throw e -> pg w' = pg w)) as Hw.
    { unfold revoke. apply wp_bind.
      destruct (verify_raw_total (signer s) claims_of_json tok permissive_validation w)
        as (x & w0 & Ev & Hs). unfold wp. rewrite (verify_run _ _ _ _ _ _ _ Ev). simpl.
      destruct Hs as (Epg & _). wp_steps; try done.
      apply wp_sql_healthy; [done|done|]. unfold insert_denylist. intros e' p. by case_match. }
    unfold wp in Hw. rewrite E in Hw. by eapply Hw.
Qed.

(** The counter newly_revoked is the number of entries the denylist gained,
    duplicates in the request included. *)
Theorem bulk_revoke_size s req w r w' :
  healthy -> bulk_revoke s req w = (Ret r, w') ->
  Z.of_nat (base.size (denylist (pg w'))) = Z.of_nat (base.size (denylist (pg w))) + newly_revoked r.
Proof.
  intros Hh. unfold bulk_revoke. destruct (br_tokens req) as [|t ts]; [done|].
  destruct (_ <? _); [done|].
  assert (forall toks acc w, bulk_loop s (br_reason req) toks acc w = (Ret r, w') ->
    Z.of_nat (base.size (denylist (pg w'))) + newly_revoked acc
    = Z.of_nat (base.size (denylist (pg w))) + newly_revoked r) as Hgo.
  { clear w t ts. induction toks as [|tok toks IH]; intros acc w E; simpl in E; minv; [done|].
    pose proof (revoke_size _ _ _ _ _ _ Hh E0) as Hs. apply IH in E.
    destruct acc as [n a' f l], a as [[]|]; simpl in *; lia. }
  intros E. apply Hgo in E. simpl in E. lia.
Qed.

(** ** [extend] *)

(** The predecessor row [extend] builds on. *)
Definition predecessor (x : Extendable) (p : Pg) : Prop :=
  match latest (x_old_jti x) (metadata p) with
  | Some r => x_original x = m_original r /\ x_prev_row x = Some (m_id r) /\ x_jwt_name x = m_jwt_name r
  | None => x_original x = x_old_jti x /\ x_prev_row x = None /\ x_jwt_name x = None
  end.

Record checked s (token : string) (x : Extendable) (w : World) : Prop := {
  ck_token : exists wa wb h, verify (signer s) claims_of_json token permissive_validation wa
    = (Ret (Ok (mkTokenData h (x_old x))), wb);
  ck_jti : uuid_parse (jti (x_old x)) = Some (x_old_jti x);
  ck_live : ~ is_revoked (x_old_jti x) w;
  ck_exp : timestamp (x_now x) <= exp (x_old x);
  ck_row : predecessor x (pg w);
  ck_now : exists n, x_now x = clock n;
}.

Lemma select_latest_Ret j w row w' :
  sql (select_latest j) w = (Ret row, w') -> row = latest j (metadata (pg w)) /\ same_state w w'.
Proof.
  intros Hr. apply sql_Ret_inv in Hr as ([= <- Hp] & -> & _). split; [done|].
  rewrite <- Hp. apply with_pg_same_state.
Qed.

Lemma extend_check_Ret s token w x w1 :
  extend_check s token w = (Ret x, w1) -> checked s token x w /\ same_state w w1.
Proof.
  unfold extend_check, is_denylisted. intros Hr. minv. subst. pose proof E as Hv.
  destruct (verify_raw_total (signer s) claims_of_json token permissive_validation w) as (y & wv & Ev & Hs).
  rewrite (verify_run _ _ _ _ _ _ _ Ev) in E. injection E as _ <-.
  destruct (Z.ltb_spec (exp (td_claims a0)) (timestamp (clock (tick wv)))); minv.
  apply denylist_lookup_Ret in E0 as [-> Hs2]. case_bool_decide as Hrev; minv.
  apply select_latest_Ret in E0 as [-> Hs3].
  assert (same_state w w2) as Hs4
    by (etrans; [exact Hs|]; etrans; [apply same_state_bump|exact Hs2]).
  pose proof Hs4 as (Epg & _). rewrite Epg.
  assert (~ is_revoked a w) as Hlive by (by rewrite <- (same_state_revoked w wv) by done).
  split; [|by etrans]. unfold predecessor.
  destruct (latest a (metadata (pg w))) as [row|] eqn:El; split; simpl; rewrite ?El; try done;
    try (by eexists); try (by exists w, wv, (td_header a0); destruct a0);
    unfold predecessor; simpl; by rewrite El.
Qed.

(** The database after the transaction of [extend_issue]. *)
Definition extended_pg s (x : Extendable) (id new_jti : Uuid) (new_exp old_exp begun : Z) (p : Pg) : Pg :=
  let c := extend_claims s (x_old x) new_jti (x_now x) new_exp in
  snd (insert_denylist (x_old_jti x) old_exp (Some "superseded_by_extend") begun
    (with_metadata (metadata p ++
       [mkMeta id new_jti begun (join_keys (extra c)) (x_now x) new_exp (sub (x_old x)) (x_jwt_name x)
          (Some (default "" (join "," <$> aud (x_old x)))) (Some (cfg_issuer (cfg s)))
          (x_prev_row x) (x_original x)]) p)).

(** The successor was recorded and the old token retired. *)
Record issued s (req : ExtendRequest) (x : Extendable) (w w1 : World) (id new_jti : Uuid) (new_exp : Z) : Prop := {
  is_pg : exists old_exp begun, from_timestamp (exp (x_old x)) = Some old_exp /\
    pg w1 = extended_pg s x id new_jti new_exp old_exp begun (pg w);
  is_id : forall r, r ∈ metadata (pg w) -> m_id r ≠ id;
  is_exp : new_exp = x_now x + default 60 (er_expiration_in_minutes req) * 60 * MICROS;
  is_utc : in_utc new_exp = true;
  is_ids : new_jti = uuid_v4 (tick w) /\ exists n, id = uuid_v4 n /\ (tick w < n < tick w1)%nat;
}.

Lemma insert_metadata_Ok id j ck i e su n a iu sp o now p u p' :
  insert_metadata id j ck i e su n a iu sp o now p = (Ok u, p') ->
  p' = with_metadata (metadata p ++ [mkMeta id j now ck i e su n a iu sp o]) p /\
  forall r, r ∈ metadata p -> m_id r ≠ id.
Proof.
  unfold insert_metadata. destruct (existsb _ _) eqn:E; intros [= <-]. split; [done|].
  intros r Hr Hid. assert (existsb (fun r => (m_id r =? id)%N) (metadata p) = true) as Ht; [|congruence].
  apply existsb_exists_bool. exists r. split; [done|]. by apply N.eqb_eq.
Qed.

(** All or nothing. *)
Lemma extend_issue_run s req x w o w1 :
  extend_issue s req x w = (o, w1) ->
  (pg w1 = pg w /\ forall r, o ≠ Ret r) \/
  exists id new_jti new_exp, issued s req x w w1 id new_jti new_exp /\
    forall r, o = Ret r -> tr_expires_at r = new_exp /\
      tr_jwt_name r = default "EXTENDED_TOKEN" (x_jwt_name x) /\
      sign (signer s) (claims_to_json (extend_claims s (x_old x) new_jti (x_now x) new_exp)) = Ok (tr_token r).
Proof.
  intros E. pattern o, w1. apply (wp_eq _ _ _ _ _ E). clear E o w1. unfold extend_issue.
  destruct (_ <=? 0); [wp_steps; by left|].
  apply wp_bind, wp_or_panic; [|intros _; by left]. intros d ->%td_minutes_Some.
  apply wp_bind, wp_or_panic; [|intros _; by left]. intros e He.
  pose proof (add_signed_in_utc _ _ _ He) as Hin. apply add_signed_Some in He.
  apply wp_bind, wp_ask. apply wp_bind, wp_lift; [|intros ? _; by left]. intros token Hs.
  apply wp_bind, wp_transaction; [intros o []; by left|]. intros begun.
  apply wp_bind, wp_ask. apply wp_bind, wp_stmt; [|intros o []; by left|intros o ? ? [] _; by left].
  intros [] p1 [-> Hid]%insert_metadata_Ok. apply wp_bind, wp_lift; [|intros ? _; by left].
  intros old_exp Hold%ok_or_Ok.
  assert (forall w1, pg w1 = extended_pg s x (uuid_v4 (S (S (tick w)))) (uuid_v4 (tick w)) e old_exp begun (pg w) ->
    (S (S (tick w)) < tick w1)%nat -> issued s req x w w1 (uuid_v4 (S (S (tick w)))) (uuid_v4 (tick w)) e) as Hiss.
  { intros w1 Epg Ht. split; try done.
    - exists old_exp, begun. done.
    - split; [done|]. exists (S (S (tick w))). split; [done|lia]. }
  apply wp_stmt; [|intros o []; by left|intros o ? ? [] _; by left].
  intros n p Hden. unfold extended_pg in Hiss. simpl in Hden.
  split.
  - right. eexists _, _, _. split; [apply Hiss; [simpl; by rewrite Hden|simpl; lia]|]. by intros r [= <-].
  - intros o []; (split; [right|by left]); eexists _, _, _;
      (split; [apply Hiss; [simpl; by rewrite Hden|simpl; lia]|done]).
Qed.

Lemma extended_pg_denylist s x id j e oe begun p :
  denylist (extended_pg s x id j e oe begun p) =
    match denylist p !! x_old_jti x with
    | Some _ => denylist p
    | None => <[x_old_jti x := mkDeny begun begun oe (Some "superseded_by_extend")]> (denylist p)
    end.
Proof. unfold extended_pg, insert_denylist. simpl. by destruct (denylist p !! _). Qed.

Lemma extended_pg_metadata s x id j e oe begun p :
  exists row, metadata (extended_pg s x id j e oe begun p) = metadata p ++ [row] /\
    m_id row = id /\ m_jwt_uuid row = j /\ m_original row = x_original x /\
    m_supersedes row = x_prev_row x /\ m_subject row = sub (x_old x) /\ m_expires_at row = e.
Proof.
  unfold extended_pg, insert_denylist. simpl. eexists. by destruct (denylist p !! _).
Qed.

Lemma issued_revokes s req x w w1 id j e : issued s req x w w1 id j e -> is_revoked (x_old_jti x) w1.
Proof.
  intros [(oe & begun & _ & Hp) _ _ _ _]. unfold is_revoked. rewrite Hp, extended_pg_denylist.
  destruct (denylist (pg w) !! x_old_jti x) eqn:E; [by rewrite E|by rewrite lookup_insert_eq].
Qed.

(** [extend] splits at the point where the reads end. *)
Lemma extend_run s req w o w1 :
  extend s req w = (o, w1) ->
  (pg w1 = pg w /\ forall r, o ≠ Ret r) \/
  exists x w0, checked s (er_token req) x w /\ same_state w w0 /\ extend_issue s req x w0 = (o, w1).
Proof.
  unfold extend. intros E.
  assert (preserves same_state (extend_check s (er_token req))) as Hp.
  { unfold extend_check, is_denylisted, denylist_lookup, verify.
    repeat match goal with
    | |- preserves _ (sql _) => apply preserves_same_reads; auto with effects
    | |- preserves _ (verify_raw _ _ _ _) => apply verify_raw_same
    | |- preserves _ utc_now => apply preserves_ask, same_state_bump
    | _ => progress preserve
    end. }
  unfold mbind, M_bind in E. destruct (extend_check s (er_token req) w) as [[x|e| |c] w0] eqn:Ec;
    [|injection E as <- <-; left; split; [by apply (preserves_run _ _ _ _ _ Hp Ec)|done]..].
  right. exists x, w0. by apply extend_check_Ret in Ec as [? ?].
Qed.

(** C12: extend either leaves the database alone and returns no token, or appends
    exactly one row that continues the chain of the old token and denylists the old
    token until its own expiry, both or neither; the token returned is the one signed
    for that row. *)
Theorem extend_atomic s req w o w1 :
  extend s req w = (o, w1) ->
  (pg w1 = pg w /\ forall r, o ≠ Ret r) \/
  exists x row old_exp begun,
    checked s (er_token req) x w /\
    metadata (pg w1) = metadata (pg w) ++ [row] /\
    m_supersedes row = x_prev_row x /\ m_original row = x_original x /\
    m_subject row = sub (x_old x) /\
    from_timestamp (exp (x_old x)) = Some old_exp /\
    denylist (pg w1) = <[x_old_jti x := mkDeny begun begun old_exp (Some "superseded_by_extend")]>
                         (denylist (pg w)) /\
    forall r, o = Ret r ->
      tr_expires_at r = m_expires_at row /\
      sign (signer s) (claims_to_json
        (extend_claims s (x_old x) (m_jwt_uuid row) (x_now x) (tr_expires_at r))) = Ok (tr_token r).
Proof.
  intros [?|(x & w0 & Hck & (Epg & _) & E)]%extend_run; [by left|].
  apply extend_issue_run in E as [[E1 E2]|(id & j & e & [(oe & begun & Hoe & Hp) Hid Hexp Hutc Hids] & Hret)].
  - left. by rewrite E1, Epg.
  - right. destruct (extended_pg_metadata s x id j e oe begun (pg w0)) as
      (row & Hm & Hrid & Hrj & Hro & Hrs & Hrsub & Hre). rewrite <- Hp, Epg in Hm.
    exists x, row, oe, begun. pose proof (ck_live _ _ _ _ Hck) as Hlive.
    split; [done|]. rewrite Hm, Hre, Hrj.
    repeat (split; [done|]). split.
    + rewrite Hp, extended_pg_denylist, Epg. apply eq_None_not_Some in Hlive. by rewrite Hlive.
    + intros r Hr. destruct (Hret r Hr) as (-> & _ & Hs). done.
Qed.

Section Extended.
Context {CL : ChronoLaws _} {UL : UuidLaws _} {JL : JoseLaws _}.

Lemma ensure_token_type_lookup m k v :
  ensure_token_type m !! k = Some v -> m !! k = Some v \/ (k = "token_type" /\ v = VString "custom_jwt").
Proof.
  unfold ensure_token_type. destruct (m !! "token_type"); [by left|].
  rewrite lookup_insert_Some. naive_solver.
Qed.

Lemma extend_claims_signed s old j now e token :
  in_utc now = true -> in_utc e = true -> extra_ok old ->
  (forall k v, extra old !! k = Some v -> float_free v = true) ->
  sign (signer s) (claims_to_json (extend_claims s old j now e)) = Ok token ->
  signed s token (extend_claims s old j now e).
Proof.
  intros Hn He Hx Hf Hs. split; [done| |by apply timestamp_i64..|].
  - intros k Hk. simpl. destruct (ensure_token_type (extra old) !! k) as [v|] eqn:E; [|done].
    apply ensure_token_type_lookup in E as [E|[-> _]]; [by rewrite Hx in E|].
    unfold typed_members in Hk. set_solver.
  - intros k v. simpl. intros [Hv|[_ ->]]%ensure_token_type_lookup; [by eapply Hf|done].
Qed.

(** C13: A successful extend moves the subject and audience of the old token to a new
    one with a fresh jti that expires after the requested minutes (60 by default): the
    old token never validates again and the new one validates until it expires or is
    revoked. *)
Theorem extend_hands_over s req old j w r w1 :
  good_signer (signer s) -> sane_clock -> healthy ->
  signed s (er_token req) old -> uuid_parse (jti old) = Some j ->
  extend s req w = (Ret r, w1) ->
  exists new_jti now,
    let new := extend_claims s old new_jti now (tr_expires_at r) in
    sub new = sub old /\ aud new = aud old /\
    (exists n, (tick w <= n)%nat /\ new_jti = uuid_v4 n) /\
    tr_expires_at r = now + default 60 (er_expiration_in_minutes req) * 60 * MICROS /\
    forall vreq w2, grows w1 w2 ->
      (vr_token vreq = er_token req ->
         forall v w3, validate s vreq w2 = (Ret v, w3) -> active v = false) /\
      (vr_token vreq = tr_token r -> acceptable (audience (cfg s)) vreq new -> ~ is_revoked new_jti w2 ->
         (forall n, (tick w2 <= n)%nat -> clock n <= tr_expires_at r) ->
         exists w3, validate s vreq w2 = (Ret (response_from_valid new), w3)).
Proof.
  intros Hg Hclk Hh Hsig Hj [[_ Hno]|(x & w0 & Hck & Hw0 & E)]%extend_run; [by destruct (Hno r)|].
  apply extend_issue_run in E as [[_ Hno]|(id & nj & e & Hiss & Hret)]; [by destruct (Hno r)|].
  destruct (Hret r eq_refl) as (He & _ & Hs).
  destruct Hck as [(wa & wb & h & Hv) Hjx _ _ _ [n Hn]].
  apply (verified_signed s _ old) in Hv as (h' & [= _ Hold] & _);
    [|done|done|apply permissive_validation_permissive..].
  rewrite Hold in *. assert (x_old_jti x = j) as Hxj by congruence.
  exists nj, (x_now x). rewrite He. split; [done|]. split; [done|].
  split; [exists (tick w0); split; [apply Hw0|apply Hiss]|].
  split; [apply Hiss|]. intros vreq w2 Hgr. split.
  - intros Htok v w3 Hval. rewrite <- Htok in Hsig.
    eapply signed_dead; [done|exact Hsig|exact Hj| |exact Hval]. left.
    eapply is_revoked_grows; [exact Hgr|]. rewrite <- Hxj. by eapply issued_revokes.
  - intros Htok Hacc Hrev Hlive.
    destruct (signed_live s vreq (extend_claims s old nj (x_now x) e) nj w2) as (w3 & Ew & _); try done.
    + rewrite Htok. apply extend_claims_signed; [by rewrite Hn|by eapply is_utc|apply Hsig..|done].
    + apply uuid_roundtrip.
    + intros m Hm. by apply timestamp_le, Hlive.
    + by exists w3.
Qed.
End Extended.

(** C18: A bearer request is authenticated only as the subject of a token that decodes
    under an accepted key, is not revoked, and expired at most the 60 seconds of the
    decoder leeway ago. *)
Theorem authenticate_bearer_sound {CL : ChronoLaws _} {JL : JoseLaws _} s token w subject w1 :
  authenticate_bearer s token w = (Ret subject, w1) ->
  exists h c n,
    key_used (signer s) claims_of_json token bearer_validation w w1 (mkTokenData h c) /\
    sub c = Some subject /\
    (exists j, uuid_parse (jti c) = Some j /\ ~ is_revoked j w) /\
    (tick w <= n < tick w1)%nat /\ (0 <= exp c -> timestamp (clock n) - 60 <= exp c).
Proof.
  unfold authenticate_bearer. intros Hr. minv. subst.
  apply verify_Ok_inv in E. destruct (verify_raw_total (signer s) claims_of_json token bearer_validation w)
    as (y & wv & Ev & Hs). rewrite E in Ev. injection Ev as <- <-.
  apply denylist_lookup_Ret in E2 as [-> Hs2]. case_bool_decide as Hrev; minv.
  apply verify_raw_sound in E. pose proof E as (k & n & m & Hn & _ & _ & Hd).
  destruct Hs2 as (_ & _ & _ & _ & Ht).
  exists (td_header a0), (td_claims a0), n. split; [|split; [done|split; [|split; [lia|]]]].
  - eapply key_used_ticks; [by destruct a0|done].
  - exists a1. split; [done|]. by rewrite <- (same_state_revoked w w0).
  - intros He. destruct (jose_checks _ _ _ _ _ _ _ Hd) as (js & Hjs & _ & Hle & _).
    apply Hle; [done| |done]. by apply claims_of_json_exp.
Qed.
End Theorems.
