(* ===== verification/Toy.v ===== *)
(** A concrete deployment, on which the theorems of the token service are
    exercised: the toy key pairs of Jose.v, UUIDs written as binary numerals, a
    clock that stands still, and the default configuration. *)
From S2P Require Import Prelude Str Chrono Json Error World Effects Jose Claims Config Crypto.
From S2P Require Import JwtApi JwtService JwtTheorems.
Export ToyEnv ToyJose.

#[export] Instance toy_uuid : UuidLib := {
  uuid_to_string u := bits_of_pos (N.succ_pos u);
  uuid_parse s := Pos.pred_N <$> pos_of_bits s;
}.

#[export] Instance toy_uuid_laws : UuidLaws toy_uuid.
Proof. split. intros u. simpl. rewrite pos_of_bits_of_pos. simpl. by rewrite N.pos_pred_succ. Qed.

(** Its texts are not JSON, only some text of the value. *)
#[export] Instance toy_serde : SerdeJson := {
  json_to_vec v := Some (bits_of_pos (countable.encode v));
  json_from_slice s := pos_of_bits s ≫= countable.decode;
}.

(** 2023-11-14T22:13:20Z *)
Definition toy_now : Z := 1700000000 * MICROS.
#[export] Instance toy_world_env : Env := toy_env toy_now.

Definition toy_key (k : string) (n : N) : KeyPair := mkKeyPair k n n n.
Definition toy_signer : JwtSigner := mkSigner (toy_key "tim-rs-1" 5%N) None None.
Definition toy_service : JwtService := mkService toy_signer jwt_default.

Lemma toy_signer_good : good_signer toy_signer.
Proof. split; [|reflexivity]. intros p Hp. discriminate Hp. Qed.
Lemma toy_sane : sane_clock.
Proof. intros n. by vm_compute. Qed.
Lemma toy_healthy : healthy.
Proof. by split. Qed.
Lemma toy_distinct : forall n m, uuid_v4 n = uuid_v4 m -> n = m.
Proof. intros n m. unfold uuid_v4. simpl. lia. Qed.

Definition toy_content : gmap string Value := {["sub" := VString "alice"; "role" := VString "admin"]}.
Definition toy_generate : GenerateRequest := mkGenerateRequest "session" toy_content 60 None None.

Definition ret_of {A} (o : Outcome A * World) (dflt : A) : A :=
  match fst o with Ret a => a | _ => dflt end.

Definition toy_generated := Eval vm_compute in generate toy_service toy_generate initial_world.
Definition toy_response : TokenResponse :=
  Eval vm_compute in ret_of toy_generated (mkTokenResponse "" "" "" 0).
Definition toy_world : World := snd toy_generated.

Lemma toy_generated_run : generate toy_service toy_generate initial_world = (Ret toy_response, toy_world).
Proof. vm_compute. reflexivity. Qed.
