(* ===== verification/JwtChain.v ===== *)
(** Extension chains: the service as a transition system.

    [step] interleaves the requests of [JwtService].  An [extend] is two steps:
    its reads ([extend_check]), which put it among the requests in flight, and
    its transaction ([extend_issue]) at any later time; a request in flight may
    also be dropped.  Every other method writes with at most one statement
    after its reads, or, as [bulk_revoke], with statements that only add to the
    denylist, and is one step; [step_other] stands for the rest of the program.
    [seq_step] is the same system with [extend] in one piece.

    Interleaved, every chain is well-founded, its superseded tokens are revoked
    and its rows agree on the root ([chain_inv]).  Only when the requests of a
    chain do not overlap is it also linear with a single live token
    ([chain_single_live]): [extend_race] runs two overlapping extends of one
    token that leave two live successors. *)
From S2P Require Import Prelude Str Chrono Json Error World Effects Jose Claims Config Crypto.
From S2P Require Import JwtApi JwtService JwtTheorems Toy.

(** ** The system *)

(** The methods of the service, [extend] apart. *)
Inductive Op :=
| OGenerate (req : GenerateRequest)
| OValidate (req : ValidateRequest)
| OBearer (token : string)
| ORevoke (token : string) (reason : option string)
| ORevokeByJti (jti : Uuid) (reason : option string)
| OBulkRevoke (req : BulkRevokeRequest)
| OList (subject : string) (req : ListRequest).

Section Chain.
Context `{Env, Jose, Chrono, UuidLib, SerdeJson}.
Implicit Type s : JwtService.

Definition forget {A} (m : M A) : M unit := _ ← m; mret tt.

Definition run_op s (op : Op) : M unit :=
  match op with
  | OGenerate req => forget (generate s req)
  | OValidate req => forget (validate s req)
  | OBearer token => forget (authenticate_bearer s token)
  | ORevoke token reason => forget (revoke s token reason)
  | ORevokeByJti jti reason => forget (revoke_by_jti jti reason)
  | OBulkRevoke req => forget (bulk_revoke s req)
  | OList subject req => forget (list_for_subject subject req)
  end.

#[local] Instance is_generate_dec op : Decision (exists req, op = OGenerate req).
Proof. destruct op; [left; by eexists|right; by intros [? ?]..]. Defined.

(** The requests in flight: extends whose reads are done. *)
Record Sys := mkSys { world : World; inflight : list (ExtendRequest * Extendable) }.

Inductive step s : Sys -> Sys -> Prop :=
| step_op op w o w' fl :
    run_op s op w = (o, w') -> step s (mkSys w fl) (mkSys w' fl)
| step_begin req w x w' fl :
    extend_check s (er_token req) w = (Ret x, w') ->
    step s (mkSys w fl) (mkSys w' ((req, x) :: fl))
| step_refuse req w e w' fl :
    extend_check s (er_token req) w = (Throw e, w') -> step s (mkSys w fl) (mkSys w' fl)
| step_finish req x w o w' fl1 fl2 :
    extend_issue s req x w = (o, w') ->
    step s (mkSys w (fl1 ++ (req, x) :: fl2)) (mkSys w' (fl1 ++ fl2))
| step_drop rx w fl1 fl2 :
    step s (mkSys w (fl1 ++ rx :: fl2)) (mkSys w (fl1 ++ fl2))
| step_other w w' fl :
    tokens_kept w w' -> step s (mkSys w fl) (mkSys w' fl).

Definition initial : Sys := mkSys initial_world [].
Definition reachable s (y : Sys) : Prop := rtc (step s) initial y.

(** No two requests overlap. *)
Inductive seq_step s : World -> World -> Prop :=
| seq_op op w o w' : run_op s op w = (o, w') -> seq_step s w w'
| seq_extend req w o w' : extend s req w = (o, w') -> seq_step s w w'
| seq_other w w' : tokens_kept w w' -> seq_step s w w'.

Definition seq_reachable s (w : World) : Prop := rtc (seq_step s) initial_world w.

(** ** What a step does to the two tables *)

Definition keeps (w w' : World) : Prop :=
  metadata (pg w') = metadata (pg w) /\ denylist (pg w) ⊆ denylist (pg w') /\ (tick w <= tick w')%nat.

#[local] Instance keeps_preorder : PreOrder keeps.
Proof.
  split; [by repeat split|]. intros w1 w2 w3 (? & ? & ?) (? & ? & ?).
  split; [congruence|]. split; [by etrans|lia].
Qed.

Lemma keeps_bump w : keeps w (bump w).
Proof. repeat split; [done|simpl; lia]. Qed.

Lemma keeps_kept w w' : tokens_kept w w' -> keeps w w'.
Proof. intros (? & E & ?). unfold keeps. by rewrite E. Qed.

Lemma keeps_same_state w w' : same_state w w' -> keeps w w'.
Proof. intros (E & _ & _ & _ & ?). unfold keeps. by rewrite E. Qed.

Lemma preserves_keeps_reads {A} (q : Sql A) : reads_only q -> preserves keeps (sql q).
Proof.
  intros Hq w. eapply wp_mono; [by apply preserves_same_reads|]. intros. by apply keeps_same_state.
Qed.

Lemma keeps_insert_denylist j e r now w :
  keeps w (with_pg (snd (insert_denylist j e r now (pg w))) (bump w)).
Proof.
  destruct (insert_denylist_grows j e r now (pg w)) as [Hs Hp]. split; [by rewrite Hp|].
  split; [done|simpl; lia].
Qed.

(** [preserve] for [keeps]. *)
Ltac keep :=
  repeat match goal with
  | |- preserves keeps utc_now => apply preserves_ask, keeps_bump
  | |- preserves keeps new_v4 => apply preserves_ask, keeps_bump
  | |- preserves keeps (verify_raw _ _ _ _) =>
      intros ?; eapply wp_mono; [apply verify_raw_same|intros; by apply keeps_same_state]
  | |- preserves keeps (sql (insert_denylist _ _ _)) =>
      apply preserves_sql; [apply keeps_bump|intros; apply keeps_insert_denylist]
  | |- preserves keeps (sql _) => apply preserves_keeps_reads; auto with effects
  | |- preserves keeps _ => progress preserve
  end.

Lemma revoke_keeps s t r : preserves keeps (revoke s t r).
Proof. unfold revoke, verify. keep. Qed.

Lemma bulk_loop_keeps s r toks acc : preserves keeps (bulk_loop s r toks acc).
Proof. revert acc. induction toks as [|t toks IH]; intros acc; simpl; keep; auto using revoke_keeps. Qed.

Lemma summaries_keeps now rows : preserves keeps (summaries now rows).
Proof. induction rows as [|r rows IH]; simpl; unfold denylist_entry; keep; auto. Qed.

Lemma run_op_keeps s op : (forall req, op ≠ OGenerate req) -> preserves keeps (run_op s op).
Proof.
  intros Hop. destruct op; [by destruct (Hop req)|..]; simpl; unfold forget.
  - unfold validate, is_denylisted, denylist_lookup. keep.
  - unfold authenticate_bearer, denylist_lookup, verify. keep.
  - keep. apply revoke_keeps.
  - unfold revoke_by_jti. keep.
  - unfold bulk_revoke. keep; auto using bulk_loop_keeps.
  - unfold list_for_subject. destruct (list_page req) as [[? ?] ?]. keep. apply summaries_keeps.
Qed.

Lemma extend_check_keeps s token : preserves keeps (extend_check s token).
Proof. unfold extend_check, is_denylisted, denylist_lookup, verify. keep. Qed.

(** A row was appended; its identifiers were drawn in the step. *)
Record appended (row : MetaRow) (w w' : World) : Prop := {
  ap_rows : metadata (pg w') = metadata (pg w) ++ [row];
  ap_denylist : denylist (pg w) ⊆ denylist (pg w');
  ap_ids : exists n m, m_id row = uuid_v4 n /\ m_jwt_uuid row = uuid_v4 m /\ n ≠ m /\
    (tick w <= n < tick w')%nat /\ (tick w <= m < tick w')%nat;
}.

Lemma generate_effect s req w o w' :
  generate s req w = (o, w') ->
  tokens_kept w w' \/ exists row, appended row w w' /\ m_supersedes row = None /\
    m_original row = m_jwt_uuid row /\ denylist (pg w') = denylist (pg w).
Proof.
  intros E. pattern o, w'. apply (wp_eq _ _ _ _ _ E). clear E o w'. unfold generate.
  destruct (_ <=? 0); [wp_steps; by left|]. destruct (_ <? _); [wp_steps; by left|].
  apply wp_bind, wp_lift; [|intros ? _; by left]. intros aud _.
  apply wp_bind, wp_ask. apply wp_bind, wp_ask.
  assert (tokens_kept w (bump (bump w))) as Hk by (repeat split; simpl; lia).
  apply wp_bind, wp_or_panic; [|intros _; by left]. intros d _.
  apply wp_bind, wp_or_panic; [|intros _; by left]. intros e _.
  apply wp_bind, wp_lift; [|intros ? _; by left]. intros token _.
  apply wp_bind, wp_ask. apply wp_bind, wp_sql. intros now.
  apply wp_stmt; [|intros o' []; left; repeat split; simpl; lia|].
  - intros u p [-> _]%insert_metadata_Ok. right. eexists. split; [split|]; simpl; try done.
    exists (S (S (tick w))), (tick w). repeat split; simpl; lia.
  - intros o' r p Hl. unfold insert_metadata. destruct (existsb _ _); intros [= <- <-]; destruct Hl.
    1,2: left; repeat split; simpl; lia.
    all: right; eexists; split; [split|]; simpl; try done.
    all: exists (S (S (tick w))), (tick w); repeat split; simpl; lia.
Qed.

(** Of the methods other than [extend], [generate] alone adds a row, the root of a chain. *)
Lemma run_op_effect s op w o w' :
  run_op s op w = (o, w') ->
  keeps w w' \/ exists row, appended row w w' /\ m_supersedes row = None /\
    m_original row = m_jwt_uuid row /\ denylist (pg w') = denylist (pg w).
Proof.
  intros E. destruct (decide (exists req, op = OGenerate req)) as [[req ->]|Hno].
  - simpl in E. unfold forget, mbind, M_bind in E. destruct (generate s req w) as [og wg] eqn:Eg.
    assert (wg = w') as -> by (by destruct og; injection E as _ <-).
    apply generate_effect in Eg as [Hk|?]; [left; by apply keeps_kept|by right].
  - left. eapply preserves_run; [|exact E]. apply run_op_keeps. intros req ->. eauto.
Qed.

Lemma extend_issue_effect s req x w o w' :
  extend_issue s req x w = (o, w') ->
  keeps w w' \/ exists row, appended row w w' /\ m_supersedes row = x_prev_row x /\
    m_original row = x_original x /\ is_revoked (x_old_jti x) w'.
Proof.
  intros E. pose proof (preserves_run _ _ _ _ _ (extend_issue_grows s req x) E) as Hg.
  apply extend_issue_run in E as [[Hp _]|(id & j & e & Hi & _)].
  - left. repeat split; [by rewrite Hp|apply Hg..].
  - right. pose proof Hi as [(oe & begun & _ & Hp) _ _ _ (Hj & n & Hn & Ht)].
    destruct (extended_pg_metadata s x id j e oe begun (pg w)) as (row & Hm & Hid & Hjt & Ho & Hs & _).
    exists row. split; [split; [by rewrite Hp|apply Hg|]|].
    + exists n, (tick w). rewrite Hid, Hjt. repeat split; try done; lia.
    + repeat split; [done..|]. by eapply issued_revokes.
Qed.

(** ** The invariant *)

(** The row continues a chain, or is the root of one. *)
Definition row_ok (before : list MetaRow) (r : MetaRow) (w : World) : Prop :=
  match m_supersedes r with
  | Some id => exists p, p ∈ before /\ m_id p = id /\ m_original p = m_original r /\
                         is_revoked (m_jwt_uuid p) w
  | None => m_original r = m_jwt_uuid r \/ is_revoked (m_original r) w
  end.

Definition flight_ok (x : Extendable) (w : World) : Prop :=
  match x_prev_row x with
  | Some id => exists p, p ∈ metadata (pg w) /\ m_id p = id /\ m_jwt_uuid p = x_old_jti x /\
                         m_original p = x_original x
  | None => x_original x = x_old_jti x
  end.

Record chain_inv (w : World) : Prop := {
  ci_drawn : forall r, r ∈ metadata (pg w) -> exists n m,
    m_id r = uuid_v4 n /\ m_jwt_uuid r = uuid_v4 m /\ (n < tick w)%nat /\ (m < tick w)%nat;
  ci_id : NoDup (m_id <$> metadata (pg w));
  ci_jti : NoDup (m_jwt_uuid <$> metadata (pg w));
  ci_row : forall l1 r l2, metadata (pg w) = l1 ++ r :: l2 -> row_ok l1 r w;
}.

Definition sys_inv (y : Sys) : Prop :=
  chain_inv (world y) /\ forall req x, (req, x) ∈ inflight y -> flight_ok x (world y).

Lemma row_ok_mono l r w w' : (forall j, is_revoked j w -> is_revoked j w') -> row_ok l r w -> row_ok l r w'.
Proof.
  intros Hr. unfold row_ok. destruct (m_supersedes r) as [id|].
  - intros (p & ? & ? & ? & ?). eauto 6.
  - naive_solver.
Qed.

Lemma sub_revoked w w' : denylist (pg w) ⊆ denylist (pg w') -> forall j, is_revoked j w -> is_revoked j w'.
Proof. intros Hs j [row Hrow]. exists row. by eapply lookup_weaken. Qed.

Lemma flight_ok_mono x w w' :
  metadata (pg w) `prefix_of` metadata (pg w') -> flight_ok x w -> flight_ok x w'.
Proof.
  intros [l Hl]. unfold flight_ok. destruct (x_prev_row x); [|done].
  intros (p & Hp & ?). exists p. split; [|done]. rewrite Hl, elem_of_app. by left.
Qed.

Lemma chain_inv_keeps w w' : keeps w w' -> chain_inv w -> chain_inv w'.
Proof.
  intros (Hm & Hd & Ht) [Hdr Hid Hj Hr]. split; rewrite ?Hm; [|done..|].
  - intros r Hin. destruct (Hdr r Hin) as (n & m & ? & ? & ? & ?). exists n, m. repeat split; try done; lia.
  - intros l1 r l2 E. eapply row_ok_mono; [by apply sub_revoked|by eapply Hr].
Qed.

(** Distinct draws of [Uuid::new_v4] are distinct. *)
Context (uuid_distinct : forall n m, uuid_v4 n = uuid_v4 m -> n = m).

Lemma chain_inv_appended row w w' :
  appended row w w' -> chain_inv w -> row_ok (metadata (pg w)) row w' -> chain_inv w'.
Proof.
  intros [Hm Hd (n & m & Hn & Hj & Hne & Htn & Htm)] [Hdr Hid Hjt Hr] Hrow. split; rewrite ?Hm.
  - intros r [Hin| ->%list_elem_of_singleton]%elem_of_app.
    + destruct (Hdr r Hin) as (a & b & ? & ? & ? & ?). exists a, b. repeat split; try done; lia.
    + exists n, m. repeat split; try done; lia.
  - rewrite fmap_app. apply list.NoDup_app. split; [done|]. split; [|apply NoDup_singleton].
    intros u Hu ->%list_elem_of_singleton. apply list_elem_of_fmap in Hu as (r & Hru & Hin).
    destruct (Hdr r Hin) as (a & b & Ha & _ & ? & _).
    rewrite Hn, Ha in Hru. apply uuid_distinct in Hru. lia.
  - rewrite fmap_app. apply list.NoDup_app. split; [done|]. split; [|apply NoDup_singleton].
    intros u Hu ->%list_elem_of_singleton. apply list_elem_of_fmap in Hu as (r & Hru & Hin).
    destruct (Hdr r Hin) as (a & b & _ & Hb & _ & ?).
    rewrite Hj, Hb in Hru. apply uuid_distinct in Hru. lia.
  - intros l1 r l2 E. destruct l2 as [|r2 l2] using rev_ind.
    + apply app_inj_tail in E as [<- <-]. done.
    + rewrite app_comm_cons, app_assoc in E. apply app_inj_tail in E as [E _].
      eapply row_ok_mono; [by apply sub_revoked|by eapply Hr].
Qed.

Lemma checked_flight s token x w : checked s token x w -> flight_ok x w.
Proof.
  intros [_ _ _ _ Hp _]. unfold predecessor in Hp. unfold flight_ok.
  destruct (latest _ _) as [r|] eqn:E.
  - destruct Hp as (-> & -> & _). apply latest_Some in E as [? ?]. by exists r.
  - by destruct Hp as (-> & -> & _).
Qed.

Lemma flight_row x row w w' :
  flight_ok x w -> m_supersedes row = x_prev_row x -> m_original row = x_original x ->
  is_revoked (x_old_jti x) w' -> row_ok (metadata (pg w)) row w'.
Proof.
  unfold flight_ok, row_ok. intros Hf -> -> Hrev. destruct (x_prev_row x).
  - destruct Hf as (p & ? & ? & Hj & ?). exists p. by rewrite Hj.
  - right. by rewrite Hf.
Qed.

Lemma elem_of_middle {A} (a b : A) l1 l2 : a ∈ l1 ++ l2 -> a ∈ l1 ++ b :: l2.
Proof. rewrite !elem_of_app, elem_of_cons. tauto. Qed.

Lemma sys_inv_step s y y' : step s y y' -> sys_inv y -> sys_inv y'.
Proof.
  intros Hstep [Hc Hf].
  destruct Hstep as [op w o w' fl E|req w x w' fl E|req w e w' fl E|req x w o w' fl1 fl2 E|rx w fl1 fl2|w w' fl (Hm & Hd & Ht)];
    unfold sys_inv; simpl in *.
  - apply run_op_effect in E as [Hk|(row & Ha & Hs & Ho & _)].
    + split; [by eapply chain_inv_keeps|]. intros req x Hx. eapply flight_ok_mono; [|by eapply Hf].
      destruct Hk as (-> & _). done.
    + split; [eapply chain_inv_appended; [done..|]; unfold row_ok; rewrite Hs; by left|].
      intros req x Hx. eapply flight_ok_mono; [|by eapply Hf]. rewrite (ap_rows _ _ _ Ha).
      by apply prefix_app_r.
  - apply extend_check_Ret in E as [Hck Hs]. pose proof (keeps_same_state _ _ Hs) as Hk.
    split; [by eapply chain_inv_keeps|]. intros req' x' Hx.
    eapply (flight_ok_mono _ w); [by destruct Hk as (-> & _)|].
    apply elem_of_cons in Hx as [[= -> ->]|Hx]; [by eapply checked_flight|by eapply Hf].
  - pose proof (preserves_run _ _ _ _ _ (extend_check_keeps s (er_token req)) E) as Hk.
    split; [by eapply chain_inv_keeps|]. intros req' x' Hx.
    eapply flight_ok_mono; [by destruct Hk as (-> & _)|by eapply Hf].
  - apply extend_issue_effect in E as [Hk|(row & Ha & Hs & Ho & Hrev)].
    + split; [by eapply chain_inv_keeps|]. intros req' x' Hx.
      eapply flight_ok_mono; [by destruct Hk as (-> & _)|]. eapply Hf.
      by apply elem_of_middle.
    + split; [eapply chain_inv_appended; [done..|]; eapply flight_row; [|done..]|].
      * eapply Hf. rewrite elem_of_app, elem_of_cons. by right; left.
      * intros req' x' Hx. eapply flight_ok_mono; [|eapply Hf].
        { rewrite (ap_rows _ _ _ Ha). by apply prefix_app_r. }
        by apply elem_of_middle.
  - split; [done|]. intros req' x' Hx. eapply Hf.
    by apply elem_of_middle.
  - assert (keeps w w') as Hk by (repeat split; [done|by rewrite Hd|done]).
    split; [by eapply chain_inv_keeps|]. intros req x Hx. eapply flight_ok_mono; [|by eapply Hf].
    by rewrite Hm.
Qed.

Lemma initial_inv : sys_inv initial.
Proof.
  split; [|intros ? ? Hin; by apply not_elem_of_nil in Hin]. split; simpl.
  - intros r Hr. by apply not_elem_of_nil in Hr.
  - constructor.
  - constructor.
  - intros [] ? ?; done.
Qed.

Lemma reachable_inv s y : reachable s y -> sys_inv y.
Proof.
  intros Hr. eapply (rtc_invariant (step s)); [apply sys_inv_step|exact Hr|apply initial_inv].
Qed.

(** [p] is the row that [r] supersedes. *)
Definition supersedes_in (l : list MetaRow) (r p : MetaRow) : Prop :=
  p ∈ l /\ m_supersedes r = Some (m_id p).

(** Along a chain down to its root: every row but the first is revoked. *)
Lemma chain_root w : chain_inv w -> forall n l1 r l2,
  (length l1 <= n)%nat -> metadata (pg w) = l1 ++ r :: l2 ->
  exists r0, rtc (supersedes_in (metadata (pg w))) r r0 /\ r0 ∈ metadata (pg w) /\
    m_supersedes r0 = None /\ m_original r0 = m_original r /\ (r0 ≠ r -> is_revoked (m_jwt_uuid r0) w).
Proof.
  intros Hinv. induction n as [|n IH]; intros l1 r l2 Hlen E;
    pose proof (ci_row _ Hinv _ _ _ E) as Hrow; unfold row_ok in Hrow;
    destruct (m_supersedes r) as [id|] eqn:Es.
  - destruct Hrow as (p & Hp & _). destruct l1; [by apply not_elem_of_nil in Hp|simpl in Hlen; lia].
  - exists r. split; [done|]. rewrite E, elem_of_app, elem_of_cons. tauto.
  - destruct Hrow as (p & Hp & Hid & Ho & Hrev).
    apply list_elem_of_split in Hp as (k1 & k2 & ->).
    destruct (IH k1 p (k2 ++ r :: l2)) as (r0 & Hr & Hin & Hs & Ho0 & Hr0).
    { rewrite length_app in Hlen. simpl in Hlen. lia. }
    { rewrite E, <- (assoc_L (++)). done. }
    exists r0. split; [|split; [done|split; [done|split; [congruence|]]]].
    + eapply rtc_l; [|exact Hr]. split; [|by rewrite Hid].
      rewrite E, !elem_of_app, !elem_of_cons. tauto.
    + intros _. destruct (decide (r0 = p)) as [->|]; [done|by apply Hr0].
  - exists r. split; [done|]. rewrite E, elem_of_app, elem_of_cons. tauto.
Qed.

Lemma elem_root w r : chain_inv w -> r ∈ metadata (pg w) ->
  exists r0, rtc (supersedes_in (metadata (pg w))) r r0 /\ r0 ∈ metadata (pg w) /\
    m_supersedes r0 = None /\ m_original r0 = m_original r /\ (r0 ≠ r -> is_revoked (m_jwt_uuid r0) w).
Proof. intros Hinv (l1 & l2 & E)%list_elem_of_split. by eapply chain_root. Qed.

(** A row's root is recorded, or was extended without a record and is revoked. *)
Lemma original_known w r : chain_inv w -> r ∈ metadata (pg w) ->
  (exists r0, r0 ∈ metadata (pg w) /\ m_jwt_uuid r0 = m_original r) \/ is_revoked (m_original r) w.
Proof.
  intros Hinv Hr. destruct (elem_root w r Hinv Hr) as (r0 & _ & Hin & Hs & <- & _).
  apply list_elem_of_split in Hin as (l1 & l2 & E). pose proof (ci_row _ Hinv _ _ _ E) as Hrow.
  unfold row_ok in Hrow. rewrite Hs in Hrow. destruct Hrow as [->|?]; [left|by right].
  exists r0. split; [|done]. rewrite E, elem_of_app, elem_of_cons. tauto.
Qed.

(** In every reachable state, overlapping extends included, jwt_uuid identifies a
    row, every superseded row is revoked, and every row leads over supersedes to a root
    that is its recorded original. *)
Theorem chains_rooted s y r :
  reachable s y -> r ∈ metadata (pg (world y)) ->
  (forall r', r' ∈ metadata (pg (world y)) -> m_jwt_uuid r' = m_jwt_uuid r -> r' = r) /\
  (forall p, supersedes_in (metadata (pg (world y))) r p -> is_revoked (m_jwt_uuid p) (world y)) /\
  exists r0, rtc (supersedes_in (metadata (pg (world y)))) r r0 /\ m_supersedes r0 = None /\
    m_original r0 = m_original r /\ (r0 ≠ r -> is_revoked (m_jwt_uuid r0) (world y)).
Proof.
  intros [Hinv _]%reachable_inv Hr. split; [|split].
  - intros r' Hr' E. by apply (NoDup_fmap_elem _ _ _ _ (ci_jti _ Hinv)).
  - intros p [Hp Hs]. apply list_elem_of_split in Hr as (l1 & l2 & E).
    pose proof (ci_row _ Hinv _ _ _ E) as Hrow. unfold row_ok in Hrow. rewrite Hs in Hrow.
    destruct Hrow as (p' & Hp' & Hid & _ & Hrev).
    replace p with p'; [done|]. apply (NoDup_fmap_elem _ _ _ _ (ci_id _ Hinv)); [|done..].
    rewrite E, elem_of_app. by left.
  - destruct (elem_root _ r Hinv Hr) as (r0 & ? & _ & ? & ? & ?). by exists r0.
Qed.

(** ** Requests that do not overlap *)

Record linear_inv (w : World) : Prop := {
  li_chain : chain_inv w;
  li_single : forall r1 r2, r1 ∈ metadata (pg w) -> r2 ∈ metadata (pg w) ->
    m_original r1 = m_original r2 -> ~ is_revoked (m_jwt_uuid r1) w -> ~ is_revoked (m_jwt_uuid r2) w ->
    r1 = r2;
  li_once : forall r1 r2 id, r1 ∈ metadata (pg w) -> r2 ∈ metadata (pg w) ->
    m_supersedes r1 = Some id -> m_supersedes r2 = Some id -> r1 = r2;
}.

Lemma linear_keeps w w' : keeps w w' -> linear_inv w -> linear_inv w'.
Proof.
  intros Hk [Hc Hs Ho]. pose proof Hk as (Hm & Hd & _). split; rewrite ?Hm; [by eapply chain_inv_keeps| |done].
  intros r1 r2 ? ? ? H1' H2'. apply Hs; try done; intros ?; [apply H1'|apply H2'];
    by eapply sub_revoked.
Qed.

(** What a new row must satisfy: no live row of its chain and no other row that
    supersedes the same predecessor. *)
Lemma linear_appended row w w' :
  appended row w w' -> linear_inv w -> row_ok (metadata (pg w)) row w' ->
  (forall r, r ∈ metadata (pg w) -> m_original r = m_original row ->
     ~ is_revoked (m_jwt_uuid r) w' -> is_revoked (m_jwt_uuid row) w') ->
  (forall r id, r ∈ metadata (pg w) -> m_supersedes r = Some id -> m_supersedes row ≠ Some id) ->
  linear_inv w'.
Proof.
  intros Ha [Hc Hs Ho] Hrow Hlive Honce. pose proof (sub_revoked _ _ (ap_denylist _ _ _ Ha)) as Hmono.
  split; rewrite ?(ap_rows _ _ _ Ha); [by eapply chain_inv_appended| |].
  - intros r1 r2 [H1'| ->%list_elem_of_singleton]%elem_of_app [H2'| ->%list_elem_of_singleton]%elem_of_app E L1 L2.
    + apply Hs; try done; naive_solver.
    + exfalso. apply L2. by eapply Hlive.
    + exfalso. apply L1. by eapply (Hlive r2).
    + done.
  - intros r1 r2 id [H1'| ->%list_elem_of_singleton]%elem_of_app [H2'| ->%list_elem_of_singleton]%elem_of_app E1 E2.
    + by eapply Ho.
    + by destruct (Honce r1 id).
    + by destruct (Honce r2 id).
    + done.
Qed.

Lemma fresh_jti w w' row r :
  appended row w w' -> chain_inv w -> r ∈ metadata (pg w) -> m_jwt_uuid r ≠ m_jwt_uuid row.
Proof.
  intros [_ _ (n & m & _ & Hj & _ & _ & Ht)] Hc Hr E.
  destruct (ci_drawn _ Hc r Hr) as (a & b & _ & Hb & _ & Hlt).
  rewrite Hj, Hb in E. apply uuid_distinct in E. lia.
Qed.

Lemma linear_generate row w w' :
  appended row w w' -> m_supersedes row = None -> m_original row = m_jwt_uuid row ->
  linear_inv w -> linear_inv w'.
Proof.
  intros Ha Hs Ho Hl. eapply linear_appended; [done..| | |].
  - unfold row_ok. rewrite Hs. by left.
  - intros r Hr E _. rewrite <- Ho, <- E. eapply sub_revoked; [apply Ha|].
    destruct (original_known w r) as [(r0 & Hin & E0)|?]; [apply Hl|done| |done].
    exfalso. eapply (fresh_jti w w' row r0); [done|apply Hl|done|]. congruence.
  - by rewrite Hs.
Qed.

Lemma linear_extend s token x row w w0 w' :
  checked s token x w -> same_state w w0 -> appended row w0 w' ->
  m_supersedes row = x_prev_row x -> m_original row = x_original x -> is_revoked (x_old_jti x) w' ->
  linear_inv w -> linear_inv w'.
Proof.
  intros Hck Hsame Ha Hs Ho Hrev Hl0. pose proof (checked_flight _ _ _ _ Hck) as Hf.
  pose proof (linear_keeps _ _ (keeps_same_state _ _ Hsame) Hl0) as Hl.
  destruct Hck as [_ _ Hlive _ Hpred _]. pose proof Hsame as (Epg & _).
  unfold flight_ok, predecessor in *. rewrite <- Epg in *.
  assert (~ is_revoked (x_old_jti x) w0) as Hlive0 by (by rewrite (same_state_revoked w w0)).
  eapply linear_appended; [done..| | |].
  - by eapply (flight_row x).
  - intros r Hr E Hlr. exfalso. rewrite Ho in E. unfold flight_ok in Hf.
    assert (~ is_revoked (m_jwt_uuid r) w0) as Hlr0
      by (intros ?; apply Hlr; by eapply sub_revoked; [apply Ha|]).
    destruct (latest (x_old_jti x) (metadata (pg w0))) as [p|] eqn:El.
    + destruct Hpred as (_ & Hp & _). rewrite Hp in Hf. destruct Hf as (q & Hq & _ & Hj & Hoq).
      apply Hlr. replace r with q; [by rewrite Hj|].
      apply (li_single _ Hl); try done; [congruence|by rewrite Hj].
    + destruct Hpred as (_ & Hp & _). rewrite Hp in Hf.
      destruct (original_known w0 r) as [(r0 & Hin & E0)|?]; [apply Hl|done| |congruence].
      eapply latest_None; [exact El|exact Hin|congruence].
  - intros r id Hr Hsr. rewrite Hs. intros Hp. rewrite Hp in Hf.
    destruct Hf as (q & Hq & Hid & Hj & _). apply list_elem_of_split in Hr as (l1 & l2 & El).
    pose proof (ci_row _ (li_chain _ Hl) _ _ _ El) as Hrow. unfold row_ok in Hrow. rewrite Hsr in Hrow.
    destruct Hrow as (q' & Hq' & Hid' & _ & Hrev'). apply Hlive0. rewrite <- Hj.
    replace q with q'; [done|]. apply (NoDup_fmap_elem _ _ _ _ (ci_id _ (li_chain _ Hl))); [|done|congruence].
    rewrite El, elem_of_app. by left.
Qed.

Lemma linear_step s w w' : seq_step s w w' -> linear_inv w -> linear_inv w'.
Proof.
  intros [op w1 o w2 E|req w1 o w2 E|w1 w2 (Hm & Hd & Ht)] Hl.
  - apply run_op_effect in E as [Hk|(row & Ha & Hs & Ho & _)];
      [by eapply linear_keeps|by eapply linear_generate].
  - pose proof (preserves_run _ _ _ _ _ (extend_grows s req) E) as Hg.
    apply extend_run in E as [[Hp _]|(x & w0 & Hck & Hsame & E)].
    { eapply linear_keeps; [|done]. repeat split; [by rewrite Hp|apply Hg..]. }
    apply extend_issue_effect in E as [Hk|(row & Ha & Hs & Ho & Hrev)].
    + eapply linear_keeps; [|done]. etrans; [by apply keeps_same_state|done].
    + by eapply linear_extend.
  - eapply linear_keeps; [|done]. repeat split; [done|by rewrite Hd|done].
Qed.

(** As long as no two requests overlap, a chain of extended tokens has at most one
    unrevoked member and no row is superseded twice. *)
Theorem chain_single_live s w :
  seq_reachable s w ->
  (forall r1 r2, r1 ∈ metadata (pg w) -> r2 ∈ metadata (pg w) -> m_original r1 = m_original r2 ->
     ~ is_revoked (m_jwt_uuid r1) w -> ~ is_revoked (m_jwt_uuid r2) w -> r1 = r2) /\
  (forall r1 r2 id, r1 ∈ metadata (pg w) -> r2 ∈ metadata (pg w) ->
     m_supersedes r1 = Some id -> m_supersedes r2 = Some id -> r1 = r2).
Proof.
  intros Hr. enough (linear_inv w) as [_ H1' H2'] by done.
  eapply (rtc_invariant (seq_step s)); [apply linear_step|exact Hr|].
  split; [apply initial_inv|..]; intros r1 r2; simpl; intros; by edestruct (not_elem_of_nil r1).
Qed.

(** Whatever interleaving of the operations runs, also overlapping extends, a
    denylist entry is never changed or removed and the metadata table only grows at its
    end. *)
Theorem revoked_forever s y y' j d :
  rtc (step s) y y' -> denylist (pg (world y)) !! j = Some d ->
  denylist (pg (world y')) !! j = Some d /\
  metadata (pg (world y)) `prefix_of` metadata (pg (world y')).
Proof.
  intros Hsteps Hd. assert (forall y1 y2, step s y1 y2 ->
    denylist (pg (world y1)) ⊆ denylist (pg (world y2)) /\
    metadata (pg (world y1)) `prefix_of` metadata (pg (world y2))) as Hone.
  { intros y1 y2 Hs. destruct Hs as [op w o w' fl E|req w x w' fl E|req w e w' fl E|req x w o w' fl1 fl2 E|rx w fl1 fl2|w w' fl (Hm & Hdl & Ht)]; simpl.
    - apply run_op_effect in E as [(Hm & ? & _)|(row & Ha & _)]; [by rewrite Hm|].
      split; [apply Ha|]. rewrite (ap_rows _ _ _ Ha). by apply prefix_app_r.
    - pose proof (preserves_run _ _ _ _ _ (extend_check_keeps s (er_token req)) E) as (Hm & ? & _).
      by rewrite Hm.
    - pose proof (preserves_run _ _ _ _ _ (extend_check_keeps s (er_token req)) E) as (Hm & ? & _).
      by rewrite Hm.
    - pose proof (preserves_run _ _ _ _ _ (extend_issue_grows s req x) E) as []. done.
    - done.
    - by rewrite Hm, Hdl. }
  enough (denylist (pg (world y)) ⊆ denylist (pg (world y')) /\
    metadata (pg (world y)) `prefix_of` metadata (pg (world y'))) as [Hsub ?].
  { split; [by eapply lookup_weaken|done]. }
  induction Hsteps as [y|y1 y2 y3 Hs _ IH]; [done|].
  destruct (Hone _ _ Hs) as [Hsub1 Hpre1].
  assert (denylist (pg (world y2)) !! j = Some d) as Hd2 by (by eapply lookup_weaken).
  destruct (IH Hd2) as [Hsub2 Hpre2]. split; by etrans.
Qed.
End Chain.

(** ** Overlapping extends fork the chain *)

Definition toy_extend : ExtendRequest := mkExtendRequest (tr_token toy_response) None None.

(** The token is generated, both extends read, then both write. *)
Definition race_check1 := Eval vm_compute in extend_check toy_service (tr_token toy_response) toy_world.
Definition race_check2 := Eval vm_compute in extend_check toy_service (tr_token toy_response) (snd race_check1).
Definition race_x (c : Outcome Extendable * World) : Extendable :=
  ret_of c (mkExtendable (mkClaims "" None None 0 0 "" ∅) 0 0%N 0%N None None).
Definition race_issue1 := Eval vm_compute in extend_issue toy_service toy_extend (race_x race_check2) (snd race_check2).
Definition race_issue2 := Eval vm_compute in extend_issue toy_service toy_extend (race_x race_check1) (snd race_issue1).

