(* ===== verification/Introspect.v ===== *)
(** RFC 7662 introspection: [src/introspect/mod.rs].

    [introspect] answers with the claims of a live token of this issuer, and for
    anything else with [inactive], which serialises to one member.  It uses the
    token service through its signer and its denylist lookup only. *)
From S2P Require Import Prelude Str Chrono Json Error World Effects Jose Claims Config Crypto.
From S2P Require Import JwtApi JwtService JwtTheorems Toy.

Record IntrospectionResponse := mkIntrospection {
  ir_active : bool;
  ir_scope : option string;
  ir_client_id : option string;
  ir_username : option string;
  ir_token_type : option string;
  ir_exp : option Z;
  ir_iat : option Z;
  ir_nbf : option Z;
  ir_sub : option string;
  ir_aud : option (list string);
  ir_iss : option string;
  ir_jti : option string;
  ir_extra_claims : gmap string Value;
}.

(** [IntrospectionResponse::inactive()]: every other field is the default. *)
Definition inactive : IntrospectionResponse :=
  mkIntrospection false None None None None None None None None None None None ∅.

Record IntrospectRequest := mkIntrospectRequest {
  ireq_token : string;
  ireq_token_type_hint : option string;
}.

Definition introspect_names : list string := ["token"; "token_type_hint"].

Definition introspect_request_of_json (fs : list (string * Value)) : option IntrospectRequest :=
  if known_only introspect_names fs then
    t ← required de_string (member ["token"] fs);
    h ← optional de_string (member ["token_type_hint"] fs);
    Some (mkIntrospectRequest t h)
  else None.

(** [#[derive(Serialize)]] with [skip_serializing_if]. *)
Definition introspection_to_json (r : IntrospectionResponse) : Value :=
  VObject ([("active", VBool (ir_active r))]
    ++ opt_field "scope" VString (ir_scope r) ++ opt_field "client_id" VString (ir_client_id r)
    ++ opt_field "username" VString (ir_username r)
    ++ opt_field "token_type" VString (ir_token_type r) ++ opt_field "exp" VInt (ir_exp r)
    ++ opt_field "iat" VInt (ir_iat r) ++ opt_field "nbf" VInt (ir_nbf r)
    ++ opt_field "sub" VString (ir_sub r) ++ opt_field "aud" VStrings (ir_aud r)
    ++ opt_field "iss" VString (ir_iss r) ++ opt_field "jti" VString (ir_jti r)
    ++ match map_fields (ir_extra_claims r) with
       | [] => []
       | fs => [("extra_claims", VObject fs)]
       end).

(** The answer for a live token. *)
Definition introspected (c : StandardClaims) : IntrospectionResponse :=
  mkIntrospection true None None None (Some "custom_jwt") (Some (exp c)) (Some (iat c)) None
    (sub c) (aud c) (Some (iss c)) (Some (jti c)) (extra c).

Definition supported_types : Value :=
  json_map [("custom_jwt", VString "TIM-issued RS256 JWT tokens")].

Section Introspect.
Context `{Env, Jose, Chrono, UuidLib, SerdeJson}.
Implicit Type s : JwtService.

Definition introspect s (req : IntrospectRequest) : M IntrospectionResponse :=
  decoded ← verify (signer s) claims_of_json (ireq_token req) permissive_validation;
  match decoded with
  | Err _ => mret inactive
  | Ok d =>
      let claims := td_claims d in
      if negb (bool_decide (iss claims = cfg_issuer (cfg s))) then mret inactive
      else
        now ← utc_now;
        if exp claims <? timestamp now then mret inactive
        else
          match uuid_parse (jti claims) with
          | None => mret inactive
          | Some jti_uuid =>
              revoked ← denylist_lookup jti_uuid;
              if revoked : bool then mret inactive else mret (introspected claims)
          end
  end.

(** C20: Introspection answers either the bare inactive document or the claims of a
    token that is live, unexpired and issued by this service. *)
Theorem introspect_sound s req w r w' :
  introspect s req w = (Ret r, w') ->
  (r = inactive /\ introspection_to_json r = VObject [("active", VBool false)]) \/
  exists c n, r = introspected c /\ live_token s (ireq_token req) c w w' /\
    iss c = cfg_issuer (cfg s) /\ (tick w <= n < tick w')%nat /\ timestamp (clock n) <= exp c.
Proof.
  unfold introspect. intros Hr. minv.
  destruct (verify_raw_total (signer s) claims_of_json (ireq_token req) permissive_validation w)
    as (x & w1 & E1 & Hs). rewrite (verify_run _ _ _ _ _ _ _ E1) in E. injection E as <- <-.
  destruct x as [d|e]; simpl in Hr; [|minv; by left].
  case_bool_decide as Hiss; simpl in Hr; [|minv; by left]. minv.
  destruct (Z.ltb_spec (exp (td_claims d)) (timestamp (clock (tick w1)))); [minv; by left|].
  destruct (uuid_parse (jti (td_claims d))) as [j|] eqn:Ej; [|minv; by left]. minv.
  apply denylist_lookup_Ret in E as [-> Hs2].
  case_bool_decide as Hrev; minv; [by left|]. right.
  apply verify_raw_sound in E1.
  pose proof Hs as (_ & _ & _ & _ & Ht1). pose proof Hs2 as (_ & _ & _ & _ & Ht2). simpl in *.
  exists (td_claims d), (tick w1). split; [done|]. split; [|split; [done|split; [lia|done]]]. split.
  - exists (td_header d). eapply key_used_ticks; [by destruct d|]. lia.
  - exists j. split; [done|]. by rewrite <- (same_state_revoked w w1).
Qed.

(** C21: For a token signed by this service introspection answers, without changing the
    database, active with its claims exactly when the token is neither expired nor
    revoked. *)
Theorem introspect_signed {CL : ChronoLaws _} {UL : UuidLaws _} {JL : JoseLaws _} s req c j w :
  healthy -> good_signer (signer s) -> signed s (ireq_token req) c ->
  iss c = cfg_issuer (cfg s) -> uuid_parse (jti c) = Some j ->
  exists n w', (tick w <= n < tick w')%nat /\ pg w' = pg w /\
    introspect s req w =
      (Ret (if (exp c <? timestamp (clock n)) || bool_decide (is_revoked j w) then inactive
            else introspected c), w').
Proof.
  intros Hh Hg Hsig Hiss Hj.
  destruct (signed_verifies s _ c permissive_validation w Hg Hsig) as (h & w1 & Hv & Hs);
    [apply permissive_validation_permissive..|].
  pose proof Hs as (Epg & _ & _ & _ & Ht).
  unfold introspect. rewrite (run_bind _ _ _ _ _ (verify_run _ _ _ _ _ _ _ Hv)). 
  cbn [map_err td_claims]. rewrite (bool_decide_true _ Hiss). cbn [negb].
  rewrite run_utc_now, Hj. exists (tick w1).
  destruct (exp c <? timestamp (clock (tick w1))).
  - exists (bump w1). split; [simpl; lia|]. by rewrite <- Epg.
  - unfold denylist_lookup. exists (with_pg (pg (bump w1)) (bump (bump w1))).
    split; [simpl; lia|]. split; [by rewrite <- Epg|].
    erewrite run_bind; [|by erewrite run_bind; [|apply run_sql; [by apply healthy_not_broken | reflexivity]]].
    assert (bool_decide (is_revoked j w) = bool_decide (is_Some (denylist (pg w1) !! j))) as ->
      by (apply bool_decide_ext; unfold is_revoked; by rewrite Epg).
    simpl.
    by destruct (bool_decide (is_Some (denylist (pg w1) !! j))).
Qed.
End Introspect.
