(* ===== verification/Security.v ===== *)
(** Gates and static headers: [src/security/].

    [Admin] is the operator token ([security/admin.rs]), [Gate] the Basic client
    authentication of the introspection and validation endpoints
    ([security/introspect_auth.rs]), [SessionId] the session extractor
    ([security/session_auth.rs]) and [Headers] the response headers and the CORS
    settings ([security/headers.rs]).  Each gate is resolved once, at boot, from
    the configuration and the environment; the theorems say that it fails closed
    there and admits exactly the holders of the secret afterwards.

    [subtle]'s constant-time comparison is equality: time is not modelled. *)
From S2P Require Import Prelude Str Error World Effects Config.

(** [tower_http::cors::CorsLayer], as [build] configures it: methods and
    headers are always [Any]. *)
Inductive CorsOrigin := OriginAny | OriginList (l : list string).

Record CorsLayer := mkCors {
  cors_origin : CorsOrigin;
  cors_methods_any : bool;
  cors_headers_any : bool;
  cors_credentials : bool;
}.

(** [http::HeaderMap]: names in lower case; [get] is the first value. *)
Definition HeaderMap : Type := list (string * string).

Fixpoint header (hs : HeaderMap) (name : string) : option string :=
  match hs with
  | [] => None
  | (k, v) :: hs' => if bool_decide (k = name) then Some v else header hs' name
  end.

(** [http], [axum], [base64] and [tower_http]. *)
Class HttpLib := {
  header_to_str : string -> option string;          (** [HeaderValue::to_str] *)
  header_value_ok : string -> bool;                 (** [HeaderValue::from_str(..).is_ok()] *)
  query_session_id : string -> option (option string); (** [Query::<SessionQuery>::try_from_uri] *)
  b64_decode : string -> option string;             (** [STANDARD.decode] *)
  b64_encode : string -> string;
  cors_usable : CorsLayer -> bool;  (** [CorsLayer::layer] does not panic *)
  (** the headers of the answer the layer itself gives to a preflight, by method and headers *)
  cors_preflight : CorsLayer -> string -> HeaderMap -> option HeaderMap;
  (** the headers of any other answer, given those of the request *)
  cors_extend : CorsLayer -> HeaderMap -> HeaderMap -> HeaderMap;
}.

Class HttpLaws (L : HttpLib) := {
  to_str_same : forall v s, header_to_str v = Some s -> s = v;
  b64_roundtrip : forall s, b64_decode (b64_encode s) = Some s;
  (** base64 text has no space in front and is a valid header value *)
  b64_trimmed : forall s, trim_start (b64_encode s) = b64_encode s;
  (** [HeaderValue::from_str] accepts visible ASCII *)
  visible_value_ok : forall v, all_bytes visible_byte v = true -> header_value_ok v = true;
  (** the CORS protocol has no wildcards for requests with credentials *)
  cors_no_wildcard : forall l, cors_credentials l = true -> cors_headers_any l = true ->
    cors_usable l = false;
  (** a preflight is an [OPTIONS] request *)
  preflight_options : forall l m rq hs, cors_preflight l m rq = Some hs -> m = "OPTIONS";
  (** the layer answers for every origin with a star, and for credentials only if allowed *)
  preflight_any : forall l m rq hs, cors_origin l = OriginAny -> cors_credentials l = false ->
    cors_preflight l m rq = Some hs ->
    header hs "access-control-allow-origin" = Some "*" /\
    header hs "access-control-allow-credentials" = None /\
    forall name, starts_with "access-control-" name = false -> name <> "vary" -> header hs name = None;
  extend_any : forall l rq hs, cors_origin l = OriginAny -> cors_credentials l = false ->
    header (cors_extend l rq hs) "access-control-allow-origin" = Some "*";
  extend_credentials : forall l rq hs, cors_credentials l = false ->
    header (cors_extend l rq hs) "access-control-allow-credentials" =
    header hs "access-control-allow-credentials";
  (** it only sets headers of the CORS protocol *)
  extend_other : forall l rq hs name, starts_with "access-control-" name = false -> name <> "vary" ->
    header (cors_extend l rq hs) name = header hs name;
}.

(** [request::Parts]: what the extractors look at. *)
Record Parts := mkParts { p_headers : HeaderMap; p_uri : string }.

Section Security.
Context `{Env, HttpLib}.

Definition header_str (hs : HeaderMap) (name : string) : option string :=
  v ← header hs name; header_to_str v.

(** ** The admin token *)

Record AdminGate := mkAdminGate { ag_token : option string }.

Definition admin_from_config (c : SecurityConfig) : Result AdminGate TimError :=
  if bool_decide (admin_token_env c = "") then
    if require_admin_token c then
      Err (Config ("security.admin_token_env is empty but require_admin_token = true; "
                   +:+ "set the env var name (see security-hardening.md)"))
    else Ok (mkAdminGate None)
  else
    match env_var (admin_token_env c) with
    | Some v =>
        if negb (bool_decide (v = "")) then Ok (mkAdminGate (Some v))
        else if require_admin_token c then
          Err (Config ("security.admin_token_env `" +:+ admin_token_env c +:+ "` is not set or empty"))
        else Ok (mkAdminGate None)
    | None =>
        if require_admin_token c then
          Err (Config ("security.admin_token_env `" +:+ admin_token_env c +:+ "` is not set or empty"))
        else Ok (mkAdminGate None)
    end.

Definition admin_enforced (g : AdminGate) : bool := bool_decide (is_Some (ag_token g)).

Definition admin_verify (g : AdminGate) (presented : string) : bool :=
  match ag_token g with
  | None => true
  | Some t => bool_decide (t = presented)
  end.

(** What the request presents: the dedicated header first, then the bearer token. *)
Definition admin_presented (hs : HeaderMap) : option string :=
  match header_str hs "x-tim-admin-token" with
  | Some v => Some (trim v)
  | None => v ← header_str hs "authorization"; r ← strip_prefix "Bearer " v; Some (trim r)
  end.

(** The [AdminAuth] extractor. *)
Definition admin_auth (g : AdminGate) (parts : Parts) : Result unit TimError :=
  if negb (admin_enforced g) then Ok tt
  else
    match admin_presented (p_headers parts) with
    | None => Err Unauthorized
    | Some p => if negb (admin_verify g p) then Err Unauthorized else Ok tt
    end.

(** ** Client authentication *)

Record ResolvedClient := mkResolved { rc_client_id : string; rc_secret : string }.

Record IntrospectionGate := mkGate {
  required_introspect : bool;
  required_validation : bool;
  required_jvm_compat : bool;
  gate_clients : list ResolvedClient;
}.

Definition any_required (c : IntrospectionConfig) : bool :=
  required_client_auth c || gate_validation_endpoints c || gate_jvm_compat_endpoints c.

(** The [for] loop over the configured clients. *)
Fixpoint resolve_clients (any : bool) (cs : list IntrospectionClient) :
    Result (list ResolvedClient) TimError :=
  match cs with
  | [] => Ok []
  | c :: cs' =>
      match (v ← env_var (ic_client_secret_env c); if bool_decide (v = "") then None else Some v) with
      | Some v => rest <-? resolve_clients any cs'; Ok (mkResolved (ic_client_id c) v :: rest)
      | None =>
          if any then
            Err (Config ("introspection.clients[" +:+ ic_client_id c +:+ "].client_secret_env `"
                         +:+ ic_client_secret_env c +:+ "` is unset or empty"))
          else resolve_clients any cs'
      end
  end.

Definition gate_from_config (c : IntrospectionConfig) : Result IntrospectionGate TimError :=
  resolved <-? resolve_clients (any_required c) (clients c);
  Ok (mkGate (required_client_auth c) (gate_validation_endpoints c) (gate_jvm_compat_endpoints c) resolved).

Definition client_matches (id secret : string) (c : ResolvedClient) : bool :=
  bool_decide (rc_client_id c = id) &&
  ((String.length (rc_secret c) =? String.length secret)%nat && bool_decide (rc_secret c = secret)).

(** The loop does not stop at the first match. *)
Definition any_match (id secret : string) (cs : list ResolvedClient) : bool :=
  fold_left (fun found c => if client_matches id secret c then true else found) cs false.

Definition verify_basic (g : IntrospectionGate) (header_value : string) : Result unit TimError :=
  '(scheme, rest) <-? ok_or (split_once " " header_value) Unauthorized;
  if negb (eq_ignore_ascii_case scheme "basic") then Err Unauthorized
  else
    decoded <-? ok_or (b64_decode (trim_start rest)) Unauthorized;
    pair <-? ok_or (from_utf8 decoded) Unauthorized;
    '(id, secret) <-? ok_or (split_once ":" pair) Unauthorized;
    if any_match id secret (gate_clients g) then Ok tt else Err Unauthorized.

(** ** The session identifier of a request *)

Record SessionAuth := mkSessionAuth { sa_session_id : string; sa_via_query : bool }.

Definition nonempty (s : string) : option string := if bool_decide (s = "") then None else Some s.

Definition session_auth (parts : Parts) : Result SessionAuth TimError :=
  match (v ← header_str (p_headers parts) "x-tim-session"; nonempty (trim v)) with
  | Some id => Ok (mkSessionAuth id false)
  | None =>
      match (v ← header_str (p_headers parts) "authorization"; r ← strip_prefix "Bearer " v;
             id ← strip_prefix "sess_" (trim r); nonempty id) with
      | Some id => Ok (mkSessionAuth id false)
      | None =>
          match (q ← query_session_id (p_uri parts); id ← q; nonempty (trim id)) with
          | Some id => Ok (mkSessionAuth id true)
          | None => Err Unauthorized
          end
      end
  end.

(** ** Static headers and CORS *)

Record Layers := mkLayers {
  csp : option string;
  hsts : option string;
  referrer : option string;
  frame : option string;
  content_type : option string;
  cors : option CorsLayer;
}.

Definition header_if_set (value : string) : option string :=
  if bool_decide (value = "") then None
  else if header_value_ok value then Some value else None.

Definition build_cors (origins : list string) : option CorsLayer :=
  if bool_decide (origins = []) then None
  else if existsb (fun o => bool_decide (o = "*")) origins then Some (mkCors OriginAny true true false)
  else Some (mkCors (OriginList (List.filter header_value_ok origins)) true true true).

Definition build_layers (c : SecurityConfig) : Layers :=
  mkLayers (header_if_set (content_security_policy c)) (header_if_set (strict_transport_security c))
    (header_if_set (referrer_policy c)) (header_if_set (x_frame_options c))
    (header_if_set (x_content_type_options c)) (build_cors (cors_allowed_origins c)).

(** [SetResponseHeaderLayer::if_not_present] *)
Definition set_if_not_present (name : string) (value : option string) (hs : HeaderMap) : HeaderMap :=
  match value with
  | None => hs
  | Some v => match header hs name with Some _ => hs | None => hs ++ [(name, v)] end
  end.

(** The five header layers, in the order the router adds them. *)
Definition add_static_headers (l : Layers) (hs : HeaderMap) : HeaderMap :=
  set_if_not_present "x-content-type-options" (content_type l)
    (set_if_not_present "x-frame-options" (frame l)
      (set_if_not_present "referrer-policy" (referrer l)
        (set_if_not_present "strict-transport-security" (hsts l)
          (set_if_not_present "content-security-policy" (csp l) hs)))).

(** ** Properties *)

Lemma admin_resolved c g :
  admin_from_config c = Ok g -> require_admin_token c = true ->
  exists t, ag_token g = Some t /\ t ≠ "" /\ env_var (admin_token_env c) = Some t.
Proof.
  unfold admin_from_config. intros Hg Hr. rewrite Hr in Hg.
  case_bool_decide; [done|]. destruct (env_var _) as [t|]; [|done].
  case_bool_decide; simpl in Hg; [done|]. injection Hg as <-. by exists t.
Qed.

(** A gate that requires the admin token was built from a non-empty secret and
    admits exactly the requests that present it. *)
Theorem admin_gate_exact c g parts :
  admin_from_config c = Ok g -> require_admin_token c = true ->
  exists t, env_var (admin_token_env c) = Some t /\ t ≠ "" /\
    admin_auth g parts = if bool_decide (admin_presented (p_headers parts) = Some t)
                         then Ok tt else Err Unauthorized.
Proof.
  intros Hg Hr. destruct (admin_resolved c g Hg Hr) as (t & Ht & Hne & He).
  exists t. split; [done|]. split; [done|]. unfold admin_auth, admin_enforced, admin_verify. rewrite Ht.
  rewrite bool_decide_true by done. simpl. destruct (admin_presented _) as [p|].
  - destruct (decide (t = p)) as [->|Hn]; [by rewrite !bool_decide_true|].
    rewrite !bool_decide_false by congruence. done.
  - by rewrite bool_decide_false.
Qed.

Lemma any_match_spec id secret cs :
  any_match id secret cs = true <-> exists c, c ∈ cs /\ rc_client_id c = id /\ rc_secret c = secret.
Proof.
  assert (forall found, fold_left (fun f c => if client_matches id secret c then true else f) cs found
    = found || existsb (client_matches id secret) cs) as Hfold.
  { induction cs as [|c cs IH]; intros found; simpl; [by rewrite orb_false_r|].
    rewrite IH. destruct (client_matches id secret c); simpl; [by rewrite orb_true_r|done]. }
  unfold any_match. rewrite Hfold. simpl. rewrite existsb_exists_bool. unfold client_matches.
  split.
  - intros (c & Hc & [?%bool_decide_eq_true [_ ?%bool_decide_eq_true]%andb_true_iff]%andb_true_iff). eauto.
  - intros (c & Hc & <- & <-). exists c. by rewrite !bool_decide_true, Nat.eqb_refl.
Qed.

(** C35: Basic authentication succeeds exactly for a header whose scheme is basic in any
    case and whose base64 text is the UTF-8 pair of a configured client and its secret. *)
Theorem verify_basic_exact g h :
  verify_basic g h = Ok tt <->
  exists scheme rest c, h = scheme +:+ " " +:+ rest /\ contains_byte " " scheme = false /\
    eq_ignore_ascii_case scheme "basic" = true /\ c ∈ gate_clients g /\
    contains_byte ":" (rc_client_id c) = false /\
    b64_decode (trim_start rest) = Some (rc_client_id c +:+ ":" +:+ rc_secret c) /\
    from_utf8 (rc_client_id c +:+ ":" +:+ rc_secret c) = Some (rc_client_id c +:+ ":" +:+ rc_secret c).
Proof.
  unfold verify_basic. split.
  - intros ([scheme rest] & [Hh Hns]%ok_or_Ok%split_once_Some & Hb)%rbind_Ok.
    destruct (eq_ignore_ascii_case scheme "basic") eqn:Eb; [|done].
    apply rbind_Ok in Hb as (dec & Hdec%ok_or_Ok & Hb).
    apply rbind_Ok in Hb as (pair & Hp%ok_or_Ok & Hb). pose proof (from_utf8_Some _ _ Hp) as ->.
    apply rbind_Ok in Hb as ([id secret] & [Hpair Hnc]%ok_or_Ok%split_once_Some & Hb).
    destruct (any_match _ _ _) eqn:Em; [|done].
    apply any_match_spec in Em as (c & Hc & Hid & Hsec). exists scheme, rest, c. by subst.
  - intros (scheme & rest & c & Hh & Hns & Hb & Hc & Hnc & Hdec & Hutf).
    rewrite (proj2 (split_once_Some " " h scheme rest)) by done. simpl. rewrite Hb. simpl.
    rewrite Hdec. simpl. rewrite Hutf. simpl.
    rewrite (proj2 (split_once_Some ":" _ (rc_client_id c) (rc_secret c))) by done. simpl.
    rewrite (proj2 (any_match_spec _ _ _)); [done|]. by exists c.
Qed.

Lemma resolve_clients_all cs l :
  resolve_clients true cs = Ok l ->
  Forall2 (fun c r => rc_client_id r = ic_client_id c /\ rc_secret r ≠ "" /\
                      env_var (ic_client_secret_env c) = Some (rc_secret r)) cs l.
Proof.
  revert l. induction cs as [|c cs IH]; intros l; simpl; [intros [= <-]; constructor|].
  destruct (env_var (ic_client_secret_env c)) as [v|] eqn:Ev; simpl; [|done].
  case_bool_decide; [done|]. intros (l' & Hl & [= <-])%rbind_Ok. constructor; [done|by apply IH].
Qed.

(** A gate that could be built while authentication is required holds every
    configured client with a non-empty secret from its environment variable, and admits
    each of them. *)
Theorem gate_admits_configured `{!HttpLaws _} c g :
  gate_from_config c = Ok g -> any_required c = true ->
  Forall2 (fun c r => rc_client_id r = ic_client_id c /\ rc_secret r ≠ "" /\
                      env_var (ic_client_secret_env c) = Some (rc_secret r)) (clients c) (gate_clients g) /\
  forall r, r ∈ gate_clients g -> contains_byte ":" (rc_client_id r) = false ->
    from_utf8 (rc_client_id r +:+ ":" +:+ rc_secret r) = Some (rc_client_id r +:+ ":" +:+ rc_secret r) ->
    verify_basic g ("Basic " +:+ b64_encode (rc_client_id r +:+ ":" +:+ rc_secret r)) = Ok tt.
Proof.
  unfold gate_from_config. intros (l & Hl & [= <-])%rbind_Ok Hany. rewrite Hany in Hl.
  split; [by apply resolve_clients_all|]. simpl. intros r Hr Hnc Hutf.
  unfold verify_basic. rewrite (proj2 (split_once_Some " " _ "Basic" _)) by done. simpl.
  rewrite b64_trimmed, b64_roundtrip. simpl. rewrite Hutf. simpl.
  rewrite (proj2 (split_once_Some ":" _ (rc_client_id r) (rc_secret r))) by done. simpl.
  rewrite (proj2 (any_match_spec _ _ _)); [done|]. by exists r.
Qed.

(** The header beats the bearer token, which beats the query string. *)
Theorem session_auth_precedence parts :
  (forall a, session_auth parts = Ok a -> sa_session_id a ≠ "") /\
  (forall v, header_str (p_headers parts) "x-tim-session" = Some v -> trim v ≠ "" ->
     session_auth parts = Ok (mkSessionAuth (trim v) false)) /\
  (forall id, header_str (p_headers parts) "x-tim-session" = None ->
     header_str (p_headers parts) "authorization" = Some ("Bearer sess_" +:+ id) ->
     trim ("sess_" +:+ id) = "sess_" +:+ id -> id ≠ "" ->
     session_auth parts = Ok (mkSessionAuth id false)).
Proof.
  assert (forall s id, nonempty s = Some id -> id = s /\ id ≠ "") as Hne.
  { intros s id. unfold nonempty. case_bool_decide; naive_solver. }
  split; [|split].
  - intros a. unfold session_auth.
    destruct (v ← header_str (p_headers parts) "x-tim-session"; _) as [id|] eqn:E1.
    { intros [= <-]. by apply bind_Some in E1 as (v & _ & [-> ?]%Hne). }
    destruct (v ← header_str (p_headers parts) "authorization"; _) as [id|] eqn:E2.
    { intros [= <-]. by apply bind_Some in E2
        as (v & _ & (r & _ & (i & _ & [-> ?]%Hne)%bind_Some)%bind_Some). }
    destruct (q ← query_session_id _; _) as [id|] eqn:E3; [|done].
    intros [= <-]. by apply bind_Some in E3 as (q & _ & (i & _ & [-> ?]%Hne)%bind_Some).
  - intros v Hv Ht. unfold session_auth. rewrite Hv. cbn [mbind option_bind]. unfold nonempty.
    by rewrite bool_decide_false.
  - intros id Hh Ha Ht Hid. unfold session_auth. rewrite Hh, Ha. cbn [mbind option_bind].
    rewrite (proj2 (strip_prefix_Some "Bearer " _ ("sess_" +:+ id))) by done. cbn [mbind option_bind].
    rewrite Ht, (proj2 (strip_prefix_Some "sess_" _ id)) by done. cbn [mbind option_bind].
    unfold nonempty. by rewrite bool_decide_false.
Qed.

Lemma header_snoc hs name v n :
  header (hs ++ [(n, v)]) name =
    match header hs name with Some x => Some x | None => if bool_decide (n = name) then Some v else None end.
Proof. induction hs as [|[k x] hs IH]; simpl; [done|]. by destruct (bool_decide (k = name)). Qed.

Lemma set_if_not_present_header n o hs name :
  header (set_if_not_present n o hs) name =
    match header hs name with Some x => Some x | None => if bool_decide (n = name) then o else None end.
Proof.
  unfold set_if_not_present. destruct o as [v|].
  - destruct (header hs n) eqn:E.
    + destruct (header hs name) eqn:F; [done|]. case_bool_decide; [congruence|done].
    + apply header_snoc.
  - destruct (header hs name); [done|]. by case_bool_decide.
Qed.

(** Every response carries each configured security header, a header the handler
    already set is kept, and no other header is added. *)
Theorem static_headers c hs name :
  header (add_static_headers (build_layers c) hs) name =
    match header hs name with
    | Some x => Some x
    | None =>
        if bool_decide (name = "content-security-policy") then header_if_set (content_security_policy c)
        else if bool_decide (name = "strict-transport-security") then header_if_set (strict_transport_security c)
        else if bool_decide (name = "referrer-policy") then header_if_set (referrer_policy c)
        else if bool_decide (name = "x-frame-options") then header_if_set (x_frame_options c)
        else if bool_decide (name = "x-content-type-options") then header_if_set (x_content_type_options c)
        else None
    end.
Proof.
  unfold add_static_headers. rewrite !set_if_not_present_header. simpl.
  destruct (header hs name); [done|].
  generalize (header_if_set (content_security_policy c)) (header_if_set (strict_transport_security c))
    (header_if_set (referrer_policy c)) (header_if_set (x_frame_options c))
    (header_if_set (x_content_type_options c)). intros o1 o2 o3 o4 o5.
  repeat case_bool_decide; simplify_eq; destruct o1, o2, o3, o4, o5; done.
Qed.

(** An explicit list of CORS origins combines credentials with wildcard headers,
    which the CORS layer refuses when it is applied. *)
Theorem cors_list_unusable `{!HttpLaws _} origins :
  origins ≠ [] -> "*" ∉ origins ->
  exists l, build_cors origins = Some l /\ cors_usable l = false.
Proof.
  intros Hne Hstar. unfold build_cors. rewrite bool_decide_false by done.
  destruct (existsb _ origins) eqn:E.
  - apply existsb_exists_bool in E as (x & Hx & ->%bool_decide_eq_true). done.
  - eexists. split; [done|]. by apply cors_no_wildcard.
Qed.
End Security.
