(* ===== verification/SessionCrypto.v ===== *)
(** The envelope of stored session profiles: [src/oauth2/session/crypto.rs].

    [seal] draws a nonce and prepends it to the ciphertext, [open] splits them
    again.  The AEAD itself is the [chacha20poly1305] crate: the class [Aead]
    and its laws.  The hex decoder is the program's own. *)
From S2P Require Import Prelude Str Json Error World Effects.

(** [ChaCha20Poly1305] under a 32-byte key; the [Err] is the error's text. *)
Class Aead := {
  encrypt : string -> string -> string -> Result string string;
  decrypt : string -> string -> string -> Result string string;
}.

Class AeadLaws (A : Aead) := {
  aead_roundtrip : forall k n p c, encrypt k n p = Ok c -> decrypt k n c = Ok p;
  (** only what was encrypted under this key and nonce decrypts *)
  aead_authentic : forall k n p c, decrypt k n c = Ok p -> encrypt k n p = Ok c;
}.

Definition NONCE_LEN : nat := 12.

(** ** Hex *)

Definition from_hex_digit (b : ascii) : Result Z string :=
  if (48 <=? u8 b) && (u8 b <=? 57) then Ok (u8 b - 48)
  else if (97 <=? u8 b) && (u8 b <=? 102) then Ok (u8 b - 97 + 10)
  else if (65 <=? u8 b) && (u8 b <=? 70) then Ok (u8 b - 65 + 10)
  else Err ("non-hex character: " +:+ pretty (u8 b)).

(** The loop over [chunks(2)] of a string of even length. *)
Fixpoint decode_chunks (s : string) : Result string string :=
  match s with
  | String a (String b s') =>
      hi <-? from_hex_digit a;
      lo <-? from_hex_digit b;
      rest <-? decode_chunks s';
      Ok (String (byte_of (Z.lor (Z.shiftl hi 4) lo)) rest)
  | _ => Ok ""
  end.

Definition hex_decode (text : string) : Result string string :=
  let s := trim text in
  if negb (Nat.even (String.length s)) then Err "odd length" else decode_chunks s.

(** [format!("{b:02x}")] of every byte, as the program writes random tokens. *)
Definition hex_digit (z : Z) : ascii := byte_of (if z <? 10 then z + 48 else z - 10 + 97).
Fixpoint hex_encode (s : string) : string :=
  match s with
  | EmptyString => ""
  | String a s' => String (hex_digit (u8 a / 16)) (String (hex_digit (u8 a mod 16)) (hex_encode s'))
  end.

Section SessionCrypto.
Context `{Env, Aead}.

Record SessionCipher := mkCipher { inner : string }.

Definition from_hex_key (hex_key : string) : Result SessionCipher TimError :=
  bytes <-? map_err (fun e => Config ("session key hex decode: " +:+ e)) (hex_decode (trim hex_key));
  if negb (slen bytes =? 32) then
    Err (Config ("session key must be 32 bytes (64 hex chars); got " +:+ pretty (slen bytes)))
  else Ok (mkCipher bytes).

Definition seal (c : SessionCipher) (plaintext : string) : M string :=
  nonce ← fill_bytes NONCE_LEN;
  ct ← lift (map_err (fun e => Crypto ("session AEAD encrypt: " +:+ e)) (encrypt (inner c) nonce plaintext));
  mret (nonce +:+ ct).

(** [slice::split_at] *)
Definition split_at (n : nat) (s : string) : string * string :=
  (String.substring 0 n s, String.substring n (String.length s - n) s).

Definition open (c : SessionCipher) (sealed : string) : Result string TimError :=
  if (String.length sealed <? NONCE_LEN)%nat then Err (Crypto "session AEAD blob too short")
  else
    let '(nonce, ct) := split_at NONCE_LEN sealed in
    map_err (fun e => Crypto ("session AEAD decrypt: " +:+ e)) (decrypt (inner c) nonce ct).

(** ** Lemmas *)

Lemma substring_all s : String.substring 0 (String.length s) s = s.
Proof. induction s; simpl; congruence. Qed.

Lemma substring_prefix a b : String.substring 0 (String.length a) (a +:+ b) = a.
Proof. induction a; simpl; [by destruct b|]. by f_equal. Qed.

Lemma substring_suffix a b m : String.substring (String.length a) m (a +:+ b) = String.substring 0 m b.
Proof. by induction a. Qed.

Lemma split_at_app a b : split_at (String.length a) (a +:+ b) = (a, b).
Proof.
  unfold split_at. rewrite substring_prefix, substring_suffix, string_length_app. f_equal.
  replace (String.length a + String.length b - String.length a)%nat with (String.length b) by lia.
  apply substring_all.
Qed.

Lemma split_at_join n s : (n <= String.length s)%nat -> fst (split_at n s) +:+ snd (split_at n s) = s.
Proof.
  unfold split_at. simpl. revert n. induction s as [|a s IH]; intros [|n] Hn; simpl in *; try done.
  - exact (f_equal (String a) (substring_all s)).
  - exact (f_equal (String a) (IH n ltac:(lia))).
Qed.

Lemma split_at_length n s : (n <= String.length s)%nat -> String.length (fst (split_at n s)) = n.
Proof.
  unfold split_at. simpl. revert n. induction s as [|a s IH]; intros [|n] Hn; simpl in *; try done; [lia|].
  f_equal. apply IH. lia.
Qed.

Lemma seal_Ret c p w blob w' :
  seal c p w = (Ret blob, w') ->
  exists nonce ct, nonce = random_bytes (tick w) NONCE_LEN /\ encrypt (inner c) nonce p = Ok ct /\
    blob = nonce +:+ ct /\ w' = bump w.
Proof.
  unfold seal, fill_bytes. intros Hr. minv. eexists _, _. split; [reflexivity|].
  split; [exact E0|]. done.
Qed.

(** The buffer that [fill_bytes] fills keeps its length. *)
Definition random_lengths : Prop := forall t n, String.length (random_bytes t n) = n.

Context `{!AeadLaws _}.

Lemma open_seal c p w blob w' :
  random_lengths -> seal c p w = (Ret blob, w') -> open c blob = Ok p.
Proof.
  intros Hl (nonce & ct & -> & He & -> & ->)%seal_Ret. unfold open.
  rewrite string_length_app, Hl. destruct (Nat.ltb_spec (NONCE_LEN + String.length ct) NONCE_LEN); [lia|].
  pose proof (split_at_app (random_bytes (tick w) NONCE_LEN) ct) as Hs. rewrite Hl in Hs. rewrite Hs.
  by rewrite (aead_roundtrip _ _ _ _ He).
Qed.

(** C31: What seal produces opens to what was sealed, and only a nonce followed by a
    ciphertext of the same key opens at all. *)
Theorem envelope_exact c :
  random_lengths ->
  (forall p w blob w', seal c p w = (Ret blob, w') -> open c blob = Ok p) /\
  (forall blob p, open c blob = Ok p ->
     exists nonce ct, blob = nonce +:+ ct /\ String.length nonce = NONCE_LEN /\
       encrypt (inner c) nonce p = Ok ct).
Proof.
  intros Hl. split; [intros p w blob w'; by apply open_seal|]. intros blob p. unfold open.
  destruct (Nat.ltb_spec (String.length blob) NONCE_LEN) as [|Hge]; [done|].
  pose proof (split_at_join NONCE_LEN blob Hge) as Hj. pose proof (split_at_length NONCE_LEN blob Hge) as Hlen.
  destruct (split_at NONCE_LEN blob) as [nonce ct]. simpl in *. intros Hd%map_err_Ok.
  exists nonce, ct. split; [done|]. split; [done|]. by apply aead_authentic.
Qed.

(** ** Hex *)

Lemma hex_digit_decode z : 0 <= z < 16 -> from_hex_digit (hex_digit z) = Ok z.
Proof.
  intros Hz. assert (z = 0 \/ z = 1 \/ z = 2 \/ z = 3 \/ z = 4 \/ z = 5 \/ z = 6 \/ z = 7 \/ z = 8 \/ z = 9
    \/ z = 10 \/ z = 11 \/ z = 12 \/ z = 13 \/ z = 14 \/ z = 15) as Hcases by lia.
  repeat destruct Hcases as [->|Hcases]; try reflexivity. by subst.
Qed.

Lemma nibbles_join a : byte_of (Z.lor (Z.shiftl (u8 a / 16) 4) (u8 a mod 16)) = a.
Proof. destruct a as [[] [] [] [] [] [] [] []]; reflexivity. Qed.

Lemma decode_chunks_encode s : decode_chunks (hex_encode s) = Ok s.
Proof.
  induction s as [|a s IH]; [done|]. cbn [hex_encode decode_chunks]. pose proof (u8_range a) as Ha.
  rewrite !hex_digit_decode; [|apply Z.mod_pos_bound; lia|split; [apply Z.div_pos|apply Z.div_lt_upper_bound]; lia].
  cbn [rbind]. by rewrite IH, nibbles_join.
Qed.

Lemma hex_encode_length s : String.length (hex_encode s) = (2 * String.length s)%nat.
Proof. induction s; simpl; lia. Qed.
End SessionCrypto.
