(* ===== verification/SessionStore.v ===== *)
(** Sessions and the interface of their stores: [src/oauth2/session/store.rs].

    [SessionStore] is the trait; [StoreSpec] is what an implementation promises
    in terms of the sessions it holds ([stored]) and the clock it compares
    expiries with ([store_now]).  The theorems of this file are proved against
    the interface; MemoryStore.v and PostgresStore.v discharge it. *)
From S2P Require Import Prelude Json World Effects Error.

(** [Session::is_expired] *)
Definition is_expired (s : Session) (now : Z) : bool := s_expires_at s <=? now.

(** [trait SessionStore]; [ss_ttl_cap] in seconds. *)
Class SessionStore := {
  ss_create : Session -> M unit;
  ss_get : string -> M (option Session);
  ss_touch : string -> M unit;
  ss_revoke : string -> M bool;
  ss_sweep_expired : M Z;
  ss_ttl_cap : Z;
}.

Definition touched (t : Z) (s : Session) : Session :=
  mkSession (s_id s) (s_provider_id s) (s_user_id s) (s_created_at s) t (s_expires_at s) (s_profile s).

(** A session to the reader: gone once it is expired. *)
Definition visible (now : Z) (o : option Session) : option Session :=
  s ← o; if is_expired s now then None else Some s.

(** The part of the world a store does not own. *)
Class StoreSpec (S : SessionStore) (stored : World -> gmap string Session)
    (store_now : World -> Z) (well : World -> Prop) : Prop := {
  create_law : forall s w w', well w -> ss_create s w = (Ret tt, w') -> canonical (VObject (map_fields (s_profile s))) = true ->
    well w' /\ stored w' = <[s_id s := s]> (stored w);
  get_law : forall id w o w', well w -> ss_get id w = (Ret o, w') ->
    well w' /\ o = visible (store_now w) (stored w !! id) /\
    forall i, stored w' !! i = stored w !! i \/
      (stored w' !! i = None /\ visible (store_now w) (stored w !! i) = None);
  touch_law : forall id w u w', well w -> ss_touch id w = (Ret u, w') ->
    well w' /\ (forall i, i ≠ id -> stored w' !! i = stored w !! i) /\
    exists t, (stored w' !! id = touched t <$> stored w !! id) \/
      (stored w' !! id = stored w !! id /\ visible (store_now w) (stored w !! id) = None);
  revoke_law : forall id w b w', well w -> ss_revoke id w = (Ret b, w') ->
    well w' /\ stored w' = delete id (stored w) /\ b = bool_decide (is_Some (stored w !! id));
  sweep_law : forall w n w', well w -> ss_sweep_expired w = (Ret n, w') ->
    well w' /\ stored w' = filter (fun kv => is_expired (snd kv) (store_now w) = false) (stored w) /\
    n = Z.of_nat (base.size (filter (fun kv => is_expired (snd kv) (store_now w) = true) (stored w)));
}.

(** Which part of the world the store lives in. *)
Class StoreFrame (stored : World -> gmap string Session) (well : World -> Prop) : Prop :=
  store_frame : forall w w', mem_sessions w' = mem_sessions w -> session_rows (pg w') = session_rows (pg w) ->
    well w -> well w' /\ stored w' = stored w.

Lemma visible_later now now' o :
  now <= now' -> visible now o = None -> visible now' o = None.
Proof.
  intros Hle. destruct o as [s|]; simpl; [|done]. unfold is_expired.
  destruct (Z.leb_spec (s_expires_at s) now), (Z.leb_spec (s_expires_at s) now'); done || lia.
Qed.

Section Clients.
Context {S : SessionStore} {stored : World -> gmap string Session} {store_now : World -> Z}
  {well : World -> Prop} {Spec : StoreSpec S stored store_now well}.

(** revoking removes a session for good: whatever other identifiers are
    revoked, read, touched or swept afterwards, it is not found again. *)
Inductive store_op : Type :=
| SGet (id : string) | STouch (id : string) | SRevoke (id : string) | SSweep.

Definition run_store_op (op : store_op) : M unit :=
  match op with
  | SGet id => _ ← ss_get id; mret tt
  | STouch id => ss_touch id
  | SRevoke id => _ ← ss_revoke id; mret tt
  | SSweep => _ ← ss_sweep_expired; mret tt
  end.

Inductive store_steps : World -> World -> Prop :=
| ss_done w : store_steps w w
| ss_more op w w1 w2 : run_store_op op w = (Ret tt, w1) -> store_steps w1 w2 -> store_steps w w2.

Lemma store_op_absent op w w' id :
  well w -> run_store_op op w = (Ret tt, w') -> stored w !! id = None -> well w' /\ stored w' !! id = None.
Proof.
  intros Hw Hrun Hno. destruct op as [i|i|i|]; simpl in Hrun; minv.
  - apply (@get_law _ _ _ _ Spec) in E as (Hw' & _ & Hs); [|done]. split; [done|].
    destruct (Hs id) as [Hs'|[Hs' _]]; by rewrite Hs'.
  - apply (@touch_law _ _ _ _ Spec) in Hrun as (Hw' & Ho & t & Ht); [|done]. split; [done|].
    destruct (decide (id = i)) as [->|]; [|by rewrite Ho].
    destruct Ht as [Ht|[Ht _]]; rewrite Ht, Hno; done.
  - apply (@revoke_law _ _ _ _ Spec) in E as (Hw' & -> & _); [|done]. split; [done|].
    destruct (decide (i = id)) as [->|]; [apply lookup_delete_eq|by rewrite lookup_delete_ne].
  - apply (@sweep_law _ _ _ _ Spec) in E as (Hw' & -> & _); [|done]. split; [done|].
    apply map_lookup_filter_None. by left.
Qed.

Lemma revoked_gone id w b w1 w2 o w3 :
  well w -> ss_revoke id w = (Ret b, w1) -> store_steps w1 w2 -> ss_get id w2 = (Ret o, w3) ->
  o = None /\ b = bool_decide (is_Some (stored w !! id)).
Proof.
  intros Hw Hr Hsteps Hget. apply (@revoke_law _ _ _ _ Spec) in Hr as (Hw1 & Hs1 & Hb); [|done].
  split; [|done]. assert (stored w1 !! id = None) as Hno by (rewrite Hs1; apply lookup_delete_eq).
  assert (well w2 /\ stored w2 !! id = None) as [Hw2 Hno2].
  { clear Hs1 Hget. induction Hsteps as [|op w1 w2 w4 Hop _ IH]; [done|].
    destruct (store_op_absent _ _ _ _ Hw1 Hop Hno). by apply IH. }
  apply (@get_law _ _ _ _ Spec) in Hget as (_ & -> & _); [|done]. by rewrite Hno2.
Qed.

(** For every store that meets the contract: revoking a session reports whether it
    was there, and whatever is read, touched, revoked or swept afterwards, it is not
    found again. *)
Theorem revoked_session_gone id w b w1 w2 o w3 :
  well w -> ss_revoke id w = (Ret b, w1) -> store_steps w1 w2 -> ss_get id w2 = (Ret o, w3) ->
  o = None /\ b = bool_decide (is_Some (stored w !! id)).
Proof. apply revoked_gone. Qed.

(** For every store that meets the contract: the sweeper and the clean-up of a
    reader are unobservable, at any later time every session is visible exactly as it
    was. *)
Theorem cleanup_unobservable op w w' now id :
  well w -> run_store_op op w = (Ret tt, w') -> op = SSweep \/ (exists i, op = SGet i) ->
  store_now w <= now ->
  visible now (stored w' !! id) = visible now (stored w !! id).
Proof.
  intros Hw Hrun [->|[i ->]] Hle; simpl in Hrun; minv.
  - apply (@sweep_law _ _ _ _ Spec) in E as (_ & -> & _); [|done]. destruct (stored w !! id) as [s|] eqn:Es.
    + destruct (is_expired s (store_now w)) eqn:Ee.
      * rewrite (proj2 (map_lookup_filter_None _ _ _)).
        { symmetry. eapply visible_later; [done|]. simpl. by rewrite Ee. }
        right. intros s' Hs'. simplify_eq. simpl. by rewrite Ee.
      * by rewrite (map_lookup_filter_Some_2 _ _ _ s).
    + by rewrite (proj2 (map_lookup_filter_None _ _ _)); [|left].
  - apply (@get_law _ _ _ _ Spec) in E as (_ & _ & Hs); [|done]. destruct (Hs id) as [->|[-> Hv]]; [done|].
    symmetry. by eapply visible_later.
Qed.

(** What was created is what is read, until it expires. *)
Theorem create_get s w w1 o w2 :
  well w -> canonical (VObject (map_fields (s_profile s))) = true ->
  ss_create s w = (Ret tt, w1) -> ss_get (s_id s) w1 = (Ret o, w2) ->
  o = if is_expired s (store_now w1) then None else Some s.
Proof.
  intros Hw Hc Hcr Hg. apply (@create_law _ _ _ _ Spec) in Hcr as [Hw1 Hs]; [|done..].
  apply (@get_law _ _ _ _ Spec) in Hg as (_ & -> & _); [|done]. rewrite Hs, lookup_insert_eq. done.
Qed.
End Clients.
