(* ===== verification/MemoryStore.v ===== *)
(** The in-process session store: [src/oauth2/session/memory.rs].

    The [DashMap] is [mem_sessions] of the [World].  [memory_spec] discharges
    the interface of SessionStore.v. *)
From S2P Require Import Prelude Json Error World Effects SessionStore.

Definition mem_map : M (gmap string Session) := fun w => (Ret (mem_sessions w), w).
Definition set_mem_map (m : gmap string Session) : M unit := fun w => (Ret tt, with_mem_sessions m w).

Section MemoryStore.
Context `{Env}.

Definition memory_create (session : Session) : M unit :=
  m ← mem_map;
  set_mem_map (<[s_id session := session]> m).

Definition memory_get (id : string) : M (option Session) :=
  now ← utc_now;
  m ← mem_map;
  match m !! id with
  | None => mret None
  | Some e =>
      if is_expired e now then
        _ ← set_mem_map (delete id m);
        mret None
      else mret (Some e)
  end.

Definition memory_touch (id : string) : M unit :=
  m ← mem_map;
  match m !! id with
  | Some e => now ← utc_now; set_mem_map (<[id := touched now e]> m)
  | None => mret tt
  end.

Definition memory_revoke (id : string) : M bool :=
  m ← mem_map;
  _ ← set_mem_map (delete id m);
  mret (bool_decide (is_Some (m !! id))).

Definition memory_sweep_expired : M Z :=
  now ← utc_now;
  m ← mem_map;
  let expired := map fst (map_to_list (filter (fun kv => is_expired (snd kv) now = true) m)) in
  _ ← set_mem_map (foldr delete m expired);
  mret (Z.of_nat (length expired)).

Definition MemoryStore (ttl : Z) : SessionStore := {|
  ss_create := memory_create;
  ss_get := memory_get;
  ss_touch := memory_touch;
  ss_revoke := memory_revoke;
  ss_sweep_expired := memory_sweep_expired;
  ss_ttl_cap := ttl;
|}.

Lemma foldr_delete_lookup (l : list string) (m : gmap string Session) i :
  foldr delete m l !! i = if decide (i ∈ l) then None else m !! i.
Proof.
  induction l as [|x l IH]; [done|]. cbn [foldr].
  destruct (decide (i = x)) as [->|Hne].
  - by rewrite lookup_delete_eq, decide_True by apply list_elem_of_here.
  - rewrite lookup_delete_ne, IH by done.
    destruct (decide (i ∈ l)) as [Hi|Hi]; destruct (decide (i ∈ x :: l)) as [Hj|Hj]; try done;
      exfalso; [by apply Hj, list_elem_of_further|].
    by apply elem_of_cons in Hj as [?|?].
Qed.

Lemma sweep_map now (m : gmap string Session) :
  foldr delete m (map fst (map_to_list (filter (fun kv => is_expired (snd kv) now = true) m)))
  = filter (fun kv => is_expired (snd kv) now = false) m.
Proof.
  apply map_eq. intros i. rewrite foldr_delete_lookup. apply option_eq. intros s.
  rewrite map_lookup_filter_Some. simpl.
  assert (i ∈ map fst (map_to_list (filter (fun kv => is_expired (snd kv) now = true) m)) <->
    exists s, m !! i = Some s /\ is_expired s now = true) as Hin.
  { change (map fst ?l) with (fst <$> l). rewrite list_elem_of_fmap. split.
    - intros ([k v] & -> & Hkv). apply elem_of_map_to_list, map_lookup_filter_Some in Hkv. eauto.
    - intros (v & ? & ?). exists (i, v). split; [done|]. by apply elem_of_map_to_list, map_lookup_filter_Some. }
  case_decide as Hd; [apply Hin in Hd as (v & Hv & He)|].
  - split; [done|]. intros [Hs Hf]. congruence.
  - split; [intros Hs; split; [done|] | by intros [? _]].
    destruct (is_expired s now) eqn:E; [|done]. exfalso. apply Hd, Hin. eauto.
Qed.

#[export] Instance memory_spec ttl :
  StoreSpec (MemoryStore ttl) mem_sessions (fun w => clock (tick w)) (fun _ => True).
Proof.
  split.
  - intros s w w' _ [= <-] _. done.
  - intros id w o w' _. simpl. unfold memory_get, mem_map, mbind, M_bind, utc_now, ask. simpl.
    destruct (mem_sessions w !! id) as [e|] eqn:E; [|intros [= <- <-]; split; [done|]; split; [done|by left]].
    destruct (is_expired e (clock (tick w))) eqn:Ee; intros [= <- <-]; simpl;
      rewrite ?E; simpl; rewrite ?Ee; (split; [done|]); (split; [done|]); intros i; [|by left].
    destruct (decide (i = id)) as [->|]; [|left; by rewrite lookup_delete_ne].
    right. rewrite lookup_delete_eq, E. simpl. by rewrite Ee.
  - intros id w u w' _. simpl. unfold memory_touch, mem_map, mbind, M_bind, utc_now, ask. simpl.
    destruct (mem_sessions w !! id) as [e|] eqn:E; intros Hrun; injection Hrun; intros; subst w';
      simpl; (split; [done|]).
    + split; [by intros i Hi; rewrite lookup_insert_ne|]. exists (clock (tick w)). left.
      apply lookup_insert_eq.
    + split; [done|]. exists 0. by left.
  - intros id w b w' _ [= <- <-]. done.
  - intros w n w' _. simpl. unfold memory_sweep_expired, mem_map, set_mem_map, mbind, M_bind, utc_now, ask. simpl.
    intros [= <- <-]. simpl. split; [done|]. split; [apply sweep_map|].
    by rewrite length_map, length_map_to_list.
Qed.

#[export] Instance memory_frame : StoreFrame mem_sessions (fun _ => True).
Proof. intros w w' Hm _ _. by split. Qed.
End MemoryStore.

Section Touch.
Context `{Env}.

(** [touch] of this store does not look at the expiry: an expired session that
    was not cleaned up yet gets a new activity time. *)
Theorem memory_touch_expired id s w :
  mem_sessions w !! id = Some s -> is_expired s (clock (tick w)) = true ->
  exists w', memory_touch id w = (Ret tt, w') /\
    mem_sessions w' !! id = Some (touched (clock (tick w)) s).
Proof.
  intros Hs _. unfold memory_touch, mem_map, set_mem_map, mbind, M_bind, utc_now, ask. rewrite Hs.
  eexists. split; [reflexivity|]. apply lookup_insert_eq.
Qed.
End Touch.
