(* ===== verification/PostgresStore.v ===== *)
(** The PostgreSQL session store, [src/oauth2/session/postgres.rs], and the
    choice between the two stores, [build] of [src/oauth2/session/mod.rs].

    Profiles are stored sealed (SessionCrypto.v).  [postgres_spec] discharges
    the interface of SessionStore.v for databases whose profiles all open with
    the configured key.  The texts of JSON errors are not modelled. *)
From S2P Require Import Prelude Str Chrono Json Error World Effects Config JwtApi.
From S2P Require Import SessionCrypto SessionStore MemoryStore.

(** ** Statements *)

Definition insert_session (id : string) (row : SessionRow) : Sql unit := fun _ p =>
  match session_rows p !! id with
  | Some _ => (Err "duplicate key session_pkey", p)
  | None => (Ok tt, with_session_rows (<[id := row]> (session_rows p)) p)
  end.

(** [WHERE id = $1 AND expires_at > now()] *)
Definition select_session (id : string) : Sql (option SessionRow) := fun now p =>
  (Ok (row ← session_rows p !! id; if now <? sr_expires_at row then Some row else None), p).

Definition row_touched (t : Z) (r : SessionRow) : SessionRow :=
  mkSessionRow (sr_provider_id r) (sr_user_id r) (sr_created_at r) t (sr_expires_at r)
    (sr_profile_encrypted r).

Definition update_last_activity (id : string) : Sql unit := fun now p =>
  match session_rows p !! id with
  | Some r =>
      if now <? sr_expires_at r
      then (Ok tt, with_session_rows (<[id := row_touched now r]> (session_rows p)) p)
      else (Ok tt, p)
  | None => (Ok tt, p)
  end.

(** The number of rows affected. *)
Definition delete_session (id : string) : Sql Z := fun _ p =>
  (Ok (match session_rows p !! id with Some _ => 1 | None => 0 end),
   with_session_rows (delete id (session_rows p)) p).

Definition delete_expired : Sql Z := fun now p =>
  (Ok (Z.of_nat (base.size (filter (fun kv => (sr_expires_at (snd kv) <=? now) = true) (session_rows p)))),
   with_session_rows (filter (fun kv => (sr_expires_at (snd kv) <=? now) = false) (session_rows p)) p).

Section PostgresStore.
Context `{Env, Aead, SerdeJson}.

Definition seal_profile (c : SessionCipher) (profile : gmap string Value) : M string :=
  json ← lift (ok_or (json_to_vec (VObject (map_fields profile))) (Crypto "profile serialise"));
  seal c json.

Definition open_profile (c : SessionCipher) (sealed : string) : Result (gmap string Value) TimError :=
  pt <-? open c sealed;
  ok_or (v ← json_from_slice pt; de_map v) (Crypto "profile deserialise").

Definition row_of (s : Session) (sealed : string) : SessionRow :=
  mkSessionRow (s_provider_id s) (s_user_id s) (s_created_at s) (s_last_activity s) (s_expires_at s) sealed.

Definition session_of (id : string) (r : SessionRow) (profile : gmap string Value) : Session :=
  mkSession id (sr_provider_id r) (sr_user_id r) (sr_created_at r) (sr_last_activity r)
    (sr_expires_at r) profile.

Definition postgres_create (c : SessionCipher) (session : Session) : M unit :=
  sealed ← seal_profile c (s_profile session);
  sql (insert_session (s_id session) (row_of session sealed)).

Definition postgres_get (c : SessionCipher) (id : string) : M (option Session) :=
  row ← sql (select_session id);
  match row with
  | None => mret None
  | Some r =>
      profile ← lift (open_profile c (sr_profile_encrypted r));
      mret (Some (session_of id r profile))
  end.

Definition postgres_touch (id : string) : M unit := sql (update_last_activity id).

Definition postgres_revoke (id : string) : M bool :=
  n ← sql (delete_session id);
  mret (0 <? n).

Definition postgres_sweep_expired : M Z := sql delete_expired.

Definition PostgresStore (ttl : Z) (c : SessionCipher) : SessionStore := {|
  ss_create := postgres_create c;
  ss_get := postgres_get c;
  ss_touch := postgres_touch;
  ss_revoke := postgres_revoke;
  ss_sweep_expired := postgres_sweep_expired;
  ss_ttl_cap := ttl;
|}.

(** [session::build] *)
Definition session_build (cfg : AppConfig) : Result SessionStore TimError :=
  let ttl := session_ttl_seconds (oauth2 cfg) in
  if bool_decide (session_store (oauth2 cfg) = "memory") then Ok (MemoryStore ttl)
  else if bool_decide (session_store (oauth2 cfg) = "postgres") then
    key_hex <-? ok_or (env_var (session_encryption_key_env (oauth2 cfg)))
                  (Config ("oauth2.session_encryption_key_env `"
                           +:+ session_encryption_key_env (oauth2 cfg) +:+ "` is not set"));
    cipher <-? from_hex_key key_hex;
    Ok (PostgresStore ttl cipher)
  else Err (Config ("unknown session_store `" +:+ session_store (oauth2 cfg) +:+ "`")).

(** ** The sessions in the table *)

Definition pg_session (c : SessionCipher) (id : string) (r : SessionRow) : option Session :=
  match open_profile c (sr_profile_encrypted r) with
  | Ok profile => Some (session_of id r profile)
  | Err _ => None
  end.

Definition pg_stored (c : SessionCipher) (w : World) : gmap string Session :=
  map_imap (pg_session c) (session_rows (pg w)).

(** Every profile opens. *)
Definition pg_well (c : SessionCipher) (w : World) : Prop :=
  forall id r, session_rows (pg w) !! id = Some r -> is_Some (pg_session c id r).

Lemma pg_stored_lookup c w id : pg_stored c w !! id = r ← session_rows (pg w) !! id; pg_session c id r.
Proof. unfold pg_stored. by rewrite map_lookup_imap. Qed.

#[export] Instance postgres_frame c : StoreFrame (pg_stored c) (pg_well c).
Proof.
  intros w w' _ Hr Hw. split; [intros id r Hid; apply (Hw id r); by rewrite <- Hr|].
  unfold pg_stored. by rewrite Hr.
Qed.

Lemma pg_session_touched c id t r : pg_session c id (row_touched t r) = touched t <$> pg_session c id r.
Proof. unfold pg_session. simpl. by destruct (open_profile c (sr_profile_encrypted r)). Qed.

Lemma pg_session_expiry c id r s now :
  pg_session c id r = Some s -> is_expired s now = (sr_expires_at r <=? now).
Proof. unfold pg_session. destruct (open_profile _ _); [|done]. by intros [= <-]. Qed.

Lemma de_map_fields m : de_map (VObject (map_fields m)) = Some m.
Proof.
  unfold de_map. simpl. f_equal. rewrite <- (list_to_map_fields m) at 2. apply list_to_map_proper.
  - rewrite fmap_reverse, reverse_Permutation. apply map_fields_NoDup.
  - apply reverse_Permutation.
Qed.

Context {AL : AeadLaws _} {SL : SerdeLaws _} (Hrandom : random_lengths).

Lemma seal_profile_open c m w sealed w' :
  canonical (VObject (map_fields m)) = true ->
  seal_profile c m w = (Ret sealed, w') -> open_profile c sealed = Ok m /\ w' = bump w.
Proof.
  intros Hc. destruct (serde_roundtrip _ Hc) as (b & Hb & Hs). unfold seal_profile, open_profile.
  rewrite Hb. simpl ok_or. rewrite run_lift. intros Hseal. rewrite (open_seal _ _ _ _ _ Hrandom Hseal).
  cbn [rbind]. rewrite Hs. cbn [mbind option_bind]. rewrite de_map_fields. split; [done|].
  apply seal_Ret in Hseal as (? & ? & _ & _ & _ & ->). done.
Qed.

Lemma pg_sweep c w now :
  pg_well c w ->
  map_imap (pg_session c) (filter (fun kv => (sr_expires_at (snd kv) <=? now) = false) (session_rows (pg w)))
    = filter (fun kv => is_expired (snd kv) now = false) (pg_stored c w) /\
  base.size (filter (fun kv => (sr_expires_at (snd kv) <=? now) = true) (session_rows (pg w)))
    = base.size (filter (fun kv => is_expired (snd kv) now = true) (pg_stored c w)).
Proof.
  intros Hw. split.
  - apply map_eq. intros i. apply option_eq. intros s.
    rewrite map_lookup_imap, map_lookup_filter_Some, pg_stored_lookup, bind_Some.
    setoid_rewrite map_lookup_filter_Some. simpl. split.
    + intros (r & [Hr He] & Hs). rewrite Hr. simpl. by rewrite (pg_session_expiry _ _ _ _ _ Hs).
    + intros [(r & Hr & Hs)%bind_Some He]. exists r. by rewrite <- (pg_session_expiry _ _ _ _ now Hs).
  - rewrite <- !size_dom. f_equal. apply set_eq. intros i. rewrite !elem_of_dom. unfold is_Some.
    setoid_rewrite map_lookup_filter_Some. setoid_rewrite pg_stored_lookup. simpl. split.
    + intros (r & Hr & He). destruct (Hw i r Hr) as [s Hs]. exists s. rewrite Hr. simpl.
      by rewrite (pg_session_expiry _ _ _ _ now Hs).
    + intros (s & (r & Hr & Hs)%bind_Some & He). exists r.
      by rewrite <- (pg_session_expiry _ _ _ _ now Hs).
Qed.

#[export] Instance postgres_spec ttl c :
  StoreSpec (PostgresStore ttl c) (pg_stored c) (fun w => pg_clock (tick w)) (pg_well c).
Proof.
  split; simpl.
  - intros s w w' Hw Hrun Hc. unfold postgres_create in Hrun. minv.
    apply seal_profile_open in E as [Ho ->]; [|done]. apply sql_Ret_inv in Hrun as (Hq & _ & _).
    simpl in Hq. unfold insert_session in Hq. destruct (session_rows (pg w) !! s_id s) eqn:Es; [done|].
    injection Hq as Hp.
    assert (pg_session c (s_id s) (row_of s a) = Some s) as Hps.
    { unfold pg_session. simpl. rewrite Ho. by destruct s. }
    split.
    + intros id r. rewrite <- Hp. simpl. intros [[<- <-]|[_ ?]]%lookup_insert_Some; [by rewrite Hps|by apply Hw].
    + unfold pg_stored. rewrite <- Hp. simpl. by rewrite map_imap_insert, Hps.
  - intros id w o w' Hw Hrun. unfold postgres_get in Hrun. minv.
    apply sql_Ret_inv in E as (Hq & _ & _). injection Hq as Ha Hp.
    assert (pg w' = pg w0) as Hpg by (destruct a; minv; done).
    assert (forall i, pg_stored c w' !! i = pg_stored c w !! i) as Hsame
      by (intros i; rewrite !pg_stored_lookup, Hpg, <- Hp; done).
    split; [intros i r; rewrite Hpg, <- Hp; apply Hw|]. split; [|intros i; by left].
    rewrite pg_stored_lookup. destruct (session_rows (pg w) !! id) as [r|] eqn:Er; simpl in *.
    + destruct (Hw id r Er) as [s Hs]. rewrite Hs. simpl. rewrite (pg_session_expiry _ _ _ _ _ Hs).
      rewrite Z.leb_antisym. destruct (Z.ltb_spec (pg_clock (tick w)) (sr_expires_at r)); subst a; minv; [|done].
      unfold pg_session in Hs.
      match goal with Hop : open_profile _ _ = Ok _ |- _ => by rewrite Hop in Hs end.
    + subst a. by minv.
  - intros id w u w' Hw Hrun. apply sql_Ret_inv in Hrun as (Hq & _ & _). unfold update_last_activity in Hq.
    destruct (session_rows (pg w) !! id) as [r|] eqn:Er; [destruct (Z.ltb_spec (pg_clock (tick w)) (sr_expires_at r))|];
      injection Hq as _ Hp.
    + split; [|split].
      * intros i r'. rewrite <- Hp. simpl. intros [[<- <-]|[_ ?]]%lookup_insert_Some; [|by apply Hw].
        rewrite pg_session_touched. destruct (Hw id r Er) as [s ->]. by eexists.
      * intros i Hi. rewrite !pg_stored_lookup, <- Hp. simpl. by rewrite lookup_insert_ne.
      * exists (pg_clock (tick w)). left. rewrite !pg_stored_lookup, <- Hp. simpl.
        rewrite lookup_insert_eq, Er. simpl. apply pg_session_touched.
    + split; [intros i r'; rewrite <- Hp; apply Hw|].
      split; [intros; by rewrite !pg_stored_lookup, <- Hp|]. exists 0. right.
      rewrite !pg_stored_lookup, <- Hp, Er. simpl. split; [done|].
      destruct (Hw id r Er) as [s Hs]. rewrite Hs. simpl. rewrite (pg_session_expiry _ _ _ _ _ Hs).
      by destruct (Z.leb_spec (sr_expires_at r) (pg_clock (tick w))); [|lia].
    + split; [intros i r'; rewrite <- Hp; apply Hw|].
      split; [intros; by rewrite !pg_stored_lookup, <- Hp|]. exists 0. right.
      by rewrite !pg_stored_lookup, <- Hp, Er.
  - intros id w b w' Hw Hrun. unfold postgres_revoke in Hrun. minv.
    apply sql_Ret_inv in E as (Hq & _ & _). injection Hq as Ha Hp. split; [|split].
    + intros i r. rewrite <- Hp. simpl. intros [_ ?]%lookup_delete_Some. by apply Hw.
    + apply map_eq. intros i. rewrite pg_stored_lookup, <- Hp. simpl.
      destruct (decide (i = id)) as [->|]; [by rewrite !lookup_delete_eq|].
      by rewrite !lookup_delete_ne, pg_stored_lookup.
    + subst a. rewrite pg_stored_lookup. destruct (session_rows (pg w) !! id) as [r|] eqn:Er; simpl; [|done].
      by destruct (Hw id r Er) as [s ->].
  - intros w n w' Hw Hrun. apply sql_Ret_inv in Hrun as (Hq & _ & _). injection Hq as <- Hp.
    destruct (pg_sweep c w (pg_clock (tick w)) Hw) as [Hs1 Hs2]. split; [|split].
    + intros i r. rewrite <- Hp. simpl. intros [? _]%map_lookup_filter_Some. by apply Hw.
    + unfold pg_stored at 1. rewrite <- Hp. simpl. exact Hs1.
    + by rewrite Hs2.
Qed.


(** [build]: the store is the one configured, and the key of the database store
    is 32 bytes of hex. *)
Theorem session_build_spec cfg S :
  session_build cfg = Ok S ->
  let o := oauth2 cfg in
  (session_store o = "memory" /\ S = MemoryStore (session_ttl_seconds o)) \/
  (session_store o = "postgres" /\ exists key_hex c,
     env_var (session_encryption_key_env o) = Some key_hex /\ hex_decode (trim key_hex) = Ok (inner c) /\
     slen (inner c) = 32 /\ S = PostgresStore (session_ttl_seconds o) c).
Proof.
  unfold session_build. case_bool_decide as Hm; [intros [= <-]; by left|].
  case_bool_decide as Hp; [|done]. intros (k & Hk%ok_or_Ok & (c & Hc & [= <-])%rbind_Ok)%rbind_Ok. right.
  split; [done|]. unfold from_hex_key in Hc. apply rbind_Ok in Hc as (b & Hb%map_err_Ok & Hc).
  destruct (Z.eqb_spec (slen b) 32); cbn [negb] in Hc; [|done]. injection Hc as <-.
  exists k, (mkCipher b). done.
Qed.
End PostgresStore.
