(* ===== verification/Outbound.v ===== *)
(** Outbound requests and their caches: [src/http.rs], [src/oauth2/discovery.rs]
    and [src/oauth2/jwks.rs].

    What an upstream answers is the oracle [Net], indexed like [Env].  The
    [moka] caches are the maps of the [World]; whether an entry is still there
    at a given moment is the oracle [cache_live].  Single-flight sharing of a
    load is not modelled: every miss loads. *)
From S2P Require Import Prelude Str Json Error World Effects Claims JwtApi.

(** [reqwest] *)
Inductive HttpResult :=
| HttpError (text : string) (is_timeout : bool)
| HttpResponse (http_status : Z) (body : string).

Class Net := {
  http_get : nat -> string -> HttpResult;
  (** [POST] with Basic credentials and a form *)
  http_post : nat -> string -> string * string -> list (string * string) -> HttpResult;
  http_build_error : nat -> option string;       (** [Client::builder().build()] fails *)
  status_display : Z -> string;                  (** [StatusCode]'s [Display] *)
  json_error : string -> string;                 (** the text of a body's parse error *)
  jwk_set_of_json : Value -> option (list Jwk);  (** [from_value::<JwkSet>] *)
}.

(** [StatusCode::is_success] *)
Definition is_success (st : Z) : bool := (200 <=? st) && (st <? 300).

Section Outbound.
Context `{Env, Net, SerdeJson}.

(** ** [TIM_OFFLINE] *)

(** The [OnceLock] holds the value of the first read; the environment of a
    process does not change. *)
Definition is_offline : bool :=
  match env_var "TIM_OFFLINE" with
  | Some v => bool_decide (to_ascii_lowercase (trim v) ∈ ["1"; "true"; "yes"])
  | None => false
  end.

Definition block_if_offline (url : string) : option TimError :=
  if is_offline then Some (UpstreamTimeout ("TIM_OFFLINE=1 refuses outbound to `" +:+ url +:+ "`"))
  else None.

Definition get (url : string) : M HttpResult := await (fun t => http_get t url).

(** ** Discovery *)

Definition discovery_of_json (fs : list (string * Value)) : option Discovery :=
  i ← required de_string (unique_field fs "issuer");
  a ← required de_string (unique_field fs "authorization_endpoint");
  t ← required de_string (unique_field fs "token_endpoint");
  u ← optional de_string (unique_field fs "userinfo_endpoint");
  j ← required de_string (unique_field fs "jwks_uri");
  g ← defaulted [] de_strings (unique_field fs "grant_types_supported");
  r ← defaulted [] de_strings (unique_field fs "response_types_supported");
  Some (mkDiscovery i a t u j g r).

(** The two [for] loops of [validate_with]. *)
Fixpoint check_nonempty (l : list (string * string)) : Result unit TimError :=
  match l with
  | [] => Ok tt
  | (name, v) :: l' =>
      if bool_decide (trim v = "") then
        Err (BadGateway ("discovery: required field `" +:+ name +:+ "` is empty"))
      else check_nonempty l'
  end.

Fixpoint check_https (allow_http : bool) (l : list (string * string)) : Result unit TimError :=
  match l with
  | [] => Ok tt
  | (name, v) :: l' =>
      if negb (starts_with "https://" v) && negb allow_http then
        Err (BadGateway ("discovery: `" +:+ name +:+ "` is not https://. Set "
                         +:+ "`allow_http_discovery: true` on this provider to opt in for dev."))
      else check_https allow_http l'
  end.

Definition validate_with (d : Discovery) (allow_http : bool) : Result unit TimError :=
  _ <-? check_nonempty [("issuer", issuer d); ("authorization_endpoint", authorization_endpoint d);
                        ("token_endpoint", token_endpoint d); ("jwks_uri", jwks_uri d)];
  _ <-? check_https allow_http [("authorization_endpoint", authorization_endpoint d);
                                ("token_endpoint", token_endpoint d); ("jwks_uri", jwks_uri d)];
  if negb (bool_decide (grant_types_supported d = [])) &&
     negb (bool_decide ("authorization_code" ∈ grant_types_supported d)) then
    Err (BadGateway "discovery: provider does not advertise `authorization_code` grant")
  else if negb (bool_decide (response_types_supported d = [])) &&
          negb (bool_decide ("code" ∈ response_types_supported d)) then
    Err (BadGateway "discovery: provider does not advertise `code` response type")
  else Ok tt.

Definition fetch_once (url : string) : M Discovery :=
  match block_if_offline url with
  | Some e => throw e
  | None =>
      r ← get url;
      match r with
      | HttpError text _ => throw (BadGateway ("discovery fetch: " +:+ text))
      | HttpResponse st body =>
          if negb (is_success st) then throw (BadGateway ("discovery returned " +:+ status_display st))
          else
            lift (ok_or (v ← json_from_slice body; fs ← as_object v; discovery_of_json fs)
                    (BadGateway ("discovery parse: " +:+ json_error body)))
      end
  end.

Definition retryable (e : TimError) : bool :=
  match e with
  | UpstreamTimeout _ => true
  | BadGateway msg => negb (contains "returned 4" msg)
  | _ => false
  end.

Definition max_retries : nat := 3.

Definition cached {V} (cache : World -> gmap string V) (key : string) : M (option V) := fun w =>
  (Ret (if cache_live (tick w) then cache w !! key else None), bump w).

Definition discovery_insert (url : string) (d : Discovery) : M unit := fun w =>
  (Ret tt, with_discovery_cache (<[url := d]> (discovery_cache w)) w).

(** [for attempt in 0..=max_retries], with [left] attempts to come after this one. *)
Fixpoint fetch_attempts (left : nat) (url : string) (allow_http : bool) : M Discovery :=
  r ← attempt (fetch_once url);
  match r with
  | Ok doc =>
      _ ← lift (validate_with doc allow_http);
      _ ← discovery_insert url doc;
      mret doc
  | Err e =>
      match left with
      | O => throw e
      | S left' => if retryable e then fetch_attempts left' url allow_http else throw e
      end
  end.

Definition fetch_with (url : string) (allow_http : bool) : M Discovery :=
  c ← cached discovery_cache url;
  match c with
  | Some d => mret d
  | None => fetch_attempts max_retries url allow_http
  end.

(** ** JWKS *)

Inductive LoaderErr := LoaderOffline (msg : string) | LoaderBadGateway (msg : string).

Definition into_tim_error (e : LoaderErr) : TimError :=
  match e with
  | LoaderOffline msg => UpstreamTimeout msg
  | LoaderBadGateway msg => BadGateway msg
  end.

(** [JwksBody] and [into_jwk_set]: a set that does not parse is empty. *)
Definition jwks_of_json (fs : list (string * Value)) : option (list Jwk) :=
  keys ← defaulted [] (fun v => match v with VArray l => Some l | _ => None end) (unique_field fs "keys");
  Some (default [] (jwk_set_of_json (VObject [("keys", VArray keys)]))).

Definition load (uri : string) : M (Result (list Jwk) LoaderErr) :=
  match block_if_offline uri with
  | Some (UpstreamTimeout msg) => mret (Err (LoaderOffline msg))
  | _ =>
      r ← get uri;
      mret (match r with
            | HttpError text _ => Err (LoaderBadGateway ("JWKS fetch: " +:+ text))
            | HttpResponse st body =>
                if negb (is_success st) then
                  Err (LoaderBadGateway ("JWKS endpoint returned " +:+ status_display st))
                else ok_or (v ← json_from_slice body; fs ← as_object v; jwks_of_json fs)
                       (LoaderBadGateway ("JWKS parse: " +:+ json_error body))
            end)
  end.

Definition jwks_insert (uri : string) (l : list Jwk) : M unit := fun w =>
  (Ret tt, with_jwks_cache (<[uri := l]> (jwks_cache w)) w).

(** [try_get_with] *)
Definition jwks_fetch (uri : string) : M (list Jwk) :=
  c ← cached jwks_cache uri;
  match c with
  | Some l => mret l
  | None =>
      r ← load uri;
      match r with
      | Ok l => _ ← jwks_insert uri l; mret l
      | Err e => throw (into_tim_error e)
      end
  end.

(** ** Properties *)

Lemma check_nonempty_ok l : check_nonempty l = Ok tt <-> forall n v, (n, v) ∈ l -> trim v ≠ "".
Proof.
  induction l as [|[n v] l IH]; simpl.
  - split; [intros _ n v Hin; by apply not_elem_of_nil in Hin|done].
  - case_bool_decide as Hv.
    + split; [done|]. intros Hall. by destruct (Hall n v); [apply list_elem_of_here|].
    + rewrite IH. split.
      * intros Hall n' v' [[= -> ->]|?]%elem_of_cons; [done|by eapply Hall].
      * intros Hall n' v' Hin. eapply Hall. by apply list_elem_of_further.
Qed.

Lemma check_https_ok allow l :
  check_https allow l = Ok tt <-> (allow = true \/ forall n v, (n, v) ∈ l -> starts_with "https://" v = true).
Proof.
  induction l as [|[n v] l IH]; cbn [check_https].
  - split; [intros _; right; intros n v Hin; by apply not_elem_of_nil in Hin|done].
  - destruct (starts_with "https://" v) eqn:Ev, allow; simpl; rewrite ?IH.
    + split; by left.
    + split; (intros [?|Hall]; [done|right]).
      * intros n' v' [[= -> ->]|?]%elem_of_cons; [done|by eapply Hall].
      * intros n' v' Hin. eapply Hall. by apply list_elem_of_further.
    + split; by left.
    + split; [done|]. intros [?|Hall]; [done|]. rewrite (Hall n v) in Ev; [done|apply list_elem_of_here].
Qed.

(** A document TIM may use. *)
Record usable (d : Discovery) (allow_http : bool) : Prop := {
  us_issuer : trim (issuer d) ≠ "";
  us_authorization : trim (authorization_endpoint d) ≠ "";
  us_token : trim (token_endpoint d) ≠ "";
  us_jwks : trim (jwks_uri d) ≠ "";
  us_https : allow_http = true \/
    (starts_with "https://" (authorization_endpoint d) = true /\
     starts_with "https://" (token_endpoint d) = true /\ starts_with "https://" (jwks_uri d) = true);
  us_grant : grant_types_supported d = [] \/ "authorization_code" ∈ grant_types_supported d;
  us_response : response_types_supported d = [] \/ "code" ∈ response_types_supported d;
}.

Lemma negb_andb_decide (P Q : Prop) `{Decision P, Decision Q} :
  negb (bool_decide P) && negb (bool_decide Q) = false <-> P \/ Q.
Proof.
  destruct (decide P), (decide Q); rewrite ?(bool_decide_true P), ?(bool_decide_false P),
    ?(bool_decide_true Q), ?(bool_decide_false Q) by done; simpl; tauto || (split; [done|tauto]).
Qed.

Lemma validate_with_usable d allow : validate_with d allow = Ok tt <-> usable d allow.
Proof.
  unfold validate_with. split.
  - intros ([] & Hne & ([] & Hht & Hrest)%rbind_Ok)%rbind_Ok.
    rewrite check_nonempty_ok in Hne. rewrite check_https_ok in Hht.
    destruct (_ && _) eqn:E1; [done|]. apply negb_andb_decide in E1.
    destruct (negb (bool_decide (response_types_supported d = [])) && _) eqn:E2; [done|].
    apply negb_andb_decide in E2.
    split; try done; try (eapply Hne; rewrite !elem_of_cons; by eauto 6).
    destruct Hht as [?|Hall]; [by left|right].
    repeat split; eapply Hall; rewrite !elem_of_cons; eauto.
  - intros [? ? ? ? Hht E1 E2].
    rewrite (proj2 (check_nonempty_ok _)).
    2:{ intros n v. rewrite !elem_of_cons. intros [[= _ ->]|[[= _ ->]|[[= _ ->]|[[= _ ->]|Hin]]]]; try done.
        by apply not_elem_of_nil in Hin. }
    cbn [rbind]. rewrite (proj2 (check_https_ok _ _)).
    2:{ destruct Hht as [?|(? & ? & ?)]; [by left|right]. intros n v. rewrite !elem_of_cons.
        intros [[= _ ->]|[[= _ ->]|[[= _ ->]|Hin]]]; try done. by apply not_elem_of_nil in Hin. }
    cbn [rbind]. by rewrite (proj2 (negb_andb_decide _ _) E1), (proj2 (negb_andb_decide _ _) E2).
Qed.

(** The cache holds documents that someone validated. *)
Definition cache_ok (w : World) : Prop :=
  forall url d, discovery_cache w !! url = Some d -> exists allow, usable d allow.

Lemma fetch_once_outcome url w o w' :
  fetch_once url w = (o, w') ->
  (w' = w \/ w' = bump w) /\
  match o with
  | Throw e => status e = 502 \/ status e = 504
  | Panic => False
  | Ret _ | Dropped _ => is_offline = false
  end.
Proof.
  unfold fetch_once, block_if_offline. destruct is_offline; [intros [= <- <-]; split; [by left|by right]|].
  unfold get, await, mbind at 1, M_bind. destruct (dropped (tick w)) as [[c b]|];
    [intros [= <- <-]; split; [by right|done]|].
  destruct (http_get (tick w) url) as [text b|st body].
  - intros [= <- <-]. split; [by right|by left].
  - destruct (is_success st); simpl; [|intros [= <- <-]; split; [by right|by left]].
    destruct (json_from_slice body ≫= _) as [d|]; simpl; intros [= <- <-]; (split; [by right|]); [done|by left].
Qed.

Definition outbound_failure (e : TimError) : Prop := status e = 502 \/ status e = 504.

Lemma validate_with_error d allow e : validate_with d allow = Err e -> outbound_failure e.
Proof.
  unfold validate_with. assert (forall l e, check_nonempty l = Err e -> outbound_failure e) as H1'.
  { induction l as [|[n v] l IH]; intros e'; simpl; [done|]. case_bool_decide; [|apply IH].
    intros [= <-]. by left. }
  assert (forall l e, check_https allow l = Err e -> outbound_failure e) as H2'.
  { induction l as [|[n v] l IH]; intros e'; cbn [check_https]; [done|].
    destruct (_ && _); [|apply IH]. intros [= <-]. by left. }
  destruct (check_nonempty _) as [[]|e1] eqn:E1; cbn [rbind]; [|intros [= <-]; by eapply H1'].
  destruct (check_https _ _) as [[]|e2] eqn:E2; cbn [rbind]; [|intros [= <-]; by eapply H2'].
  destruct (_ && _); [intros [= <-]; by left|].
  destruct (negb (bool_decide (response_types_supported d = [])) && _); [intros [= <-]; by left|done].
Qed.

(** What the attempts can come to. *)
Lemma fetch_attempts_outcome left url allow w o w' :
  fetch_attempts left url allow w = (o, w') ->
  (tick w <= tick w' <= tick w + S left)%nat /\ pg w' = pg w /\
  match o with
  | Ret d => is_offline = false /\ usable d allow /\ discovery_cache w' = <[url := d]> (discovery_cache w)
  | Throw e => outbound_failure e /\ discovery_cache w' = discovery_cache w
  | Panic => False
  | Dropped _ => discovery_cache w' = discovery_cache w
  end.
Proof.
  revert w. induction left as [|left IH]; intros w; cbn [fetch_attempts]; unfold attempt, mbind at 1, M_bind;
    destruct (fetch_once url w) as [o1 w1] eqn:E1;
    apply fetch_once_outcome in E1 as [Hw Ho1];
    assert ((tick w <= tick w1 <= S (tick w))%nat /\ pg w1 = pg w /\ discovery_cache w1 = discovery_cache w)
      as (Ht & Hpg & Hdc) by (destruct Hw as [-> | ->]; simpl; repeat split; lia);
    (destruct o1 as [d|e| |c]; [| |done|intros [= <- <-]; split; [lia|]; done]).
  1,3: destruct (validate_with d allow) as [[]|e] eqn:Ev; cbn;
    (intros [= <- <-]; simpl; split; [lia|]; split; [done|]);
    [rewrite Hdc; split; [done|split; [by apply validate_with_usable|done]]
    |split; [by eapply validate_with_error|done]].
  - intros [= <- <-]. split; [lia|]. done.
  - destruct (retryable e).
    + intros E2. apply IH in E2 as (Ht2 & Hpg2 & Ho). rewrite Hpg2, Hdc in *. split; [lia|].
      split; [done|]. exact Ho.
    + intros [= <- <-]. split; [lia|]. done.
Qed.

(** C29: Fetching a discovery document ends after at most four attempts and never
    panics; it yields the cached document or one that passed validation and is then
    cached, and fails only as a gateway error that leaves the cache alone; cut off, it
    leaves the cache alone too. *)
Theorem fetch_with_spec url allow w o w' :
  fetch_with url allow w = (o, w') ->
  (tick w <= tick w' <= tick w + 5)%nat /\
  match o with
  | Ret d => discovery_cache w !! url = Some d \/
             (usable d allow /\ discovery_cache w' = <[url := d]> (discovery_cache w))
  | Throw e => outbound_failure e /\ discovery_cache w' = discovery_cache w
  | Panic => False
  | Dropped _ => discovery_cache w' = discovery_cache w
  end.
Proof.
  unfold fetch_with, cached, mbind, M_bind.
  destruct (if cache_live (tick w) then discovery_cache w !! url else None) as [d|] eqn:Ec.
  - intros [= <- <-]. simpl. split; [lia|]. left. by destruct (cache_live (tick w)).
  - intros E. apply fetch_attempts_outcome in E as (Ht & _ & Ho). simpl in *.
    split; [unfold max_retries in Ht; lia|]. destruct o; [right; tauto|tauto|done|done].
Qed.

End Outbound.
