(* ===== verification/Registry.v ===== *)
(** The configured identity providers: [src/oauth2/registry.rs].

    [from_config] resolves each provider's credentials from the environment and
    refuses a plain-HTTP discovery URL unless the provider opted in.  The
    iteration order over the [HashMap] is that of [map_to_list]. *)
From S2P Require Import Prelude Str Error World Effects Config.

Record Provider := mkProvider {
  pr_id : string;
  pr_config : ProviderConfig;
  pr_client_id : string;
  pr_client_secret : string;
}.

Record ProviderPublicInfo := mkPublicInfo {
  pi_id : string;
  pi_name : string;
  pi_scopes : list string;
  pi_claim_mappings : gmap string string;
}.

(** The discovery cache and the JWKS cache are part of the [World]; here their
    lifetimes. *)
Record ProviderRegistry := mkRegistry {
  reg_providers : gmap string Provider;
  reg_discovery_ttl : Z;
  reg_jwks_ttl : Z;
}.

Section Registry.
Context `{Env}.

(** One round of the loop. *)
Definition resolve_provider (id : string) (pc : ProviderConfig) : Result Provider TimError :=
  if negb (starts_with "https://" (discovery_url pc)) && negb (allow_http_discovery pc) then
    Err (Config ("provider " +:+ id +:+ ": discovery_url `" +:+ discovery_url pc
                 +:+ "` is not https://. Set `allow_http_discovery: true` on this provider to opt in for dev."))
  else
    client_id <-? ok_or (env_var (client_id_env pc))
                    (Config ("provider " +:+ id +:+ ": env var " +:+ client_id_env pc +:+ " not set"));
    client_secret <-? ok_or (env_var (client_secret_env pc))
                        (Config ("provider " +:+ id +:+ ": env var " +:+ client_secret_env pc +:+ " not set"));
    Ok (mkProvider id pc client_id client_secret).

Fixpoint resolve_providers (l : list (string * ProviderConfig)) (jwks_ttl : Z) (acc : gmap string Provider) :
    Result (gmap string Provider * Z) TimError :=
  match l with
  | [] => Ok (acc, jwks_ttl)
  | (id, pc) :: l' =>
      p <-? resolve_provider id pc;
      resolve_providers l' (Z.max jwks_ttl (cache_ttl_seconds (token_validation pc))) (<[id := p]> acc)
  end.

Definition registry_from_config (c : OAuth2Config) : Result ProviderRegistry TimError :=
  '(ps, ttl) <-? resolve_providers (map_to_list (providers c)) 60 ∅;
  Ok (mkRegistry ps (discovery_cache_ttl_seconds c) ttl).

Definition registry_get (r : ProviderRegistry) (id : string) : option Provider := reg_providers r !! id.

Definition public_info (p : Provider) : ProviderPublicInfo :=
  mkPublicInfo (pr_id p) (p_name (pr_config p)) (scopes (pr_config p)) (claim_mappings (pr_config p)).

Definition list_public (r : ProviderRegistry) : list ProviderPublicInfo :=
  map (fun kv => public_info (snd kv)) (map_to_list (reg_providers r)).

Definition ids (r : ProviderRegistry) : list string := map fst (map_to_list (reg_providers r)).

(** ** Properties *)

(** A provider that may be used. *)
Definition resolved (id : string) (pc : ProviderConfig) (p : Provider) : Prop :=
  pr_id p = id /\ pr_config p = pc /\
  (starts_with "https://" (discovery_url pc) = true \/ allow_http_discovery pc = true) /\
  env_var (client_id_env pc) = Some (pr_client_id p) /\
  env_var (client_secret_env pc) = Some (pr_client_secret p).

Lemma resolve_provider_ok id pc p : resolve_provider id pc = Ok p <-> resolved id pc p.
Proof.
  unfold resolve_provider, resolved. split.
  - destruct (starts_with "https://" (discovery_url pc)) eqn:Eh, (allow_http_discovery pc) eqn:Ea;
      cbn [negb andb]; try done;
      intros (i & Hi%ok_or_Ok & (s & Hs%ok_or_Ok & [= <-])%rbind_Ok)%rbind_Ok; simpl; rewrite Hi, Hs; eauto 6.
  - intros (<- & <- & Hor & Hi & Hs).
    assert (negb (starts_with "https://" (discovery_url (pr_config p))) &&
            negb (allow_http_discovery (pr_config p)) = false) as ->
      by (destruct Hor as [-> | ->]; [done|by rewrite andb_false_r]).
    rewrite Hi, Hs. simpl. by destruct p.
Qed.

Lemma resolve_providers_ok l ttl acc ps ttl' :
  NoDup l.*1 -> resolve_providers l ttl acc = Ok (ps, ttl') ->
  (forall id, ps !! id = match (list_to_map l : gmap string ProviderConfig) !! id with
                         | Some pc => match resolve_provider id pc with Ok p => Some p | Err _ => None end
                         | None => acc !! id
                         end) /\
  (forall id pc, (id, pc) ∈ l -> exists p, resolved id pc p) /\
  ttl <= ttl' /\ forall id pc, (id, pc) ∈ l -> cache_ttl_seconds (token_validation pc) <= ttl'.
Proof.
  revert ttl acc. induction l as [|[id pc] l IH]; intros ttl acc Hnd; cbn [resolve_providers].
  - intros [= <- <-]. split; [done|]. split; [intros ? ? Hin; by apply not_elem_of_nil in Hin|].
    split; [lia|]. intros ? ? Hin; by apply not_elem_of_nil in Hin.
  - rewrite fmap_cons in Hnd. apply list.NoDup_cons in Hnd as [Hid Hnd].
    intros (p & Hp & Hrest)%rbind_Ok. apply IH in Hrest as (Hl & Hall & Hle & Httl); [|done].
    split; [|split; [|split; [lia|]]].
    + intros i. rewrite Hl. simpl. destruct (decide (i = id)) as [->|Hne].
      * apply not_elem_of_list_to_map_1 in Hid. simpl in Hid. rewrite Hid, !lookup_insert_eq. by rewrite Hp.
      * by rewrite !lookup_insert_ne.
    + intros i c [[= -> ->]|Hin]%elem_of_cons; [exists p; by apply resolve_provider_ok|by eapply Hall].
    + intros i c [[= -> ->]|Hin]%elem_of_cons; [lia|by eapply Httl].
Qed.

Lemma registry_resolves c r id pc :
  registry_from_config c = Ok r -> providers c !! id = Some pc -> exists p, resolved id pc p.
Proof.
  unfold registry_from_config. intros ([ps ttl] & Hps & _)%rbind_Ok Hpc.
  apply resolve_providers_ok in Hps as (_ & Hall & _); [|apply NoDup_fst_map_to_list].
  by apply Hall, elem_of_map_to_list.
Qed.

Lemma registry_from_config_inv c r :
  registry_from_config c = Ok r ->
  (forall id p, registry_get r id = Some p <->
     exists pc, providers c !! id = Some pc /\ resolved id pc p) /\
  (forall id, id ∈ ids r <-> is_Some (providers c !! id)) /\
  60 <= reg_jwks_ttl r /\
  forall id pc, providers c !! id = Some pc -> cache_ttl_seconds (token_validation pc) <= reg_jwks_ttl r.
Proof.
  unfold registry_from_config, registry_get, ids. intros ([ps ttl] & Hps & [= <-])%rbind_Ok. simpl.
  apply resolve_providers_ok in Hps as (Hl & Hall & Hle & Httl); [|apply NoDup_fst_map_to_list].
  setoid_rewrite elem_of_map_to_list in Hall. setoid_rewrite elem_of_map_to_list in Httl.
  assert (forall id p, ps !! id = Some p <-> exists pc, providers c !! id = Some pc /\ resolved id pc p) as Hget.
  { intros id p. rewrite Hl, list_to_map_to_list. destruct (providers c !! id) as [pc|] eqn:E.
    - destruct (Hall id pc E) as (q & Hq). pose proof Hq as Hq'. apply resolve_provider_ok in Hq'. rewrite Hq'.
      split.
      + intros [= <-]. eauto.
      + intros (pc' & [= <-] & Hr). apply resolve_provider_ok in Hr. congruence.
    - rewrite lookup_empty. split; [done|by intros (? & ? & _)]. }
  split; [done|]. split; [|done]. intros id. change (map fst ?l) with (fst <$> l).
  rewrite list_elem_of_fmap. split.
  - intros ([k p] & -> & Hkp%elem_of_map_to_list). apply Hget in Hkp as (pc & Hpc & _). simpl. by rewrite Hpc.
  - intros [pc Hpc]. destruct (Hall id pc Hpc) as (p & Hp). exists (id, p). split; [done|].
    apply elem_of_map_to_list, Hget. eauto.
Qed.

(** A registry that could be built serves exactly the configured providers with
    their resolved client credentials, and its key-set lifetime is at least a minute and
    at least what every provider asks for. *)
Theorem registry_from_config_spec c r :
  registry_from_config c = Ok r ->
  (forall id p, registry_get r id = Some p <->
     exists pc, providers c !! id = Some pc /\ resolved id pc p) /\
  (forall id, id ∈ ids r <-> is_Some (providers c !! id)) /\
  60 <= reg_jwks_ttl r /\
  forall id pc, providers c !! id = Some pc -> cache_ttl_seconds (token_validation pc) <= reg_jwks_ttl r.
Proof. apply registry_from_config_inv. Qed.
End Registry.
