(* ===== verification/IdToken.v ===== *)
(** Verification of a provider's ID token: [src/oauth2/idtoken.rs].

    [verify_id_token] selects the key of the provider's JWKS, checks signature,
    expiry and issuer through [jsonwebtoken] and audience, issue time and nonce
    itself; [profile_from_claims] maps the claims to a session profile. *)
From S2P Require Import Prelude Str Chrono Json Error World Effects Jose Claims Config JwtApi.
From S2P Require Import Outbound Registry.

(** The key constructors the module calls, and the texts it quotes. *)
Class JwkKeys (J : Jose) := {
  from_rsa_components : string -> string -> Result DecodingKey ErrorKind;
  from_ec_components : string -> string -> Result DecodingKey ErrorKind;
}.

(** [AudClaim] has the variants, and the untagged deserialiser, of [Audience]. *)
Definition aud_contains (a : Audience) (want : string) : bool :=
  match a with
  | Single s => bool_decide (s = want)
  | Multi v => existsb (fun s => bool_decide (s = want)) v
  end.

Record IdTokenClaims := mkIdClaims {
  id_iss : string;
  id_sub : string;
  id_aud : Audience;
  id_exp : Z;
  id_nbf : option Z;
  id_iat : Z;
  id_nonce : option string;
  id_extra : gmap string Value;
}.

Definition id_members : list string := ["iss"; "sub"; "aud"; "exp"; "nbf"; "iat"; "nonce"].

(** [#[derive(Deserialize)]] with [default]s and [flatten]. *)
Definition id_claims_of_json (fs : list (string * Value)) : option IdTokenClaims :=
  i ← defaulted "" de_string (unique_field fs "iss");
  s ← defaulted "" de_string (unique_field fs "sub");
  a ← defaulted (Multi []) audience_of_json (unique_field fs "aud");
  e ← required de_i64 (unique_field fs "exp");
  b ← optional de_i64 (unique_field fs "nbf");
  t ← required de_i64 (unique_field fs "iat");
  n ← optional de_string (unique_field fs "nonce");
  Some (mkIdClaims i s a e b t n (flattened id_members fs)).

(** The [Debug] name of an [Algorithm]. *)
Definition alg_debug (a : Algorithm) : string :=
  match a with
  | HS256 => "HS256" | HS384 => "HS384" | HS512 => "HS512" | ES256 => "ES256" | ES384 => "ES384"
  | RS256 => "RS256" | RS384 => "RS384" | RS512 => "RS512" | PS256 => "PS256" | PS384 => "PS384"
  | PS512 => "PS512" | EdDSA => "EdDSA"
  end.

Definition jwk_matches_alg (jwk : Jwk) (alg : Algorithm) : bool :=
  match key_algorithm jwk with
  | Some k => bool_decide (k = alg_debug alg)
  | None =>
      match algorithm jwk with
      | RSA _ _ => bool_decide (alg ∈ [RS256; RS384; RS512; PS256; PS384; PS512])
      | EllipticCurve _ _ => bool_decide (alg ∈ [ES256; ES384])
      | _ => false
      end
  end.

Definition symmetric (alg : Algorithm) : bool := bool_decide (alg ∈ [HS256; HS384; HS512]).

(** A double quote. *)
Definition dquote : string := bytes [34].

(** The key of the set that the header names, or the first that fits. *)
Definition select_key (keys : list Jwk) (h : Header) : Result Jwk TimError :=
  match h_kid h with
  | Some kid =>
      ok_or (find_first (fun k => bool_decide (key_id k = Some kid)) keys)
        (Unprocessable ("id_token kid " +:+ dquote +:+ clip_untrusted kid 256 +:+ dquote +:+ " not in JWKS"))
  | None =>
      ok_or (find_first (fun k => jwk_matches_alg k (h_alg h)) keys)
        (Unprocessable "id_token header omits kid and no JWKS key matches alg")
  end.

(** The arrow of the messages: U+2192. *)
Definition arrow : string := bytes [226; 134; 146].

Section IdToken.
Context `{Env, J : Jose, Chrono, SerdeJson, Net} {JK : JwkKeys J}.

Definition decoding_key_for (jwk : Jwk) : Result DecodingKey TimError :=
  match algorithm jwk with
  | RSA n e =>
      map_err (fun k => Unprocessable ("JWK " +:+ arrow +:+ " RSA decoding key: "
                                       +:+ clip_untrusted (jwt_error_display k) 256))
        (from_rsa_components n e)
  | EllipticCurve x y =>
      map_err (fun k => Unprocessable ("JWK " +:+ arrow +:+ " EC decoding key: "
                                       +:+ clip_untrusted (jwt_error_display k) 256))
        (from_ec_components x y)
  | OctetKeyPair debug | OctetKey debug =>
      Err (Unprocessable ("unsupported JWK type: " +:+ clip_untrusted debug 256))
  end.

Definition id_validation (alg : Algorithm) (skew : Z) (issuer : string) : Validation :=
  mkValidation [alg] skew true true false ["exp"; "iat"; "iss"; "sub"] (Some [issuer]).

(** [verify] *)
Definition verify_id_token (d : Discovery) (p : Provider) (id_token expected_nonce : string) :
    M IdTokenClaims :=
  header ← lift (map_err (fun k => Unprocessable ("id_token header: "
                   +:+ clip_untrusted (jwt_error_display k) 256)) (jwt_decode_header id_token));
  if symmetric (h_alg header) then
    throw (Unprocessable "id_token signed with a symmetric algorithm; refused")
  else
    set ← jwks_fetch (jwks_uri d);
    key ← lift (select_key set header);
    decoding ← lift (decoding_key_for key);
    let skew := clock_skew_seconds (token_validation (pr_config p)) in
    checked ← utc_now;
    decoded ← lift (map_err (fun k => Unprocessable ("id_token verify: "
                      +:+ clip_untrusted (jwt_error_display k) 256))
                (jwt_decode id_claims_of_json id_token decoding
                   (id_validation (h_alg header) skew (issuer d)) (timestamp checked)));
    let claims := td_claims decoded in
    if negb (aud_contains (id_aud claims) (pr_client_id p)) then
      throw (Unprocessable "id_token aud does not contain client_id")
    else
      now ← utc_now;
      if i64_add (timestamp now) (as_i64 skew) <? id_iat claims then
        throw (Unprocessable "id_token iat is in the future beyond configured clock skew")
      else
        token_nonce ← lift (ok_or (id_nonce claims) (Unprocessable "id_token nonce missing"));
        if negb (bool_decide (token_nonce = expected_nonce)) then
          throw (Unprocessable "id_token nonce mismatch")
        else mret claims.

(** ** The profile *)

Fixpoint walk (v : Value) (segments : list string) : option Value :=
  match segments with
  | [] => Some v
  | s :: segments' => fs ← as_object v; v' ← get_field fs s; walk v' segments'
  end.

Definition resolve_claim_path (extra : gmap string Value) (path : string) : option Value :=
  match split_on "." path with
  | [] => None
  | s :: segments => v ← extra !! s; walk v segments
  end.

Definition mapped_claim (c : IdTokenClaims) (provider_key : string) : option Value :=
  if bool_decide (provider_key = "sub") then Some (VString (id_sub c))
  else if bool_decide (provider_key = "iss") then Some (VString (id_iss c))
  else if bool_decide (provider_key = "aud") then
    Some (match id_aud c with Single s => VArray [VString s] | Multi v => VStrings v end)
  else resolve_claim_path (id_extra c) provider_key.

(** The loop over the mappings writes each canonical name at most once. *)
Definition profile_from_claims (p : Provider) (c : IdTokenClaims) : string * gmap string Value :=
  (id_sub c, omap (mapped_claim c) (claim_mappings (pr_config p))).

(** ** Properties *)

(** What a provider must have signed for a login to succeed. *)
Record id_token_ok (d : Discovery) (p : Provider) (token nonce : string) (c : IdTokenClaims)
    (w w' : World) : Prop := {
  ok_key : exists h keys k dk n, jwt_decode_header token = Ok h /\ symmetric (h_alg h) = false /\
    select_key keys h = Ok k /\ k ∈ keys /\ decoding_key_for k = Ok dk /\
    (tick w <= n < tick w')%nat /\
    (exists h', jwt_decode id_claims_of_json token dk
      (id_validation (h_alg h) (clock_skew_seconds (token_validation (pr_config p))) (issuer d))
      (timestamp (clock n)) = Ok (mkTokenData h' c)) /\
    (0 <= id_exp c -> timestamp (clock n) - clock_skew_seconds (token_validation (pr_config p)) <= id_exp c) /\
    (forall b, id_nbf c = Some b -> 0 <= b ->
       b <= timestamp (clock n) + clock_skew_seconds (token_validation (pr_config p)));
  ok_issuer : id_iss c = issuer d;
  ok_audience : aud_contains (id_aud c) (pr_client_id p) = true;
  ok_nonce : id_nonce c = Some nonce;
  ok_iat : exists m, (tick w <= m < tick w')%nat /\
    id_iat c <= i64_add (timestamp (clock m)) (as_i64 (clock_skew_seconds (token_validation (pr_config p))));
}.

Lemma select_key_in keys h k : select_key keys h = Ok k -> k ∈ keys.
Proof. unfold select_key. destruct (h_kid h); intros Hk%ok_or_Ok; by apply find_first_Some in Hk as [? _]. Qed.

(** The members of parsed claims are the fields of those names. *)
Lemma id_claims_fields fs c :
  id_claims_of_json fs = Some c ->
  get_field fs "exp" = Some (VInt (id_exp c)) /\
  (forall b, id_nbf c = Some b -> get_field fs "nbf" = Some (VInt b)) /\
  (get_field fs "iss" ≠ None -> get_field fs "iss" = Some (VString (id_iss c))).
Proof.
  unfold id_claims_of_json. intros Hc.
  apply bind_Some in Hc as (i & Hi & Hc). apply bind_Some in Hc as (s & Hs & Hc).
  apply bind_Some in Hc as (a & Ha & Hc). apply bind_Some in Hc as (e & He & Hc).
  apply bind_Some in Hc as (b & Hb & Hc). apply bind_Some in Hc as (t & Ht & Hc).
  apply bind_Some in Hc as (n & Hn & [= <-]). simpl. split; [|split].
  - destruct (unique_field fs "exp") as [[v|]|] eqn:E; try done. apply unique_get_field in E. rewrite E.
    simpl in He. destruct v; try done. simpl in He. case_match; naive_solver.
  - intros b' ->. destruct (unique_field fs "nbf") as [[v|]|] eqn:E; try done.
    apply unique_get_field in E. rewrite E. simpl in Hb. destruct v; try done.
    simpl in Hb. case_match; naive_solver.
  - intros Hne. destruct (unique_field fs "iss") as [[v|]|] eqn:E; try done.
    + apply unique_get_field in E. rewrite E. simpl in Hi. destruct v; try done. by injection Hi as ->.
    + exfalso. apply Hne. by apply unique_field_missing.
Qed.

Lemma jwks_fetch_ticks uri w l w' : jwks_fetch uri w = (Ret l, w') -> (tick w < tick w')%nat.
Proof.
  unfold jwks_fetch, cached, mbind, M_bind.
  destruct (if cache_live (tick w) then _ else _); [intros [= _ <-]; simpl; lia|].
  unfold load, block_if_offline. destruct is_offline; [done|]. unfold get, await, mbind, M_bind. simpl.
  destruct (dropped (S (tick w))) as [[c b]|]; [done|]. simpl.
  destruct (match http_get (S (tick w)) uri with HttpError _ _ => _ | HttpResponse _ _ => _ end);
    [intros [= _ <-]; simpl; lia|done].
Qed.

Lemma verify_id_token_Ret `{!JoseLaws J} d p token nonce w c w' :
  verify_id_token d p token nonce w = (Ret c, w') -> id_token_ok d p token nonce c w w'.
Proof.
  unfold verify_id_token. intros Hr. minv.
  destruct (symmetric (h_alg a)) eqn:Esym; [done|]. minv. subst.
  destruct (aud_contains (id_aud (td_claims a4)) (pr_client_id p)) eqn:Eaud; simpl in Hr; [|done]. minv.
  destruct (Z.ltb_spec (i64_add (timestamp (clock (tick (bump w0))))
    (as_i64 (clock_skew_seconds (token_validation (pr_config p))))) (id_iat (td_claims a4))) as [|Hiat]; [done|].
  minv. case_bool_decide as Hn; cbn [negb] in Hr; [|done]. minv. subst.
  pose proof (jwks_fetch_ticks _ _ _ _ E0) as Ht.
  destruct (jose_checks _ _ _ _ _ _ _ E4) as (js & Hjs & _ & Hexp & Hnbf & Hiss & Hreq).
  apply id_claims_fields in Hjs as (Fe & Fn & Fi).
  split; try done.
  - exists a, a0, a1, a2, (tick w0). split; [done|]. split; [done|]. split; [done|].
    split; [by eapply select_key_in|]. split; [done|]. split; [simpl; lia|].
    split; [exists (td_header a4); by destruct a4|]. split.
    + intros He. by apply Hexp.
    + intros b Hb Hpos. apply Hnbf; [done|by apply Fn|done].
  - apply list_elem_of_singleton. apply (Hiss [issuer d] (id_iss (td_claims a4))); [done|].
    apply Fi, Hreq. by vm_compute; do 2 (apply list_elem_of_further); apply list_elem_of_here.
  - exists (tick (bump w0)). split; [simpl; lia|]. done.
Qed.

End IdToken.
