(* ===== verification/Flow.v ===== *)
(** The authorization code flow: [src/oauth2/flow.rs] and the sweep of its state
    rows, [src/oauth2/state_sweeper.rs].

    [build_login_url] stores a single-use state row and builds the URL to the
    provider; [complete_callback] consumes the row, exchanges the code, verifies
    the ID token against the row's nonce and opens a session. *)
From S2P Require Import Prelude Str Chrono Json Error World Effects Jose Claims Config JwtApi.
From S2P Require Import Outbound Registry IdToken SessionCrypto SessionStore.

(** [url], [sha2] and [base64]. *)
Class FlowLib := {
  (** [Url::parse], then [query_pairs_mut().append_pair(..)] for each pair *)
  url_with_query : string -> list (string * string) -> Result string string;
  sha256 : string -> string;
  b64url : string -> string;
}.

(** ** Statements *)

(** [INSERT INTO auth.oauth_state]; [created_at] has the default [now()]. *)
Definition insert_state (state provider_id nonce : string) (redirect_uri pkce_verifier : option string) :
    Sql unit := fun now p =>
  match oauth_state p !! state with
  | Some _ => (Err "duplicate key oauth_state_pkey", p)
  | None => (Ok tt, with_oauth_state
      (<[state := mkState now provider_id nonce pkce_verifier redirect_uri]> (oauth_state p)) p)
  end.

(** [created_at > now() - make_interval(secs => $3::int)] *)
Definition state_fresh (now max_age : Z) (r : StateRow) : bool := now - max_age * MICROS <? st_created_at r.

(** [DELETE .. RETURNING]: one statement, so a row is returned at most once. *)
Definition consume_state (state provider_id : string) (max_age : Z) : Sql (option StateRow) := fun now p =>
  match oauth_state p !! state with
  | Some r =>
      if bool_decide (st_provider_id r = provider_id) && state_fresh now max_age r
      then (Ok (Some r), with_oauth_state (delete state (oauth_state p)) p)
      else (Ok None, p)
  | None => (Ok None, p)
  end.

(** [DELETE FROM auth.oauth_state WHERE created_at < now() - ..] *)
Definition state_stale (now max_age : Z) (r : StateRow) : bool := st_created_at r <? now - max_age * MICROS.

Definition delete_stale_states (max_age : Z) : Sql Z := fun now p =>
  (Ok (Z.of_nat (base.size (filter (fun kv => state_stale now max_age (snd kv) = true) (oauth_state p)))),
   with_oauth_state (filter (fun kv => state_stale now max_age (snd kv) = false) (oauth_state p)) p).

(** ** Pure parts *)

Record AuthUrl := mkAuthUrl { au_authorization_url : string; au_provider : string; au_state : string }.

Record CallbackResult := mkCallbackResult {
  cb_status : string;
  cb_provider : string;
  cb_session_id : string;
  cb_expires_at : Z;
  cb_user_profile : gmap string Value;
}.

Definition resolve_redirect_uri (provider_id : string) (provider_allowed : list string)
    (public_base_url : string) (caller_supplied : option string) : Result string TimError :=
  match caller_supplied with
  | Some uri =>
      if negb (existsb (fun u => bool_decide (u = uri)) provider_allowed) then
        Err (BadRequest ("redirect_uri `" +:+ uri +:+ "` is not on the provider's allow-list"))
      else Ok uri
  | None =>
      match provider_allowed with
      | first :: _ => Ok first
      | [] =>
          if bool_decide (public_base_url = "") then
            Err (BadRequest ("no redirect_uri supplied and neither provider.allowed_redirect_uris "
                             +:+ "nor server.public_base_url is configured"))
          else Ok (trim_end_matches "/" public_base_url +:+ "/auth/callback/" +:+ provider_id)
      end
  end.

Definition enforce_jwks_pin (p : Provider) (d : Discovery) : Result unit TimError :=
  match pinned_jwks_uri (pr_config p) with
  | None => Ok tt
  | Some pinned =>
      if negb (bool_decide (pinned = jwks_uri d)) then
        Err (Unprocessable ("provider " +:+ pr_id p +:+ ": discovery jwks_uri `" +:+ jwks_uri d
                            +:+ "` does not match pinned value `" +:+ pinned +:+ "`"))
      else Ok tt
  end.

(** The provider's answer to the token request. *)
Record ProviderTokens := mkTokens {
  pt_access_token : string;
  pt_id_token : option string;
  pt_token_type : option string;
  pt_expires_in : option Z;
  pt_refresh_token : option string;
}.

Definition tokens_of_json (fs : list (string * Value)) : option ProviderTokens :=
  a ← required de_string (unique_field fs "access_token");
  i ← optional de_string (unique_field fs "id_token");
  t ← optional de_string (unique_field fs "token_type");
  e ← optional de_i64 (unique_field fs "expires_in");
  r ← optional de_string (unique_field fs "refresh_token");
  Some (mkTokens a i t e r).

(** The form of the token request. *)
Definition token_form (code : string) (row : StateRow) : list (string * string) :=
  [("grant_type", "authorization_code"); ("code", code)]
  ++ match st_redirect_uri row with Some r => [("redirect_uri", r)] | None => [] end
  ++ match st_pkce_verifier row with
     | Some v => if bool_decide (v = "") then [] else [("code_verifier", v)]
     | None => []
     end.

(** The session's lifetime in seconds: what the provider says, capped. *)
Definition effective_ttl (ttl_cap : Z) (expires_in : option Z) : Z :=
  Z.max (Z.min (default ttl_cap expires_in) ttl_cap) 1.

Section Flow.
Context `{Env, J : Jose, Chrono, SerdeJson, Net, FlowLib} {JK : JwkKeys J}.

Definition random_hex (n : nat) : M string :=
  buf ← fill_bytes n;
  mret (hex_encode buf).

Definition generate_pkce : M (string * string) :=
  raw ← fill_bytes 32;
  let verifier := b64url raw in
  mret (verifier, b64url (sha256 verifier)).

(** [registry.get(..).ok_or_else(..)] *)
Definition provider_of (r : ProviderRegistry) (provider_id : string) : Result Provider TimError :=
  ok_or (registry_get r provider_id) (NotFound ("unknown provider " +:+ provider_id)).

Definition login_query (p : Provider) (redirect_uri state nonce challenge : string) : list (string * string) :=
  [("response_type", "code"); ("client_id", pr_client_id p); ("redirect_uri", redirect_uri);
   ("scope", join " " (scopes (pr_config p))); ("state", state); ("nonce", nonce);
   ("code_challenge", challenge); ("code_challenge_method", "S256")].

Definition build_login_url (r : ProviderRegistry) (provider_id redirect_uri : string) : M AuthUrl :=
  p ← lift (provider_of r provider_id);
  d ← fetch_with (discovery_url (pr_config p)) (allow_http_discovery (pr_config p));
  _ ← lift (enforce_jwks_pin p d);
  state ← random_hex 32;
  nonce ← random_hex 32;
  pkce ← generate_pkce;
  let '(verifier, challenge) := pkce in
  _ ← sql (insert_state state provider_id nonce (Some redirect_uri) (Some verifier));
  url ← lift (map_err (fun e => BadGateway ("bad authorization_endpoint: " +:+ e))
                (url_with_query (authorization_endpoint d)
                   (login_query p redirect_uri state nonce challenge)));
  mret (mkAuthUrl url provider_id state).

Definition post (url : string) (auth : string * string) (form : list (string * string)) : M HttpResult :=
  await (fun t => http_post t url auth form).

(** The exchange of the code for tokens. *)
Definition exchange_code (p : Provider) (d : Discovery) (code : string) (row : StateRow) : M ProviderTokens :=
  built ← ask http_build_error;
  match built with
  | Some e => throw (BadGateway ("build http client: " +:+ e))
  | None =>
      match block_if_offline (token_endpoint d) with
      | Some e => throw e
      | None =>
          resp ← post (token_endpoint d) (pr_client_id p, pr_client_secret p) (token_form code row);
          match resp with
          | HttpError text true => throw (UpstreamTimeout ("token endpoint: " +:+ text))
          | HttpError text false => throw (BadGateway ("token exchange: " +:+ text))
          | HttpResponse st body =>
              if negb (is_success st) then
                throw (BadGateway ("token exchange returned " +:+ status_display st +:+ ": "
                                   +:+ concat_str (take 512 (chars body))))
              else
                lift (ok_or (v ← json_from_slice body; fs ← as_object v; tokens_of_json fs)
                        (BadGateway ("token response parse: " +:+ json_error body)))
          end
      end
  end.

(** The session of a verified login. *)
Definition login_session (S : SessionStore) (provider_id : string) (claims_profile : string * gmap string Value)
    (expires_in : option Z) : M CallbackResult :=
  let '(user_id, profile) := claims_profile in
  now ← utc_now;
  d ← or_panic (td_seconds (effective_ttl (as_i64 ss_ttl_cap) expires_in));
  expires_at ← or_panic (add_signed now d);
  session_id ← random_hex 24;
  _ ← ss_create (mkSession session_id provider_id user_id now now expires_at profile);
  mret (mkCallbackResult "ok" provider_id session_id expires_at (<["user_id" := VString user_id]> profile)).

Definition complete_callback (r : ProviderRegistry) (S : SessionStore) (state_max_age_seconds : Z)
    (provider_id code state : string) : M CallbackResult :=
  p ← lift (provider_of r provider_id);
  found ← sql (consume_state state provider_id (as_i32 state_max_age_seconds));
  row ← lift (ok_or found (Unprocessable "state not found, expired, or already consumed"));
  d ← fetch_with (discovery_url (pr_config p)) (allow_http_discovery (pr_config p));
  _ ← lift (enforce_jwks_pin p d);
  tokens ← exchange_code p d code row;
  id_token ← lift (ok_or (pt_id_token tokens) (Unprocessable "token response has no id_token"));
  claims ← verify_id_token d p id_token (st_nonce row);
  login_session S provider_id (profile_from_claims p claims) (pt_expires_in tokens).

(** ** The sweeper *)

Definition sweep_oauth_state (max_age_seconds : Z) : M Z := sql (delete_stale_states (as_i32 max_age_seconds)).

(** One round of the background task: both sweeps, their failures only logged. *)
Definition sweep_round (S : SessionStore) (state_max_age : Z) : M unit :=
  _ ← attempt ss_sweep_expired;
  _ ← attempt (sweep_oauth_state state_max_age);
  mret tt.

(** ** Properties *)

(** A redirect URI is used exactly when it is the caller choice and on the allow
    list, the first entry of the list, or the one synthesised from the public base URL
    for a provider without a list. *)
Theorem resolve_redirect_uri_spec provider_id allowed base caller u :
  resolve_redirect_uri provider_id allowed base caller = Ok u <->
  (caller = Some u /\ u ∈ allowed) \/
  (caller = None /\ head allowed = Some u) \/
  (caller = None /\ allowed = [] /\ base ≠ "" /\
   u = trim_end_matches "/" base +:+ "/auth/callback/" +:+ provider_id).
Proof.
  unfold resolve_redirect_uri. destruct caller as [uri|].
  - destruct (existsb _ allowed) eqn:E; simpl.
    + apply existsb_exists_bool in E as (x & Hx & ->%bool_decide_eq_true). split; [intros [= <-]; by left|].
      by intros [[[= ->] _]|[[? _]|[? _]]].
    + split; [done|]. intros [[[= ->] Hin]|[[? _]|[? _]]]; try done.
      assert (existsb (fun x => bool_decide (x = u)) allowed = true) as Ht; [|congruence].
      apply existsb_exists_bool. exists u. by rewrite bool_decide_true.
  - destruct allowed as [|a l].
    + case_bool_decide.
      * split; [done|]. by intros [[? _]|[[_ ?]|(_ & _ & ? & _)]].
      * split; [intros [= <-]; by right; right|]. by intros [[? _]|[[_ ?]|(_ & _ & _ & ->)]].
    + split; [intros [= <-]; by right; left|]. by intros [[? _]|[[_ [= ->]]|(_ & ? & _)]].
Qed.

Lemma consume_state_inv state pid age now p o p' :
  consume_state state pid age now p = (Ok o, p') ->
  (exists r, o = Some r /\ oauth_state p !! state = Some r /\ st_provider_id r = pid /\
     state_fresh now age r = true /\ p' = with_oauth_state (delete state (oauth_state p)) p) \/
  (o = None /\ p' = p).
Proof.
  unfold consume_state. destruct (oauth_state p !! state) as [r|] eqn:E; [|intros [= <- <-]; by right].
  case_bool_decide; simpl; [|intros [= <- <-]; by right].
  destruct (state_fresh now age r) eqn:F; intros [= <- <-]; [left|by right]. by exists r.
Qed.

Lemma effective_ttl_range cap e : 1 <= cap -> 1 <= effective_ttl cap e <= cap.
Proof. unfold effective_ttl. lia. Qed.

Lemma enforce_jwks_pin_ok p d u :
  enforce_jwks_pin p d = Ok u ->
  pinned_jwks_uri (pr_config p) = None \/ pinned_jwks_uri (pr_config p) = Some (jwks_uri d).
Proof.
  unfold enforce_jwks_pin. destruct (pinned_jwks_uri (pr_config p)) as [j|]; [|by left].
  case_bool_decide; [|done]. subst. by right.
Qed.

Lemma login_session_Ret S pid cp e w res w' :
  login_session S pid cp e w = (Ret res, w') ->
  exists now, cb_user_profile res = <["user_id" := VString (fst cp)]> (snd cp) /\
    (1 <= as_i64 (@ss_ttl_cap S) ->
       now + 1 * MICROS <= cb_expires_at res <= now + as_i64 (@ss_ttl_cap S) * MICROS).
Proof.
  unfold login_session. destruct cp as [u prof]. intros Hr. minv. simpl.
  exists (clock (tick w)). split; [done|]. intros Hcap.
  repeat match goal with
  | Ht : td_seconds _ = Some _ |- _ => apply td_seconds_Some in Ht as ->
  | Ht : add_signed _ _ = Some _ |- _ => apply add_signed_Some in Ht as ->
  end.
  pose proof (effective_ttl_range _ e Hcap). unfold MICROS. lia.
Qed.


(** ** State rows are single-use *)

(** The database and the sessions in memory are left alone and time passes; state
    rows are at most removed. *)
Definition same_pg (w w' : World) : Prop :=
  pg w' = pg w /\ mem_sessions w' = mem_sessions w /\ (tick w <= tick w')%nat.
Definition states_shrink (w w' : World) : Prop := oauth_state (pg w') ⊆ oauth_state (pg w).

#[local] Instance same_pg_preorder : PreOrder same_pg.
Proof. split; [by intros w|]. intros w1 w2 w3 (E1 & F1 & T1) (E2 & F2 & T2). split; [congruence|]. split; [congruence|lia]. Qed.
#[local] Instance states_shrink_preorder : PreOrder states_shrink.
Proof. split; [intros w; red; done|]. intros w1 w2 w3. unfold states_shrink. intros ? ?. by etrans. Qed.

(** Decompose a computation that only asks. *)
Ltac ask_pg := intros ?; first [by red | by (repeat split; simpl; auto)].
Ltac preserve_pg :=
  repeat match goal with
  | |- preserves _ (mbind _ _) => apply preserves_bind; [apply _| |intros ?]
  | |- preserves _ (mret _) => by apply preserves_ret, _
  | |- preserves _ (throw _) => by apply preserves_throw, _
  | |- preserves _ (lift _) => by apply preserves_lift, _
  | |- preserves _ (or_panic _) => by apply preserves_or_panic, _
  | |- preserves _ (attempt _) => apply preserves_attempt
  | |- preserves _ (ask _) => apply preserves_ask; ask_pg
  | |- preserves _ utc_now => apply preserves_ask; ask_pg
  | |- preserves _ (get _) => apply preserves_await; ask_pg
  | |- preserves _ (post _ _ _) => apply preserves_await; ask_pg
  | |- preserves _ (fill_bytes _) => apply preserves_ask; ask_pg
  | |- preserves _ (match ?x with _ => _ end) => destruct x
  end.

Lemma fetch_with_same_pg url allow : preserves same_pg (fetch_with url allow).
Proof.
  unfold fetch_with. apply preserves_bind; [apply _|by ask_pg|]. intros [d|]; [preserve_pg|].
  generalize max_retries as left. induction left as [|left IH]; cbn [fetch_attempts];
    unfold fetch_once; preserve_pg; try done; try (by ask_pg).
Qed.

Lemma verify_id_token_same_pg d p t n : preserves same_pg (verify_id_token d p t n).
Proof.
  assert (preserves same_pg (jwks_fetch (jwks_uri d))) as Hj.
  { unfold jwks_fetch. apply preserves_bind; [apply _|by ask_pg|]. intros [l|]; unfold load;
      preserve_pg; by ask_pg. }
  unfold verify_id_token. preserve_pg; done.
Qed.

Lemma exchange_code_same_pg p d code row : preserves same_pg (exchange_code p d code row).
Proof. unfold exchange_code. preserve_pg. Qed.

Lemma same_pg_shrink {A} (m : M A) : preserves same_pg m -> preserves states_shrink m.
Proof. intros Hm w. eapply wp_mono; [apply Hm|]. intros o w' (E & _). red. by rewrite E. Qed.

Lemma run_preserved {A} R (m : M A) w o w' : preserves R m -> m w = (o, w') -> R w w'.
Proof. intros Hm E. specialize (Hm w). unfold wp in Hm. by rewrite E in Hm. Qed.

(** A callback that succeeded has created the session it reports, and touched no
    other. *)
Lemma callback_creates r S age pid code state w res w' :
  complete_callback r S age pid code state w = (Ret res, w') ->
  exists sess w1, @ss_create S sess w1 = (Ret tt, w') /\
    mem_sessions w1 = mem_sessions w /\ session_rows (pg w1) = session_rows (pg w) /\
    s_id sess = cb_session_id res /\ s_provider_id sess = cb_provider res /\
    s_expires_at sess = cb_expires_at res /\
    cb_user_profile res = <["user_id" := VString (s_user_id sess)]> (s_profile sess) /\
    exists p c, provider_of r pid = Ok p /\ profile_from_claims p c = (s_user_id sess, s_profile sess).
Proof.
  unfold complete_callback. intros Hr. minv. subst.
  match goal with
  | Hf : fetch_with _ _ _ = _, Hx : exchange_code _ _ _ _ _ = _, Hv : verify_id_token _ _ _ _ _ = _ |- _ =>
      pose proof (run_preserved _ _ _ _ _ (fetch_with_same_pg _ _) Hf) as (P1 & M1 & _);
      pose proof (run_preserved _ _ _ _ _ (exchange_code_same_pg _ _ _ _) Hx) as (P2 & M2 & _);
      pose proof (run_preserved _ _ _ _ _ (verify_id_token_same_pg _ _ _ _) Hv) as (P3 & M3 & _)
  end.
  apply sql_Ret_inv in E0 as (Hq & Ew & _).
  match type of Ew with ?w1 = _ =>
    assert (mem_sessions w1 = mem_sessions w) as M0 by (by rewrite Ew);
    assert (session_rows (pg w1) = session_rows (pg w)) as Hrows; [clear Ew|] end.
  { revert Hq. unfold consume_state. destruct (oauth_state (pg w) !! state) as [row|]; [destruct (_ && _)|];
      intros Hq; injection Hq as _ <-; done. }
  unfold login_session, random_hex, fill_bytes in Hr. destruct (profile_from_claims _ _) as [u prof] eqn:Eprof. minv.
  match goal with Hc : ss_create _ _ = (Ret ?u, _) |- _ => destruct u; eexists _, _; split; [exact Hc|] end.
  simpl in *. subst. simpl in *. repeat split; eauto; congruence.
Qed.

Lemma login_session_shrink S pid cp e :
  (forall s, preserves states_shrink (@ss_create S s)) -> preserves states_shrink (login_session S pid cp e).
Proof.
  intros HS. unfold login_session. destruct cp as [u prof]. unfold random_hex.
  preserve_pg; try (by intros w; red); auto.
Qed.

(** A state row admits one callback: once a callback succeeded its row is gone, and
    without the row no callback succeeds. *)
Theorem callback_single_use r S age pid code state w res w' :
  (forall s, preserves states_shrink (@ss_create S s)) ->
  complete_callback r S age pid code state w = (Ret res, w') ->
  oauth_state (pg w') !! state = None /\
  forall age2 pid2 code2 w2 res2 w3, states_shrink w' w2 ->
    complete_callback r S age2 pid2 code2 state w2 ≠ (Ret res2, w3).
Proof.
  intros HS Hr. assert (oauth_state (pg w') !! state = None) as Hnone.
  { unfold complete_callback in Hr. minv. subst.
    match goal with
    | Hf : fetch_with _ _ ?w1 = _, Hx : exchange_code _ _ _ _ _ = _, Hv : verify_id_token _ _ _ _ _ = _,
      Hq : sql _ w = _ |- _ =>
        pose proof (run_preserved _ _ _ _ _ (same_pg_shrink _ (fetch_with_same_pg _ _)) Hf) as S1;
        pose proof (run_preserved _ _ _ _ _ (same_pg_shrink _ (exchange_code_same_pg _ _ _ _)) Hx) as S2;
        pose proof (run_preserved _ _ _ _ _ (same_pg_shrink _ (verify_id_token_same_pg _ _ _ _)) Hv) as S3;
        pose proof (run_preserved _ _ _ _ _ (login_session_shrink S _ _ _ HS) Hr) as S4;
        apply sql_Ret_inv in Hq as (Hq & _ & _);
        apply consume_state_inv in Hq as [(row & _ & _ & _ & _ & Hp)|[? _]]; [|done];
        assert (oauth_state (pg w1) !! state = None) as Hn1
          by (rewrite Hp; simpl; apply lookup_delete_eq)
    end.
    unfold states_shrink in *. eapply lookup_weaken_None; [|exact S4].
    eapply lookup_weaken_None; [|exact S3]. eapply lookup_weaken_None; [|exact S2].
    eapply lookup_weaken_None; [|exact S1]. done. }
  split; [done|]. intros age2 pid2 code2 w2 res2 w3 Hs Hr2.
  assert (oauth_state (pg w2) !! state = None) as Hn2 by (by eapply lookup_weaken_None).
  unfold complete_callback in Hr2. minv. subst.
  match goal with Hq : sql _ w2 = _ |- _ => apply sql_Ret_inv in Hq as (Hq & _ & _);
    apply consume_state_inv in Hq as [(row & _ & Hin & _)|[? _]] end; [|done].
  congruence.
Qed.

(** The sweeper only removes rows no callback could still consume: a row that is
    fresh now or later stays, and consuming it gives the same answer as without the
    sweep. *)
Theorem sweep_keeps_fresh age now now' pid state p n p' row :
  now <= now' ->
  delete_stale_states (as_i32 age) now p = (Ok n, p') ->
  oauth_state p !! state = Some row -> state_fresh now' (as_i32 age) row = true ->
  oauth_state p' !! state = Some row /\
  fst (consume_state state pid (as_i32 age) now' p') = fst (consume_state state pid (as_i32 age) now' p).
Proof.
  intros Hle [= _ <-] Hin Hf. simpl.
  assert (filter (fun kv => state_stale now (as_i32 age) (snd kv) = false) (oauth_state p) !! state = Some row) as Hk.
  { apply map_lookup_filter_Some. split; [done|]. simpl. unfold state_fresh, state_stale in *.
    apply Z.ltb_lt in Hf. apply Z.ltb_ge. lia. }
  split; [done|]. unfold consume_state. simpl. rewrite Hk, Hin.
  by destruct (bool_decide _ && _).
Qed.

(** A configured state age of 2^31 seconds or more is cast to a negative number of
    seconds: no state is then ever fresh and the sweep removes even new rows. *)
Theorem state_age_wraps age now row :
  2 ^ 31 <= age < 2 ^ 32 -> st_created_at row <= now ->
  state_fresh now (as_i32 age) row = false /\ state_stale now (as_i32 age) row = true.
Proof.
  intros Ha Hc. assert (as_i32 age = age - 2 ^ 32) as ->.
  { unfold as_i32, wrap_s. change (2 ^ (32 - 1)) with (2 ^ 31). change (2 ^ 32) with (2 * 2 ^ 31) in *.
    replace (age + 2 ^ 31) with (age - 2 ^ 31 + 1 * (2 * 2 ^ 31)) by lia.
    rewrite Z.mod_add, Z.mod_small by lia. lia. }
  unfold state_fresh, state_stale, MICROS. split; [apply Z.ltb_ge|apply Z.ltb_lt]; lia.
Qed.
End Flow.
