(* ===== verification/LoginRace.v ===== *)
(** Logins that overlap: the login flow as a transition system.

    A callback is two steps: [callback_begin] ends with the one statement that
    consumes the state row, [callback_finish] does the rest at any later time,
    so that any number of callbacks, also for one state, may be under way
    together with new logins and the sweeper.  [one_session_per_login] is the
    invariant: a session is only opened for a state this service handed out for
    the same provider, and at most once per state.  (An extension of a token has
    no such statement, hence [JwtChain.extend_race].) *)
From S2P Require Import Prelude Str Chrono Json Error World Effects Jose Claims Config Crypto JwtService.
From S2P Require Import SessionCrypto SessionStore Outbound Registry IdToken Flow.

Section Race.
Context `{Env, J : Jose, Chrono, SerdeJson, Net, FlowLib} {JK : JwkKeys J}.
Context (r : ProviderRegistry) (S : SessionStore) (age : Z).

(** ** A callback in two steps *)

Definition callback_begin (pid state : string) : M (Provider * StateRow) :=
  p ← lift (provider_of r pid);
  found ← sql (consume_state state pid (as_i32 age));
  row ← lift (ok_or found (Unprocessable "state not found, expired, or already consumed"));
  mret (p, row).

Definition callback_finish (pid code : string) (p : Provider) (row : StateRow) : M CallbackResult :=
  d ← fetch_with (discovery_url (pr_config p)) (allow_http_discovery (pr_config p));
  _ ← lift (enforce_jwks_pin p d);
  tokens ← exchange_code p d code row;
  id_token ← lift (ok_or (pt_id_token tokens) (Unprocessable "token response has no id_token"));
  claims ← verify_id_token d p id_token (st_nonce row);
  login_session S pid (profile_from_claims p claims) (pt_expires_in tokens).

(** Run without a pause they are the handler's call. *)
Lemma callback_in_one pid code state w :
  complete_callback r S age pid code state w =
  (x ← callback_begin pid state; callback_finish pid code (fst x) (snd x)) w.
Proof.
  unfold complete_callback, callback_begin, callback_finish, mbind, M_bind.
  destruct (lift (provider_of r pid) w) as [[p|e| |c] w1]; [|done..].
  destruct (sql _ w1) as [[found|e| |c] w2]; [|done..].
  by destruct (lift (ok_or found _) w2) as [[row|e| |c] w3].
Qed.

(** ** The system *)

Record Login := mkLogin { lg_state : string; lg_provider : string; lg_row : StateRow }.

(** The callbacks under way, those that opened a session, and every state row
    that ever was in the table. *)
Record Sys := mkSys {
  world : World;
  pending : list Login;
  opened : list Login;
  seen : gmap string StateRow;
}.

Definition remember (w : World) (seen : gmap string StateRow) : gmap string StateRow := oauth_state (pg w) ∪ seen.

(** State rows are at most removed, and time passes. *)
Definition quiet (w w' : World) : Prop := states_shrink w w' /\ (tick w <= tick w')%nat.

Inductive step : Sys -> Sys -> Prop :=
| step_login pid uri w o w' ps os m :
    build_login_url r pid uri w = (o, w') -> step (mkSys w ps os m) (mkSys w' ps os (remember w' m))
| step_begin pid state w p row w' ps os m :
    callback_begin pid state w = (Ret (p, row), w') ->
    step (mkSys w ps os m) (mkSys w' (mkLogin state pid row :: ps) os m)
| step_refuse pid state w o w' ps os m :
    callback_begin pid state w = (o, w') -> (forall x, o ≠ Ret x) -> step (mkSys w ps os m) (mkSys w' ps os m)
| step_open l code p w res w' ps1 ps2 os m :
    provider_of r (lg_provider l) = Ok p ->
    callback_finish (lg_provider l) code p (lg_row l) w = (Ret res, w') ->
    step (mkSys w (ps1 ++ l :: ps2) os m) (mkSys w' (ps1 ++ ps2) (l :: os) m)
| step_fail l code p w o w' ps1 ps2 os m :
    callback_finish (lg_provider l) code p (lg_row l) w = (o, w') -> (forall res, o ≠ Ret res) ->
    step (mkSys w (ps1 ++ l :: ps2) os m) (mkSys w' (ps1 ++ ps2) os m)
| step_drop l w ps1 ps2 os m : step (mkSys w (ps1 ++ l :: ps2) os m) (mkSys w (ps1 ++ ps2) os m)
| step_sweep w o w' ps os m : sweep_oauth_state age w = (o, w') -> step (mkSys w ps os m) (mkSys w' ps os m)
| step_other w w' ps os m : quiet w w' -> step (mkSys w ps os m) (mkSys w' ps os m).

Definition initial : Sys := mkSys initial_world [] [] ∅.
Definition reachable (y : Sys) : Prop := rtc step initial y.

(** ** What a step does to the state rows *)

#[local] Instance quiet_preorder : PreOrder quiet.
Proof.
  split; [intros w; split; [by red|done]|]. intros w1 w2 w3 [S1 T1] [S2 T2]. unfold quiet, states_shrink in *.
  split; [by etrans|lia].
Qed.

Lemma quiet_bump w : quiet w (bump w).
Proof. split; [by red|simpl; lia]. Qed.

Lemma same_pg_quiet {A} (m : M A) : preserves same_pg m -> preserves quiet m.
Proof. intros Hm w. eapply wp_mono; [apply Hm|]. intros o w' (E & _ & T). split; [red; by rewrite E|done]. Qed.

Lemma consume_quiet state pid : preserves quiet (sql (consume_state state pid (as_i32 age))).
Proof.
  apply preserves_sql; [apply quiet_bump|]. intros now w. split; [|simpl; lia]. unfold states_shrink, consume_state.
  destruct (oauth_state (pg w) !! state); [destruct (_ && _)|]; simpl; [apply delete_subseteq|done..].
Qed.

Lemma sweep_quiet : preserves quiet (sweep_oauth_state age).
Proof.
  unfold sweep_oauth_state. apply preserves_sql; [apply quiet_bump|]. intros now w. split; [|simpl; lia].
  unfold states_shrink. simpl. apply map_filter_subseteq.
Qed.

(** A callback that passed its first half consumed a row for its provider. *)
Lemma callback_begin_Ret pid state w p row w' :
  callback_begin pid state w = (Ret (p, row), w') ->
  quiet w w' /\ oauth_state (pg w) !! state = Some row /\ st_provider_id row = pid /\
  oauth_state (pg w') !! state = None /\ provider_of r pid = Ok p.
Proof.
  unfold callback_begin. intros Hr. minv. injection Hr as <- <- <-. subst a0.
  pose proof (run_preserved _ _ _ _ _ (consume_quiet state pid) E0) as Hquiet.
  apply sql_Ret_inv in E0 as (Hq & _ & _).
  apply consume_state_inv in Hq as [(x & [= <-] & Hin & Hp & _ & Ep)|[? _]]; [|done].
  split; [done|]. split; [done|]. split; [done|]. split; [rewrite Ep; apply lookup_delete_eq|assumption].
Qed.

Lemma callback_begin_quiet pid state : preserves quiet (callback_begin pid state).
Proof.
  unfold callback_begin. apply preserves_bind; [apply _|by apply preserves_lift, _|]. intros p.
  apply preserves_bind; [apply _|apply consume_quiet|]. intros o.
  apply preserves_bind; [apply _|by apply preserves_lift, _|]. intros row. by apply preserves_ret, _.
Qed.

(** A store of sessions leaves the state rows alone. *)
Context (create_quiet : forall s, preserves quiet (@ss_create S s)).

Lemma callback_finish_quiet pid code p row : preserves quiet (callback_finish pid code p row).
Proof.
  unfold callback_finish, login_session, random_hex.
  apply preserves_bind; [apply _|apply same_pg_quiet, fetch_with_same_pg|]. intros d.
  apply preserves_bind; [apply _|by apply preserves_lift, _|]. intros _.
  apply preserves_bind; [apply _|apply same_pg_quiet, exchange_code_same_pg|]. intros t.
  apply preserves_bind; [apply _|by apply preserves_lift, _|]. intros it.
  apply preserves_bind; [apply _|apply same_pg_quiet, verify_id_token_same_pg|]. intros c.
  destruct (profile_from_claims p c) as [u prof].
  repeat match goal with
  | |- preserves quiet (mbind _ _) => apply preserves_bind; [apply _| |intros ?]
  | |- preserves quiet (or_panic _) => by apply preserves_or_panic, _
  | |- preserves quiet (mret _) => by apply preserves_ret, _
  | |- preserves quiet utc_now => apply preserves_ask, quiet_bump
  | |- preserves quiet (fill_bytes _) => apply preserves_ask, quiet_bump
  | |- preserves quiet (ss_create _) => apply create_quiet
  end.
Qed.

(** A login adds at most one row, under a state drawn in the step. *)
Definition login_row (pid : string) (w w' : World) : Prop :=
  exists n row, (tick w <= n < tick w')%nat /\ st_provider_id row = pid /\
    oauth_state (pg w') = <[hex_encode (random_bytes n 32) := row]> (oauth_state (pg w)).

Lemma build_login_url_effect pid uri w o w' :
  build_login_url r pid uri w = (o, w') -> quiet w w' \/ login_row pid w w'.
Proof.
  intros E. pattern o, w'. apply (wp_eq _ _ _ _ _ E). clear E o w'. unfold build_login_url.
  apply wp_bind, wp_lift; [|intros; by left]. intros p _. apply wp_bind.
  eapply wp_mono; [apply fetch_with_same_pg|]. intros [d|e| |c] w1 (Epg & _ & Ht);
    [|left; by split; [red; rewrite Epg|]..].
  assert (forall w2 : World, pg w2 = pg w1 -> (tick w1 <= tick w2)%nat -> quiet w w2) as Hle
    by (intros w2 E2 T2; split; [red; by rewrite E2, Epg|lia]).
  simpl. apply wp_bind, wp_lift; [|intros; left; by apply Hle]. intros [] _.
  unfold random_hex, generate_pkce, fill_bytes. wp_steps. apply wp_sql. intros now.
  match goal with |- wp (stmt _ _) ?w2 _ => assert (forall nonce ru v res q,
    insert_state (hex_encode (random_bytes (tick w1) 32)) pid nonce ru v now (pg w2) = (res, q) ->
    quiet w (with_pg q (bump w2)) \/ login_row pid w (with_pg q (bump w2))) as Hins end.
  { intros nonce ru v res q. unfold insert_state. simpl. destruct (oauth_state (pg w1) !! _); intros [= _ <-].
    - left. apply Hle; simpl; [done|lia].
    - right. exists (tick w1). eexists. split; [simpl; lia|]. split; [|simpl; by rewrite Epg]. done. }
  apply wp_stmt.
  - intros u q Hq%Hins. simpl. wp_steps; done.
  - intros o []; left; (apply Hle; simpl; [done|lia]).
  - intros o res q [] Hq%Hins; done.
Qed.

(** ** The invariant *)

(** A login this service started, whose row was consumed. *)
Record consumed (m : gmap string StateRow) (w : World) (l : Login) : Prop := {
  co_gone : oauth_state (pg w) !! lg_state l = None;
  co_seen : m !! lg_state l = Some (lg_row l);
  co_provider : st_provider_id (lg_row l) = lg_provider l;
}.

Record race_inv (y : Sys) : Prop := {
  ri_once : NoDup (lg_state <$> pending y ++ opened y);
  ri_consumed : Forall (consumed (seen y) (world y)) (pending y ++ opened y);
  ri_table : oauth_state (pg (world y)) ⊆ seen y;
  ri_drawn : forall state row, seen y !! state = Some row ->
    exists n, state = hex_encode (random_bytes n 32) /\ (n < tick (world y))%nat;
}.

Lemma initial_race_inv : race_inv initial.
Proof. split; simpl; [constructor|constructor|done|by intros st row ?%lookup_empty_Some]. Qed.

Lemma consumed_quiet m w w' l : quiet w w' -> consumed m w l -> consumed m w' l.
Proof. intros [Hs _] [Hg Hm Hp]. split; [by eapply lookup_weaken_None|done..]. Qed.

(** A quiet step that drops callbacks. *)
Lemma race_quiet w w' ps os ps' os' m :
  quiet w w' -> (exists k, ps ++ os ≡ₚ (ps' ++ os') ++ k) ->
  race_inv (mkSys w ps os m) -> race_inv (mkSys w' ps' os' m).
Proof.
  intros Hq [k Hk] [Ho Hc Ht Hd]. simpl in *. rewrite Hk in Ho, Hc. split; simpl.
  - rewrite fmap_app in Ho. by apply list.NoDup_app in Ho as [? _].
  - apply Forall_app in Hc as [Hc _]. revert Hc. apply Forall_impl. intros l. by apply consumed_quiet.
  - destruct Hq as [Hs _]. by etrans.
  - intros st row (n & ? & ?)%Hd. exists n. split; [done|]. destruct Hq; lia.
Qed.

(** Draws of 32 random bytes do not repeat. *)
Context (random_distinct : forall n n', random_bytes n 32 = random_bytes n' 32 -> n = n').

Lemma hex_encode_inj a b : hex_encode a = hex_encode b -> a = b.
Proof. intros E. pose proof (decode_chunks_encode a) as Ha. rewrite E, decode_chunks_encode in Ha. by injection Ha. Qed.

Lemma race_login pid w w' ps os m :
  login_row pid w w' -> race_inv (mkSys w ps os m) -> race_inv (mkSys w' ps os (remember w' m)).
Proof.
  intros (n & row & Hn & Hp & E) [Ho Hc Ht Hd]. unfold remember. simpl in *.
  set (st := hex_encode (random_bytes n 32)) in *.
  assert (m !! st = None) as Hnew.
  { destruct (m !! st) as [x|] eqn:Em; [|done]. destruct (Hd _ _ Em) as (n' & En & ?).
    apply hex_encode_inj, random_distinct in En. lia. }
  split; simpl; [done| | |].
  - revert Hc. apply Forall_impl. intros l [Hg Hm Hpr].
    assert (st ≠ lg_state l) as Hne by (intros Est; rewrite Est in Hnew; congruence).
    assert (oauth_state (pg w') !! lg_state l = None) as Hg' by (rewrite E; by rewrite lookup_insert_ne).
    split; [done| |done]. by rewrite lookup_union_r.
  - apply map_union_subseteq_l.
  - intros s0 x [Hx|[_ Hx]]%lookup_union_Some_raw.
    + rewrite E in Hx. apply lookup_insert_Some in Hx as [[<- _]|[_ Hx]]; [exists n; split; [done|lia]|].
      destruct (Hd s0 x) as (n' & ? & ?); [by eapply lookup_weaken|]. exists n'. split; [done|lia].
    + destruct (Hd s0 x Hx) as (n' & ? & ?). exists n'. split; [done|lia].
Qed.

Lemma race_step y y' : step y y' -> race_inv y -> race_inv y'.
Proof.
  intros Hstep Hinv.
  destruct Hstep as [pid uri w o w' ps os m E|pid state w p row w' ps os m E|pid state w o w' ps os m E _
    |l code p w res w' ps1 ps2 os m _ E|l code p w o w' ps1 ps2 os m E _|l w ps1 ps2 os m|w o w' ps os m E|w w' ps os m Hq].
  - apply build_login_url_effect in E as [Hq|Hl]; [|by eapply race_login].
    assert (remember w' m = m) as ->.
    { apply map_subseteq_union. destruct Hq as [Hs _]. etrans; [exact Hs|]. apply (ri_table _ Hinv). }
    eapply race_quiet; [exact Hq| |exact Hinv]. exists []. by rewrite app_nil_r.
  - apply callback_begin_Ret in E as (Hq & Hin & Hp & Hgone & _).
    assert (race_inv (mkSys w' ps os m)) as [Ho Hc Ht Hd]
      by (eapply race_quiet; [exact Hq| |exact Hinv]; exists []; by rewrite app_nil_r).
    pose proof (ri_table _ Hinv) as Ht0. simpl in *. split; simpl; [| |done|done].
    + constructor; [|done]. intros (l & El & Hl)%list_elem_of_fmap.
      pose proof (proj1 (list.Forall_forall _ _) (ri_consumed _ Hinv) l Hl) as [Hg _ _]. simpl in *. congruence.
    + constructor; [|done]. split; simpl; [done| |done]. by eapply lookup_weaken.
  - pose proof (run_preserved _ _ _ _ _ (callback_begin_quiet pid state) E) as Hq.
    eapply race_quiet; [exact Hq| |exact Hinv]. exists []. by rewrite app_nil_r.
  - pose proof (run_preserved _ _ _ _ _ (callback_finish_quiet _ _ _ _) E) as Hq.
    eapply race_quiet; [exact Hq| |exact Hinv]. exists []. rewrite app_nil_r.
    rewrite <- !(assoc_L (++)). simpl. apply Permutation_app_head, Permutation_middle.
  - pose proof (run_preserved _ _ _ _ _ (callback_finish_quiet _ _ _ _) E) as Hq.
    eapply race_quiet; [exact Hq| |exact Hinv]. exists [l].
    rewrite <- !(assoc_L (++)). simpl. apply Permutation_app_head. by rewrite Permutation_cons_append, (assoc_L (++)).
  - eapply race_quiet; [reflexivity| |exact Hinv]. exists [l].
    rewrite <- !(assoc_L (++)). simpl. apply Permutation_app_head. by rewrite Permutation_cons_append, (assoc_L (++)).
  - pose proof (run_preserved _ _ _ _ _ sweep_quiet E) as Hq.
    eapply race_quiet; [exact Hq| |exact Hinv]. exists []. by rewrite app_nil_r.
  - eapply race_quiet; [exact Hq| |exact Hinv]. exists []. by rewrite app_nil_r.
Qed.

Lemma reachable_race_inv y : reachable y -> race_inv y.
Proof. intros Hr. eapply (rtc_invariant step); [apply race_step|exact Hr|apply initial_race_inv]. Qed.

End Race.
