(* ===== verification/Axum.v ===== *)
(** The interface of [axum]: requests and the extractors of the handlers.

    A request is its method, its head ([Parts] of Security.v) and its body.  An
    extractor answers a value or the response that rejects the request.  What
    the texts of rejections say, how media types and percent-encoding are read
    and what [serde_urlencoded] makes of a query are the crates' and belong to
    the class [AxumLib]; which checks an extractor makes, and in which order,
    follows their documentation. *)
From S2P Require Import Prelude Str Json Error Claims JwtApi Security.

Record Request := mkRequest {
  rq_method : string;
  rq_parts : Parts;
  rq_body : string;
}.

Class AxumLib := {
  (** the [Content-Type] is [application/json] or a [+json] type *)
  json_content_type : HeaderMap -> bool;
  missing_json_content_type : Response;
  json_rejection : string -> Response;
  length_limit_rejection : Response;
  utf8_rejection : Response;
  query_rejection : string -> Response;
  path_rejection : Response;
  (** the pairs of a query or a form *)
  form_pairs : string -> option (list (string * string));
  (** the texts of the errors of [serde_json::from_slice] and [serde_urlencoded::from_bytes] *)
  json_error_text : string -> string;
  form_error_text : string -> string;
  (** a path segment, [None] when it does not decode to UTF-8 *)
  percent_decode : string -> option string;
}.

(** The statuses of the rejections. *)
Class AxumLaws (A : AxumLib) := {
  missing_json_status : resp_status missing_json_content_type = 415;
  json_rejection_status : forall b, resp_status (json_rejection b) = 400 \/ resp_status (json_rejection b) = 422;
  length_limit_status : resp_status length_limit_rejection = 413;
  utf8_status : resp_status utf8_rejection = 400;
  query_status : forall q, resp_status (query_rejection q) = 400;
  path_status : resp_status path_rejection = 400;
}.

(** [Uri::path] and [Uri::query().unwrap_or_default()] of a request target. *)
Definition uri_path (u : string) : string := match split_once "?" u with Some (p, _) => p | None => u end.
Definition uri_query (u : string) : string := match split_once "?" u with Some (_, q) => q | None => "" end.

(** [str::parse::<usize>]: a plus sign and decimal digits, no overflow of 64 bits. *)
Fixpoint digits_value (s : string) (acc : Z) : option Z :=
  match s with
  | EmptyString => Some acc
  | String a s' =>
      if (48 <=? u8 a) && (u8 a <=? 57) then
        let n := acc * 10 + (u8 a - 48) in
        if n <? 2 ^ 64 then digits_value s' n else None
      else None
  end.

Definition parse_usize (s : string) : option Z :=
  let digits := match strip_prefix "+" s with Some d => d | None => s end in
  if bool_decide (digits = "") then None else digits_value digits 0.

Section Extractors.
Context `{HttpLib, SerdeJson, AxumLib}.

Definition rq_headers (req : Request) : HeaderMap := p_headers (rq_parts req).

(** [Bytes] under [DefaultBodyLimit::max(max)] *)
Definition body_bytes (max : Z) (req : Request) : Result string Response :=
  if max <? slen (rq_body req) then Err length_limit_rejection else Ok (rq_body req).

(** [String] *)
Definition body_string (max : Z) (req : Request) : Result string Response :=
  b <-? body_bytes max req;
  ok_or (from_utf8 b) utf8_rejection.

(** [serde_json::from_slice] of a struct with the given members, whose optional
    ones are all [#[serde(default)]]: an object, or an array of the first
    members in their order. *)
Definition struct_fields (members : list string) (v : Value) : option (list (string * Value)) :=
  match v with
  | VObject fs => Some fs
  | VArray l => if (length l <=? length members)%nat then Some (zip members l) else None
  | _ => None
  end.

Definition from_json {A} (members : list string) (de : list (string * Value) -> option A) (b : string) :
    option A :=
  v ← json_from_slice b; fs ← struct_fields members v; de fs.

(** [serde_urlencoded::from_bytes] of a struct of strings. *)
Definition from_form {A} (de : list (string * Value) -> option A) (b : string) : option A :=
  ps ← form_pairs b; de (map (fun kv => (fst kv, VString (snd kv))) ps).

(** [Json<A>] *)
Definition body_json {A} (max : Z) (members : list string) (de : list (string * Value) -> option A)
    (req : Request) : Result A Response :=
  if json_content_type (rq_headers req) then
    b <-? body_bytes max req;
    ok_or (from_json members de b) (json_rejection b)
  else Err missing_json_content_type.

(** [Option<Json<A>>]: any rejection is [None]. *)
Definition optional_json {A} (max : Z) (members : list string) (de : list (string * Value) -> option A)
    (req : Request) : option A :=
  match body_json max members de req with Ok a => Some a | Err _ => None end.

(** [Query<A>] *)
Definition query {A} (de : list (string * Value) -> option A) (req : Request) : Result A Response :=
  let q := uri_query (p_uri (rq_parts req)) in
  ok_or (from_form de q) (query_rejection q).

(** [Path<String>] of the segment the route captured. *)
Definition path_param (segment : string) : Result string Response :=
  ok_or (percent_decode segment) path_rejection.
End Extractors.

(** ** Lemmas *)

Lemma digits_value_range s acc n : 0 <= acc < 2 ^ 64 -> digits_value s acc = Some n -> 0 <= n < 2 ^ 64.
Proof.
  revert acc. induction s as [|a s IH]; intros acc Hacc; simpl; [by intros [= <-]|].
  pose proof (u8_range a). destruct (Z.leb_spec 48 (u8 a)), (Z.leb_spec (u8 a) 57); simpl; try done.
  destruct (Z.ltb_spec (acc * 10 + (u8 a - 48)) (2 ^ 64)); [|done]. apply IH. lia.
Qed.

Lemma parse_usize_range s n : parse_usize s = Some n -> 0 <= n < 2 ^ 64.
Proof. unfold parse_usize. case_bool_decide; [done|]. by apply digits_value_range. Qed.

Example parse_usize_plus : parse_usize "+10" = Some 10.
Proof. reflexivity. Qed.
Example parse_usize_space : parse_usize " 10" = None.
Proof. reflexivity. Qed.
Example parse_usize_overflow : parse_usize "18446744073709551616" = None.
Proof. reflexivity. Qed.
