(* ===== verification/AccessLog.v ===== *)
(** The access log and the trace context of a request: [src/access_log.rs].

    The middleware inherits the trace identifier of a well-formed [traceparent]
    or draws a new one, draws a span identifier, puts both on the response and
    emits one line.  The line is a value beside the response. *)
From S2P Require Import Prelude Str Error World Effects Security SessionCrypto Axum.

Section AccessLog.
Context `{Env, HttpLib}.

Definition X_TRACE_ID : string := "x-trace-id".

Definition zero_trace : string := "00000000000000000000000000000000".

(** The condition on the pieces of the header. *)
Definition well_formed_traceparent (parts : list string) : option (string * string) :=
  match parts with
  | [version; trace; span; flags] =>
      if bool_decide (version = "00")
         && (slen trace =? 32) && all_bytes is_ascii_hexdigit trace && negb (bool_decide (trace = zero_trace))
         && (slen span =? 16) && all_bytes is_ascii_hexdigit span
         && (slen flags =? 2) && all_bytes is_ascii_hexdigit flags
      then Some (to_ascii_lowercase trace, to_ascii_lowercase flags)
      else None
  | _ => None
  end.

Definition parse_or_generate_trace_id (req : Request) : M (string * string) :=
  match (tp ← header_str (rq_headers req) "traceparent"; well_formed_traceparent (split_on "-" tp)) with
  | Some inherited => mret inherited
  | None => b ← fill_bytes 16; mret (hex_encode b, "01")
  end.

Definition fresh_span_id : M string := b ← fill_bytes 8; mret (hex_encode b).

(** [HeaderMap::insert]: replaces what was there. *)
Definition header_insert (name value : string) (hs : HeaderMap) : HeaderMap :=
  List.filter (fun kv => negb (bool_decide (fst kv = name))) hs ++ [(name, value)].

(** [insert] of a value that [HeaderValue::from_str] accepts. *)
Definition insert_checked (name value : string) (hs : HeaderMap) : HeaderMap :=
  if header_value_ok value then header_insert name value hs else hs.

Definition with_headers (f : HeaderMap -> HeaderMap) (r : Response) : Response :=
  mkResponse (resp_status r) (f (resp_headers r)) (resp_body r).

(** The fields of [http_request_completed]. *)
Record AccessLine := mkAccessLine {
  al_method : string;
  al_route : string;
  al_status : Z;
  al_duration_us : Z;
  al_trace_id : string;
}.

(** [start.elapsed()] is never negative. *)
Definition elapsed (start : Z) : M Z := finish ← instant_now; mret (Z.max 0 (finish - start)).

(** [matched] is the pattern of the route, the [MatchedPath] of the request. *)
Definition access_log_middleware (req : Request) (matched : option string) (next : M Response) :
    M (Response * AccessLine) :=
  start ← instant_now;
  let route := default "<unmatched>" matched in
  ids ← parse_or_generate_trace_id req;
  let '(trace_id, flags) := ids in
  span_id ← fresh_span_id;
  response ← next;
  let status := resp_status response in
  duration_us ← elapsed start;
  let line := mkAccessLine (rq_method req) route status duration_us trace_id in
  let traceparent := "00-" +:+ trace_id +:+ "-" +:+ span_id +:+ "-" +:+ flags in
  mret (with_headers (fun hs => insert_checked X_TRACE_ID trace_id (insert_checked "traceparent" traceparent hs))
          response, line).

(** ** The trace context of a response *)

Definition lower_hex_byte (a : ascii) : bool := ((48 <=? u8 a) && (u8 a <=? 57)) || ((97 <=? u8 a) && (u8 a <=? 102)).

(** [n] lower-case hexadecimal digits *)
Definition hex_id (n : Z) (s : string) : Prop := slen s = n /\ all_bytes lower_hex_byte s = true.

Lemma lower_hex_visible s : all_bytes lower_hex_byte s = true -> all_bytes visible_byte s = true.
Proof.
  induction s as [|a s IH]; simpl; [done|]. intros [Ha Hs]%andb_true_iff. apply andb_true_iff.
  split; [|by apply IH]. revert Ha. unfold lower_hex_byte, visible_byte.
  intros [[?%Z.leb_le ?%Z.leb_le]%andb_true_iff|[?%Z.leb_le ?%Z.leb_le]%andb_true_iff]%orb_true_iff;
    apply andb_true_iff; split; apply Z.leb_le; lia.
Qed.

Lemma to_ascii_lower_hex a : is_ascii_hexdigit a = true -> lower_hex_byte (to_ascii_lower a) = true.
Proof.
  destruct a as [b0 b1 b2 b3 b4 b5 b6 b7].
  destruct b0, b1, b2, b3, b4, b5, b6, b7; vm_compute; congruence.
Qed.

Lemma lowercase_hex s :
  all_bytes is_ascii_hexdigit s = true -> hex_id (slen s) (to_ascii_lowercase s).
Proof.
  intros Hs. split.
  - unfold slen. f_equal. induction s as [|a s IH]; simpl; [done|]. f_equal. apply IH.
    by apply andb_true_iff in Hs as [_ Hs].
  - induction s as [|a s IH]; simpl; [done|]. apply andb_true_iff in Hs as [Ha Hs].
    by rewrite to_ascii_lower_hex, IH.
Qed.

Lemma hex_digit_lower z : 0 <= z < 16 -> lower_hex_byte (hex_digit z) = true.
Proof.
  intros Hz. unfold hex_digit, lower_hex_byte. rewrite u8_byte_of by (case_match; lia).
  destruct (Z.ltb_spec z 10); apply orb_true_iff; [left|right]; apply andb_true_iff; split; apply Z.leb_le; lia.
Qed.

Lemma hex_encode_lower s : all_bytes lower_hex_byte (hex_encode s) = true.
Proof.
  induction s as [|a s IH]; cbn [hex_encode all_bytes]; [done|]. pose proof (u8_range a).
  rewrite !hex_digit_lower, IH; [done| |].
  - apply Z.mod_pos_bound. lia.
  - split; [apply Z.div_pos; lia|apply Z.div_lt_upper_bound; lia].
Qed.

Lemma hex_encode_id n t : random_lengths -> hex_id (2 * Z.of_nat n) (hex_encode (random_bytes t n)).
Proof.
  intros Hl. split; [|apply hex_encode_lower]. unfold slen. rewrite hex_encode_length, Hl. lia.
Qed.

Lemma well_formed_ids parts t f : well_formed_traceparent parts = Some (t, f) -> hex_id 32 t /\ hex_id 2 f.
Proof.
  unfold well_formed_traceparent. destruct parts as [|v [|tr [|sp [|fl [|]]]]]; try done.
  destruct (_ && _) eqn:E; [|done]. intros [= <- <-].
  repeat match goal with Hb : _ && _ = true |- _ => apply andb_true_iff in Hb as [Hb ?] end.
  split; [replace 32 with (slen tr) by (by apply Z.eqb_eq)|replace 2 with (slen fl) by (by apply Z.eqb_eq)];
    by apply lowercase_hex.
Qed.

Lemma header_insert_same name v hs : header (header_insert name v hs) name = Some v.
Proof.
  unfold header_insert. induction hs as [|[k x] hs IH]; simpl; [by rewrite bool_decide_true|].
  case_bool_decide; simpl; [exact IH|]. by rewrite bool_decide_false.
Qed.

Lemma header_insert_other name v hs name' :
  name ≠ name' -> header (header_insert name v hs) name' = header hs name'.
Proof.
  intros Hne. unfold header_insert. induction hs as [|[k x] hs IH]; simpl; [by rewrite bool_decide_false|].
  destruct (bool_decide (k = name)) eqn:E; simpl.
  - apply bool_decide_eq_true in E as ->. by rewrite (bool_decide_false (name = name')).
  - by rewrite IH.
Qed.

(** The identifiers of a request: inherited, or drawn. *)
Definition inherits (req : Request) (tid flags : string) : Prop :=
  forall tp t f, header_str (rq_headers req) "traceparent" = Some tp ->
    well_formed_traceparent (split_on "-" tp) = Some (t, f) -> tid = t /\ flags = f.

Lemma trace_ids req w tid flags w' :
  random_lengths -> parse_or_generate_trace_id req w = (Ret (tid, flags), w') ->
  hex_id 32 tid /\ hex_id 2 flags /\ inherits req tid flags.
Proof.
  intros Hl E. unfold parse_or_generate_trace_id in E. unfold inherits.
  destruct (header_str _ _) as [tp|] eqn:Eh; simpl in E.
  - destruct (well_formed_traceparent _) as [[t f]|] eqn:Ew.
    + injection E as <- <- <-. destruct (well_formed_ids _ _ _ Ew). split; [done|]. split; [done|].
      intros tp' t' f' [= <-]. rewrite Ew. by intros [= <- <-].
    + unfold mbind, M_bind, fill_bytes, ask in E. injection E as <- <- <-.
      split; [by apply (hex_encode_id 16)|]. split; [by split|]. intros tp' t' f' [= <-]. by rewrite Ew.
  - unfold mbind, M_bind, fill_bytes, ask in E. injection E as <- <- <-.
    split; [by apply (hex_encode_id 16)|]. by split.
Qed.

(** The headers the middleware leaves, and the line it logs. *)
Lemma access_log_trace `{!HttpLaws _} req matched next w r line w' :
  random_lengths -> access_log_middleware req matched next w = (Ret (r, line), w') ->
  exists tid span flags,
    line = mkAccessLine (rq_method req) (default "<unmatched>" matched) (resp_status r) (al_duration_us line) tid /\
    0 <= al_duration_us line /\
    hex_id 32 tid /\ hex_id 16 span /\ hex_id 2 flags /\
    header (resp_headers r) "x-trace-id" = Some tid /\
    header (resp_headers r) "traceparent" = Some ("00-" +:+ tid +:+ "-" +:+ span +:+ "-" +:+ flags) /\
    inherits req tid flags.
Proof.
  intros Hl Hrun. unfold access_log_middleware, fresh_span_id, fill_bytes, elapsed in Hrun. minv.
  match goal with E : parse_or_generate_trace_id _ _ = (Ret ?x, _) |- _ =>
    destruct x as [tid flags]; apply trace_ids in E as (Ht & Hf & Hinh); [|done] end.
  minv. subst. injection Hrun as <- <- <-.
  match goal with |- context [hex_encode ?b] => exists tid, (hex_encode b), flags;
    assert (hex_id 16 (hex_encode b)) as Hs by (by apply (hex_encode_id 8)) end.
  simpl. split; [done|]. split; [lia|]. do 3 (split; [done|]).
  assert (header_value_ok tid = true) as Ev by (apply visible_value_ok, lower_hex_visible, Ht).
  match goal with |- context [insert_checked "traceparent" ?v _] => assert (header_value_ok v = true) as Ew end.
  { apply visible_value_ok. rewrite !all_bytes_app.
    by rewrite (lower_hex_visible _ (proj2 Ht)), (lower_hex_visible _ (proj2 Hs)), (lower_hex_visible _ (proj2 Hf)). }
  unfold insert_checked. rewrite Ev, Ew. split; [apply header_insert_same|]. split; [|done].
  rewrite header_insert_other by done. apply header_insert_same.
Qed.
End AccessLog.
