(* ===== verification/Router.v ===== *)
(** The HTTP interface: [src/router/mod.rs].

    One definition per handler, in the order of the source, [route_of] and
    [route_request] for the route table, and [serve] for the whole stack of a
    request: from the inside out the routes, the body-size mapper, the time
    limit, the access log, the static headers and the CORS layer.  A handler that
    fails throws its [TimError]; [respond] renders it.  The theorems about the
    endpoints are in RouterTheorems.v, those about the stack in StackTheorems.v.

    Not modelled: the spans of [TraceLayer]. *)
From S2P Require Import Prelude Str Chrono Json Error World Effects Jose Claims Config Crypto.
From S2P Require Import JwtApi JwtService Introspect Security SessionCrypto SessionStore.
From S2P Require Import Outbound Registry IdToken Flow Axum AccessLog.

Definition UNTRUSTED_ECHO_CAP : nat := 256.

(** ** Request types *)

Definition generate_members : list string := ["JWTName"; "content"; "expirationInMinutes"; "audience"; "setCookie"].
Definition extend_members : list string := ["token"; "expirationInMinutes"; "setCookie"].
Definition list_members : list string :=
  ["offset"; "limit"; "byRow"; "issuedAfter"; "issuedBefore"; "expiresAfter"; "expiresBefore"; "jwtName"].

Definition login_query_of_form (fs : list (string * Value)) : option (option string) :=
  if known_only ["redirect_uri"] fs then optional de_string (member ["redirect_uri"] fs) else None.

Record CallbackQuery := mkCallbackQuery {
  cq_code : option string;
  cq_state : option string;
  cq_error : option string;
  cq_error_description : option string;
}.

Definition callback_query_of_form (fs : list (string * Value)) : option CallbackQuery :=
  c ← optional de_string (member ["code"] fs);
  s ← optional de_string (member ["state"] fs);
  e ← optional de_string (member ["error"] fs);
  d ← optional de_string (member ["error_description"] fs);
  Some (mkCallbackQuery c s e d).

Definition logout_body_of_json (fs : list (string * Value)) : option (option string) :=
  if known_only ["reason"] fs then optional de_string (member ["reason"] fs) else None.

Record LegacyBlacklistQuery := mkLegacyBlacklistQuery {
  lq_jwt : option string;
  lq_session_id : option string;
  lq_reason : option string;
}.

Definition legacy_query_of_form (fs : list (string * Value)) : option LegacyBlacklistQuery :=
  j ← optional de_string (member ["jwt"] fs);
  i ← optional de_string (member ["sessionId"; "session_id"] fs);
  r ← optional de_string (member ["reason"] fs);
  Some (mkLegacyBlacklistQuery j i r).

(** ** Cookies *)

(** The [for] loop of [cookie_value]. *)
Fixpoint find_cookie (name : string) (parts : list string) : option string :=
  match parts with
  | [] => None
  | part :: parts' =>
      match split_once "=" (trim part) with
      | Some (k, v) =>
          if bool_decide (trim k = name) && negb (bool_decide (v = "")) then Some (trim v)
          else find_cookie name parts'
      | None => find_cookie name parts'
      end
  end.

(** ** Routes *)

Inductive Route :=
| RHealth | RHealthz
| RGenerate | RValidate | RValidateBoolean | RRevoke | RRevokeBulk | RExtend | RListMe | RKeysPublic
| RVerificationKey | RUserinfo | RCustomVerify | RCustomUserinfo | RCustomExtend | RExtendSession
| RCustomBlacklist | RBlacklist
| RIntrospect | RIntrospectTypes
| RProviders | RProviderOne (id : string) | RLogin (id : string) | RCallback (id : string)
| RSessionValidate | RProfile | RLogout | RAuthHealth.

Definition static_routes : list (string * Route) :=
  [("/health", RHealth); ("/healthz", RHealthz);
   ("/jwt/custom/generate", RGenerate); ("/jwt/custom/validate", RValidate);
   ("/jwt/custom/validate/boolean", RValidateBoolean); ("/jwt/custom/revoke", RRevoke);
   ("/jwt/custom/revoke/bulk", RRevokeBulk); ("/jwt/custom/extend", RExtend);
   ("/jwt/custom/list/me", RListMe); ("/jwt/keys/public", RKeysPublic);
   ("/jwt/verification-key", RVerificationKey); ("/jwt/userinfo", RUserinfo);
   ("/jwt/custom-jwt-verify", RCustomVerify); ("/jwt/custom-jwt-userinfo", RCustomUserinfo);
   ("/jwt/custom-jwt-extend", RCustomExtend); ("/jwt/extend-jwt-session", RExtendSession);
   ("/jwt/custom-jwt-blacklist", RCustomBlacklist); ("/jwt/blacklist", RBlacklist);
   ("/introspect", RIntrospect); ("/introspect/types", RIntrospectTypes);
   ("/auth/providers", RProviders); ("/auth/session/validate", RSessionValidate);
   ("/auth/profile", RProfile); ("/auth/logout", RLogout); ("/auth/health", RAuthHealth)].

(** The three routes that end in [/:id], a segment that is not empty. *)
Definition param_routes : list (string * (string -> Route)) :=
  [("/auth/providers/", RProviderOne); ("/auth/login/", RLogin); ("/auth/callback/", RCallback)].

Definition assoc {A} (k : string) (l : list (string * A)) : option A :=
  snd <$> find_first (fun kv => bool_decide (fst kv = k)) l.

(** A route and the pattern it is registered with. *)
Fixpoint param_route (l : list (string * (string -> Route))) (path : string) : option (string * Route) :=
  match l with
  | [] => None
  | (prefix, r) :: l' =>
      match strip_prefix prefix path with
      | Some id =>
          if bool_decide (id = "") || contains_byte "/" id then param_route l' path
          else Some (prefix +:+ ":id", r id)
      | None => param_route l' path
      end
  end.

Definition match_route (path : string) : option (string * Route) :=
  match assoc path static_routes with
  | Some r => Some (path, r)
  | None => param_route param_routes path
  end.

Definition route_of (path : string) : option Route := snd <$> match_route path.

(** The route a request is for. *)
Definition requested (req : Request) : option Route := route_of (uri_path (p_uri (rq_parts req))).

(** Its [MatchedPath] *)
Definition matched_path (req : Request) : option string := fst <$> match_route (uri_path (p_uri (rq_parts req))).

(** The [get] routes; the others are [post]. *)
Definition is_get (r : Route) : bool :=
  match r with
  | RHealth | RHealthz | RKeysPublic | RVerificationKey | RUserinfo | RExtendSession | RIntrospectTypes
  | RProviders | RProviderOne _ | RLogin _ | RCallback _ | RSessionValidate | RProfile | RAuthHealth => true
  | _ => false
  end.

Definition allow_value (r : Route) : string := if is_get r then "GET,HEAD" else "POST".

(** [get] also answers [HEAD]. *)
Definition method_allowed (r : Route) (m : string) : bool :=
  if is_get r then bool_decide (m = "GET") || bool_decide (m = "HEAD") else bool_decide (m = "POST").

Section Router.
Context `{Env, J : Jose, Chrono, UuidLib, SerdeJson, ChronoSerde, HttpLib, Net, FlowLib, AxumLib} {JK : JwkKeys J}.
(** The pool is the [World]. *)
Record AppState := mkAppState {
  config : AppConfig;
  app_signer : JwtSigner;
  app_jwt : JwtService;
  app_providers : ProviderRegistry;
  app_sessions : SessionStore;
  app_admin : AdminGate;
  introspect_gate : IntrospectionGate;
}.

Implicit Type s : AppState.

(** The head of every handler: an extractor's value or its rejection. *)
Definition extract {A} (r : Result A Response) (k : A -> M Response) : M Response :=
  match r with Ok a => k a | Err rejection => mret rejection end.

(** The body is read from the connection, after the arguments before it. *)
Definition receive : M unit := await (fun _ => tt).

Definition read_json {A} (max : Z) (members : list string) (de : list (string * Value) -> option A) (req : Request)
    (k : A -> M Response) : M Response :=
  _ ← (if json_content_type (rq_headers req) then receive else mret tt);
  extract (body_json max members de req) k.

Definition read_optional_json {A} (max : Z) (members : list string) (de : list (string * Value) -> option A)
    (req : Request) (k : option A -> M Response) : M Response :=
  _ ← (if json_content_type (rq_headers req) then receive else mret tt);
  k (optional_json max members de req).

Definition read_bytes (max : Z) (req : Request) (k : string -> M Response) : M Response :=
  _ ← receive; extract (body_bytes max req) k.

Definition read_string (max : Z) (req : Request) (k : string -> M Response) : M Response :=
  _ ← receive; extract (body_string max req) k.

(** The [AdminAuth] argument of a handler. *)
Definition admin s (req : Request) : M unit := lift (admin_auth (app_admin s) (rq_parts req)).

Definition max_body s : Z := max_request_bytes (server (config s)).

Definition json_ok (v : Value) : Response := json_response 200 v.

Definition append_header (name value : string) (r : Response) : Response :=
  with_headers (fun hs => hs ++ [(name, value)]) r.

Definition build_cookie (name token : string) : string :=
  let v := name +:+ "=" +:+ token +:+ "; Path=/; HttpOnly; Secure; SameSite=Lax" in
  if header_value_ok v then v else "".

Definition with_optional_set_cookie (body : Response) (cookie : option string) : Response :=
  match cookie with Some c => append_header "set-cookie" c body | None => body end.

Definition cookie_value (hs : HeaderMap) (name : string) : option string :=
  raw ← header_str hs "cookie"; find_cookie name (split_on ";" raw).

Definition payload_too_large (max : Z) : Response :=
  json_response 413 (json_map [("error", VString "payload_too_large"); ("max", VInt max)]).

(** ** Custom tokens *)

Definition health : M Response := mret (json_ok (json_map [("status", VString "ok")])).

Definition jwt_generate s (req : Request) : M Response :=
  _ ← admin s req;
  read_json (max_body s) generate_members generate_request_of_json req (fun g =>
    resp ← generate (app_jwt s) g;
    let cookie := if default false (gr_set_cookie g)
                  then Some (build_cookie (gr_jwt_name g) (tr_token resp)) else None in
    mret (with_optional_set_cookie (json_ok (token_response_to_json resp)) cookie)).

(** The check the three gates share. *)
Definition check_gate (required : bool) s (hs : HeaderMap) : Result unit TimError :=
  if negb required then Ok tt
  else
    raw <-? ok_or (header_str hs "authorization") Unauthorized;
    verify_basic (introspect_gate s) raw.

Definition check_validation_gate s (hs : HeaderMap) : Result unit TimError :=
  check_gate (required_validation (introspect_gate s)) s hs.

(** [StatusCode::OK] or [UNAUTHORIZED] *)
Definition validity_status (r : ValidateResponse) : Z := if valid r && active r then 200 else 401.

Definition jwt_validate s (req : Request) : M Response :=
  read_json (max_body s) validate_names validate_request_of_json req (fun v =>
    _ ← lift (check_validation_gate s (rq_headers req));
    resp ← validate (app_jwt s) v;
    mret (json_response (validity_status resp) (validate_response_to_json resp))).

Definition text_response (st : Z) (text : string) : Response :=
  mkResponse st [("content-type", "text/plain")] (BText text).

Definition jwt_validate_boolean s (req : Request) : M Response :=
  read_json (max_body s) validate_names validate_request_of_json req (fun v =>
    _ ← lift (check_validation_gate s (rq_headers req));
    resp ← validate (app_jwt s) v;
    mret (text_response (validity_status resp) (if valid resp && active resp then "true" else "false"))).

Definition jwt_revoke s (req : Request) : M Response :=
  _ ← admin s req;
  read_json (max_body s) validate_names validate_request_of_json req (fun v =>
    newly ← revoke (app_jwt s) (vr_token v) (vr_reason v);
    mret (if newly : bool then
            json_response 200 (json_map [("status", VString "revoked");
                                         ("message", VString "Token has been successfully revoked")])
          else
            json_response 409 (json_map [("status", VString "already_revoked");
                                         ("message", VString "Token was already revoked")]))).

Definition bulk_status (r : BulkRevokeResponse) : Z :=
  if (0 <? failed r) && (newly_revoked r =? 0) && (already_revoked r =? 0) then 400
  else if (0 <? failed r) || ((0 <? newly_revoked r) && (0 <? already_revoked r)) then 207
  else if (newly_revoked r =? 0) && (0 <? already_revoked r) then 409
  else 200.

Definition jwt_revoke_bulk s (req : Request) : M Response :=
  _ ← admin s req;
  read_json (max_body s) bulk_revoke_names bulk_revoke_request_of_json req (fun b =>
    resp ← bulk_revoke (app_jwt s) b;
    mret (json_response (bulk_status resp) (bulk_revoke_response_to_json resp))).

Definition jwt_extend s (req : Request) : M Response :=
  _ ← admin s req;
  read_json (max_body s) extend_members extend_request_of_json req (fun e =>
    resp ← extend (app_jwt s) e;
    let cookie := if default false (er_set_cookie e)
                  then Some (build_cookie "EXTENDED_TOKEN" (tr_token resp)) else None in
    mret (with_optional_set_cookie (json_ok (token_response_to_json resp)) cookie)).

Definition bearer_token (hs : HeaderMap) : Result string TimError :=
  raw <-? ok_or (header_str hs "authorization") Unauthorized;
  ok_or (trim <$> strip_prefix "Bearer " raw) Unauthorized.

Definition jwt_list_me s (req : Request) : M Response :=
  read_optional_json (max_body s) list_members list_request_of_json req (fun body =>
    token ← lift (bearer_token (rq_headers req));
    sub ← authenticate_bearer (app_jwt s) token;
    resp ← list_for_subject sub (default list_request_default body);
    mret (json_ok (list_response_to_json resp))).

Definition keys_public s : M Response := v ← jwks (app_signer s); mret (json_ok v).

(** ** Introspection *)

(** The body as JSON or as a form, by its declared type; without one of the two
    the first reading that fits. *)
Definition introspect_body (ct body : string) : Result IntrospectRequest TimError :=
  if starts_with "application/json" ct then
    ok_or (from_json introspect_names introspect_request_of_json body)
      (BadRequest ("json parse: " +:+ clip_untrusted (json_error_text body) UNTRUSTED_ECHO_CAP))
  else if starts_with "application/x-www-form-urlencoded" ct then
    ok_or (from_form introspect_request_of_json body)
      (BadRequest ("form parse: " +:+ clip_untrusted (form_error_text body) UNTRUSTED_ECHO_CAP))
  else
    match from_json introspect_names introspect_request_of_json body with
    | Some r => Ok r
    | None =>
        ok_or (from_form introspect_request_of_json body)
          (BadRequest "body must be JSON or application/x-www-form-urlencoded")
    end.

Definition introspect_dispatch s (req : Request) : M Response :=
  read_bytes (max_body s) req (fun body =>
    _ ← lift (check_gate (required_introspect (introspect_gate s)) s (rq_headers req));
    let ct := default "" (header_str (rq_headers req) "content-type") in
    ireq ← lift (introspect_body ct body);
    resp ← introspect (app_jwt s) ireq;
    mret (json_ok (introspection_to_json resp))).

Definition introspect_types : M Response := mret (json_ok supported_types).

(** ** OAuth2 *)

Definition strings_json (m : gmap string string) : Value := VObject (map_fields (VString <$> m)).

(** The derived [Serialize] of [ProviderPublicInfo], [AuthUrl] and [CallbackResult]. *)
Definition public_info_to_json (i : ProviderPublicInfo) : Value :=
  VObject [("id", VString (pi_id i)); ("name", VString (pi_name i)); ("scopes", VStrings (pi_scopes i));
           ("claim_mappings", strings_json (pi_claim_mappings i))].
Definition auth_url_to_json (u : AuthUrl) : Value :=
  VObject [("authorization_url", VString (au_authorization_url u)); ("provider", VString (au_provider u));
           ("state", VString (au_state u))].
Definition callback_result_to_json (r : CallbackResult) : Value :=
  VObject [("status", VString (cb_status r)); ("provider", VString (cb_provider r));
           ("session_id", VString (cb_session_id r)); ("expires_at", VInstant (cb_expires_at r));
           ("user_profile", VObject (map_fields (cb_user_profile r)))].

Definition auth_providers s : M Response :=
  let l := list_public (app_providers s) in
  mret (json_ok (json_map [("providers", VArray (map public_info_to_json l));
                           ("total", VString (pretty (length l)))])).

Definition auth_provider_one s (segment : string) : M Response :=
  extract (path_param segment) (fun id =>
    p ← lift (ok_or (registry_get (app_providers s) id)
                (NotFound ("provider " +:+ clip_untrusted id UNTRUSTED_ECHO_CAP)));
    mret (json_ok (json_map [("id", VString (pr_id p)); ("name", VString (p_name (pr_config p)));
                             ("scopes", VStrings (scopes (pr_config p)));
                             ("claim_mappings", strings_json (claim_mappings (pr_config p)))]))).

Definition auth_login s (segment : string) (req : Request) : M Response :=
  extract (path_param segment) (fun id =>
  extract (query login_query_of_form req) (fun redirect =>
    provider ← lift (ok_or (registry_get (app_providers s) id)
                       (NotFound ("unknown provider " +:+ clip_untrusted id UNTRUSTED_ECHO_CAP)));
    redirect_uri ← lift (resolve_redirect_uri id (allowed_redirect_uris (pr_config provider))
                           (public_base_url (server (config s))) redirect);
    url ← build_login_url (app_providers s) id redirect_uri;
    mret (json_ok (auth_url_to_json url)))).

(** What a provider's error is answered with. *)
Definition callback_error (id err : string) (description : option string) : Response :=
  json_response 400 (json_map
    [("status", VString "error"); ("provider", VString (clip_untrusted id UNTRUSTED_ECHO_CAP));
     ("error", VString (clip_untrusted err UNTRUSTED_ECHO_CAP));
     ("error_description",
        opt_value VString ((fun d => clip_untrusted d UNTRUSTED_ECHO_CAP) <$> description))]).

Definition auth_callback s (segment : string) (req : Request) : M Response :=
  extract (path_param segment) (fun id =>
  extract (query callback_query_of_form req) (fun q =>
    match cq_error q with
    | Some err => mret (callback_error id err (cq_error_description q))
    | None =>
        code ← lift (ok_or (cq_code q) (BadRequest "callback missing `code`"));
        state ← lift (ok_or (cq_state q) (BadRequest "callback missing `state`"));
        res ← complete_callback (app_providers s) (app_sessions s) (state_max_age_seconds (oauth2 (config s)))
                id code state;
        mret (json_ok (callback_result_to_json res))
    end)).

(** The [SessionAuth] argument, the look-up and the touch whose result is dropped. *)
Definition current_session s (req : Request) : M Session :=
  auth ← lift (session_auth (rq_parts req));
  found ← @ss_get (app_sessions s) (sa_session_id auth);
  sess ← lift (ok_or found (NotFound "session"));
  _ ← attempt (@ss_touch (app_sessions s) (sa_session_id auth));
  mret sess.

Definition auth_session_validate s (req : Request) : M Response :=
  sess ← current_session s req;
  mret (json_ok (json_map
    [("valid", VBool true); ("session_id", VString (s_id sess)); ("user_id", VString (s_user_id sess));
     ("provider", VString (s_provider_id sess)); ("expires_at", VInstant (s_expires_at sess));
     ("last_activity", VInstant (s_last_activity sess))])).

(** The members of the profile are inserted last. *)
Definition auth_profile s (req : Request) : M Response :=
  sess ← current_session s req;
  mret (json_ok (VObject (map_fields (s_profile sess ∪
    {["user_id" := VString (s_user_id sess); "provider" := VString (s_provider_id sess)]})))).

Definition auth_logout s (req : Request) : M Response :=
  auth ← lift (session_auth (rq_parts req));
  read_optional_json (max_body s) ["reason"] logout_body_of_json req (fun body =>
    existed ← @ss_revoke (app_sessions s) (sa_session_id auth);
    mret (json_ok (json_map [("status", VString (if existed : bool then "logged_out" else "not_found_ok"));
                             ("reason", opt_value VString (r ← body; r))]))).

Definition auth_health s : M Response :=
  now ← utc_now;
  let l := ids (app_providers s) in
  mret (json_ok (json_map [("status", VString "ok"); ("service", VString "oauth2"); ("timestamp", VInstant now);
                           ("available_providers", VInt (Z.of_nat (length l))); ("provider_ids", VStrings l)])).

(** ** Compatibility with TIM 1.x *)

Definition check_jvm_compat_gate s (hs : HeaderMap) : Result unit TimError :=
  check_gate (required_jvm_compat (introspect_gate s)) s hs.

Definition status_body (st : Z) (status : string) (message : option string) : Response :=
  json_response st (json_map ([("status", VString status)] ++ opt_field "message" VString message)).

Definition cookie_absent (name : string) : string := "cookie `" +:+ name +:+ "` not present on request".

(** The cookie name a 1.x client sends as the body. *)
Definition body_cookie_name (body : string) : string := trim_matches (ascii_of_N 34) (trim body).

Definition plain_validate (token : string) : ValidateRequest := mkValidateRequest token None None None.

(** The [userinfo] object of the two endpoints that answer one. *)
Definition userinfo_json (sub : string) (r : ValidateResponse) : Value :=
  json_map [("subject", VString sub); ("issuer", opt_value VString (v_issuer r));
            ("audience", opt_value VStrings (v_audience r)); ("expires_at", opt_value VInstant (expires_at r));
            ("issued_at", opt_value VInstant (issued_at r)); ("jwt_id", opt_value VString (jwt_id r));
            ("claims", opt_value (fun m => VObject (map_fields m)) (claims r))].

Definition userinfo s (token : string) : M Value :=
  sub ← authenticate_bearer (app_jwt s) token;
  resp ← validate (app_jwt s) (plain_validate token);
  mret (userinfo_json sub resp).

Definition jwt_userinfo_compat s (req : Request) : M Response :=
  _ ← lift (check_jvm_compat_gate s (rq_headers req));
  let name := cookie_name (jwt (config s)) in
  token ← lift (ok_or (cookie_value (rq_headers req) name) (BadRequest ("cookie `" +:+ name +:+ "` not present")));
  info ← userinfo s token;
  mret (json_ok (json_map [("userinfo", info)])).

(** What a revocation is answered with: a [BadRequest] becomes a body of its own. *)
Definition blacklist_answer (failed : string -> Response) (r : Result bool TimError) : Result Response TimError :=
  match r with
  | Ok true => Ok (status_body 200 "blacklisted" None)
  | Ok false => Ok (status_body 409 "already_blacklisted" None)
  | Err (BadRequest msg) => Ok (failed msg)
  | Err other => Err other
  end.

Definition failed_body (msg : string) : Response := status_body 400 "failed" (Some msg).

Definition jwt_custom_blacklist_compat s (req : Request) : M Response :=
  _ ← admin s req;
  read_string (max_body s) req (fun body =>
    let name := body_cookie_name body in
    if bool_decide (name = "") then throw (BadRequest "request body must be the cookie name to blacklist")
    else
      match cookie_value (rq_headers req) name with
      | None => mret (status_body 404 "not_found" (Some (cookie_absent name)))
      | Some token =>
          r ← attempt (revoke (app_jwt s) token (Some "custom-jwt-blacklist"));
          lift (blacklist_answer failed_body r)
      end).

Definition jwt_blacklist_compat s (req : Request) : M Response :=
  _ ← admin s req;
  extract (query legacy_query_of_form req) (fun q =>
    match cookie_value (rq_headers req) (cookie_name (jwt (config s))) with
    | Some token =>
        r ← attempt (revoke (app_jwt s) token (lq_reason q));
        lift (blacklist_answer failed_body r)
    | None =>
        match lq_jwt q with
        | Some jwt_id =>
            let clipped := clip_untrusted jwt_id UNTRUSTED_ECHO_CAP in
            jti ← lift (ok_or (uuid_parse jwt_id) (BadRequest ("?jwt=`" +:+ clipped +:+ "` is not a valid UUID")));
            r ← revoke_by_jti jti (lq_reason q);
            mret (match r with
                  | Some true => status_body 200 "blacklisted" None
                  | Some false => status_body 409 "already_blacklisted" None
                  | None => status_body 404 "not_found" (Some ("no TIM-issued JWT with jti " +:+ clipped))
                  end)
        | None =>
            match lq_session_id q with
            | Some sid =>
                existed ← @ss_revoke (app_sessions s) sid;
                mret (if existed : bool then status_body 200 "logged_out" None
                      else status_body 404 "not_found" None)
            | None => throw (BadRequest "supply one of: cookie, ?jwt=<uuid>, ?sessionId=<id>")
            end
        end
    end).

Definition jwt_verification_key_compat s : M Response :=
  pem ← lift (public_pem (app_signer s));
  mret (text_response 200 pem).

Definition jwt_custom_verify_compat s (req : Request) : M Response :=
  read_string (max_body s) req (fun body =>
    _ ← lift (check_jvm_compat_gate s (rq_headers req));
    let name := body_cookie_name body in
    if bool_decide (name = "") then throw (BadRequest "request body must be the cookie name to verify")
    else
      match cookie_value (rq_headers req) name with
      | None => mret (json_response 401 (json_map [("valid", VBool false); ("reason", VString "cookie_not_present")]))
      | Some token =>
          resp ← validate (app_jwt s) (plain_validate token);
          mret (json_response (validity_status resp) (validate_response_to_json resp))
      end).

Definition jwt_custom_userinfo_compat s (req : Request) : M Response :=
  read_string (max_body s) req (fun body =>
    _ ← lift (check_jvm_compat_gate s (rq_headers req));
    let name := body_cookie_name body in
    if bool_decide (name = "") then throw (BadRequest "request body must be the cookie name to read")
    else
      token ← lift (ok_or (cookie_value (rq_headers req) name) (BadRequest (cookie_absent name)));
      info ← userinfo s token;
      mret (json_ok (json_map [("userinfo", info); ("cookie_name", VString name)]))).

(** [extend] with the defaults, and the new token in the cookie [name]. *)
Definition extend_into_cookie s (token name : string) : M Response :=
  resp ← extend (app_jwt s) (mkExtendRequest token None (Some true));
  mret (with_optional_set_cookie (json_ok (token_response_to_json resp)) (Some (build_cookie name (tr_token resp)))).

Definition jwt_custom_extend_compat s (req : Request) : M Response :=
  _ ← admin s req;
  read_string (max_body s) req (fun body =>
    let name := body_cookie_name body in
    if bool_decide (name = "") then throw (BadRequest "request body must be the cookie name to extend")
    else
      token ← lift (ok_or (cookie_value (rq_headers req) name) (BadRequest (cookie_absent name)));
      extend_into_cookie s token name).

Definition jwt_extend_session_compat s (req : Request) : M Response :=
  _ ← admin s req;
  let name := cookie_name (jwt (config s)) in
  token ← lift (ok_or (cookie_value (rq_headers req) name) (BadRequest (cookie_absent name)));
  extend_into_cookie s token name.

(** ** The stack *)

Definition handler s (r : Route) (req : Request) : M Response :=
  match r with
  | RHealth | RHealthz => health
  | RGenerate => jwt_generate s req
  | RValidate => jwt_validate s req
  | RValidateBoolean => jwt_validate_boolean s req
  | RRevoke => jwt_revoke s req
  | RRevokeBulk => jwt_revoke_bulk s req
  | RExtend => jwt_extend s req
  | RListMe => jwt_list_me s req
  | RKeysPublic => keys_public s
  | RVerificationKey => jwt_verification_key_compat s
  | RUserinfo => jwt_userinfo_compat s req
  | RCustomVerify => jwt_custom_verify_compat s req
  | RCustomUserinfo => jwt_custom_userinfo_compat s req
  | RCustomExtend => jwt_custom_extend_compat s req
  | RExtendSession => jwt_extend_session_compat s req
  | RCustomBlacklist => jwt_custom_blacklist_compat s req
  | RBlacklist => jwt_blacklist_compat s req
  | RIntrospect => introspect_dispatch s req
  | RIntrospectTypes => introspect_types
  | RProviders => auth_providers s
  | RProviderOne id => auth_provider_one s id
  | RLogin id => auth_login s id req
  | RCallback id => auth_callback s id req
  | RSessionValidate => auth_session_validate s req
  | RProfile => auth_profile s req
  | RLogout => auth_logout s req
  | RAuthHealth => auth_health s
  end.

(** [Result::into_response] *)
Definition respond (m : M Response) : M Response :=
  r ← attempt m;
  mret (match r with Ok resp => resp | Err e => into_response e end).

Definition strip_body (r : Response) : Response := mkResponse (resp_status r) (resp_headers r) (BText "").

(** The route table: 404 without a route, 405 for another method. *)
Definition route_request s (req : Request) : M Response :=
  match requested req with
  | None => mret (mkResponse 404 [] (BText ""))
  | Some r =>
      if method_allowed r (rq_method req) then
        resp ← respond (handler s r req);
        mret (if bool_decide (rq_method req = "HEAD") then strip_body resp else resp)
      else mret (mkResponse 405 [] (BText ""))
  end.

Definition declared_length (hs : HeaderMap) : option Z :=
  v ← header_str hs "content-length"; parse_usize v.

Definition body_size_error_mapper (max : Z) (req : Request) (next : M Response) : M Response :=
  if match declared_length (rq_headers req) with Some n => max <? n | None => false end
  then mret (payload_too_large max)
  else
    response ← next;
    mret (if resp_status response =? 413 then payload_too_large max else response).

(** [TimeoutLayer]: a request whose time is up is dropped and answered for; one
    whose client has gone away is dropped with the whole stack. *)
Definition time_limit (next : M Response) : M Response := fun w =>
  match next w with
  | (Dropped TimeUp, w') => (Ret (mkResponse 408 [] (BText "")), w')
  | r => r
  end.

Definition limited s (req : Request) : M Response :=
  time_limit (body_size_error_mapper (max_body s) req (route_request s req)).

(** A response and the line that was logged for it. *)
Definition logged s (req : Request) : M (Response * option AccessLine) :=
  access ← access_log_middleware req (matched_path req) (limited s req);
  mret (with_headers (add_static_headers (build_layers (security (config s)))) (fst access), Some (snd access)).

(** The layer answers a preflight itself and adds its headers to all other answers. *)
Definition cors_layer (l : option CorsLayer) (req : Request) (next : M (Response * option AccessLine)) :
    M (Response * option AccessLine) :=
  match l with
  | None => next
  | Some c =>
      match cors_preflight c (rq_method req) (rq_headers req) with
      | Some hs => mret (mkResponse 200 hs (BText ""), None)
      | None => r ← next; mret (with_headers (cors_extend c (rq_headers req)) (fst r), snd r)
      end
  end.

(** The routes of a path answer another method with the methods they allow. *)
Definition set_allow (req : Request) (hs : HeaderMap) : HeaderMap :=
  match requested req with
  | Some r => if method_allowed r (rq_method req) then hs
              else set_if_not_present "allow" (Some (allow_value r)) hs
  | None => hs
  end.

(** [build_router]: the layers from the inside out. *)
Definition serve_logged s (req : Request) : M (Response * option AccessLine) :=
  r ← cors_layer (cors (build_layers (security (config s)))) req (logged s req);
  mret (with_headers (set_allow req) (fst r), snd r).

Definition serve s (req : Request) : M Response := r ← serve_logged s req; mret (fst r).
End Router.
