(* ===== verification/Ledger.v ===== *)
(** What the token service is for, without tables, requests and clocks: a
    ledger of the tokens that were issued and of those that were revoked.

    [Move] lists the only ways in which the ledger may change and [apply_move]
    their conditions.  [good_ledger] holds of every ledger the moves lead to; in
    particular an extension chain never has two live members.
    LedgerHttp.v proves that every HTTP request is a sequence of such moves. *)
From S2P Require Import Prelude World.

Record Entry := mkEntry {
  e_jti : Uuid;
  e_chain : Uuid;  (** the first token of the chain *)
  e_subject : option string;
  e_expires : Z;
}.

Record Ledger := mkLedger { entries : list Entry; gone : gset Uuid }.

#[export] Instance entry_eq_dec : EqDecision Entry.
Proof. solve_decision. Defined.

Definition empty_ledger : Ledger := mkLedger [] ∅.

Definition jtis (L : Ledger) : list Uuid := e_jti <$> entries L.

Definition live (L : Ledger) (e : Entry) : Prop := e ∈ entries L /\ e_jti e ∉ gone L.

(** The chain of a token; one the ledger does not know starts its own. *)
Definition chain_of (L : Ledger) (j : Uuid) : Uuid :=
  default j (e_chain <$> find_first (fun e => bool_decide (e_jti e = j)) (entries L)).

Inductive Move :=
| Issue (e : Entry)
| Revoke (j : Uuid)
| Replace (old : Uuid) (e : Entry).

Definition admissible (L : Ledger) (m : Move) : bool :=
  match m with
  | Issue e => bool_decide (e_jti e ∉ jtis L) && bool_decide (e_chain e = e_jti e)
  | Revoke j => bool_decide (j ∉ gone L)
  | Replace old e =>
      bool_decide (e_jti e ∉ jtis L) && bool_decide (old ∉ gone L) && bool_decide (e_chain e = chain_of L old)
  end.

Definition perform (L : Ledger) (m : Move) : Ledger :=
  match m with
  | Issue e => mkLedger (entries L ++ [e]) (gone L)
  | Revoke j => mkLedger (entries L) ({[j]} ∪ gone L)
  | Replace old e => mkLedger (entries L ++ [e]) ({[old]} ∪ gone L)
  end.

Definition apply_move (L : Ledger) (m : Move) : option Ledger :=
  if admissible L m then Some (perform L m) else None.

Fixpoint run_moves (L : Ledger) (ms : list Move) : option Ledger :=
  match ms with
  | [] => Some L
  | m :: ms' => L' ← apply_move L m; run_moves L' ms'
  end.

(** ** Lemmas *)

Lemma run_moves_app L ms1 ms2 L1 L2 :
  run_moves L ms1 = Some L1 -> run_moves L1 ms2 = Some L2 -> run_moves L (ms1 ++ ms2) = Some L2.
Proof.
  revert L. induction ms1 as [|m ms IH]; intros L; simpl; [by intros [= ->]|].
  destruct (apply_move L m) as [L'|]; [|done]. simpl. apply IH.
Qed.

Lemma run_moves_one L m L' : apply_move L m = Some L' -> run_moves L [m] = Some L'.
Proof. simpl. by intros ->. Qed.

(** The chain of a known token is that of its entry. *)
Lemma chain_of_cases L j :
  (exists e, e ∈ entries L /\ e_jti e = j /\ chain_of L j = e_chain e) \/ ((j ∉ jtis L) /\ chain_of L j = j).
Proof.
  unfold chain_of. destruct (find_first _ (entries L)) as [e|] eqn:E; simpl.
  - apply find_first_Some in E as [? ?%bool_decide_eq_true]. left. by exists e.
  - right. split; [|done]. intros (e & -> & He)%list_elem_of_fmap.
    by pose proof (proj1 (find_first_None _ _) E _ He) as ?%bool_decide_eq_false.
Qed.

(** ** The invariant *)

Record good_ledger (L : Ledger) : Prop := {
  gl_jti : NoDup (jtis L);
  (** a chain starts with an entry, or with a token of before that is gone *)
  gl_root : forall e, e ∈ entries L -> e_chain e ∈ jtis L \/ e_chain e ∈ gone L;
  gl_single : forall e1 e2, live L e1 -> live L e2 -> e_chain e1 = e_chain e2 -> e1 = e2;
}.

Lemma good_empty : good_ledger empty_ledger.
Proof.
  split; [constructor|by intros e ?%not_elem_of_nil|by intros e1 e2 [?%not_elem_of_nil _]].
Qed.

Lemma jtis_snoc L e d : jtis (mkLedger (entries L ++ [e]) d) = jtis L ++ [e_jti e].
Proof. unfold jtis. simpl. by rewrite fmap_app. Qed.

(** A new entry, when its chain has no other live member. *)
Lemma good_snoc L e d :
  good_ledger L -> gone L ⊆ d -> e_jti e ∉ jtis L ->
  (e_chain e = e_jti e \/ e_chain e ∈ jtis L \/ e_chain e ∈ d) ->
  (forall e1, e1 ∈ entries L -> (e_jti e1 ∉ d) -> e_chain e1 = e_chain e -> (e_jti e ∈ d)) ->
  good_ledger (mkLedger (entries L ++ [e]) d).
Proof.
  intros [Hj Hr Hs] Hsub Hnew Hchain Hone. split.
  - rewrite jtis_snoc. apply list.NoDup_app. split; [done|]. split; [|apply NoDup_singleton].
    by intros x Hx ->%list_elem_of_singleton.
  - intros x. rewrite jtis_snoc. simpl. rewrite !elem_of_app, !list_elem_of_singleton.
    intros [Hx| ->]; [destruct (Hr x Hx); [by left; left|right; by apply Hsub]|].
    destruct Hchain as [->|[?|?]]; auto.
  - intros e1 e2 [Hin1 L1] [Hin2 L2] E. simpl in *.
    apply elem_of_app in Hin1 as [Hin1| ->%list_elem_of_singleton], Hin2 as [Hin2| ->%list_elem_of_singleton].
    + apply Hs; [split; [done|]; by intros ?%Hsub..|done].
    + by destruct L2; apply (Hone e1).
    + by destruct L1; apply (Hone e2).
    + done.
Qed.

Lemma good_move L m L' : apply_move L m = Some L' -> good_ledger L -> good_ledger L'.
Proof.
  unfold apply_move. destruct (admissible L m) eqn:Ha; [|done]. intros [= <-] HL. pose proof HL as [Hj Hr Hs].
  destruct m as [e|j|old e]; simpl in *; rewrite ?andb_true_iff, ?bool_decide_eq_true in Ha.
  - destruct Ha as [Hnew Hc]. apply good_snoc; [done|done|done|by left|].
    intros e1 Hin Hlive E. destruct (Hr e1 Hin) as [H|H]; rewrite E, Hc in H; done.
  - split; [done| |].
    + intros e He. destruct (Hr e He); [by left|right; set_solver].
    + intros e1 e2 [? H1] [? H2]. simpl in *. apply Hs; (split; [done|set_solver]).
  - destruct Ha as [[Hnew Hlive] Hc].
    destruct (chain_of_cases L old) as [(p & Hp & Hpj & Ep)|[Hno Ep]]; rewrite Ep in Hc.
    + apply good_snoc; [done|set_solver|done|rewrite Hc; destruct (Hr p Hp); [auto|right; right; set_solver]|].
      intros e1 Hin Hl1 E. exfalso. apply Hl1, elem_of_union_l, elem_of_singleton. rewrite <- Hpj. f_equal.
      apply Hs; [split; [done|set_solver]|split; [done|by rewrite Hpj]|congruence].
    + apply good_snoc; [done|set_solver|done|rewrite Hc; right; right; set_solver|].
      intros e1 Hin _ E. exfalso. destruct (Hr e1 Hin) as [H|H]; rewrite E, Hc in H; done.
Qed.

Lemma good_moves L ms L' : run_moves L ms = Some L' -> good_ledger L -> good_ledger L'.
Proof.
  revert L. induction ms as [|m ms IH]; intros L; simpl; [by intros [= <-]|].
  destruct (apply_move L m) as [L1|] eqn:E; [|done]. simpl. intros Hrun HL.
  eapply IH; [exact Hrun|by eapply good_move].
Qed.

(** Nothing is ever taken back. *)
Lemma moves_grow L ms L' :
  run_moves L ms = Some L' -> entries L `prefix_of` entries L' /\ gone L ⊆ gone L'.
Proof.
  revert L. induction ms as [|m ms IH]; intros L; simpl; [by intros [= <-]|].
  unfold apply_move. destruct (admissible L m); [|done]. simpl. intros [Hp Hs]%IH.
  destruct m; simpl in *; (split; [etrans; [|exact Hp]|set_solver]); done || by eexists.
Qed.

(** Every move changes something, so the moves of an unchanged ledger are none. *)
Definition measure (L : Ledger) : nat := (length (entries L) + size (gone L))%nat.

Lemma move_measure L m L' : apply_move L m = Some L' -> (measure L < measure L')%nat.
Proof.
  unfold apply_move. destruct (admissible L m) eqn:Ha; [|done]. intros [= <-]. unfold measure.
  destruct m as [e|j|old e]; simpl in *; rewrite ?length_app; simpl; [lia| |].
  - apply bool_decide_eq_true in Ha. rewrite size_union by set_solver. rewrite size_singleton. lia.
  - enough (size (gone L) <= size ({[old]} ∪ gone L))%nat by lia. apply subseteq_size. set_solver.
Qed.

Lemma moves_measure L ms L' : run_moves L ms = Some L' -> (measure L + length ms <= measure L')%nat.
Proof.
  revert L. induction ms as [|m ms IH]; intros L; simpl; [intros [= <-]; lia|].
  destruct (apply_move L m) as [L1|] eqn:E; [|done]. simpl. intros Hrun%IH. apply move_measure in E. lia.
Qed.

Lemma no_moves L ms : run_moves L ms = Some L -> ms = [].
Proof. intros Hrun%moves_measure. destruct ms; [done|simpl in Hrun; lia]. Qed.
