(* ===== verification/RouterTheorems.v ===== *)
(** What the endpoints promise: the token tables are changed by nobody but the
    administrator, the gates answer before anything but the body is read, a
    positive answer means a live token, and sizes, cookies and filters are treated
    as they should be. *)
From S2P Require Import Prelude Str Chrono Json Error World Effects Jose Claims Config Crypto.
From S2P Require Import JwtApi JwtService JwtTheorems Introspect Security SessionCrypto SessionStore.
From S2P Require Import MemoryStore PostgresStore Outbound Registry IdToken Flow Axum AccessLog Router.

(** ** The token tables *)

(** Rows are added, none is changed or removed. *)
Definition tokens_grow (w w' : World) : Prop :=
  metadata (pg w) `prefix_of` metadata (pg w') /\ denylist (pg w) ⊆ denylist (pg w').

#[export] Instance tokens_grow_preorder : PreOrder tokens_grow.
Proof. split; [by intros w|]. intros w1 w2 w3 [? ?] [? ?]. split; by etrans. Qed.

Lemma tokens_kept_grow w w' : tokens_kept w w' -> tokens_grow w w'.
Proof. intros (E1 & E2 & _). split; by rewrite ?E1, ?E2. Qed.

Lemma preserves_mono {A} (R R' : World -> World -> Prop) (m : M A) :
  (forall w w', R w w' -> R' w w') -> preserves R m -> preserves R' m.
Proof. intros HR Hm w. eapply wp_mono; [apply Hm|]. intros o w' ?. by apply HR. Qed.

Lemma same_state_kept {A} (m : M A) : preserves same_state m -> preserves tokens_kept m.
Proof. apply preserves_mono. intros w w' (E & _ & _ & _ & T). repeat split; by rewrite ?E. Qed.

Lemma same_pg_kept {A} (m : M A) : preserves same_pg m -> preserves tokens_kept m.
Proof. apply preserves_mono. intros w w' (E & _ & T). repeat split; by rewrite ?E. Qed.

Lemma grows_tokens_grow {A} (m : M A) : preserves grows m -> preserves tokens_grow m.
Proof. apply preserves_mono. intros w w' []. by split. Qed.

Lemma kept_grow {A} (m : M A) : preserves tokens_kept m -> preserves tokens_grow m.
Proof. apply preserves_mono, tokens_kept_grow. Qed.

(** A store of sessions leaves the token tables alone. *)
Class KeepsTokens (S : SessionStore) : Prop := {
  kt_create : forall sess, preserves tokens_kept (@ss_create S sess);
  kt_get : forall id, preserves tokens_kept (@ss_get S id);
  kt_touch : forall id, preserves tokens_kept (@ss_touch S id);
  kt_revoke : forall id, preserves tokens_kept (@ss_revoke S id);
}.

(** A change outside the two tables. *)
Ltac still := by (repeat split; simpl; auto with arith).

Lemma tokens_kept_bump w : tokens_kept w (bump w).
Proof. repeat split. simpl. lia. Qed.

Create HintDb kept discriminated.

(** [preserve] for [tokens_kept] and [tokens_grow]. *)
Ltac kept_step :=
  match goal with
  | |- preserves _ (extract ?r _) => unfold extract; destruct r
  | |- preserves _ (read_json _ _ _ _ _) => unfold read_json
  | |- preserves _ (read_optional_json _ _ _ _ _) => unfold read_optional_json
  | |- preserves _ (read_bytes _ _ _) => unfold read_bytes
  | |- preserves _ (read_string _ _ _) => unfold read_string
  | |- preserves _ (respond _) => unfold respond
  | |- preserves tokens_kept (verify_raw _ _ _ _) => apply same_state_kept, verify_raw_same
  | |- preserves tokens_kept (sql _) => apply same_state_kept, preserves_same_reads; solve [auto with effects]
  | |- preserves tokens_kept (utc_now) => apply preserves_ask; apply tokens_kept_bump
  | |- preserves tokens_kept (new_v4) => apply preserves_ask; apply tokens_kept_bump
  | |- preserves tokens_kept (fill_bytes _) => apply preserves_ask; apply tokens_kept_bump
  | |- preserves tokens_kept (ask _) => apply preserves_ask; apply tokens_kept_bump
  | |- preserves tokens_kept _ => solve [auto with kept]
  | |- preserves tokens_grow _ => solve [auto with kept]
  | |- preserves _ _ => progress preserve
  end.
Ltac kept := repeat kept_step.

Lemma receive_kept `{Env} : preserves tokens_kept receive.
Proof. apply preserves_await, tokens_kept_bump. Qed.
#[export] Hint Resolve receive_kept : kept.

Section Reads.
Context `{Env, J : Jose, Chrono, UuidLib, SerdeJson, Net, FlowLib} {JK : JwkKeys J}.
Implicit Type s : JwtService.

Lemma denylist_lookup_kept j : preserves tokens_kept (denylist_lookup j).
Proof. unfold denylist_lookup. kept. Qed.
#[local] Hint Resolve denylist_lookup_kept : kept.

Lemma validate_kept s req : preserves tokens_kept (validate s req).
Proof. unfold validate, is_denylisted. kept. Qed.

Lemma authenticate_bearer_kept s t : preserves tokens_kept (authenticate_bearer s t).
Proof. unfold authenticate_bearer, verify. kept. Qed.

Lemma introspect_kept s req : preserves tokens_kept (introspect s req).
Proof. unfold introspect, verify. kept. Qed.

Lemma summaries_kept now rows : preserves tokens_kept (summaries now rows).
Proof. induction rows as [|r rows IH]; simpl; unfold denylist_entry; kept; exact IH. Qed.
#[local] Hint Resolve summaries_kept : kept.

Lemma list_for_subject_kept sub req : preserves tokens_kept (list_for_subject sub req).
Proof. unfold list_for_subject. destruct (list_page req) as [[? ?] ?]. kept. Qed.

Lemma fetch_with_kept url allow : preserves tokens_kept (fetch_with url allow).
Proof. apply same_pg_kept, fetch_with_same_pg. Qed.
Lemma verify_id_token_kept d p t n : preserves tokens_kept (verify_id_token d p t n).
Proof. apply same_pg_kept, verify_id_token_same_pg. Qed.
Lemma exchange_code_kept p d code row : preserves tokens_kept (exchange_code p d code row).
Proof. apply same_pg_kept, exchange_code_same_pg. Qed.

Lemma consume_state_kept st pid age : preserves tokens_kept (sql (consume_state st pid age)).
Proof.
  apply preserves_sql; [apply tokens_kept_bump|]. intros now w. unfold consume_state.
  destruct (oauth_state (pg w) !! st); [destruct (_ && _)|]; still.
Qed.
Lemma insert_state_kept st pid n r v : preserves tokens_kept (sql (insert_state st pid n r v)).
Proof.
  apply preserves_sql; [apply tokens_kept_bump|]. intros now w. unfold insert_state.
  destruct (oauth_state (pg w) !! st); still.
Qed.
#[local] Hint Resolve fetch_with_kept verify_id_token_kept exchange_code_kept consume_state_kept insert_state_kept : kept.

Lemma random_hex_kept n : preserves tokens_kept (random_hex n).
Proof. unfold random_hex. kept. Qed.
#[local] Hint Resolve random_hex_kept : kept.

Lemma build_login_url_kept r pid uri : preserves tokens_kept (build_login_url r pid uri).
Proof. unfold build_login_url, generate_pkce. kept. Qed.

Lemma complete_callback_kept r S age pid code st :
  KeepsTokens S -> preserves tokens_kept (complete_callback r S age pid code st).
Proof.
  intros [Hc _ _ _]. unfold complete_callback, login_session.
  kept; destruct (profile_from_claims _ _); kept.
Qed.

Lemma jwks_kept sg : preserves tokens_kept (jwks sg).
Proof. unfold jwks, active_previous. kept. Qed.
End Reads.

#[export] Hint Resolve validate_kept authenticate_bearer_kept introspect_kept list_for_subject_kept
  build_login_url_kept jwks_kept : kept.
#[export] Hint Extern 1 (preserves tokens_grow _) => apply kept_grow; solve [auto with kept] : kept.

(** Both stores keep to themselves. *)
Section Stores.
Context `{Env, Aead, SerdeJson}.

Lemma session_sql_kept {A} (q : Sql A) :
  (forall now p, exists m, snd (q now p) = with_session_rows m p) -> preserves tokens_kept (sql q).
Proof.
  intros Hq. apply preserves_sql; [apply tokens_kept_bump|]. intros now w. destruct (Hq now (pg w)) as [m ->]. still.
Qed.

#[export] Instance memory_keeps ttl : KeepsTokens (MemoryStore ttl).
Proof.
  split; intros x; simpl.
  - unfold memory_create. intros w. still.
  - unfold memory_get. intros w. unfold wp, mbind, M_bind, utc_now, ask, mem_map. simpl.
    destruct (mem_sessions w !! x); [destruct (is_expired _ _)|]; still.
  - unfold memory_touch. intros w. unfold wp, mbind, M_bind, mem_map. simpl.
    destruct (mem_sessions w !! x); still.
  - unfold memory_revoke. intros w. still.
Qed.

#[export] Instance postgres_keeps ttl c : KeepsTokens (PostgresStore ttl c).
Proof.
  split; intros x; simpl.
  - unfold postgres_create, seal_profile, seal. kept. apply session_sql_kept. intros now p.
    unfold insert_session. destruct (session_rows p !! _); [exists (session_rows p); by destruct p|by eexists].
  - unfold postgres_get. kept. apply session_sql_kept. intros now p. exists (session_rows p).
    unfold select_session. by destruct p.
  - apply session_sql_kept. intros now p. unfold update_last_activity.
    destruct (session_rows p !! x); [|exists (session_rows p); by destruct p].
    destruct (_ <? _); [by eexists|exists (session_rows p); by destruct p].
  - unfold postgres_revoke. kept. apply session_sql_kept. intros now p. by eexists.
Qed.
End Stores.

(** ** Handlers and the tables *)

Section Endpoints.
Context `{Env, J : Jose, Chrono, UuidLib, SerdeJson, ChronoSerde, HttpLib, Net, FlowLib, AxumLib} {JK : JwkKeys J}.
Implicit Type s : AppState.

(** The handlers with an [AdminAuth] argument. *)
Definition admin_route (r : Route) : bool :=
  match r with
  | RGenerate | RRevoke | RRevokeBulk | RExtend | RCustomExtend | RExtendSession | RCustomBlacklist
  | RBlacklist => true
  | _ => false
  end.

Lemma current_session_kept s req : KeepsTokens (app_sessions s) -> preserves tokens_kept (current_session s req).
Proof. intros []. unfold current_session. kept. Qed.
#[local] Hint Resolve current_session_kept complete_callback_kept : kept.

Lemma handler_kept s r req :
  KeepsTokens (app_sessions s) -> admin_route r = false -> preserves tokens_kept (handler s r req).
Proof.
  intros HS Hr. pose proof HS as [_ _ _ Hrevoke]. destruct r; try discriminate Hr; simpl.
  all: unfold health, jwt_validate, jwt_validate_boolean, jwt_list_me, keys_public, jwt_verification_key_compat,
    jwt_userinfo_compat, jwt_custom_verify_compat, jwt_custom_userinfo_compat, userinfo, introspect_dispatch,
    introspect_types, auth_providers, auth_provider_one, auth_login, auth_callback, auth_session_validate,
    auth_profile, auth_logout, auth_health; kept.
Qed.

(** Behind the gate, rows are added. *)
Lemma handler_grows s r req : KeepsTokens (app_sessions s) -> preserves tokens_grow (handler s r req).
Proof.
  intros HS. destruct (admin_route r) eqn:Hr; [|by apply kept_grow, handler_kept].
  pose proof HS as [_ _ _ Hrevoke].
  assert (forall g, preserves tokens_grow (generate (app_jwt s) g)) as G1
    by (intros; apply grows_tokens_grow, generate_grows).
  assert (forall t x, preserves tokens_grow (revoke (app_jwt s) t x)) as G2
    by (intros; apply grows_tokens_grow, revoke_grows).
  assert (forall b, preserves tokens_grow (bulk_revoke (app_jwt s) b)) as G3
    by (intros; apply grows_tokens_grow, bulk_revoke_grows).
  assert (forall e, preserves tokens_grow (extend (app_jwt s) e)) as G4
    by (intros; apply grows_tokens_grow, extend_grows).
  assert (forall j x, preserves tokens_grow (revoke_by_jti j x)) as G5
    by (intros; apply grows_tokens_grow, revoke_by_jti_grows).
  destruct r; try discriminate Hr; simpl.
  all: unfold jwt_generate, jwt_revoke, jwt_revoke_bulk, jwt_extend, jwt_custom_blacklist_compat,
    jwt_blacklist_compat, jwt_custom_extend_compat, jwt_extend_session_compat, extend_into_cookie, admin; kept.
Qed.

(** In front of it, nothing happens. *)
Lemma handler_refused s r req w e :
  admin_route r = true -> admin_auth (app_admin s) (rq_parts req) = Err e ->
  handler s r req w = (Throw e, w).
Proof.
  intros Hr He. destruct r; try discriminate Hr; simpl.
  all: unfold jwt_generate, jwt_revoke, jwt_revoke_bulk, jwt_extend, jwt_custom_blacklist_compat,
    jwt_blacklist_compat, jwt_custom_extend_compat, jwt_extend_session_compat, admin; by rewrite He.
Qed.

Lemma admin_auth_error g parts e : admin_auth g parts = Err e -> e = Unauthorized.
Proof.
  unfold admin_auth. destruct (negb (admin_enforced g)); [done|].
  destruct (admin_presented _); [|by intros [= <-]]. destruct (negb _); [by intros [= <-]|done].
Qed.

Lemma route_request_refused s r req w e :
  requested req = Some r -> method_allowed r (rq_method req) = true ->
  admin_route r = true -> admin_auth (app_admin s) (rq_parts req) = Err e ->
  exists resp, route_request s req w = (Ret resp, w) /\ resp_status resp = 401.
Proof.
  intros Hq Hm Hr He. unfold route_request. rewrite Hq, Hm. unfold respond, attempt, mbind, M_bind.
  rewrite (handler_refused s r req w e Hr He). apply admin_auth_error in He as ->. simpl.
  case_bool_decide; by eexists.
Qed.

(** Where the access log hands the request on: its identifiers are there. *)
Definition identified (req : Request) (w : World) : World :=
  snd ((_ ← parse_or_generate_trace_id req; fresh_span_id) w).

Lemma identified_same req w : same_state w (identified req w).
Proof.
  unfold identified, parse_or_generate_trace_id.
  destruct (header_str (rq_headers req) "traceparent" ≫= _) as [ids|]; [apply same_state_bump|etrans; apply same_state_bump].
Qed.

Lemma access_log_same req matched next w o w' :
  access_log_middleware req matched next w = (o, w') ->
  exists o1, next (identified req w) = (o1, w') /\
    match o1 with
    | Ret r => exists r' line, o = Ret (r', line) /\ resp_status r' = resp_status r /\ resp_body r' = resp_body r /\
                 al_status line = resp_status r
    | Throw e => o = Throw e
    | Panic => o = Panic
    | Dropped c => o = Dropped c
    end.
Proof.
  unfold access_log_middleware, identified, parse_or_generate_trace_id, fresh_span_id. intros Hrun.
  destruct (header_str (rq_headers req) "traceparent" ≫= _) as [[t f]|];
    unfold mbind, M_bind, instant_now, fill_bytes, ask in Hrun |- *; simpl in Hrun |- *;
    match goal with |- context [next ?w0] => destruct (next w0) as [o1 w2] eqn:E end; exists o1;
    destruct o1; injection Hrun as <- <-; (split; [done|]); try done; by eexists _, _.
Qed.

(** What the CORS layer answers by itself. *)
Definition preflight s (req : Request) : option HeaderMap :=
  l ← cors (build_layers (security (config s))); cors_preflight l (rq_method req) (rq_headers req).

Lemma preflight_method `{!HttpLaws _} s req r :
  method_allowed r (rq_method req) = true -> preflight s req = None.
Proof.
  intros Hm. unfold preflight. destruct (cors _) as [l|]; simpl; [|done].
  destruct (cors_preflight l _ _) as [hs|] eqn:E; [|done]. apply preflight_options in E. rewrite E in Hm.
  unfold method_allowed in Hm. by destruct (is_get r).
Qed.

(** The layers outside the time limit: a preflight is answered at once and not logged;
    every other request is that of the layers inside, and its answer keeps status and
    body, and the line tells the status. *)
Lemma serve_logged_inner s req w o w' :
  serve_logged s req w = (o, w') ->
  (is_Some (preflight s req) /\ w' = w /\ exists resp, o = Ret (resp, None) /\ resp_status resp = 200) \/
  (preflight s req = None /\ exists o1, limited s req (identified req w) = (o1, w') /\
     match o1 with
     | Ret r => exists resp line, o = Ret (resp, Some line) /\ resp_status resp = resp_status r /\
                  resp_body resp = resp_body r /\ al_status line = resp_status r
     | Throw e => o = Throw e
     | Panic => o = Panic
     | Dropped c => o = Dropped c
     end).
Proof.
  unfold serve_logged, cors_layer, preflight. destruct (cors _) as [l|]; simpl.
  1: destruct (cors_preflight l _ _) as [hs|];
    [intros [= <- <-]; left; split; [by eexists|]; split; [done|]; by eexists|].
  all: unfold logged, mbind, M_bind; destruct (access_log_middleware _ _ _ w) as [oa wa] eqn:Ea;
    apply access_log_same in Ea as (o1 & Hn & Ho).
  all: destruct o1; [destruct Ho as (r' & line & -> & Hst & Hb & Hl)|subst oa..]; intros [= <- <-]; right;
    (split; [done|]); eexists _; (split; [exact Hn|]); simpl; [|done..].
  all: by eexists _, _.
Qed.

Lemma serve_inner s req w o w' :
  serve s req w = (o, w') ->
  (is_Some (preflight s req) /\ w' = w /\ exists resp, o = Ret resp /\ resp_status resp = 200) \/
  (preflight s req = None /\ exists w1 o1, same_state w w1 /\ limited s req w1 = (o1, w') /\
     match o1 with
     | Ret r => exists resp, o = Ret resp /\ resp_status resp = resp_status r /\ resp_body resp = resp_body r
     | Throw e => o = Throw e
     | Panic => o = Panic
     | Dropped c => o = Dropped c
     end).
Proof.
  unfold serve, mbind, M_bind. destruct (serve_logged s req w) as [ol w2] eqn:El. intros Hol.
  apply serve_logged_inner in El as [(Hp & -> & resp & -> & Hst)|(Hp & o1 & Hn & Ho)].
  - injection Hol as <- <-. left. split; [done|]. split; [done|]. by exists resp.
  - right. split; [done|]. exists (identified req w), o1. split; [apply identified_same|].
    destruct o1; [destruct Ho as (resp & line & -> & ? & ? & _)|subst ol..]; injection Hol as <- <-;
      (split; [done|]); [by eexists|done..].
Qed.

(** The declared length is over the limit. *)
Definition oversize s (req : Request) : bool :=
  match declared_length (rq_headers req) with Some n => max_body s <? n | None => false end.

(** The layers inside: the size mapper, the time limit and the routes. *)
Lemma limited_run s req w o w' :
  limited s req w = (o, w') ->
  (oversize s req = true /\ w' = w /\ o = Ret (payload_too_large (max_body s))) \/
  (oversize s req = false /\ exists o1, route_request s req w = (o1, w') /\
     match o1 with
     | Ret r => o = Ret (if resp_status r =? 413 then payload_too_large (max_body s) else r)
     | Throw e => o = Throw e
     | Panic => o = Panic
     | Dropped TimeUp => o = Ret (mkResponse 408 [] (BText ""))
     | Dropped ClientGone => o = Dropped ClientGone
     end).
Proof.
  unfold limited, time_limit, body_size_error_mapper. fold (oversize s req). destruct (oversize s req).
  - intros [= <- <-]. by left.
  - unfold mbind, M_bind. destruct (route_request s req w) as [o1 w1]. intros E. right. split; [done|].
    exists o1. destruct o1 as [r|e| |[]]; injection E as <- <-; done.
Qed.

(** A refused request is answered and leaves no trace. *)
Theorem admin_refused `{!HttpLaws _} s r req w e o w' :
  requested req = Some r -> method_allowed r (rq_method req) = true ->
  admin_route r = true -> admin_auth (app_admin s) (rq_parts req) = Err e ->
  serve s req w = (o, w') ->
  same_state w w' /\
  exists resp, o = Ret resp /\ resp_status resp = if oversize s req then 413 else 401.
Proof.
  intros Hq Hm Hr He [([? Hp] & _)|(_ & w1 & o1 & Hs & Hn & Ho)]%serve_inner;
    [by rewrite (preflight_method s req r) in Hp|].
  apply limited_run in Hn as [(-> & -> & ->)|(-> & o2 & Hn & Ho2)].
  - destruct Ho as (resp & -> & Hst & _). split; [done|]. by exists resp.
  - destruct (route_request_refused s r req w1 e Hq Hm Hr He) as (resp & Hresp & H401).
    rewrite Hresp in Hn. injection Hn as <- <-. subst o1. rewrite H401 in Ho. simpl in Ho.
    destruct Ho as (resp' & -> & Hst & _). split; [done|]. exists resp'. by rewrite Hst.
Qed.

(** The status a handler's outcome is answered with. *)
Definition status_of (o : Outcome Response) : Z :=
  match o with Ret r => resp_status r | Throw e => status e | Panic => 0 | Dropped _ => 408 end.

(** The routes answer with the handler's status, or with one of their own. *)
Lemma route_request_cases s req w o w' :
  route_request s req w = (o, w') ->
  (w' = w /\ exists resp, o = Ret resp /\ (resp_status resp = 404 \/ resp_status resp = 405)) \/
  exists r oh, requested req = Some r /\ method_allowed r (rq_method req) = true /\
    handler s r req w = (oh, w') /\
    match oh with
    | Ret _ | Throw _ => exists resp, o = Ret resp /\ resp_status resp = status_of oh
    | Panic => o = Panic
    | Dropped c => o = Dropped c
    end.
Proof.
  unfold route_request. destruct (requested req) as [r|]; [|intros [= <- <-]; left; split; [done|]; eexists; split; [done|by left]].
  destruct (method_allowed r (rq_method req)) eqn:Hm; [|intros [= <- <-]; left; split; [done|]; eexists; split; [done|by right]].
  unfold respond, attempt, mbind, M_bind. destruct (handler s r req w) as [oh w1] eqn:Eh.
  intros E. right. exists r, oh. split; [done|]. split; [done|].
  destruct oh as [a|e| |c]; simpl in E; injection E as <- <-; (split; [done|]); [eexists; split; [done|]..|done|done];
    case_bool_decide; simpl; rewrite ?into_response_status; done.
Qed.

(** A request reaches at most one handler. *)
Lemma serve_cases s req w o w' :
  serve s req w = (o, w') ->
  exists w1, same_state w w1 /\
    ((w' = w1 /\ forall resp, o = Ret resp -> resp_status resp ∈ [404; 405; 413] \/
        (is_Some (preflight s req) /\ resp_status resp = 200)) \/
     exists r oh, requested req = Some r /\ method_allowed r (rq_method req) = true /\
       handler s r req w1 = (oh, w') /\
       forall resp, o = Ret resp -> resp_status resp = 413 \/ resp_status resp = status_of oh).
Proof.
  intros [(Hp & -> & resp & -> & Hst)|(_ & w1 & o1 & Hs & Hn & Ho)]%serve_inner.
  { exists w. split; [done|]. left. split; [done|]. intros ? [= <-]. by right. }
  exists w1. split; [done|]. apply limited_run in Hn as [(_ & -> & ->)|(_ & o2 & Hn & Ho2)].
  { destruct Ho as (resp & -> & Hst & _). left. split; [done|]. intros ? [= <-]. left. rewrite Hst. simpl. set_solver. }
  assert (forall resp, o = Ret resp -> o2 = Dropped TimeUp /\ resp_status resp = 408 \/
    exists r, o2 = Ret r /\ (resp_status resp = 413 \/ resp_status resp = resp_status r)) as Hst.
  { intros resp ->. destruct o2 as [r|e| |[]]; subst o1; try done.
    - right. exists r. split; [done|]. destruct Ho as (resp' & [= <-] & -> & _).
      destruct (resp_status r =? 413); [by left|by right].
    - left. by destruct Ho as (resp' & [= <-] & -> & _). }
  apply route_request_cases in Hn as [[-> Hr]|(r & oh & Hq & Hm & Hh & Hr)].
  - left. split; [done|]. intros resp Hresp. left. destruct Hr as (r' & -> & Hr).
    apply Hst in Hresp as [[? _]|(r & [= <-] & [-> | ->])]; [done|set_solver|]. destruct Hr as [-> | ->]; set_solver.
  - right. exists r, oh. repeat (split; [done|]). intros resp Hresp. apply Hst in Hresp as [[-> ->]|(r' & -> & [->| ->])].
    + right. destruct oh; simpl in *; [by destruct Hr as (? & ? & _)..|done|done].
    + by left.
    + right. destruct oh; [by destruct Hr as (? & [= <-] & ->)..|done|done].
Qed.

Lemma serve_run s req w o w' :
  serve s req w = (o, w') ->
  exists w1, same_state w w1 /\
    (w' = w1 \/ exists r, requested req = Some r /\ method_allowed r (rq_method req) = true /\
                          (handler s r req w1).2 = w').
Proof.
  intros (w1 & Hs & [[-> _]|(r & oh & ? & ? & Hh & _)])%serve_cases; exists w1; (split; [done|]); [by left|].
  right. exists r. by rewrite Hh.
Qed.

Lemma same_state_tokens w w' : same_state w w' -> tokens_kept w w'.
Proof. intros (E & _ & _ & _ & T). repeat split; by rewrite ?E. Qed.

Lemma tokens_guarded s req w o w' :
  KeepsTokens (app_sessions s) -> serve s req w = (o, w') ->
  tokens_grow w w' /\
  (tokens_kept w w' \/
   exists r, requested req = Some r /\ method_allowed r (rq_method req) = true /\
     admin_route r = true /\ admin_auth (app_admin s) (rq_parts req) = Ok tt).
Proof.
  intros HS (w1 & Hs%same_state_tokens & [->|(r & Hq & Hm & <-)])%serve_run.
  - split; [by apply tokens_kept_grow|by left].
  - split; [etrans; [by apply tokens_kept_grow|]; apply (handler_grows s r req HS w1)|].
    destruct (admin_route r) eqn:Hr; [|left; etrans; [done|]; by apply (handler_kept s r req HS Hr w1)].
    destruct (admin_auth (app_admin s) (rq_parts req)) as [[]|e] eqn:Ha; [right; by exists r|].
    left. by rewrite (handler_refused s r req w1 e Hr Ha).
Qed.

(** Nobody but the administrator changes the token tables. *)
Theorem tokens_need_admin s req w o w' :
  KeepsTokens (app_sessions s) -> serve s req w = (o, w') ->
  tokens_grow w w' /\
  (tokens_kept w w' \/
   exists r, requested req = Some r /\ method_allowed r (rq_method req) = true /\
     admin_route r = true /\ admin_auth (app_admin s) (rq_parts req) = Ok tt).
Proof. apply tokens_guarded. Qed.

(** ** The client gates *)

(** The endpoints behind one of the three gates, and whether it is on. *)
Definition gated s (r : Route) : bool :=
  match r with
  | RValidate | RValidateBoolean => required_validation (introspect_gate s)
  | RUserinfo | RCustomVerify | RCustomUserinfo => required_jvm_compat (introspect_gate s)
  | RIntrospect => required_introspect (introspect_gate s)
  | _ => false
  end.

Definition client_error (st : Z) : Prop := 400 <= st < 500.

Lemma rejection_client_error `{!AxumLaws _} (req : Request) max :
  (forall A ms (de : list (string * Value) -> option A) rej,
     body_json max ms de req = Err rej -> client_error (resp_status rej)) /\
  (forall rej, body_string max req = Err rej -> client_error (resp_status rej)) /\
  (forall rej, body_bytes max req = Err rej -> client_error (resp_status rej)).
Proof.
  assert (forall rej, body_bytes max req = Err rej -> client_error (resp_status rej)) as Hb.
  { unfold body_bytes. intros rej. destruct (_ <? _); [|done]. intros [= <-].
    rewrite length_limit_status. red. lia. }
  split; [|split; [|exact Hb]].
  - intros A ms de rej. unfold body_json. destruct (json_content_type _).
    + destruct (body_bytes max req) as [b|rej'] eqn:E; simpl; [|intros [= <-]; by apply Hb].
      destruct (from_json ms de b); simpl; [done|]. intros [= <-]. red.
      destruct (json_rejection_status b) as [-> | ->]; lia.
    + intros [= <-]. rewrite missing_json_status. red. lia.
  - unfold body_string. intros rej. destruct (body_bytes max req) as [b|rej'] eqn:E; simpl;
      [|intros [= <-]; by apply Hb]. destruct (from_utf8 b); simpl; [done|]. intros [= <-].
    rewrite utf8_status. red. lia.
Qed.

Lemma check_gate_closed s hs e : check_gate true s hs = Err e -> e = Unauthorized.
Proof.
  unfold check_gate, verify_basic. simpl. destruct (header_str hs "authorization") as [raw|]; simpl;
    [|by intros [= <-]].
  destruct (split_once " " raw) as [[scheme rest]|]; simpl; [|by intros [= <-]].
  destruct (negb _); [by intros [= <-]|]. destruct (b64_decode _) as [d|]; simpl; [|by intros [= <-]].
  destruct (from_utf8 d) as [pair|]; simpl; [|by intros [= <-]].
  destruct (split_once ":" pair) as [[i p]|]; simpl; [|by intros [= <-]].
  destruct (any_match _ _ _); [done|by intros [= <-]].
Qed.

(** The computation ends in a client error, or is cut off, and changes nothing. *)
Definition refusal (o : Outcome Response) : Prop :=
  match o with
  | Ret r => client_error (resp_status r)
  | Throw e => client_error (status e)
  | Panic => False
  | Dropped _ => True
  end.

Definition turns_away (m : M Response) : Prop := forall w, wp m w (fun o w' => same_state w w' /\ refusal o).

Lemma turns_away_receive (b : bool) (m : M Response) :
  turns_away m -> turns_away (_ ← (if b then receive else mret tt); m).
Proof.
  intros Hm w. apply wp_bind. destruct b; [|apply Hm]. unfold receive. apply wp_await; simpl.
  - eapply wp_mono; [apply Hm|]. intros o w' [Hs Ho]. split; [|done]. etrans; [apply same_state_bump|exact Hs].
  - intros c. split; [apply same_state_bump|done].
Qed.

Lemma turns_away_extract {A} (x : Result A Response) (k : A -> M Response) :
  (forall rej, x = Err rej -> client_error (resp_status rej)) -> (forall a, turns_away (k a)) ->
  turns_away (extract x k).
Proof. intros Hx Hk. destruct x as [a|rej]; [apply Hk|]. intros w. split; [reflexivity|by apply Hx]. Qed.

Lemma turns_away_gate {A} (f : A -> M Response) : turns_away (x ← lift (Err Unauthorized); f x).
Proof. intros w. split; [reflexivity|]. unfold refusal, client_error. simpl. lia. Qed.

(** A closed gate answers before anything is read but the body. *)
Lemma handler_gated `{!AxumLaws _} s r req e :
  gated s r = true -> check_gate true s (rq_headers req) = Err e -> turns_away (handler s r req).
Proof.
  intros Hg He. pose proof (check_gate_closed _ _ _ He) as ->.
  destruct (rejection_client_error req (max_body s)) as (Hj & Hs & Hb).
  destruct r; simpl in Hg; try discriminate Hg; simpl.
  all: unfold jwt_validate, jwt_validate_boolean, jwt_userinfo_compat, jwt_custom_verify_compat,
    jwt_custom_userinfo_compat, introspect_dispatch, check_validation_gate, check_jvm_compat_gate, read_json,
    read_string, read_bytes; rewrite Hg, He.
  all: try apply turns_away_gate.
  1,2: apply turns_away_receive.
  3-5: apply (turns_away_receive true).
  all: apply turns_away_extract; [intros rej; eauto|intros a; apply turns_away_gate].
Qed.

(** When the handler turns a request away, so does the stack. *)
Lemma serve_refused `{!HttpLaws _} s r req w o w' :
  requested req = Some r -> method_allowed r (rq_method req) = true -> turns_away (handler s r req) ->
  serve s req w = (o, w') ->
  same_state w w' /\ ((exists resp, o = Ret resp /\ client_error (resp_status resp)) \/ o = Dropped ClientGone).
Proof.
  intros Hq Hm Hh Hrun. pose proof Hrun as [([? Hp] & _)|(_ & w1 & o1 & Hs & Hn & Ho)]%serve_inner;
    [by rewrite (preflight_method s req r) in Hp|].
  specialize (Hh w1). unfold wp in Hh.
  assert (client_error 413 /\ client_error 408) as [H413 H408] by (unfold client_error; lia).
  apply limited_run in Hn as [(_ & -> & ->)|(_ & o2 & Hn & Ho2)].
  { destruct Ho as (resp & -> & Hst & _). split; [done|]. left. exists resp. by rewrite Hst. }
  apply route_request_cases in Hn as [[-> (r1 & -> & Hst1)]|(r' & oh & Hq' & _ & Hhr & Hr)].
  - subst o1. destruct Ho as (resp & -> & Hst & _). split; [done|]. left. exists resp. split; [done|]. rewrite Hst.
    destruct Hst1 as [E|E]; rewrite E; simpl; rewrite E; unfold client_error; lia.
  - rewrite Hq in Hq'. injection Hq' as <-. rewrite Hhr in Hh. destruct Hh as [Hs2 Href].
    split; [by etrans|]. destruct oh as [hr|e| |c]; simpl in Href; [..|done|].
    1,2: destruct Hr as (r1 & -> & Hst1); subst o1; destruct Ho as (resp & -> & Hst & _); left; exists resp;
      (split; [done|]); rewrite Hst; destruct (resp_status r1 =? 413); [done|]; by rewrite Hst1.
    subst o2. destruct c; subst o1; [|by right]. destruct Ho as (resp & -> & Hst & _). left. exists resp. by rewrite Hst.
Qed.

(** C9: A request that the Basic client gate of its endpoint refuses changes neither the
    database nor a cache nor a session, and is answered with a client error unless its
    client goes away first. *)
Theorem gates_closed `{!AxumLaws _, !HttpLaws _} s r req w e o w' :
  requested req = Some r -> method_allowed r (rq_method req) = true ->
  gated s r = true -> check_gate true s (rq_headers req) = Err e ->
  serve s req w = (o, w') ->
  same_state w w' /\ ((exists resp, o = Ret resp /\ client_error (resp_status resp)) \/ o = Dropped ClientGone).
Proof. intros Hq Hm Hg He. apply (serve_refused s r); [done|done|]. by eapply handler_gated. Qed.

(** ** Positive answers *)

(** The token a validation endpoint is asked about. *)
Definition presents s (r : Route) (req : Request) (token : string) : Prop :=
  match r with
  | RValidate | RValidateBoolean =>
      exists v, body_json (max_body s) validate_names validate_request_of_json req = Ok v /\ vr_token v = token
  | RCustomVerify =>
      exists body, body_string (max_body s) req = Ok body /\
        cookie_value (rq_headers req) (body_cookie_name body) = Some token
  | _ => False
  end.

Definition validation_route (r : Route) : bool :=
  match r with RValidate | RValidateBoolean | RCustomVerify => true | _ => false end.

Lemma validity_status_200 r : validity_status r = 200 -> active r = true.
Proof. unfold validity_status. destruct (valid r), (active r); done. Qed.

Lemma into_response_not_ok e : resp_status (into_response e) ≠ 200.
Proof. destruct e; by vm_compute. Qed.

Lemma live_token_weaken (js : JwtService) token c w w1 w2 :
  same_state w w1 -> live_token js token c w1 w2 -> live_token js token c w w2.
Proof.
  intros Hs [(h & Hk) (j & Hj & Hr)]. split.
  - exists h. by eapply key_used_weaken.
  - exists j. by rewrite <- (same_state_revoked w w1).
Qed.

(** A body that arrived: the handler goes on with it. *)
Lemma received (b : bool) (m : M Response) w resp w' :
  (_ ← (if b then receive else mret tt); m) w = (Ret resp, w') -> exists w1, same_state w w1 /\ m w1 = (Ret resp, w').
Proof.
  intros Hrun. minv. destruct b; minv; [|by exists w].
  unfold receive in E. minv. exists (bump w). by split; [apply same_state_bump|].
Qed.

Lemma read_json_Ret {A} max members (de : list (string * Value) -> option A) req k w resp w' :
  read_json max members de req k w = (Ret resp, w') ->
  exists w1, same_state w w1 /\ extract (body_json max members de req) k w1 = (Ret resp, w').
Proof. apply received. Qed.

Lemma read_optional_json_Ret {A} max members (de : list (string * Value) -> option A) req k w resp w' :
  read_optional_json max members de req k w = (Ret resp, w') ->
  exists w1, same_state w w1 /\ k (optional_json max members de req) w1 = (Ret resp, w').
Proof. apply received. Qed.

Lemma read_string_Ret max req k w resp w' :
  read_string max req k w = (Ret resp, w') ->
  exists w1, same_state w w1 /\ extract (body_string max req) k w1 = (Ret resp, w').
Proof. apply (received true). Qed.

Lemma handler_positive `{!AxumLaws _} s r req w resp w' :
  validation_route r = true -> handler s r req w = (Ret resp, w') -> resp_status resp = 200 ->
  (gated s r = true -> check_gate true s (rq_headers req) = Ok tt) /\
  exists token c n, presents s r req token /\ live_token (app_jwt s) token c w w' /\
    (tick w <= n < tick w')%nat /\ timestamp (clock n) <= exp c.
Proof.
  intros Hr Hrun Hst. split.
  { intros Hg. destruct (check_gate true s (rq_headers req)) as [[]|e] eqn:He; [done|]. exfalso.
    pose proof (handler_gated s r req e Hg He w) as Hc. unfold wp in Hc. rewrite Hrun in Hc.
    destruct Hc as [_ Hc]. simpl in Hc. red in Hc. lia. }
  destruct (rejection_client_error req (max_body s)) as (Hj & Hs & _).
  assert (forall v w1 a w2, same_state w w1 -> validate (app_jwt s) v w1 = (Ret a, w2) -> active a = true ->
    exists c n, live_token (app_jwt s) (vr_token v) c w w2 /\ (tick w <= n < tick w2)%nat /\ timestamp (clock n) <= exp c)
    as Hlive.
  { intros v w1 a w2 Hw Hv Ha. apply validate_active_inv in Hv as (c & n & _ & Hl & _ & Hn & Ht); [|done].
    exists c, n. split; [by eapply live_token_weaken|]. destruct Hw as (_ & _ & _ & _ & Htick). split; [lia|done]. }
  destruct r; try discriminate Hr; simpl in Hrun |- *.
  1,2: apply read_json_Ret in Hrun as (w1 & Hw & Hrun); unfold extract in Hrun;
    destruct (body_json _ _ _ _) as [v|rej] eqn:E; [|injection Hrun as -> _; apply Hj in E; red in E; lia];
    minv; destruct (Hlive v w1 _ _ Hw E1) as (c & n & Hl); [by apply validity_status_200|];
    exists (vr_token v), c, n; split; [by exists v|done].
  apply read_string_Ret in Hrun as (w1 & Hw & Hrun). unfold extract in Hrun.
  destruct (body_string _ _) as [body|rej] eqn:E; [|injection Hrun as -> _; pose proof (Hs _ eq_refl) as [? ?]; lia].
  minv. destruct (bool_decide _); [done|].
  destruct (cookie_value (rq_headers req) (body_cookie_name body)) as [t|] eqn:Ec; minv; [|done].
  destruct (Hlive (plain_validate t) w1 _ _ Hw E1) as (c & n & Hl); [by apply validity_status_200|].
  exists t, c, n. split; [by exists body|done].
Qed.

(** An answer of the stack that is no error is the handler's own. *)
Lemma serve_ok `{!HttpLaws _} s r req w resp w' :
  serve s req w = (Ret resp, w') -> requested req = Some r -> method_allowed r (rq_method req) = true ->
  resp_status resp = 200 ->
  exists w1 hresp, same_state w w1 /\ handler s r req w1 = (Ret hresp, w') /\ resp_status hresp = 200.
Proof.
  intros [([? Hp] & _)|(_ & w1 & o1 & Hs & Hn & Ho)]%serve_inner Hq Hm Hst;
    [by rewrite (preflight_method s req r) in Hp|].
  assert (exists r1, o1 = Ret r1 /\ resp_status r1 = 200) as (r1 & -> & Hst1).
  { destruct o1 as [r1|e| |c]; [|done..]. exists r1. split; [done|]. by destruct Ho as (? & [= <-] & <- & _). }
  clear Ho. apply limited_run in Hn as [(_ & _ & [= ->])|(_ & o2 & Hn & Ho2)]; [done|].
  apply route_request_cases in Hn as [[_ (r2 & -> & Hr2)]|(r' & oh & Hq' & _ & Hh & Hr)].
  - injection Ho2 as ->. destruct Hr2 as [E|E]; rewrite E in Hst1; simpl in Hst1; congruence.
  - rewrite Hq in Hq'. injection Hq' as <-. exists w1.
    destruct oh as [hr|e| |c]; [| |by subst o2|subst o2; by destruct c; [injection Ho2 as ->|]].
    + exists hr. split; [done|]. split; [done|]. destruct Hr as (r2 & -> & Hr2). injection Ho2 as ->. revert Hst1.
      destruct (Z.eqb_spec (resp_status r2) 413); [done|]. simpl in Hr2. congruence.
    + exfalso. destruct Hr as (r2 & -> & Hr2). injection Ho2 as ->. revert Hst1.
      destruct (Z.eqb_spec (resp_status r2) 413); [done|]. rewrite Hr2. simpl. by destruct e.
Qed.


(** ** Revocation over any number of requests *)

Definition served s (w w' : World) : Prop := exists req o, serve s req w = (o, w').

Lemma is_revoked_tokens_grow j w w' : tokens_grow w w' -> is_revoked j w -> is_revoked j w'.
Proof. intros [_ Hd] [d Hj]. exists d. by eapply lookup_weaken. Qed.

Lemma served_grows s w w' : KeepsTokens (app_sessions s) -> rtc (served s) w w' -> tokens_grow w w'.
Proof.
  intros HS Hsteps. induction Hsteps as [w|w1 w2 w3 (req & o & Hrun) _ IH]; [done|]. etrans; [|exact IH].
  apply serve_run in Hrun as (w0 & Hs%same_state_tokens & [->|(r & _ & _ & <-)]); [by apply tokens_kept_grow|].
  etrans; [by apply tokens_kept_grow|]. apply (handler_grows s r req HS w0).
Qed.

Lemma presents_validate s r req token w resp w' :
  validation_route r = true -> presents s r req token -> handler s r req w = (Ret resp, w') ->
  resp_status resp = 200 ->
  exists w1 vreq v, same_state w w1 /\ vr_token vreq = token /\
    validate (app_jwt s) vreq w1 = (Ret v, w') /\ active v = true.
Proof.
  intros Hr Hp Hrun Hst. destruct r; try discriminate Hr; simpl in Hp, Hrun.
  1,2: apply read_json_Ret in Hrun as (w1 & Hw & Hrun); destruct Hp as (v & Hb & Ht); rewrite Hb in Hrun;
    unfold extract in Hrun; minv; exists w1, v, a0; split; [done|]; split; [done|]; split; [done|];
    by apply validity_status_200.
  apply read_string_Ret in Hrun as (w1 & Hw & Hrun). destruct Hp as (body & Hb & Hc). rewrite Hb in Hrun.
  unfold extract in Hrun. minv. destruct (bool_decide _); [done|].
  rewrite Hc in Hrun. minv. exists w1, (plain_validate token), a0.
  split; [done|]. split; [done|]. split; [done|]. by apply validity_status_200.
Qed.

(** C3: Once a signed token is revoked, and whatever sequence of HTTP requests is served
    after that, no validation endpoint answers 200 for it. *)
Theorem revoked_over_http `{!ChronoLaws _, !UuidLaws _, !JoseLaws J, !HttpLaws _} s token c j w w1 r req resp w2 :
  KeepsTokens (app_sessions s) -> good_signer (signer (app_jwt s)) ->
  signed (app_jwt s) token c -> uuid_parse (jti c) = Some j ->
  is_revoked j w -> rtc (served s) w w1 ->
  requested req = Some r -> method_allowed r (rq_method req) = true -> validation_route r = true ->
  presents s r req token -> serve s req w1 = (Ret resp, w2) -> resp_status resp ≠ 200.
Proof.
  intros HS Hg Hsig Hj Hrev Hsteps Hq Hm Hr Hp Hrun Hst.
  destruct (serve_ok s r req w1 resp w2 Hrun Hq Hm Hst) as (w0 & hr & Hs & Hh & Hhst).
  destruct (presents_validate s r req token w0 hr w2 Hr Hp Hh Hhst) as (w3 & vreq & v & Hs3 & <- & Hv & Hact).
  rewrite (signed_dead (app_jwt s) vreq c j w3 v w2 Hg Hsig Hj) in Hact; [done| |exact Hv].
  left. apply (same_state_revoked w1 w3); [by etrans|].
  eapply is_revoked_tokens_grow; [by eapply served_grows|done].
Qed.

(** ** Answers in detail *)

Lemma count_all st (l : list BulkRevokeItem) :
  count_status st l = Z.of_nat (length l) <-> Forall (fun i => bi_status i = st) l.
Proof.
  unfold count_status. induction l as [|i l IH]; [by split|]. rewrite list.Forall_cons.
  pose proof (length_filter (fun i => bi_status i = st) l) as Hle.
  destruct (decide (bi_status i = st)) as [Hi|Hi].
  - rewrite filter_cons_True by done. simpl length. rewrite <- IH. split; [intros; split; [done|lia]|lia].
  - rewrite filter_cons_False by done. simpl length. split; [lia|by intros [? _]].
Qed.

(** The status of a bulk revocation tells whether all, none or some were revoked. *)
Lemma bulk_status_exact r :
  tallied r -> results r ≠ [] ->
  (bulk_status r = 200 <-> Forall (fun i => bi_status i = "revoked") (results r)) /\
  (bulk_status r = 409 <-> Forall (fun i => bi_status i = "already") (results r)) /\
  (bulk_status r = 400 <-> Forall (fun i => bi_status i = "failed") (results r)) /\
  bulk_status r ∈ [200; 207; 400; 409].
Proof.
  intros [Hn Ha Hf Ht] Hne. rewrite <- !count_all, <- Hn, <- Ha, <- Hf.
  assert (0 <= newly_revoked r) by (rewrite Hn; apply Nat2Z.is_nonneg).
  assert (0 <= already_revoked r) by (rewrite Ha; apply Nat2Z.is_nonneg).
  assert (0 <= failed r) by (rewrite Hf; apply Nat2Z.is_nonneg).
  assert (1 <= Z.of_nat (length (results r))) by (destruct (results r); [done|simpl; lia]).
  unfold bulk_status. rewrite !elem_of_cons.
  destruct (Z.ltb_spec 0 (failed r)), (Z.eqb_spec (newly_revoked r) 0), (Z.eqb_spec (already_revoked r) 0),
    (Z.ltb_spec 0 (newly_revoked r)), (Z.ltb_spec 0 (already_revoked r)); simpl; lia.
Qed.


(** What precedes the arrival of a body leaves the handler where it was. *)
Lemma received_cases (b : bool) (m : M Response) w :
  exists w1, same_state w w1 /\
    ((exists c, (_ ← (if b then receive else mret tt); m) w = (Dropped c, w1)) \/
     (_ ← (if b then receive else mret tt); m) w = m w1).
Proof.
  destruct b; [|exists w; by split; [|right]]. exists (bump w). split; [apply same_state_bump|].
  unfold mbind, M_bind, receive, await. destruct (dropped (tick w)) as [[c a]|]; [left; by exists c|by right].
Qed.

Lemma received_healthy (b : bool) (m : M Response) w :
  healthy -> exists w1, same_state w w1 /\ (_ ← (if b then receive else mret tt); m) w = m w1.
Proof.
  intros Hh. destruct b; [|by exists w]. exists (bump w). split; [apply same_state_bump|].
  unfold mbind, M_bind, receive, await. by destruct (Hh (tick w)) as [_ ->].
Qed.

(** The size mapper answers every 413 with its own limit, also the one [generate]
    gives for claims over a limit of their own. *)
Theorem claims_limit_masked `{!HttpLaws _} s req g w o w' :
  requested req = Some RGenerate -> rq_method req = "POST" ->
  admin_auth (app_admin s) (rq_parts req) = Ok tt ->
  body_json (max_body s) generate_members generate_request_of_json req = Ok g ->
  0 < gr_expiration_in_minutes g -> max_claims_bytes (cfg (app_jwt s)) < content_len (gr_content g) ->
  serve s req w = (o, w') ->
  same_state w w' /\ (o = Dropped ClientGone \/ exists resp, o = Ret resp /\ (resp_status resp = 408 \/
    resp_status resp = 413 /\
    resp_body resp = BJson (json_map [("error", VString "payload_too_large"); ("max", VInt (max_body s))]))).
Proof.
  intros Hq Hm Ha Hb Hexp Hcap [([? Hp] & _)|(_ & w1 & o1 & Hs & Hn & Ho)]%serve_inner;
    [by rewrite (preflight_method s req RGenerate) in Hp by by rewrite Hm|].
  set (cap := PayloadTooLarge (max_claims_bytes (cfg (app_jwt s)))).
  assert (exists oh w2, handler s RGenerate req w1 = (oh, w2) /\ same_state w1 w2 /\
            ((exists c, oh = Dropped c) \/ oh = Throw cap)) as (oh & w2 & Hh & Hs2 & Hoh).
  { simpl. unfold jwt_generate, admin. rewrite Ha. unfold mbind at 1, M_bind at 1. simpl. unfold read_json.
    rewrite Hb. edestruct received_cases as (w2 & Hs2 & [[c ->]| ->]); eexists _, w2; (split; [|split; [exact Hs2|]]).
    - done.
    - left. by exists c.
    - unfold extract, mbind, M_bind, generate. destruct (Z.leb_spec (gr_expiration_in_minutes g) 0); [lia|].
      by destruct (Z.ltb_spec (max_claims_bytes (cfg (app_jwt s))) (content_len (gr_content g))); [|lia].
    - by right. }
  apply limited_run in Hn as [(_ & -> & ->)|(_ & o2 & Hn & Ho2)].
  { destruct Ho as (resp & -> & Hst & Hbody). split; [done|]. right. exists resp. rewrite Hst, Hbody. auto. }
  unfold route_request, respond, attempt, mbind, M_bind in Hn. rewrite Hq in Hn.
  change (method_allowed RGenerate (rq_method req)) with (bool_decide (rq_method req = "POST")) in Hn.
  rewrite Hm in Hn. change (bool_decide ("POST" = "POST")) with true in Hn. cbn beta iota zeta in Hn.
  rewrite Hh in Hn. destruct Hoh as [[c ->]| ->]; simpl in Hn; injection Hn as <- <-; (split; [by etrans|]).
  - destruct c; subst o1; [|by left]. destruct Ho as (resp & -> & Hst & _). right. exists resp. auto.
  - subst o1. destruct Ho as (resp & -> & Hst & Hbody). right. exists resp. rewrite Hst, Hbody. auto.
Qed.

(** A filter that does not parse, or has a member nobody knows, is no error: the
    listing is then that of an empty body. *)
Theorem list_me_drops_bad_filter s req rej w :
  body_json (max_body s) list_members list_request_of_json req = Err rej ->
  jwt_list_me s req w =
  (_ ← (if json_content_type (rq_headers req) then receive else mret tt);
   token ← lift (bearer_token (rq_headers req));
   sub ← authenticate_bearer (app_jwt s) token;
   resp ← list_for_subject sub list_request_default;
   mret (json_ok (list_response_to_json resp))) w.
Proof. intros Hb. unfold jwt_list_me, read_optional_json, optional_json. by rewrite Hb. Qed.


(** *** Cookies *)

(** A cookie as a client sends it: visible bytes, no separator, a value. *)
Record cookie_ok (kv : string * string) : Prop := {
  ck_visible : all_bytes visible_byte (fst kv) = true /\ all_bytes visible_byte (snd kv) = true;
  ck_semi : contains_byte ";" (fst kv) = false /\ contains_byte ";" (snd kv) = false;
  ck_equals : contains_byte "=" (fst kv) = false;
  ck_value : snd kv ≠ "";
}.

Definition render_cookie (kv : string * string) : string := fst kv +:+ "=" +:+ snd kv.

Lemma contains_byte_app c a b : contains_byte c (a +:+ b) = contains_byte c a || contains_byte c b.
Proof. induction a as [|x a IH]; simpl; [done|]. by rewrite <- orb_assoc, IH. Qed.

Lemma render_no_semi kv : cookie_ok kv -> contains_byte ";" (render_cookie kv) = false.
Proof. intros [_ [H8 H9] _ _]. unfold render_cookie. by rewrite !contains_byte_app, H8, H9. Qed.

Lemma render_visible kv : cookie_ok kv -> all_bytes visible_byte (render_cookie kv) = true.
Proof. intros [[H8 H9] _ _ _]. unfold render_cookie. by rewrite !all_bytes_app, H8, H9. Qed.

(** One piece of the header, with or without the space in front. *)
Lemma find_cookie_piece name kv sp parts :
  cookie_ok kv -> sp = "" \/ sp = " " ->
  find_cookie name ((sp +:+ render_cookie kv) :: parts) =
    if bool_decide (fst kv = name) then Some (snd kv) else find_cookie name parts.
Proof.
  intros Hok Hsp. cbn [find_cookie].
  assert (trim (sp +:+ render_cookie kv) = render_cookie kv) as ->.
  { pose proof (render_visible _ Hok). destruct Hsp as [-> | ->]; [by apply trim_visible|by apply trim_space_visible]. }
  assert (split_once "=" (render_cookie kv) = Some kv) as ->.
  { destruct kv as [k v]. apply split_once_Some. by split; [|apply Hok]. }
  destruct kv as [k v], Hok as [[Hk Hv] _ _ Hne]. simpl in *.
  rewrite !trim_visible by done. rewrite (bool_decide_false _ Hne). by destruct (bool_decide (k = name)).
Qed.

Lemma split_join_cookies kv l :
  Forall cookie_ok (kv :: l) ->
  split_on ";" (join "; " (map render_cookie (kv :: l))) =
    render_cookie kv :: map (fun x => " " +:+ render_cookie x) l.
Proof.
  revert kv. induction l as [|y l IH]; intros kv Hall; apply list.Forall_cons in Hall as [Hkv Hl].
  - simpl. apply split_on_no, render_no_semi, Hkv.
  - change (join "; " (map render_cookie (kv :: y :: l)))
      with (render_cookie kv +:+ String ";" (String " " (join "; " (map render_cookie (y :: l))))).
    rewrite split_on_app by by apply render_no_semi. f_equal.
    assert (split_on ";" (String " " (join "; " (map render_cookie (y :: l))))
      = match split_on ";" (join "; " (map render_cookie (y :: l))) with
        | p :: ps => String " " p :: ps | [] => [String " " ""] end) as -> by reflexivity.
    by rewrite IH.
Qed.

(** A Cookie header written from a list of well-formed cookies is read back: the
    value found for a name is that of the first cookie with this name. *)
Theorem cookies_read_back hs l name :
  Forall cookie_ok l -> header_str hs "cookie" = Some (join "; " (map render_cookie l)) ->
  cookie_value hs name = assoc name l.
Proof.
  intros Hall Hh. unfold cookie_value. rewrite Hh. simpl. destruct l as [|kv l]; [done|].
  rewrite split_join_cookies by done. apply list.Forall_cons in Hall as [Hkv Hl].
  change (render_cookie kv) with ("" +:+ render_cookie kv). rewrite find_cookie_piece by auto.
  unfold assoc. cbn [find_first]. case_bool_decide as E; [by destruct kv|]. clear kv Hkv E Hh.
  induction l as [|x l IH]; [done|]. apply list.Forall_cons in Hl as [Hx Hl]. cbn [map].
  rewrite find_cookie_piece by auto. cbn [find_first]. case_bool_decide; [by destruct x|]. by apply IH.
Qed.

(** ** Composition: from one endpoint to another *)

(** The layers let a request of an admissible size through. *)
Lemma serve_handler `{!HttpLaws _} s r req w :
  requested req = Some r -> method_allowed r (rq_method req) = true -> rq_method req ≠ "HEAD" ->
  oversize s req = false ->
  exists w1, same_state w w1 /\ forall hr w2,
    handler s r req w1 = (Ret hr, w2) -> resp_status hr ≠ 413 ->
    exists resp, serve s req w = (Ret resp, w2) /\ resp_status resp = resp_status hr /\ resp_body resp = resp_body hr.
Proof.
  intros Hq Hm Hhead Hlen. destruct (serve s req w) as [o w'] eqn:E.
  apply serve_inner in E as [([? Hp] & _)|(_ & w1 & o1 & Hs & Hn & Ho)];
    [by rewrite (preflight_method s req r) in Hp|].
  exists w1. split; [done|]. intros hr w2 Hh Hst.
  apply limited_run in Hn as [(Hlen' & _)|(_ & o2 & Hn & Ho2)]; [congruence|].
  unfold route_request, respond, attempt, mbind, M_bind in Hn. rewrite Hq, Hm, Hh in Hn. simpl in Hn.
  rewrite bool_decide_false in Hn by done. injection Hn as <- <-. subst o1.
  destruct (Z.eqb_spec (resp_status hr) 413); [done|].
  destruct Ho as (resp & -> & E1 & E2). exists resp. by split.
Qed.

(** C5: A token that the generation endpoint issued over HTTP is accepted over HTTP:
    until its expiry, as long as it is unrevoked and acceptable, the validation endpoint
    answers 200 with exactly the claims it was issued with and changes nothing in the
    database. *)
Theorem issued_token_accepted `{!ChronoLaws _, !UuidLaws _, !JoseLaws J, !HttpLaws _} s req g w resp w1 :
  good_signer (signer (app_jwt s)) -> sane_clock -> healthy ->
  body_json (max_body s) generate_members generate_request_of_json req = Ok g ->
  (forall k v, gr_content g !! k = Some v -> float_free v = true) ->
  handler s RGenerate req w = (Ret resp, w1) ->
  exists tr aud j n,
    resp_status resp = 200 /\ resp_body resp = BJson (token_response_to_json tr) /\
    resolve_audience (audience (cfg (app_jwt s))) (gr_audience g) = Ok aud /\
    (tick w <= n)%nat /\ tr_expires_at tr = clock n + gr_expiration_in_minutes g * 60 * MICROS /\
    let c := generate_claims (app_jwt s) (gr_content g) aud j (clock n) (tr_expires_at tr) in
    forall vreq vq wv,
      requested vreq = Some RValidate -> rq_method vreq = "POST" ->
      oversize s vreq = false ->
      body_json (max_body s) validate_names validate_request_of_json vreq = Ok vq ->
      vr_token vq = tr_token tr -> check_validation_gate s (rq_headers vreq) = Ok tt ->
      acceptable (audience (cfg (app_jwt s))) vq c -> ~ is_revoked j wv ->
      (forall m, (tick wv <= m)%nat -> clock m <= tr_expires_at tr) ->
      exists answer w3, serve s vreq wv = (Ret answer, w3) /\ resp_status answer = 200 /\
        resp_body answer = BJson (validate_response_to_json (response_from_valid c)) /\ pg w3 = pg wv.
Proof.
  intros Hg Hclk Hh Hb Hf Hrun. simpl in Hrun. unfold jwt_generate, admin in Hrun. minv.
  apply read_json_Ret in Hrun as (wb & (_ & _ & _ & _ & Htb) & Hrun). rewrite Hb in Hrun. unfold extract in Hrun. minv.
  match goal with Hgen : generate _ _ _ = (Ret ?tr, _) |- _ =>
    destruct (generate_signed _ _ _ _ _ Hclk Hf Hgen) as (aud & Haud & Hexp & Hsig); exists tr, aud end.
  exists (uuid_v4 (tick wb)), (Datatypes.S (tick wb)).
  do 2 (split; [by destruct (default false (gr_set_cookie g))|]). split; [done|]. split; [lia|]. split; [done|].
  intros c vreq vq wv Hq Hm Hlen Hvb Htok Hgate Hacc Hrev Hlive.
  destruct (serve_handler s RValidate vreq wv Hq) as (w3 & Hs & Hserve); [by rewrite Hm|by rewrite Hm|done|].
  pose proof Hs as (Epg & _ & _ & _ & Htick). rewrite <- Htok in Hsig.
  destruct (received_healthy (json_content_type (rq_headers vreq)) (extract (Ok vq) (fun v =>
    _ ← lift (check_validation_gate s (rq_headers vreq)); resp ← validate (app_jwt s) v;
    mret (json_response (validity_status resp) (validate_response_to_json resp)))) w3 Hh)
    as (w5 & (Epg5 & _ & _ & _ & Htick5) & Hbody5).
  destruct (signed_live (app_jwt s) vq _ _ w5 Hg Hh Hsig (uuid_roundtrip _) Hacc) as (w4 & Hval & Epg4).
  - intros Hr. apply Hrev. revert Hr. unfold is_revoked. by rewrite Epg5, Epg.
  - intros n Hn. apply timestamp_le, Hlive. lia.
  - destruct (Hserve (json_response 200 (validate_response_to_json (response_from_valid c))) w4)
      as (answer & Hans & Hst & Hbody); [|done|].
    + simpl. unfold jwt_validate, read_json. rewrite Hvb. etrans; [exact Hbody5|]. unfold extract. rewrite Hgate.
      unfold mbind, M_bind at 1. simpl. by rewrite (run_bind _ _ _ _ _ Hval).
    + exists answer, w4. split; [done|]. split; [done|]. split; [done|congruence].
Qed.

End Endpoints.
