(* ===== verification/LedgerHttp.v ===== *)
(** Every HTTP request is a sequence of moves of the ledger of Ledger.v.

    [ledger] reads the abstract state off the tables.  [follows Q E m] says that
    [m] changes the tables by admissible moves only, that [Q] holds of its result
    and the moves, and [E] of the moves when it fails; there is one lemma per
    method of [JwtService], one per handler, and the one of [serve]. *)
From S2P Require Import Prelude Str Chrono Json Error World Effects Jose Claims Config Crypto.
From S2P Require Import JwtApi JwtService JwtTheorems JwtChain Introspect Security SessionCrypto SessionStore.
From S2P Require Import Outbound Registry IdToken Flow Axum AccessLog Router Ledger RouterTheorems.

(** ** The abstraction *)

Definition entry_of (r : MetaRow) : Entry := mkEntry (m_jwt_uuid r) (m_original r) (m_subject r) (m_expires_at r).

Definition ledger (w : World) : Ledger :=
  mkLedger (entry_of <$> metadata (pg w)) (dom (denylist (pg w))).

Lemma jtis_ledger w : jtis (ledger w) = m_jwt_uuid <$> metadata (pg w).
Proof. unfold jtis, ledger. simpl. by rewrite <- list_fmap_compose. Qed.

Lemma gone_ledger w j : j ∈ gone (ledger w) <-> is_revoked j w.
Proof. apply elem_of_dom. Qed.

Lemma ledger_kept w w' : tokens_kept w w' -> ledger w' = ledger w.
Proof. intros (E1 & E2 & _). unfold ledger. by rewrite E1, E2. Qed.

Section Follows.
Context `{Env}.

(** Every recorded identifier was drawn before now, and the ledger is a good one. *)
Record sound (w : World) : Prop := {
  so_drawn : forall r, r ∈ metadata (pg w) -> exists n, m_jwt_uuid r = uuid_v4 n /\ (n < tick w)%nat;
  so_good : good_ledger (ledger w);
}.

Definition moved {A} (Q : A -> list Move -> Prop) (E : list Move -> Prop) (w : World) (o : Outcome A) (w' : World) : Prop :=
  sound w' /\ (tick w <= tick w')%nat /\
  exists ms, run_moves (ledger w) ms = Some (ledger w') /\
    match o with Ret a => Q a ms | _ => E ms end.

Definition follows {A} (Q : A -> list Move -> Prop) (E : list Move -> Prop) (m : M A) : Prop :=
  forall w, sound w -> wp m w (moved Q E w).

Lemma sound_kept w w' : tokens_kept w w' -> sound w -> sound w'.
Proof.
  intros Hk [Hd Hg]. split; [|by rewrite (ledger_kept w w')].
  destruct Hk as (E & _ & Ht). intros r. rewrite E. intros (n & ? & ?)%Hd. exists n. split; [done|lia].
Qed.

Lemma moved_kept {A} (Q : A -> list Move -> Prop) E w (o : Outcome A) w' :
  sound w -> tokens_kept w w' -> match o with Ret a => Q a [] | _ => E [] end -> moved Q E w o w'.
Proof.
  intros Hd Hk Ho. split; [by eapply sound_kept|]. split; [apply Hk|].
  exists []. split; [by rewrite (ledger_kept w w')|done].
Qed.

(** One move. *)
Lemma moved_one {A} (Q : A -> list Move -> Prop) E w (o : Outcome A) w' m :
  sound w -> (tick w <= tick w')%nat -> apply_move (ledger w) m = Some (ledger w') ->
  (forall r, r ∈ metadata (pg w') -> r ∈ metadata (pg w) \/ exists n, m_jwt_uuid r = uuid_v4 n /\ (n < tick w')%nat) ->
  match o with Ret a => Q a [m] | _ => E [m] end -> moved Q E w o w'.
Proof.
  intros [Hd Hg] Ht Hm Hr Ho. split; [|split; [done|]].
  - split; [|by eapply good_move]. intros r [(n & ? & ?)%Hd|?]%Hr; [|done]. exists n. split; [done|lia].
  - exists [m]. split; [by apply run_moves_one|done].
Qed.

Lemma follows_kept {A} (Q : A -> list Move -> Prop) E (m : M A) :
  preserves tokens_kept m -> (forall a, Q a []) -> E [] -> follows Q E m.
Proof.
  intros Hm HQ HE w Hd. eapply wp_mono; [apply Hm|]. intros [a|e| |c] w' Hk; by apply moved_kept.
Qed.

Lemma follows_ret {A} (Q : A -> list Move -> Prop) E (a : A) : Q a [] -> follows Q E (mret a).
Proof. intros HQ w Hs. by apply wp_ret, moved_kept. Qed.

Lemma follows_throw {A} (Q : A -> list Move -> Prop) (E : list Move -> Prop) e : E [] -> follows Q E (throw e : M A).
Proof. intros HE w Hs. by apply wp_throw, moved_kept. Qed.

(** What comes before the statements that write. *)
Lemma follows_quiet {A B} (Q : B -> list Move -> Prop) E (m : M A) (f : A -> M B) :
  preserves tokens_kept m -> E [] -> (forall a, follows Q E (f a)) -> follows Q E (m ≫= f).
Proof.
  intros Hm HE Hf w Hd. apply wp_bind. eapply wp_mono; [apply Hm|]. intros [a|e| |c] w1 Hk; simpl; [|by apply moved_kept..].
  eapply wp_mono; [apply Hf; by eapply sound_kept|]. intros o w' (Hd' & Ht & ms & Hms & Ho).
  split; [done|]. split; [destruct Hk as (_ & _ & ?); lia|].
  exists ms. by rewrite <- (ledger_kept w w1).
Qed.

(** What comes after them. *)
Lemma follows_then {A B} (Q : A -> list Move -> Prop) E (Q' : B -> list Move -> Prop) (E' : list Move -> Prop)
    (m : M A) (f : A -> M B) :
  follows Q E m ->
  (forall a w, exists o, f a w = (o, w) /\
     forall ms, Q a ms -> match o with Ret b => Q' b ms | _ => E' ms end) ->
  (forall ms, E ms -> E' ms) -> follows Q' E' (m ≫= f).
Proof.
  intros Hm Hf HE w Hd. apply wp_bind. eapply wp_mono; [by apply Hm|].
  intros [a|e| |c] w' (Hd' & Ht & ms & Hms & Ho); simpl;
    [|split; [done|]; split; [done|]; exists ms; by auto..].
  - destruct (Hf a w') as (o & Ef & HQ). unfold wp. rewrite Ef. simpl.
    split; [done|]. split; [done|]. exists ms. split; [done|by apply HQ].
Qed.

Lemma follows_mono {A} (Q Q' : A -> list Move -> Prop) (E E' : list Move -> Prop) (m : M A) :
  follows Q E m -> (forall a ms, Q a ms -> Q' a ms) -> (forall ms, E ms -> E' ms) -> follows Q' E' m.
Proof.
  intros Hm HQ HE w Hd. eapply wp_mono; [by apply Hm|]. intros o w' (Hd' & Ht & ms & Hms & Ho).
  split; [done|]. split; [done|]. exists ms. split; [done|]. destruct o; auto.
Qed.

Lemma follows_attempt {A} (Q : A -> list Move -> Prop) (E : list Move -> Prop) (m : M A) :
  follows Q E m ->
  follows (fun r ms => match r with Ok a => Q a ms | Err _ => E ms end) E (attempt m).
Proof.
  intros Hm w Hd. apply wp_attempt. eapply wp_mono; [by apply Hm|].
  intros [a|e| |c] w' (Hd' & Ht & ms & Hms & Ho); (split; [done|]; split; [done|]; by exists ms).
Qed.
End Follows.

(** ** The methods of the service *)

Section Service.
Context `{Env, Jose, Chrono, UuidLib, SerdeJson}.
Implicit Type s : JwtService.

(** Distinct draws of [Uuid::new_v4] are distinct. *)
Context (uuid_distinct : forall n m, uuid_v4 n = uuid_v4 m -> n = m).

Definition issue (ms : list Move) : Prop := exists e, ms = [Issue e].
Definition revocation (ms : list Move) : Prop := exists j, ms = [Revoke j].
Definition replacement (ms : list Move) : Prop := exists old e, ms = [Replace old e].

(** All or nothing: what also a failing method may have done, as the answer of
    a statement that took effect can be lost. *)
Definition maybe (P : list Move -> Prop) (ms : list Move) : Prop := ms = [] \/ P ms.

Lemma drawn_fresh w n : sound w -> (tick w <= n)%nat -> uuid_v4 n ∉ jtis (ledger w).
Proof.
  intros [Hd _] Hn. rewrite jtis_ledger. intros (r & E & Hr)%list_elem_of_fmap.
  destruct (Hd r Hr) as (m & Hm & ?). rewrite Hm in E. apply uuid_distinct in E. lia.
Qed.

Lemma ledger_appended row w w' :
  metadata (pg w') = metadata (pg w) ++ [row] ->
  entries (ledger w') = entries (ledger w) ++ [entry_of row].
Proof. intros E. simpl. by rewrite E, fmap_app. Qed.

(** A row with fresh identifiers was appended. *)
Lemma moved_appended {A} (Q : A -> list Move -> Prop) E w (o : Outcome A) w' row m :
  sound w -> appended row w w' -> apply_move (ledger w) m = Some (ledger w') ->
  match o with Ret a => Q a [m] | _ => E [m] end -> moved Q E w o w'.
Proof.
  intros Hs [Hrows _ (n & k & _ & Hk & _ & ? & ?)] Hm Ho. eapply moved_one; [done|lia|exact Hm| |done].
  intros r. rewrite Hrows. intros [?| ->%list_elem_of_singleton]%elem_of_app; [by left|right].
  exists k. split; [done|lia].
Qed.

Lemma generate_follows s req : follows (fun _ => issue) (maybe issue) (generate s req).
Proof.
  intros w Hs. apply wp_intro. intros o w' E. pose proof E as [Hk|(row & Ha & _ & Ho & Hd)]%generate_effect.
  - apply moved_kept; [done|done|]. destruct o as [r|e| |c]; [|by left..]. exfalso.
    apply generate_Ret in E as (aud & j & now & id & created & _ & _ & _ & _ & _ & _ & _ & _ & _ & Hp & _).
    destruct Hk as (Hm & _). rewrite Hp in Hm. simpl in Hm. apply (f_equal length) in Hm.
    rewrite length_app in Hm. simpl in Hm. lia.
  - apply (moved_appended _ _ _ _ _ row (Issue (entry_of row))); [done|done| |].
    + pose proof Ha as [Hrows _ (n & m & _ & Hj & _ & _ & Hm)]. unfold apply_move. simpl admissible.
      rewrite !bool_decide_true; [|done|simpl; rewrite Hj; apply drawn_fresh; [done|lia]]. simpl. f_equal.
      unfold ledger. by rewrite Hrows, Hd, fmap_app.
    + destruct o; [by eexists|right; by eexists..].
Qed.

(** [ON CONFLICT DO NOTHING] *)
Lemma insert_denylist_follows j e reason :
  follows (fun n ms => (n = 1 /\ ms = [Revoke j]) \/ (n = 0 /\ ms = [])) (maybe revocation)
    (sql (insert_denylist j e reason)).
Proof.
  intros w Hs. apply wp_sql. intros now.
  assert (forall r p, insert_denylist j e reason now (pg w) = (r, p) ->
    (exists n, r = Ok n /\ n = 0 /\ p = pg w) \/
    (r = Ok 1 /\ apply_move (ledger w) (Revoke j) = Some (ledger (with_pg p (bump w))) /\ metadata p = metadata (pg w)))
    as Hcase.
  { unfold insert_denylist. intros r p. destruct (denylist (pg w) !! j) as [d|] eqn:Ej; intros [= <- <-].
    - left. by eexists.
    - right. split; [done|]. split; [|done]. unfold apply_move. simpl admissible. rewrite bool_decide_true.
      + unfold ledger. simpl. by rewrite dom_insert_L.
      + intros Hin. apply gone_ledger in Hin as [d Hd]. congruence. }
  assert (tokens_kept w (bump w)) as Hb by (repeat split; simpl; lia).
  apply wp_stmt.
  - intros n p [(n' & [= ->] & -> & ->)|([= ->] & Hm & Hp)]%Hcase.
    + apply moved_kept; [done|repeat split; simpl; lia|by right].
    + eapply moved_one; [done|simpl; lia|exact Hm|simpl; rewrite Hp; by left|by left].
  - intros o []; (apply moved_kept; [done|done|by left]).
  - intros o r p [] [(n' & _ & _ & ->)|(_ & Hm & Hp)]%Hcase.
    1,3: apply moved_kept; [done|repeat split; simpl; lia|by left].
    all: eapply moved_one; [done|simpl; lia|exact Hm|simpl; rewrite Hp; by left|right; by eexists].
Qed.

(** True for a token that was not revoked before. *)
Definition revoked_now (newly : bool) (ms : list Move) : Prop := if newly then revocation ms else ms = [].

Lemma inserted_follows {B} (g : Z -> B) (Q : B -> list Move -> Prop) j e reason :
  (forall ms, revoked_now true ms -> Q (g 1) ms) -> Q (g 0) [] ->
  follows Q (maybe revocation) (n ← sql (insert_denylist j e reason); mret (g n)).
Proof.
  intros Hnew Hold. eapply follows_then; [apply insert_denylist_follows| |done].
  intros n w. eexists. split; [reflexivity|]. intros ms [[-> ->]|[-> ->]]; [apply Hnew; by eexists|done].
Qed.

Lemma revoke_follows s token reason : follows revoked_now (maybe revocation) (revoke s token reason).
Proof.
  unfold revoke. apply follows_quiet; [unfold verify; kept|by left|]. intros r.
  do 3 (apply follows_quiet; [kept|by left|]; intros ?). by apply inserted_follows.
Qed.

Lemma revoke_by_jti_follows j reason :
  follows (fun r => revoked_now (default false r)) (maybe revocation) (revoke_by_jti j reason).
Proof.
  unfold revoke_by_jti. apply follows_quiet; [kept|by left|]. intros [row|].
  - by apply inserted_follows.
  - by apply follows_ret.
Qed.

(** *** Bulk revocation *)

(** What the loop adds to the counters, and the moves it made. *)
Definition bulk_moves (acc r : BulkRevokeResponse) (ms : list Move) : Prop :=
  Forall (fun m => exists j, m = Revoke j) ms /\
  newly_revoked acc + Z.of_nat (length ms) <= newly_revoked r + (failed r - failed acc) /\
  newly_revoked r <= newly_revoked acc + Z.of_nat (length ms) /\ failed acc <= failed r.

Lemma bulk_loop_follows s reason toks acc :
  follows (bulk_moves acc) (Forall (fun m => exists j, m = Revoke j)) (bulk_loop s reason toks acc).
Proof.
  revert acc. induction toks as [|tok toks IH]; intros acc w Hs; simpl.
  - apply wp_ret. apply moved_kept; [done|done|]. split; [constructor|]. simpl. lia.
  - apply wp_bind. eapply wp_mono; [by apply follows_attempt; [apply revoke_follows|]|].
    intros [r|e| |c] w1 (Hs1 & Ht1 & ms1 & Hms1 & Ho1); simpl;
      [|split; [done|]; split; [done|]; exists ms1; (split; [done|]); unfold maybe, revocation in Ho1; naive_solver..].
    + eapply wp_mono; [by apply IH|]. intros o w2 (Hs2 & Ht2 & ms2 & Hms2 & Ho2).
      split; [done|]. split; [lia|]. exists (ms1 ++ ms2). split; [by eapply run_moves_app|].
      assert (Forall (fun m => exists j, m = Revoke j) ms1 /\ (length ms1 <= 1)%nat) as [Hall Hlen].
      { destruct r as [[]|]; simpl in Ho1; unfold maybe, revocation in Ho1; naive_solver. }
      destruct o as [a| | |]; [|by apply Forall_app..].
      destruct Ho2 as (Hall2 & Hlo & Hhi & Hf). split; [by apply Forall_app|]. rewrite length_app.
      destruct acc as [n al f l], r as [[]|]; simpl in *; [destruct Ho1 as [j ->]|subst ms1|]; simpl in *; lia.
Qed.

(** Without a failure there are as many moves as tokens newly revoked. *)
Record bulk_outcome (r : BulkRevokeResponse) (ms : list Move) : Prop := {
  bo_revoke : Forall (fun m => exists j, m = Revoke j) ms;
  bo_moves : newly_revoked r <= Z.of_nat (length ms) <= newly_revoked r + failed r;
  bo_counters : 0 <= newly_revoked r /\ 0 <= already_revoked r /\ 0 <= failed r;
  bo_some : 0 < newly_revoked r + already_revoked r + failed r;
}.

Lemma bulk_revoke_follows s req :
  follows bulk_outcome (Forall (fun m => exists j, m = Revoke j)) (bulk_revoke s req).
Proof.
  assert (follows (bulk_moves (mkBulkRevokeResponse 0 0 0 [])) (Forall (fun m => exists j, m = Revoke j))
    (bulk_revoke s req)) as Hf.
  { unfold bulk_revoke. destruct (br_tokens req); [by apply follows_throw|].
    destruct (_ <? _); [by apply follows_throw|apply bulk_loop_follows]. }
  intros w Hs. apply wp_intro. intros o w' E. specialize (Hf w Hs). unfold wp in Hf. rewrite E in Hf.
  destruct Hf as (Hs' & Ht & ms & Hms & Ho). simpl in *. split; [done|]. split; [done|]. exists ms. split; [done|].
  destruct o as [r| | |]; [|done..]. destruct Ho as (Hall & Hlo & Hhi & _). simpl in *.
  apply bulk_revoke_Ret in E as (Hne & [Hn Ha Hf Htot] & Htok & _). split; [done|lia| |].
  - rewrite Hn, Ha, Hf. unfold count_status. lia.
  - rewrite Htot. destruct (results r); [|simpl; lia]. by simpl in Htok; rewrite <- Htok in Hne.
Qed.

(** *** [extend] *)

(** The chain [extend] continues is the one of the ledger. *)
Lemma predecessor_chain x w :
  sound w -> predecessor x (pg w) -> x_original x = chain_of (ledger w) (x_old_jti x).
Proof.
  intros [_ [Hj _ _]] Hp. unfold predecessor in Hp.
  destruct (chain_of_cases (ledger w) (x_old_jti x)) as [(e & He & Ej & ->)|[Hno ->]].
  - apply list_elem_of_fmap in He as (r & -> & Hr). destruct (latest _ _) as [p|] eqn:El.
    + apply latest_Some in El as [Hin Hpj]. destruct Hp as (-> & _). simpl in *.
      rewrite jtis_ledger in Hj. f_equal. apply (NoDup_fmap_elem _ _ _ _ Hj); congruence || done.
    + by destruct (latest_None _ _ El r Hr).
  - destruct (latest _ _) as [p|] eqn:El; [|apply Hp]. exfalso. apply Hno.
    apply latest_Some in El as [Hin Hpj]. rewrite jtis_ledger, <- Hpj. by apply list_elem_of_fmap_2.
Qed.

Lemma extend_follows s req : follows (fun _ => replacement) (maybe replacement) (extend s req).
Proof.
  intros w Hs. apply wp_intro. intros o w' E.
  pose proof (preserves_run _ _ _ _ _ (extend_grows s req) E) as Hg.
  assert (pg w' = pg w -> tokens_kept w w') as Hkept
    by (intros Ep; repeat split; [by rewrite Ep..|apply Hg]).
  apply extend_run in E as [[Hp Hno]|(x & w0 & Hck & Hsame & E)].
  { apply moved_kept; [done|by apply Hkept|]. destruct o as [r| | |]; [by destruct (Hno r)|by left..]. }
  pose proof Hsame as (Epg & _ & _ & _ & Ht0).
  apply extend_issue_run in E as [[Hp Hno]|(id & j & e & Hi & _)].
  { apply moved_kept; [done|apply Hkept; congruence|]. destruct o as [r| | |]; [by destruct (Hno r)|by left..]. }
  pose proof Hi as [(oe & begun & _ & Hp) _ _ _ (Hj & n & Hn & Hnt)].
  destruct (extended_pg_metadata s x id j e oe begun (pg w0)) as (row & Hm & Hid & Hjt & Ho & _).
  assert (appended row w w') as Happ.
  { split; [by rewrite Hp, Hm, Epg|apply Hg|]. exists n, (tick w0). rewrite Hid, Hjt.
    repeat split; try done; lia. }
  eapply (moved_appended _ _ _ _ _ row (Replace (x_old_jti x) (entry_of row))); [done|done| |].
  - unfold apply_move. simpl admissible. pose proof (ck_live _ _ _ _ Hck) as Hlive.
    rewrite !bool_decide_true; [|simpl; rewrite Ho; by apply predecessor_chain, (ck_row _ _ _ _ Hck)
      |by intros Hin; apply gone_ledger in Hin|simpl; rewrite Hjt, Hj; apply drawn_fresh; [done|lia]].
    simpl. f_equal. unfold ledger. rewrite (ap_rows _ _ _ Happ), fmap_app. simpl. f_equal.
    rewrite Hp, extended_pg_denylist, Epg. apply eq_None_not_Some in Hlive. rewrite Hlive. by rewrite dom_insert_L.
  - destruct o; [by eexists _, _|right; by eexists _, _..].
Qed.
End Service.

(** ** The endpoints *)

Section Endpoints.
Context `{Env, J : Jose, Chrono, UuidLib, SerdeJson, ChronoSerde, HttpLib, Net, FlowLib, AxumLib} {JK : JwkKeys J}.
Context {AL : AxumLaws _}.
Context (uuid_distinct : forall n m, uuid_v4 n = uuid_v4 m -> n = m).
Implicit Type s : AppState.

(** The moves a request for a route may make. *)
Definition permitted (r : Route) (ms : list Move) : Prop :=
  match r with
  | RGenerate => maybe issue ms
  | RRevoke | RCustomBlacklist | RBlacklist => maybe revocation ms
  | RRevokeBulk => Forall (fun m => exists j, m = Revoke j) ms
  | RExtend | RCustomExtend | RExtendSession => maybe replacement ms
  | _ => ms = []
  end.

(** What the status of the answer says of the moves that were made. *)
Definition truthful (r : Route) (st : Z) (ms : list Move) : Prop :=
  match r with
  | RGenerate | RExtend | RCustomExtend | RExtendSession => st = 200 -> ms ≠ []
  | RRevoke | RCustomBlacklist | RRevokeBulk => (st = 200 -> ms ≠ []) /\ (st = 409 -> ms = [])
  | RBlacklist => st = 409 -> ms = []
  | _ => True
  end.

Definition answered (r : Route) (resp : Response) (ms : list Move) : Prop :=
  permitted r ms /\ truthful r (resp_status resp) ms.

Lemma nothing_permitted r : permitted r [].
Proof. destruct r; simpl; first [done | by left | constructor]. Qed.

(** An answer that claims nothing. *)
Lemma refused_answered r resp ms : permitted r ms -> resp_status resp ≠ 200 -> resp_status resp ≠ 409 -> answered r resp ms.
Proof. intros Hp Hok Hconflict. split; [done|]. destruct r; simpl; tauto. Qed.

Lemma body_bytes_refused max req rej : body_bytes max req = Err rej -> resp_status rej ≠ 200 /\ resp_status rej ≠ 409.
Proof. unfold body_bytes. destruct (_ <? _); [|done]. intros [= <-]. by rewrite length_limit_status. Qed.

Lemma body_json_refused {A} max members (de : list (string * Value) -> option A) req rej :
  body_json max members de req = Err rej -> resp_status rej ≠ 200 /\ resp_status rej ≠ 409.
Proof.
  unfold body_json. destruct (json_content_type _); [|intros [= <-]; by rewrite missing_json_status].
  destruct (body_bytes _ _) as [b|e] eqn:E; simpl; [|intros [= <-]; by eapply body_bytes_refused].
  destruct (from_json _ _ b); [done|]. intros [= <-]. destruct (json_rejection_status b) as [-> | ->]; done.
Qed.

Lemma body_string_refused max req rej : body_string max req = Err rej -> resp_status rej ≠ 200 /\ resp_status rej ≠ 409.
Proof.
  unfold body_string. destruct (body_bytes _ _) as [b|e] eqn:E; simpl; [|intros [= <-]; by eapply body_bytes_refused].
  destruct (from_utf8 b); [done|]. intros [= <-]. by rewrite utf8_status.
Qed.

Lemma query_refused {A} (de : list (string * Value) -> option A) req rej :
  query de req = Err rej -> resp_status rej ≠ 200 /\ resp_status rej ≠ 409.
Proof. unfold query. destruct (from_form _ _); [done|]. intros [= <-]. by rewrite query_status. Qed.

Lemma follows_extract {A} r (x : Result A Response) (k : A -> M Response) :
  (forall rej, x = Err rej -> resp_status rej ≠ 200 /\ resp_status rej ≠ 409) ->
  (forall a, follows (answered r) (permitted r) (k a)) ->
  follows (answered r) (permitted r) (extract x k).
Proof.
  intros Hx Hk. destruct x as [a|rej]; [apply Hk|]. destruct (Hx rej eq_refl).
  apply follows_ret. apply refused_answered; [apply nothing_permitted|done..].
Qed.

Lemma follows_admin r s req (m : M Response) :
  follows (answered r) (permitted r) m -> follows (answered r) (permitted r) (_ ← admin s req; m).
Proof. intros Hm. apply follows_quiet; [unfold admin; kept|apply nothing_permitted|done]. Qed.

Lemma follows_receive r (b : bool) (m : M Response) :
  follows (answered r) (permitted r) m ->
  follows (answered r) (permitted r) (_ ← (if b then receive else mret tt); m).
Proof. intros Hm. apply follows_quiet; [kept|apply nothing_permitted|done]. Qed.

(** A method of the service, and the answer made of its result. *)
Lemma follows_answer {A} r (Q : A -> list Move -> Prop) (E : list Move -> Prop) (m : M A) (g : A -> Response) :
  follows Q E m -> (forall a ms, Q a ms -> answered r (g a) ms) -> (forall ms, E ms -> permitted r ms) ->
  follows (answered r) (permitted r) (a ← m; mret (g a)).
Proof.
  intros Hm HQ HE. eapply follows_then; [exact Hm| |exact HE].
  intros a w. eexists. split; [reflexivity|]. apply HQ.
Qed.

Lemma with_cookie_status b c : resp_status (with_optional_set_cookie b c) = resp_status b.
Proof. by destruct c. Qed.

(** [follows] of a handler up to its statements. *)
Ltac to_method :=
  apply follows_admin; try first [apply follows_receive | apply (follows_receive _ true)]; apply follows_extract; [intros rej; by (apply body_json_refused || apply body_string_refused || apply query_refused)|].

Lemma jwt_generate_follows s req : follows (answered RGenerate) (permitted RGenerate) (jwt_generate s req).
Proof.
  unfold jwt_generate. to_method. intros g. eapply follows_answer; [by apply generate_follows| |done].
  intros r ms Hms. split; [by right|]. destruct Hms as [e ->]. done.
Qed.

Lemma revoked_answered r (newly : bool) resp ms :
  (permitted r = maybe revocation) ->
  revoked_now newly ms -> (if newly then resp_status resp = 200 else resp_status resp = 409) -> answered r resp ms.
Proof.
  intros Hp Hms Hst. unfold answered. rewrite Hp. destruct newly; simpl in Hms.
  - destruct Hms as [j ->]. split; [right; by eexists|]. rewrite Hst. by destruct r.
  - subst. split; [by left|]. rewrite Hst. by destruct r.
Qed.

Lemma jwt_revoke_follows s req : follows (answered RRevoke) (permitted RRevoke) (jwt_revoke s req).
Proof.
  unfold jwt_revoke. to_method. intros v. eapply follows_answer; [by apply revoke_follows| |done].
  intros newly ms Hms. eapply revoked_answered; [done|exact Hms|]. by destruct newly.
Qed.

Lemma jwt_revoke_bulk_follows s req : follows (answered RRevokeBulk) (permitted RRevokeBulk) (jwt_revoke_bulk s req).
Proof.
  unfold jwt_revoke_bulk. to_method. intros b. eapply follows_answer; [by apply bulk_revoke_follows| |done].
  intros r ms [Hall [Hlo Hhi] (Hn & Ha & Hf) Hsome]. split; [done|]. simpl. unfold bulk_status.
  destruct (Z.ltb_spec 0 (failed r)); simpl; [destruct (_ && _); by split|].
  destruct (Z.ltb_spec 0 (newly_revoked r)), (Z.ltb_spec 0 (already_revoked r)); simpl; [by split|..].
  - destruct (Z.eqb_spec (newly_revoked r) 0); [lia|]. split; [|done]. intros _ ->. simpl in *. lia.
  - destruct (Z.eqb_spec (newly_revoked r) 0); [|lia]. split; [done|]. intros _. destruct ms; [done|simpl in *; lia].
  - lia.
Qed.

Lemma replaced_answered r resp ms :
  permitted r = maybe replacement -> replacement ms -> resp_status resp = 200 -> answered r resp ms.
Proof.
  intros Hp Hms Hst. unfold answered. rewrite Hp, Hst. split; [by right|]. destruct Hms as (old & e & ->). by destruct r.
Qed.

Lemma jwt_extend_follows s req : follows (answered RExtend) (permitted RExtend) (jwt_extend s req).
Proof.
  unfold jwt_extend. to_method. intros e. eapply follows_answer; [by apply extend_follows| |done].
  intros r ms Hms. apply replaced_answered; [done|done|]. by rewrite with_cookie_status.
Qed.

Lemma extend_into_cookie_follows r s token name :
  permitted r = maybe replacement -> follows (answered r) (permitted r) (extend_into_cookie s token name).
Proof.
  intros Hp. unfold extend_into_cookie. eapply follows_answer; [by apply extend_follows| |by rewrite Hp].
  intros resp ms Hms. by apply replaced_answered.
Qed.

Lemma jwt_custom_extend_follows s req :
  follows (answered RCustomExtend) (permitted RCustomExtend) (jwt_custom_extend_compat s req).
Proof.
  unfold jwt_custom_extend_compat. to_method. intros body.
  destruct (bool_decide _); [apply follows_throw; by left|].
  apply follows_quiet; [kept|by left|]. intros token. by apply extend_into_cookie_follows.
Qed.

Lemma jwt_extend_session_follows s req :
  follows (answered RExtendSession) (permitted RExtendSession) (jwt_extend_session_compat s req).
Proof.
  unfold jwt_extend_session_compat. apply follows_admin.
  apply follows_quiet; [kept|by left|]. intros token. by apply extend_into_cookie_follows.
Qed.

(** The two endpoints that answer a failed revocation with a body of their own. *)
Lemma blacklisted_follows r s token reason :
  permitted r = maybe revocation ->
  follows (answered r) (permitted r)
    (x ← attempt (revoke (app_jwt s) token reason); lift (blacklist_answer failed_body x)).
Proof.
  intros Hp. eapply follows_then; [by apply follows_attempt, revoke_follows| |by rewrite Hp].
  intros x w. exists (match blacklist_answer failed_body x with Ok a => Ret a | Err e => Throw e end).
  split; [by destruct (blacklist_answer failed_body x)|]. intros ms.
  destruct x as [[]|e]; simpl; [intros Hms; by apply (revoked_answered r true)|intros Hms; by apply (revoked_answered r false)|]. intros Hms.
  destruct e; simpl; rewrite ?Hp; try done. apply refused_answered; [by rewrite Hp|done..].
Qed.

Lemma jwt_custom_blacklist_follows s req :
  follows (answered RCustomBlacklist) (permitted RCustomBlacklist) (jwt_custom_blacklist_compat s req).
Proof.
  unfold jwt_custom_blacklist_compat. to_method. intros body.
  destruct (bool_decide _); [apply follows_throw; by left|].
  destruct (cookie_value _ _); [by apply blacklisted_follows|].
  apply follows_ret, refused_answered; [by left|done..].
Qed.

Lemma jwt_blacklist_follows s req :
  KeepsTokens (app_sessions s) ->
  follows (answered RBlacklist) (permitted RBlacklist) (jwt_blacklist_compat s req).
Proof.
  intros [_ _ _ Hrevoke]. unfold jwt_blacklist_compat. to_method. intros q.
  destruct (cookie_value _ _); [by apply blacklisted_follows|].
  destruct (lq_jwt q) as [id|]; [|destruct (lq_session_id q) as [sid|]].
  - apply follows_quiet; [kept|by left|]. intros j.
    eapply follows_answer; [by apply revoke_by_jti_follows| |done].
    intros [[]|] ms Hms; simpl in *; [by apply (revoked_answered RBlacklist true)|by apply (revoked_answered RBlacklist false)|]. subst.
    apply refused_answered; [by left|done..].
  - eapply follows_answer; [by apply (follows_kept (fun _ ms => ms = []) (fun ms => ms = []))| |].
    + intros existed ms ->. split; [by left|]. by destruct existed.
    + intros ms ->. by left.
  - apply follows_throw. by left.
Qed.

Lemma handler_follows s r req :
  KeepsTokens (app_sessions s) -> follows (answered r) (permitted r) (handler s r req).
Proof.
  intros HS. destruct (admin_route r) eqn:Hr.
  - destruct r; try discriminate Hr; simpl; auto using jwt_generate_follows, jwt_revoke_follows,
      jwt_revoke_bulk_follows, jwt_extend_follows, jwt_custom_extend_follows, jwt_extend_session_follows,
      jwt_custom_blacklist_follows, jwt_blacklist_follows.
  - apply (follows_mono (fun _ ms => ms = []) _ (fun ms => ms = []));
      [apply follows_kept; [apply (handler_kept s r req HS Hr)|done..]|intros resp ms ->; split|intros ms ->]; by destruct r.
Qed.

(** The moves of a request: only those of its route, only behind the admin gate, and
    told truthfully by the status of an answer that is not one to a preflight. *)
Definition accounted s (req : Request) (o : Outcome Response) (ms : list Move) : Prop :=
  (ms ≠ [] -> admin_auth (app_admin s) (rq_parts req) = Ok tt) /\
  match requested req with
  | Some r =>
      permitted r ms /\
      forall resp, o = Ret resp -> preflight s req = None -> truthful r (resp_status resp) ms
  | None => ms = []
  end.

Lemma serve_moves s req w o w' :
  KeepsTokens (app_sessions s) -> sound w -> serve s req w = (o, w') ->
  sound w' /\ exists ms, run_moves (ledger w) ms = Some (ledger w') /\ accounted s req o ms.
Proof.
  intros HS Hw (w1 & Hs & [[-> Hst]|(r & oh & Hq & Hm & Hh & Hst)])%serve_cases.
  - apply same_state_tokens in Hs as Hk. split; [by eapply sound_kept|]. exists []. split; [by rewrite (ledger_kept w w1)|].
    split; [done|]. destruct (requested req) as [r|]; [|done]. split; [apply nothing_permitted|].
    intros resp Hr Hp. apply Hst in Hr as [Hr|[[? Hp'] _]]; [|congruence].
    destruct (refused_answered r resp [] (nothing_permitted r)) as [_ ?];
      [intros E; rewrite E in Hr; set_solver..|done].
  - unfold accounted. rewrite Hq. apply same_state_tokens in Hs as Hk. pose proof (sound_kept _ _ Hk Hw) as Hw1.
    pose proof (handler_follows s r req HS w1 Hw1) as Hf. unfold wp in Hf. rewrite Hh in Hf. simpl in Hf.
    destruct Hf as (Hw' & _ & ms & Hms & Ho). split; [done|]. exists ms. rewrite <- (ledger_kept w w1) by done.
    split; [done|]. split.
    + intros Hne. destruct (admin_auth _ _) as [[]|e] eqn:Ha; [done|]. exfalso. apply Hne.
      destruct (admin_route r) eqn:Hr.
      * rewrite (handler_refused s r req w1 e Hr Ha) in Hh. injection Hh as <- <-.
        rewrite (ledger_kept w w1) in Hms by done. by eapply no_moves.
      * destruct oh as [a| | |]; [destruct Ho as [Ho _]|..]; by destruct r.
    + destruct oh as [a|e| |c]; simpl in *.
      * destruct Ho as [Hp Ht]. split; [done|]. intros resp Hr _. destruct (Hst resp Hr) as [E| ->]; [|done].
        apply refused_answered; [done|rewrite E; done..].
      * split; [done|]. intros resp Hr _. apply refused_answered; [done|..]; destruct (Hst resp Hr) as [-> | ->]; by destruct e.
      * split; [done|]. intros resp Hr _. apply refused_answered; [done|..]; by destruct (Hst resp Hr) as [-> | ->].
      * split; [done|]. intros resp Hr _. apply refused_answered; [done|..]; by destruct (Hst resp Hr) as [-> | ->].
Qed.

(** C6: Every HTTP request, also one that is cut off, refines the abstract ledger of
    issued and revoked tokens: it makes admissible moves only, an issue for a
    generation, a replacement for an extension, revocations for the revocation endpoints
    and nothing elsewhere; whoever moves the ledger presented the admin token; a 200
    means that the move was made and a 409 that none was. *)
Theorem http_refines_ledger s req w o w' :
  KeepsTokens (app_sessions s) -> sound w -> serve s req w = (o, w') ->
  sound w' /\ exists ms, run_moves (ledger w) ms = Some (ledger w') /\ accounted s req o ms.
Proof. apply serve_moves. Qed.

(** *** Any number of requests *)

(** Requests, and between them whatever leaves the two tables alone. *)
Inductive traffic s : World -> World -> Prop :=
| tr_request req o w w' : serve s req w = (o, w') -> traffic s w w'
| tr_other w w' : tokens_kept w w' -> traffic s w w'.

Lemma ledger_initial : ledger initial_world = empty_ledger.
Proof. unfold ledger. simpl. by rewrite dom_empty_L. Qed.

Lemma initial_sound : sound initial_world.
Proof. split; [by intros r ?%not_elem_of_nil|]. rewrite ledger_initial. apply good_empty. Qed.

Lemma traffic_moves s w w' :
  KeepsTokens (app_sessions s) -> rtc (traffic s) w w' -> sound w ->
  sound w' /\ exists ms, run_moves (ledger w) ms = Some (ledger w').
Proof.
  intros HS. induction 1 as [w|w w1 w2 Hstep _ IH]; intros Hs; [split; [done|by exists []]|].
  assert (sound w1 /\ exists ms, run_moves (ledger w) ms = Some (ledger w1)) as [Hs1 [ms Hms]].
  { destruct Hstep as [req o w w1 E|w w1 Hk].
    - destruct (serve_moves s req w o w1 HS Hs E) as (? & ms & ? & _). eauto.
    - split; [by eapply sound_kept|]. exists []. by rewrite (ledger_kept w w1). }
  destruct (IH Hs1) as [Hs2 [ms2 Hms2]]. split; [done|]. exists (ms ++ ms2). by eapply run_moves_app.
Qed.

End Endpoints.
