(* ===== verification/HttpChain.v ===== *)
(** Requests of the HTTP interface that overlap.

    [http_step] serves whole requests, but an extension may also be served in two
    parts, its reads and its transaction, with anything in between; [extension]
    tells which extension a request asks for and [extension_split] that its
    handler is these two parts and nothing else.  Every step is simulated by the
    transition system of the token service in JwtChain.v, one lemma per way of
    composing computations; so what holds of the extension chains there holds of
    the tables of a deployment. *)
From S2P Require Import Prelude Str Chrono Json Error World Effects Jose Claims Config Crypto.
From S2P Require Import JwtApi JwtService JwtTheorems JwtChain Introspect Security SessionCrypto SessionStore.
From S2P Require Import Outbound Registry IdToken Flow Axum AccessLog Router RouterTheorems Ledger LedgerHttp.

(** ** Simulation by the token service *)

Lemma bind_ext {A B} (m : M A) (f g : A -> M B) w : (forall a w', f a w' = g a w') -> (m ≫= f) w = (m ≫= g) w.
Proof. intros Hfg. unfold mbind, M_bind. destruct (m w) as [[] ?]; [apply Hfg|done..]. Qed.

Lemma bind_assoc {A B C} (m : M A) (f : A -> M B) (g : B -> M C) w : ((m ≫= f) ≫= g) w = (x ← m; f x ≫= g) w.
Proof. unfold mbind, M_bind. by destruct (m w) as [[] ?]. Qed.

Section Simulated.
Context `{Env, Jose, Chrono, UuidLib, SerdeJson}.
Context (js : JwtService).

(** A run of [m] is a run of the service, whatever extends are in flight. *)
Definition simulated {A} (m : M A) : Prop :=
  forall w fl, rtc (step js) (mkSys w fl) (mkSys (snd (m w)) fl).

Lemma sim_kept {A} (m : M A) : preserves tokens_kept m -> simulated m.
Proof. intros Hm w fl. apply rtc_once, step_other, Hm. Qed.

Lemma sim_bind {A B} (m : M A) (f : A -> M B) : simulated m -> (forall a, simulated (f a)) -> simulated (m ≫= f).
Proof.
  intros Hm Hf w fl. specialize (Hm w fl). unfold mbind, M_bind.
  destruct (m w) as [[a| | |] w1]; simpl in *; [|exact Hm..]. etrans; [exact Hm|apply Hf].
Qed.

Lemma sim_attempt {A} (m : M A) : simulated m -> simulated (attempt m).
Proof. intros Hm w fl. specialize (Hm w fl). unfold attempt. by destruct (m w) as [[] ?]. Qed.

Lemma sim_op {A} (m : M A) op : run_op js op = forget m -> simulated m.
Proof.
  intros E w fl. apply rtc_once.
  assert (exists o, run_op js op w = (o, snd (m w))) as [o Hop].
  { rewrite E. unfold forget, mbind, M_bind. destruct (m w) as [[] ?]; by eexists. }
  by eapply step_op.
Qed.

Lemma extend_check_kept token : preserves tokens_kept (extend_check js token).
Proof. unfold extend_check, is_denylisted, denylist_lookup, verify. kept. Qed.

(** An extend that is not interrupted. *)
Lemma sim_extend req : simulated (extend js req).
Proof.
  intros w fl. unfold extend, mbind, M_bind.
  pose proof (extend_check_kept (er_token req) w) as Hk. unfold wp in Hk.
  destruct (extend_check js (er_token req) w) as [[x|e| |c] w1] eqn:E; simpl in *; [|by apply rtc_once, step_other..].
  eapply rtc_l; [by eapply step_begin|].
  apply rtc_once. by eapply (step_finish js req x w1 _ _ [] fl), surjective_pairing.
Qed.
End Simulated.

(** Decompose a handler down to the methods of the service. *)
Ltac simulate_step :=
  match goal with
  | |- simulated _ (generate _ ?g) => apply (sim_op _ _ (OGenerate g)); reflexivity
  | |- simulated _ (revoke _ ?t ?r) => apply (sim_op _ _ (ORevoke t r)); reflexivity
  | |- simulated _ (revoke_by_jti ?j ?r) => apply (sim_op _ _ (ORevokeByJti j r)); reflexivity
  | |- simulated _ (bulk_revoke _ ?b) => apply (sim_op _ _ (OBulkRevoke b)); reflexivity
  | |- simulated _ (extend _ _) => apply sim_extend
  | |- simulated _ (attempt _) => apply sim_attempt
  | |- simulated _ (mbind _ _) => apply sim_bind; [|intros ?]
  | |- simulated _ (extract ?r _) => unfold extract; destruct r
  | |- simulated _ (match ?x with _ => _ end) => destruct x
  | |- simulated _ _ => apply sim_kept; solve [kept]
  end.
Ltac simulate := repeat (simulate_step; cbv beta zeta).

(** ** Requests *)

Section Requests.
Context `{Env, J : Jose, Chrono, UuidLib, SerdeJson, ChronoSerde, HttpLib, Net, FlowLib, AxumLib} {JK : JwkKeys J}.
Implicit Type s : AppState.

Lemma handler_simulated s r req : KeepsTokens (app_sessions s) -> simulated (app_jwt s) (handler s r req).
Proof.
  intros HS. destruct (admin_route r) eqn:Hr; [|by apply sim_kept, handler_kept]. pose proof HS as [_ _ _ Hrevoke].
  destruct r; try discriminate Hr; simpl.
  all: unfold jwt_generate, jwt_revoke, jwt_revoke_bulk, jwt_extend, jwt_custom_blacklist_compat, jwt_blacklist_compat,
    jwt_custom_extend_compat, jwt_extend_session_compat, extend_into_cookie, admin, read_json, read_string; simulate.
Qed.

Lemma serve_simulated s req w o w' fl :
  KeepsTokens (app_sessions s) -> serve s req w = (o, w') -> rtc (step (app_jwt s)) (mkSys w fl) (mkSys w' fl).
Proof.
  intros HS (w1 & Hs%same_state_tokens & Hw)%serve_run. eapply rtc_l; [by apply step_other|].
  destruct Hw as [->|(r & _ & _ & <-)]; [done|]. by apply handler_simulated.
Qed.

(** The extension a request for a route asks for, once it is past the gate and its
    body has arrived. *)
Definition extension s (r : Route) (req : Request) : option ExtendRequest :=
  let cookie name := (fun token => mkExtendRequest token None (Some true)) <$> cookie_value (rq_headers req) name in
  match admin_auth (app_admin s) (rq_parts req) with
  | Err _ => None
  | Ok _ =>
      match r with
      | RExtend =>
          match body_json (max_body s) extend_members extend_request_of_json req with Ok e => Some e | Err _ => None end
      | RCustomExtend =>
          match body_string (max_body s) req with
          | Ok body => if bool_decide (body_cookie_name body = "") then None else cookie (body_cookie_name body)
          | Err _ => None
          end
      | RExtendSession => cookie (cookie_name (jwt (config s)))
      | _ => None
      end
  end.

Definition extend_route (r : Route) : bool :=
  match r with RExtend | RCustomExtend | RExtendSession => true | _ => false end.

Lemma past_admin {A} s req (m : M A) w :
  admin_auth (app_admin s) (rq_parts req) = Ok tt -> (_ ← admin s req; m) w = m w.
Proof. unfold admin. by intros ->. Qed.

(** The handler of an extension: the body, the reads, the transaction, the answer. *)
Theorem extension_split s r req e :
  extension s r req = Some e ->
  exists body render, (forall t, resp_status (render t) = 200) /\ forall w,
    handler s r req w = (_ ← (if body : bool then receive else mret tt); x ← extend_check (app_jwt s) (er_token e);
                         t ← extend_issue (app_jwt s) e x; mret (render t)) w.
Proof.
  unfold extension. intros He. destruct (admin_auth _ _) as [[]|] eqn:Ha; [|done].
  destruct r; try discriminate He; simpl.
  - destruct (body_json _ _ _ _) as [e'|] eqn:Eb; [|done]. injection He as ->.
    exists (json_content_type (rq_headers req)), (fun t => with_optional_set_cookie (json_ok (token_response_to_json t))
      (if default false (er_set_cookie e) then Some (build_cookie "EXTENDED_TOKEN" (tr_token t)) else None)).
    split; [intros t; by rewrite with_cookie_status|]. intros w. unfold jwt_extend, read_json. rewrite past_admin, Eb by done.
    apply bind_ext. intros _ w1. apply bind_assoc.
  - destruct (body_string _ _) as [body|] eqn:Eb; [|done]. destruct (bool_decide _) eqn:En; [done|].
    destruct (cookie_value _ _) as [token|] eqn:Ec; [|done]. injection He as <-.
    exists true, (fun t => with_optional_set_cookie (json_ok (token_response_to_json t))
      (Some (build_cookie (body_cookie_name body) (tr_token t)))). split; [done|].
    intros w. unfold jwt_custom_extend_compat, read_string. rewrite past_admin, Eb by done.
    apply bind_ext. intros _ w1. unfold extract. rewrite En, Ec. apply bind_assoc.
  - destruct (cookie_value _ _) as [token|] eqn:Ec; [|done]. injection He as <-.
    exists false, (fun t => with_optional_set_cookie (json_ok (token_response_to_json t))
      (Some (build_cookie (cookie_name (jwt (config s))) (tr_token t)))). split; [done|].
    intros w. unfold jwt_extend_session_compat. rewrite past_admin, Ec by done. apply (bind_assoc (extend_check (app_jwt s) token)).
Qed.

Lemma stop_kept {A B} e (f : A -> M B) : preserves tokens_kept (x ← lift (Err e); f x).
Proof. intros w. repeat split. simpl. lia. Qed.

(** Without one, the tables stay as they are. *)
Theorem no_extension s r req :
  extend_route r = true -> extension s r req = None -> preserves tokens_kept (handler s r req).
Proof.
  unfold extension. intros Hr He. destruct (admin_auth _ _) as [[]|e] eqn:Ha.
  2: { intros w. unfold wp. rewrite (handler_refused s r req w e) by (done || by destruct r). reflexivity. }
  destruct r; try discriminate Hr; simpl; unfold jwt_extend, jwt_custom_extend_compat, jwt_extend_session_compat, admin.
  - destruct (body_json _ _ _ _) eqn:Eb; [done|]. unfold read_json. rewrite Eb. kept.
  - unfold read_string. destruct (body_string _ _) as [body|]; [|kept]. destruct (bool_decide _) eqn:En.
    + unfold extract. rewrite En. kept.
    + destruct (cookie_value _ _) eqn:Ec; [done|]. unfold extract. rewrite En, Ec.
      do 2 (apply preserves_bind; [apply _|kept|intros _]). apply stop_kept.
  - destruct (cookie_value _ _) eqn:Ec; [done|]. apply preserves_bind; [apply _|kept|intros _]. apply stop_kept.
Qed.

(** ** Overlapping requests *)

(** Whole requests; the two parts of an extension, with anything in between; requests
    that are cut off there; and what leaves the two tables alone. *)
Inductive http_step s : Sys -> Sys -> Prop :=
| hs_serve req o w w' fl : serve s req w = (o, w') -> http_step s (mkSys w fl) (mkSys w' fl)
| hs_begin req r e x w w' fl :
    requested req = Some r -> method_allowed r (rq_method req) = true -> extension s r req = Some e ->
    extend_check (app_jwt s) (er_token e) w = (Ret x, w') -> http_step s (mkSys w fl) (mkSys w' ((e, x) :: fl))
| hs_finish e x o w w' fl1 fl2 :
    extend_issue (app_jwt s) e x w = (o, w') ->
    http_step s (mkSys w (fl1 ++ (e, x) :: fl2)) (mkSys w' (fl1 ++ fl2))
| hs_drop ex w fl1 fl2 : http_step s (mkSys w (fl1 ++ ex :: fl2)) (mkSys w (fl1 ++ fl2))
| hs_other w w' fl : tokens_kept w w' -> http_step s (mkSys w fl) (mkSys w' fl).

Definition http_reachable s (y : Sys) : Prop := rtc (http_step s) initial y.

Lemma http_simulated s y y' : KeepsTokens (app_sessions s) -> http_step s y y' -> rtc (step (app_jwt s)) y y'.
Proof.
  intros HS [req o w w' fl E|req r e x w w' fl _ _ _ E|e x o w w' fl1 fl2 E|ex w fl1 fl2|w w' fl Hk].
  - by eapply serve_simulated.
  - by apply rtc_once, step_begin.
  - by eapply rtc_once, step_finish.
  - apply rtc_once, step_drop.
  - by apply rtc_once, step_other.
Qed.

Lemma http_steps_simulated s y y' :
  KeepsTokens (app_sessions s) -> rtc (http_step s) y y' -> rtc (step (app_jwt s)) y y'.
Proof.
  intros HS. induction 1 as [y|y1 y2 y3 Hstep _ IH]; [done|]. etrans; [by eapply http_simulated|exact IH].
Qed.

(** Only an administrator's request adds to the extensions under way. *)
Lemma begun_by_admin s r req e : extension s r req = Some e -> admin_auth (app_admin s) (rq_parts req) = Ok tt.
Proof. unfold extension. by destruct (admin_auth _ _) as [[]|]. Qed.

(** C14: Whatever requests a fresh deployment serves over HTTP, with extension requests
    that overlap one another and all others: jwt_uuid identifies a row, every superseded
    row is revoked, and every row leads over supersedes to a root that is its recorded
    original. *)
Theorem http_chains_rooted (uuid_distinct : forall n m, uuid_v4 n = uuid_v4 m -> n = m) s y r :
  KeepsTokens (app_sessions s) -> http_reachable s y -> r ∈ metadata (pg (world y)) ->
  (forall r', r' ∈ metadata (pg (world y)) -> m_jwt_uuid r' = m_jwt_uuid r -> r' = r) /\
  (forall p, supersedes_in (metadata (pg (world y))) r p -> is_revoked (m_jwt_uuid p) (world y)) /\
  exists r0, rtc (supersedes_in (metadata (pg (world y)))) r r0 /\ m_supersedes r0 = None /\
    m_original r0 = m_original r /\ (r0 ≠ r -> is_revoked (m_jwt_uuid r0) (world y)).
Proof. intros HS Hy. by apply (chains_rooted uuid_distinct (app_jwt s)), http_steps_simulated. Qed.
End Requests.
