(* ===== verification/Answers.v ===== *)
(** Every request is answered: [panics P m] says that the computation [m]
    panics only where [P] holds.  There is one lemma per way of composing
    computations, a tactic that applies them, and the handlers of Router.v all
    panic only where a time computation overflows. *)
From S2P Require Import Prelude Str Chrono Json Error World Effects Jose Claims Config Crypto.
From S2P Require Import JwtApi JwtService JwtTheorems Introspect Security SessionCrypto SessionStore.
From S2P Require Import MemoryStore PostgresStore Outbound Registry IdToken Flow Axum AccessLog Router RouterTheorems.
From S2P Require Import Ledger LedgerHttp.

Section Panics.
Context `{Env}.

Definition panics {A} (P : Prop) (m : M A) : Prop := forall w, wp m w (fun o _ => o = Panic -> P).

Context (P : Prop).

Lemma panics_ret {A} (a : A) : panics P (mret a).
Proof. by intros w. Qed.
Lemma panics_throw {A} e : panics P (throw (A := A) e).
Proof. by intros w. Qed.
Lemma panics_lift {A} (r : Result A TimError) : panics P (lift r).
Proof. by destruct r; intros w. Qed.
Lemma panics_or_panic {A} (x : option A) : (x = None -> P) -> panics P (or_panic x).
Proof. intros Hx. destruct x; intros w; [done|]. intros _. by apply Hx. Qed.
Lemma panics_ask {A} (f : nat -> A) : panics P (ask f).
Proof. by intros w. Qed.
Lemma panics_await {A} (f : nat -> A) : panics P (await f).
Proof. intros w. by apply wp_await. Qed.
Lemma panics_step {A} (a : World -> A) (f : World -> World) : panics P (fun w => (Ret (a w), f w)).
Proof. by intros w. Qed.

Lemma panics_bind {A B} (m : M A) (f : A -> M B) :
  panics P m -> (forall a w w', m w = (Ret a, w') -> panics P (f a)) -> panics P (m ≫= f).
Proof.
  intros Hm Hf w. apply wp_bind. specialize (Hm w). unfold wp in Hm.
  apply wp_intro. intros o w' E. rewrite E in Hm. destruct o as [a|e| |c]; simpl in *; [by eapply Hf|done|by intros _; apply Hm|done].
Qed.

Lemma panics_then {A B} (m : M A) (f : A -> M B) :
  panics P m -> (forall a, panics P (f a)) -> panics P (m ≫= f).
Proof. intros Hm Hf. by apply panics_bind. Qed.

Lemma panics_attempt {A} (m : M A) : panics P m -> panics P (attempt m).
Proof. intros Hm w. apply wp_attempt. eapply wp_mono; [apply Hm|]. intros [] w' Hw; [done|done|by intros _; apply Hw|done]. Qed.

Lemma panics_stmt {A} now (q : Sql A) : panics P (stmt now q).
Proof. intros w. by apply wp_stmt; [|intros ? []|intros ? ? ? []]. Qed.

Lemma panics_sql {A} (q : Sql A) : panics P (sql q).
Proof. intros w. apply wp_sql. intros now. apply panics_stmt. Qed.

Lemma panics_transaction {A} (body : Z -> M A) : (forall now, panics P (body now)) -> panics P (transaction body).
Proof.
  intros Hb w. apply wp_transaction; [by intros ? []|]. intros now. eapply wp_mono; [apply Hb|].
  intros [a|e| |c] w' Ho; [|done..]. split; [done|]. intros o Hl. by destruct Hl.
Qed.
End Panics.

Create HintDb calm discriminated.

(** Decompose a computation down to the computations the hints know. *)
Ltac calm_step :=
  match goal with
  | |- panics _ (mbind _ _) => apply panics_then; [|intros ?]
  | |- panics _ (mret _) => apply panics_ret
  | |- panics _ (throw _) => apply panics_throw
  | |- panics _ (lift _) => apply panics_lift
  | |- panics _ (attempt _) => apply panics_attempt
  | |- panics _ (sql _) => apply panics_sql
  | |- panics _ (stmt _ _) => apply panics_stmt
  | |- panics _ (transaction _) => apply panics_transaction; intros ?
  | |- panics _ (ask _) => apply panics_ask
  | |- panics _ (await _) => apply panics_await
  | |- panics _ utc_now => apply panics_ask
  | |- panics _ new_v4 => apply panics_ask
  | |- panics _ (fill_bytes _) => apply panics_ask
  | |- panics _ (get _) => apply panics_await
  | |- panics _ (post _ _ _) => apply panics_await
  | |- panics _ (cached _ _) => apply panics_step
  | |- panics _ (discovery_insert _ _) => apply panics_step
  | |- panics _ (jwks_insert _ _) => apply panics_step
  | |- panics _ (read_json _ _ _ _ _) => unfold read_json
  | |- panics _ (read_optional_json _ _ _ _ _) => unfold read_optional_json
  | |- panics _ (read_bytes _ _ _) => unfold read_bytes
  | |- panics _ (read_string _ _ _) => unfold read_string
  | |- panics _ receive => apply panics_await
  | |- panics _ (extract ?r _) => unfold extract; destruct r
  | |- panics _ (match ?x with _ => _ end) => destruct x
  | |- panics _ _ => solve [auto with calm]
  end.
Ltac calm := repeat (calm_step; cbv beta).

(** A store of sessions whose operations do not panic. *)
Class CalmStore `{Env} (S : SessionStore) : Prop := {
  cs_create : forall P x, panics P (@ss_create S x);
  cs_get : forall P id, panics P (@ss_get S id);
  cs_touch : forall P id, panics P (@ss_touch S id);
  cs_revoke : forall P id, panics P (@ss_revoke S id);
}.

Section Stores.
Context `{Env, Aead, SerdeJson}.

#[export] Instance memory_calm ttl : CalmStore (MemoryStore ttl).
Proof.
  split; intros P x w; simpl.
  - done.
  - unfold memory_get, wp, mbind, M_bind, mem_map, utc_now, ask. simpl.
    destruct (mem_sessions w !! x); [by destruct (is_expired _ _)|done].
  - unfold memory_touch, wp, mbind, M_bind, mem_map, utc_now, ask. simpl. by destruct (mem_sessions w !! x).
  - done.
Qed.

#[export] Instance postgres_calm ttl c : CalmStore (PostgresStore ttl c).
Proof.
  split; intros P x; simpl; unfold postgres_create, seal_profile, seal, postgres_get, postgres_touch, postgres_revoke;
    calm.
Qed.
End Stores.

Section Services.
Context `{Env, J : Jose, Chrono, UuidLib, SerdeJson, Net, FlowLib} {JK : JwkKeys J}.
Context (P : Prop).
Implicit Type s : JwtService.

(** The time after which a token or session expires is out of chrono's range. *)
Definition overflows (micros : Z) : Prop :=
  td_of_micros micros = None \/ exists n, in_utc (clock n + micros) = false.

Lemma td_overflow us : td_of_micros us = None -> overflows us.
Proof. by left. Qed.

Lemma add_overflow n us d : td_of_micros us = Some d -> add_signed (clock n) d = None -> overflows us.
Proof.
  unfold td_of_micros, add_signed. destruct (_ && _); [|done]. intros [= <-].
  destruct (in_utc (clock n + us)) eqn:E; [done|]. intros _. right. by exists n.
Qed.

Lemma verify_raw_calm {C} sg (de : Deserializer C) t v : panics P (verify_raw sg de t v).
Proof.
  intros w. destruct (verify_raw_total sg de t v w) as (r & w' & E & _). apply wp_intro.
  intros o w1 E1. rewrite E in E1. injection E1 as <- <-. done.
Qed.
#[local] Hint Resolve verify_raw_calm : calm.

Lemma validate_calm s req : panics P (validate s req).
Proof. unfold validate, is_denylisted, denylist_lookup. calm. Qed.

Lemma authenticate_bearer_calm s t : panics P (authenticate_bearer s t).
Proof. unfold authenticate_bearer, verify, is_denylisted, denylist_lookup. calm. Qed.

Lemma introspect_calm s req : panics P (introspect s req).
Proof. unfold introspect, verify, is_denylisted, denylist_lookup. calm. Qed.

Lemma summaries_calm now rows : panics P (summaries now rows).
Proof. induction rows as [|r rows IH]; simpl; unfold denylist_entry; calm; exact IH. Qed.
#[local] Hint Resolve summaries_calm : calm.

Lemma list_for_subject_calm sub req : panics P (list_for_subject sub req).
Proof. unfold list_for_subject. destruct (list_page req) as [[? ?] ?]. calm. Qed.

Lemma revoke_calm s t reason : panics P (revoke s t reason).
Proof. unfold revoke, verify. calm. Qed.
#[local] Hint Resolve revoke_calm : calm.

Lemma revoke_by_jti_calm j reason : panics P (revoke_by_jti j reason).
Proof. unfold revoke_by_jti. calm. Qed.

Lemma bulk_revoke_calm s req : panics P (bulk_revoke s req).
Proof.
  assert (forall toks acc, panics P (bulk_loop s (br_reason req) toks acc)) as Hloop.
  { induction toks as [|t toks IH]; intros acc; simpl; calm; apply IH. }
  unfold bulk_revoke. destruct (br_tokens req) as [|t toks]; [calm|]. destruct (_ <? _); [calm|apply Hloop].
Qed.

Lemma jwks_calm sg : panics P (jwks sg).
Proof. unfold jwks, active_previous. calm. Qed.

Lemma fetch_with_calm url allow : panics P (fetch_with url allow).
Proof.
  unfold fetch_with. calm. generalize max_retries as left. induction left as [|left IH]; cbn [fetch_attempts];
    unfold fetch_once; calm; exact IH.
Qed.
#[local] Hint Resolve fetch_with_calm : calm.

Lemma build_login_url_calm r pid uri : panics P (build_login_url r pid uri).
Proof. unfold build_login_url, generate_pkce, random_hex. calm. Qed.

Lemma verify_id_token_calm d p t n : panics P (verify_id_token d p t n).
Proof. unfold verify_id_token, jwks_fetch, load. calm. Qed.

Lemma exchange_code_calm p d code row : panics P (exchange_code p d code row).
Proof. unfold exchange_code. calm. Qed.
#[local] Hint Resolve verify_id_token_calm exchange_code_calm : calm.

(** The three places where a time is computed. *)
Lemma generate_panics s req :
  (overflows (gr_expiration_in_minutes req * 60 * MICROS) -> P) -> panics P (generate s req).
Proof.
  intros Hover. unfold generate. destruct (_ <=? 0); [calm|]. destruct (_ <? _); [calm|].
  calm_step; [calm|]. calm_step; [calm|]. apply panics_bind; [calm|]. intros now w w' E. minv. subst.
  apply panics_bind; [apply panics_or_panic; intros E; by apply Hover, td_overflow|]. intros d w1 w2 E. minv.
  apply panics_bind; [apply panics_or_panic; intros E'; by eapply Hover, add_overflow|]. intros. calm.
Qed.

Lemma extend_panics s req :
  (overflows (default 60 (er_expiration_in_minutes req) * 60 * MICROS) -> P) -> panics P (extend s req).
Proof.
  intros Hover. unfold extend. apply panics_bind.
  { unfold extend_check, verify, is_denylisted, denylist_lookup. calm. }
  intros x w w' E. apply extend_check_Ret in E as [Hck _]. destruct (ck_now _ _ _ _ Hck) as [n Hn].
  unfold extend_issue. destruct (_ <=? 0); [calm|].
  apply panics_bind; [apply panics_or_panic; intros E; by apply Hover, td_overflow|]. intros d w1 w2 E. minv.
  apply panics_bind; [apply panics_or_panic; rewrite Hn; intros E'; by eapply Hover, add_overflow|]. intros. calm.
Qed.

Lemma complete_callback_panics r S age pid code st :
  CalmStore S -> (forall expires_in, overflows (effective_ttl (as_i64 (@ss_ttl_cap S)) expires_in * MICROS) -> P) ->
  panics P (complete_callback r S age pid code st).
Proof.
  intros [Hc _ _ _] Hover. unfold complete_callback. calm. unfold login_session, random_hex.
  destruct (profile_from_claims _ _) as [u prof]. apply panics_bind; [calm|]. intros now w1 w2 E. minv. subst.
  apply panics_bind; [apply panics_or_panic; intros E; by eapply Hover, td_overflow|]. intros d w3 w4 E. minv.
  apply panics_bind; [apply panics_or_panic; intros E'; by eapply Hover, add_overflow|]. intros. calm; apply Hc.
Qed.
End Services.

#[export] Hint Resolve validate_calm authenticate_bearer_calm introspect_calm list_for_subject_calm revoke_calm
  revoke_by_jti_calm bulk_revoke_calm jwks_calm build_login_url_calm : calm.

(** ** Requests *)

Section Requests.
Context `{Env, J : Jose, Chrono, UuidLib, SerdeJson, ChronoSerde, HttpLib, Net, FlowLib, AxumLib} {JK : JwkKeys J}.
Implicit Type s : AppState.

(** The request asks for an expiry out of range. *)
Definition overflowing s (r : Route) (req : Request) : Prop :=
  match r with
  | RGenerate => exists g, body_json (max_body s) generate_members generate_request_of_json req = Ok g /\
                   overflows (gr_expiration_in_minutes g * 60 * MICROS)
  | RExtend => exists e, body_json (max_body s) extend_members extend_request_of_json req = Ok e /\
                 overflows (default 60 (er_expiration_in_minutes e) * 60 * MICROS)
  | RCustomExtend | RExtendSession => overflows (60 * 60 * MICROS)
  | RCallback _ => exists expires_in,
                     overflows (effective_ttl (as_i64 (@ss_ttl_cap (app_sessions s))) expires_in * MICROS)
  | _ => False
  end.

Lemma current_session_calm P s req : CalmStore (app_sessions s) -> panics P (current_session s req).
Proof. intros [_ Hg Ht _]. unfold current_session. calm. Qed.
#[local] Hint Resolve current_session_calm : calm.

Lemma extend_into_cookie_panics s token name :
  panics (overflows (60 * 60 * MICROS)) (extend_into_cookie s token name).
Proof. unfold extend_into_cookie. calm_step; [by apply extend_panics|calm]. Qed.
#[local] Hint Resolve extend_into_cookie_panics : calm.

Lemma handler_panics s r req : CalmStore (app_sessions s) -> panics (overflowing s r req) (handler s r req).
Proof.
  intros HS. pose proof HS as [_ _ _ Hrev]. destruct r; simpl.
  all: unfold health, jwt_generate, jwt_validate, jwt_validate_boolean, jwt_revoke, jwt_revoke_bulk, jwt_extend,
    jwt_list_me, keys_public, jwt_verification_key_compat, jwt_userinfo_compat, jwt_custom_verify_compat,
    jwt_custom_userinfo_compat, jwt_custom_extend_compat, jwt_extend_session_compat, jwt_custom_blacklist_compat,
    jwt_blacklist_compat, userinfo, introspect_dispatch, introspect_types, auth_providers, auth_provider_one,
    auth_login, auth_callback, auth_session_validate, auth_profile, auth_logout, auth_health, admin.
  all: calm.
  - apply generate_panics. intros Ho. by exists t.
  - apply extend_panics. intros Ho. by exists t.
  - apply complete_callback_panics; [done|]. intros e Ho. by exists e.
Qed.

(** C10: Every request is answered, whatever the clocks, the database and the other
    servers do, unless its client goes away; a handler panics only where the expiry that
    was asked for is beyond the range of times. *)
Theorem every_request_answered s req w o w' :
  CalmStore (app_sessions s) -> serve s req w = (o, w') ->
  (exists resp, o = Ret resp) \/ o = Dropped ClientGone \/
  (o = Panic /\ exists r, requested req = Some r /\ method_allowed r (rq_method req) = true /\ overflowing s r req).
Proof.
  intros HS [(_ & _ & resp & -> & _)|(_ & w1 & o1 & _ & Hn & Ho)]%serve_inner; [left; by eexists|].
  apply limited_run in Hn as [(_ & _ & ->)|(_ & o2 & Hn & Ho2)]; [left; destruct Ho as (resp & -> & _); by eexists|].
  apply route_request_cases in Hn as [[_ (r2 & -> & _)]|(r & oh & Hq & Hm & Hh & Hr)].
  { subst o1. left. destruct Ho as (resp & -> & _). by eexists. }
  destruct oh as [hr|e| |c].
  1,2: destruct Hr as (r2 & -> & _); subst o1; left; destruct Ho as (resp & -> & _); by eexists.
  - subst o2 o1. right; right. split; [done|]. exists r. split; [done|]. split; [done|].
    pose proof (handler_panics s r req HS w1) as Hp. unfold wp in Hp. rewrite Hh in Hp. by apply Hp.
  - subst o2. destruct c; subst o1; [left; destruct Ho as (resp & -> & _); by eexists|by right; left].
Qed.

(** At most one move, except in bulk. *)
Lemma permitted_one r ms : permitted r ms -> r ≠ RRevokeBulk -> (length ms <= 1)%nat.
Proof.
  unfold permitted, maybe, issue, revocation, replacement.
  destruct r; intros Hp Hne; try done; try (by subst ms; simpl; lia).
  all: destruct Hp as [->|Hp]; [simpl; lia|]; naive_solver lia.
Qed.

End Requests.
