(* ===== verification/Boot.v ===== *)
(** Start-up and the command line: [src/main.rs] and [src/db/mod.rs].

    [boot] is [serve] of main.rs up to the listening socket: the configuration
    is loaded and validated, the keys, the pool, the providers, the session
    store and the gates are built from it, and the router is put together.  An
    error ends the process; it is the chain of messages [anyhow] prints.
    [main] maps a command to what the process does.  The rounds of the background
    task that [state_sweeper::spawn] starts are in SweeperLiveness.v. *)
From S2P Require Import Prelude Str NetAddr Chrono Json Error World Effects Jose Claims Config ConfigLoad Crypto.
From S2P Require Import Doctor JwtApi JwtService Introspect Security SessionCrypto SessionStore MemoryStore.
From S2P Require Import PostgresStore Outbound Registry IdToken Flow Axum AccessLog Router.

(** [PgPoolOptions], as far as it is set; [None] is the crate's default. *)
Record PoolOptions := mkPoolOptions {
  po_min_connections : Z;
  po_max_connections : Z;
  po_acquire_timeout : option Z;
  po_idle_timeout : option Z;
  po_max_lifetime : option Z;
  po_test_before_acquire : bool;
}.

(** [sqlx] while the process starts and [tokio]'s listener; an error is its text. *)
Class PgLib := {
  pool_connect : nat -> PoolOptions -> string -> option string;
  migrate : nat -> option string;
  bind_listener : nat -> SocketAddr -> option string;
}.

(** ** The pool *)

Definition positive (z : Z) : option Z := if 0 <? z then Some z else None.

Definition pool_options (c : DatabaseConfig) : PoolOptions :=
  mkPoolOptions (min_connections c) (max_connections c) (positive (acquire_timeout_seconds c))
    (positive (idle_timeout_seconds c)) (positive (max_lifetime_seconds c)) true.

(** [anyhow::Error]: its context from the outside in, then the cause. *)
Definition Chain : Type := list string.

Definition of_tim {A} (r : Result A TimError) : Result A Chain := map_err (fun e => [display e]) r.
Definition with_context {A} (message : string) (r : Result A Chain) : Result A Chain := map_err (cons message) r.

(** [?] in a function that returns [anyhow::Result]. *)
Definition try_bind {A B} (m : M (Result A Chain)) (f : A -> M (Result B Chain)) : M (Result B Chain) :=
  r ← m; match r with Ok a => f a | Err e => mret (Err e) end.
Notation "x <-! m ; k" := (try_bind m (fun x => k))
  (at level 20, m at level 100, k at level 200, only parsing) : tim_scope.

Inductive Command := Serve | DoctorCmd (strict : bool) | Healthcheck (url : option string) (timeout_seconds : Z).

Section Boot.
Context `{Env, J : Jose, Chrono, UuidLib, SerdeJson, ChronoSerde, HttpLib, Net, FlowLib, AxumLib, Aead} {JK : JwkKeys J}.
Context `{Files, YamlLib, PgLib, ChronoText}.

Definition connect (url : string) (c : DatabaseConfig) : M unit :=
  e ← ask (fun t => pool_connect t (pool_options c) url);
  match e with Some text => throw (Database text) | None => mret tt end.

(** The migrations only concern the schema; the tables of [World] are there after them. *)
Definition run_migrations : M unit :=
  e ← ask migrate;
  match e with Some text => throw (Config ("migration failed: " +:+ text)) | None => mret tt end.

(** [http::diagnose_at_boot] *)
Definition diagnose_at_boot : list Event :=
  if is_offline then
    [(WARN, "TIM_OFFLINE=" +:+ default "" (env_var "TIM_OFFLINE") +:+ " — all OIDC discovery / JWKS / token-exchange outbound requests will be refused with 502. Intended for pentest / break-test runs; disable in production.")]
  else [].

(** ** The steps of [serve] *)

Definition load_config (path : option string) : Result AppConfig Chain :=
  c <-? with_context "failed to load config" (of_tim (ConfigLoad.load path));
  _ <-? with_context "config validation" (of_tim (Config.validate c));
  Ok c.

(** What is logged about the key that retires, and whether it alarms. *)
Definition retirement_event (j : JwtConfig) (prev : PreviousKeyConfig) (now : Z) : Event :=
  match retirement j prev now with
  | AlreadyRetired d =>
      (WARN, "previous JWT signing key retired " +:+ pretty d +:+ " day(s) ago; still loaded but excluded from JWKS + refused on verification. Remove `jwt.previous_key` from tim.yaml to clear this WARN.")
  | RetiresSoon d =>
      (WARN, "previous JWT signing key retires in " +:+ pretty d +:+ " day(s). Plan the next rotation or drop `jwt.previous_key` before it cliffs.")
  | RetiresLater _ => (INFO, "previous JWT signing key active during rotation grace period")
  end.

Definition load_signer (j : JwtConfig) : M (Result (JwtSigner * list Event) Chain) :=
  signer <-! mret (with_context ("failed to load JWT key from " +:+ private_key_path j)
                     (of_tim (load_from_pem (private_key_path j) (cfg_key_id j))));
  match previous_key j with
  | None => mret (Ok (signer, []))
  | Some prev =>
      signer <-! mret (with_context ("failed to load previous JWT key from " +:+ pk_private_key_path prev)
                         (of_tim (load_previous_from_pem signer (pk_private_key_path prev) (pk_key_id prev)
                                    (pk_retires_at prev))));
      now ← utc_now;
      mret (Ok (signer, [retirement_event j prev now]))
  end.

Definition database_url (c : DatabaseConfig) : Result string Chain :=
  ok_or (env_var (url_env c))
    ["database URL env var `" +:+ url_env c +:+ "` is not set (see tim.yaml database.url_env)";
     "environment variable not found"].

(** [pool] and, if configured, the migrations. *)
Definition open_database (c : DatabaseConfig) : M (Result unit Chain) :=
  url <-! mret (database_url c);
  _ <-! (r ← attempt (connect url c); mret (of_tim r));
  if auto_migrate c then r ← attempt run_migrations; mret (of_tim r) else mret (Ok tt).

(** The application state from its parts. *)
Definition build_state (c : AppConfig) (signer : JwtSigner) : Result AppState TimError :=
  providers <-? registry_from_config (oauth2 c);
  sessions <-? session_build c;
  admin <-? admin_from_config (security c);
  gate <-? gate_from_config (introspection c);
  Ok (mkAppState c signer (mkService signer (jwt c)) providers sessions admin gate).

Definition listen_text (s : ServerConfig) : string := bind s +:+ ":" +:+ pretty (port s).

(** [build_router] panics where the CORS layer does. *)
Definition router_builds (c : AppConfig) : bool :=
  match cors (build_layers (security c)) with Some l => cors_usable l | None => true end.

(** What runs once the process listens: [interval] is the sweeper's, if it is on. *)
Record Running := mkRunning {
  run_state : AppState;
  run_addr : SocketAddr;
  run_sweeper : option Z;
  run_log : list Event;
}.

(** The guard of [state_sweeper::spawn]. *)
Definition sweeper_interval (o : OAuth2Config) : option Z :=
  if session_sweep_interval_seconds o =? 0 then None else Some (session_sweep_interval_seconds o).

(** What [serve] and [spawn] log, in order. *)
Definition boot_log (c : AppConfig) (retirement : list Event) : list Event :=
  [(INFO, "loaded config")] ++ diagnose c ++ diagnose_at_boot ++ retirement
  ++ [(INFO, "loaded RSA signing key")]
  ++ (if auto_migrate (database c) then [(INFO, "database migrations applied")] else [])
  ++ match sweeper_interval (oauth2 c) with
     | None => [(INFO, "session/state sweeper disabled (session_sweep_interval_seconds=0)")]
     | Some _ => []
     end
  ++ [(INFO, "TIM listening")].

Definition listen (addr : SocketAddr) : M (Result unit Chain) :=
  e ← ask (fun t => bind_listener t addr);
  mret (match e with Some text => Err [text] | None => Ok tt end).

Definition boot (path : option string) : M (Result Running Chain) :=
  c <-! mret (load_config path);
  sl <-! load_signer (jwt c);
  _ <-! open_database (database c);
  s <-! mret (of_tim (build_state c (fst sl)));
  addr <-! mret (ok_or (parse_socket_addr (listen_text (server c))) ["invalid socket address syntax"]);
  if router_builds c then
    _ <-! listen addr;
    mret (Ok (mkRunning s addr (sweeper_interval (oauth2 c)) (boot_log c (snd sl))))
  else panic.

(** ** Health probe *)

Definition probe_url (path : option string) (url_override : option string) : string :=
  match url_override with
  | Some u => u
  | None =>
      match ConfigLoad.load path with
      | Ok c => "http://127.0.0.1:" +:+ pretty (port (server c)) +:+ "/health"
      | Err _ => "http://127.0.0.1:8085/health"
      end
  end.

Definition healthcheck (path : option string) (url_override : option string) : M Z :=
  let url := probe_url path url_override in
  built ← ask http_build_error;
  match built with
  | Some _ => mret 1
  | None =>
      r ← get url;
      mret (match r with
            | HttpResponse st _ => if is_success st then 0 else 1
            | HttpError _ _ => 1
            end)
  end.

(** ** The command line *)

(** A process that listens, or its exit code. *)
Inductive Process := Listening (r : Running) | Exited (code : Z).

(** [as u8]: the exit code of a process. *)
Definition exit_byte (code : Z) : Z := wrap_u 8 code.

Definition main (path : option string) (command : option Command) : M Process :=
  match default Serve command with
  | DoctorCmd strict => r ← Doctor.run path; mret (Exited (exit_byte (exit_code r strict)))
  | Serve => r ← boot path; mret (match r with Ok run => Listening run | Err _ => Exited 2 end)
  | Healthcheck url _ => code ← healthcheck path url; mret (Exited (exit_byte code))
  end.
End Boot.
