(* ===== verification/BootTheorems.v ===== *)
(** What a start of the service guarantees, and what the doctor foretells.

    [boot_Ok] takes a successful start apart; the theorems say that a running
    service is well formed, that its token tables are guarded by the configured
    secret, which starts fail, and how the report of [tim doctor] relates to a
    later start.  The last part is the background task: under a clock that
    moves on and rounds that keep succeeding, every expired session is removed
    for good. *)
From S2P Require Import Prelude Str NetAddr Chrono Json Error World Effects Jose Claims Config ConfigLoad Crypto.
From S2P Require Import Doctor JwtApi JwtService JwtTheorems Introspect Security SessionCrypto SessionStore.
From S2P Require Import MemoryStore PostgresStore Outbound Registry IdToken Flow Axum AccessLog Router.
From S2P Require Import RouterTheorems Boot.

Section BootTheorems.
Context `{Env, J : Jose, Chrono, UuidLib, SerdeJson, ChronoSerde, HttpLib, Net, FlowLib, AxumLib, Aead} {JK : JwkKeys J}.
Context `{Files, YamlLib, PgLib, ChronoText}.

(** ** Inversion *)

Lemma try_bind_Ok {A B} (m : M (Result A Chain)) (f : A -> M (Result B Chain)) w b w' :
  try_bind m f w = (Ret (Ok b), w') <->
  exists a w1, m w = (Ret (Ok a), w1) /\ f a w1 = (Ret (Ok b), w').
Proof.
  unfold try_bind, mbind, M_bind. split.
  - destruct (m w) as [[[a|e]|e| |c] w1]; [by eauto|done..].
  - intros (a & w1 & -> & Hf). done.
Qed.

Lemma mret_Ok {A} (r : Result A Chain) w a w' : (mret r : M _) w = (Ret (Ok a), w') <-> r = Ok a /\ w' = w.
Proof. unfold mret, M_ret. naive_solver. Qed.

Lemma of_tim_Ok {A} (r : Result A TimError) a : of_tim r = Ok a <-> r = Ok a.
Proof. apply map_err_Ok. Qed.

Lemma with_context_Ok {A} m (r : Result A Chain) a : with_context m r = Ok a <-> r = Ok a.
Proof. apply map_err_Ok. Qed.

Lemma load_config_Ok path c :
  load_config path = Ok c <-> ConfigLoad.load path = Ok c /\ valid_config c.
Proof.
  unfold load_config. rewrite rbind_Ok. split.
  - intros (c' & Hl%with_context_Ok%of_tim_Ok & ([] & Hv%with_context_Ok%of_tim_Ok & [= ->])%rbind_Ok).
    by rewrite <- validate_spec.
  - intros [Hl Hv%validate_spec]. exists c. split; [by apply with_context_Ok, of_tim_Ok|].
    by rewrite Hv.
Qed.

Lemma load_from_pem_Ok path k s :
  load_from_pem path k = Ok s <->
  exists pem kp, read_to_string path = Ok pem /\ KeyPair_from_pkcs8_pem pem k = Ok kp /\ s = mkSigner kp None None.
Proof.
  unfold load_from_pem, read_pem, from_pkcs8_pem. split.
  - intros (pem & Hp%map_err_Ok & (kp & Hk & [= <-])%rbind_Ok)%rbind_Ok. eauto.
  - intros (pem & kp & Hp & Hk & ->). rewrite Hp. simpl. by rewrite Hk.
Qed.

(** The signer a configuration asks for. *)
Record signer_for (j : JwtConfig) (s : JwtSigner) : Prop := {
  sf_current : load_from_pem (private_key_path j) (cfg_key_id j) = Ok (mkSigner (current s) None None);
  sf_kid : kid (current s) = cfg_key_id j;
  sf_distinct : distinct_kids s;
  sf_previous : match previous_key j with
                | None => previous s = None /\ previous_retires_at s = None
                | Some prev =>
                    exists kp, previous s = Some kp /\ kid kp = pk_key_id prev /\
                      load_from_pem (pk_private_key_path prev) (pk_key_id prev) = Ok (mkSigner kp None None) /\
                      previous_retires_at s = Some (pk_retires_at prev)
                end;
}.

Lemma load_signer_Ok j w s log w' :
  load_signer j w = (Ret (Ok (s, log)), w') -> signer_for j s /\ same_state w w'.
Proof.
  unfold load_signer.
  intros (s0 & w1 & [Hs%with_context_Ok%of_tim_Ok ->]%mret_Ok & Hrest)%try_bind_Ok. pose proof Hs as Hs0.
  apply load_from_pem_Ok in Hs as (pem & kp & _ & Hk%KeyPair_kid & ->).
  destruct (previous_key j) as [prev|] eqn:Ep.
  - apply try_bind_Ok in Hrest as (s1 & w2 & [Hs1%with_context_Ok%of_tim_Ok ->]%mret_Ok & Hrest).
    unfold load_previous_from_pem, read_pem in Hs1. apply rbind_Ok in Hs1 as (pem' & Hp'%map_err_Ok & Hs1).
    pose proof (with_previous_distinct _ _ _ _ _ Hs1).
    apply with_previous_Ok in Hs1 as (_ & kp' & Hk' & ->).
    unfold utc_now, ask, mbind, M_bind, mret, M_ret in Hrest. injection Hrest as <- _ <-.
    split; [|apply same_state_bump]. split; [done|done|done|]. rewrite Ep. exists kp'. split; [done|].
    split; [by eapply KeyPair_kid|]. split; [|done]. apply load_from_pem_Ok. eauto.
  - apply mret_Ok in Hrest as [[= <- <-] ->]. split; [|reflexivity]. split; [done|done|done|]. by rewrite Ep.
Qed.

Lemma tim_Ok {A} (m : M A) w a w' :
  (r ← attempt m; mret (of_tim r)) w = (Ret (Ok a), w') <-> m w = (Ret a, w').
Proof. unfold attempt, mbind, M_bind, mret, M_ret, of_tim. destruct (m w) as [[]]; simpl; naive_solver. Qed.

(** Nothing is stored while the process asks whether it may go on. *)
Lemma ask_unless {A} (f : nat -> option A) (k : A -> TimError) w u w' :
  (e ← ask f; match e with Some x => throw (k x) | None => mret tt end) w = (Ret u, w') <->
  f (tick w) = None /\ w' = bump w.
Proof. unfold ask, mbind, M_bind, mret, M_ret, throw. destruct u, (f (tick w)); naive_solver. Qed.

Lemma open_database_Ok c w u w' :
  open_database c w = (Ret (Ok u), w') <->
  exists url, env_var (url_env c) = Some url /\ pool_connect (tick w) (pool_options c) url = None /\
    if auto_migrate c then migrate (tick (bump w)) = None /\ w' = bump (bump w) else w' = bump w.
Proof.
  unfold open_database, database_url. split.
  - intros (url & w1 & [Hu%ok_or_Ok ->]%mret_Ok & (u1 & w2 & Hc%tim_Ok%ask_unless & Hm)%try_bind_Ok)%try_bind_Ok.
    exists url. destruct Hc as [? ->]. split; [done|]. split; [done|]. destruct (auto_migrate c).
    + by apply tim_Ok, ask_unless in Hm.
    + by apply mret_Ok in Hm as [_ ->].
  - intros (url & Hu & Hc & Hm). apply try_bind_Ok. exists url, w. rewrite Hu. split; [done|].
    apply try_bind_Ok. exists tt, (bump w). split; [by apply tim_Ok, ask_unless|]. destruct u.
    destruct (auto_migrate c); [by apply tim_Ok, ask_unless|]. by subst.
Qed.

Lemma same_state_bump2 w : same_state w (bump (bump w)).
Proof. etrans; apply same_state_bump. Qed.

Lemma open_database_same c w u w' : open_database c w = (Ret (Ok u), w') -> same_state w w'.
Proof.
  intros (url & _ & _ & Hm)%open_database_Ok.
  destruct (auto_migrate c); [destruct Hm as [_ ->]; apply same_state_bump2|subst; apply same_state_bump].
Qed.

(** What a start that reaches the listening socket has gone through. *)
Record started (path : option string) (run : Running) : Prop := {
  st_valid : valid_config (config (run_state run));
  st_loaded : ConfigLoad.load path = Ok (config (run_state run));
  st_signer : signer_for (jwt (config (run_state run))) (app_signer (run_state run));
  st_state : build_state (config (run_state run)) (app_signer (run_state run)) = Ok (run_state run);
  st_addr : parse_socket_addr (listen_text (server (config (run_state run)))) = Some (run_addr run);
  st_router : router_builds (config (run_state run)) = true;
  st_sweeper : run_sweeper run = sweeper_interval (oauth2 (config (run_state run)));
}.

Lemma build_state_parts c sg s :
  build_state c sg = Ok s <->
  config s = c /\ app_signer s = sg /\ app_jwt s = mkService sg (jwt c) /\
  registry_from_config (oauth2 c) = Ok (app_providers s) /\ session_build c = Ok (app_sessions s) /\
  admin_from_config (security c) = Ok (app_admin s) /\ gate_from_config (introspection c) = Ok (introspect_gate s).
Proof.
  unfold build_state. repeat setoid_rewrite rbind_Ok. split.
  - intros (p & Hp & S & HS & a & Ha & g & Hg & [= <-]). simpl. eauto 10.
  - intros (<- & <- & Hj & Hp & HS & Ha & Hg). exists (app_providers s). split; [done|].
    exists (app_sessions s). split; [done|]. exists (app_admin s). split; [done|].
    exists (introspect_gate s). split; [done|]. rewrite <- Hj. by destruct s.
Qed.

Lemma boot_Ok path w run w' :
  boot path w = (Ret (Ok run), w') -> started path run /\ same_state w w'.
Proof.
  unfold boot. intros (c & w1 & [Hc%load_config_Ok ->]%mret_Ok & Hrest)%try_bind_Ok.
  apply try_bind_Ok in Hrest as ([sg log] & w2 & Hsg & Hrest). apply load_signer_Ok in Hsg as [Hsg Hw2].
  apply try_bind_Ok in Hrest as (u & w3 & Hdb%open_database_same & Hrest).
  apply try_bind_Ok in Hrest as (s & w4 & [Hs%of_tim_Ok ->]%mret_Ok & Hrest).
  apply try_bind_Ok in Hrest as (addr & w5 & [Ha%ok_or_Ok ->]%mret_Ok & Hrest).
  destruct (router_builds c) eqn:Er; [|done].
  apply try_bind_Ok in Hrest as (v & w6 & Hl & [[= <-] ->]%mret_Ok).
  pose proof Hs as (Ec & Esg & _)%build_state_parts. simpl in *. subst sg c. destruct Hc.
  split; [by split|]. etrans; [exact Hw2|]. etrans; [exact Hdb|].
  unfold listen, mbind, M_bind, ask, mret, M_ret in Hl. injection Hl as _ <-. apply same_state_bump.
Qed.

(** ** A running service is well formed *)

Record well_formed (s : AppState) : Prop := {
  wf_config : valid_config (config s);
  wf_signer : signer_for (jwt (config s)) (app_signer s);
  wf_service : app_jwt s = mkService (app_signer s) (jwt (config s));
  wf_admin : require_admin_token (security (config s)) = true ->
    exists t, ag_token (app_admin s) = Some t /\ t ≠ "" /\ env_var (admin_token_env (security (config s))) = Some t;
  wf_gate : required_introspect (introspect_gate s) = required_client_auth (introspection (config s)) /\
    required_validation (introspect_gate s) = gate_validation_endpoints (introspection (config s)) /\
    required_jvm_compat (introspect_gate s) = gate_jvm_compat_endpoints (introspection (config s));
  wf_clients : any_required (introspection (config s)) = true ->
    Forall2 (fun c r => rc_client_id r = ic_client_id c /\ rc_secret r ≠ "" /\
                        env_var (ic_client_secret_env c) = Some (rc_secret r))
      (clients (introspection (config s))) (gate_clients (introspect_gate s));
  wf_some_client : required_introspect (introspect_gate s) = true -> gate_clients (introspect_gate s) ≠ [];
  wf_sessions : let o := oauth2 (config s) in
    (session_store o = "memory" /\ app_sessions s = MemoryStore (session_ttl_seconds o)) \/
    (session_store o = "postgres" /\ exists c, slen (inner c) = 32 /\
       app_sessions s = PostgresStore (session_ttl_seconds o) c);
  wf_providers : forall id p, registry_get (app_providers s) id = Some p <->
    exists pc, providers (oauth2 (config s)) !! id = Some pc /\ resolved id pc p;
}.

Lemma started_well_formed path run : started path run -> well_formed (run_state run).
Proof.
  intros [Hv _ Hsg (_ & _ & Hj & Hp & HS & Ha & Hg)%build_state_parts _ _ _].
  unfold gate_from_config in Hg. apply rbind_Ok in Hg as (l & Hl & Hg). injection Hg as Hg.
  split; try done.
  - by apply admin_resolved.
  - by rewrite <- Hg.
  - intros Hany. rewrite Hany in Hl. rewrite <- Hg. by apply resolve_clients_all.
  - intros Hreq Hnil. rewrite <- Hg in Hreq, Hnil. simpl in *. subst l.
    unfold any_required in Hl. rewrite Hreq in Hl. simpl in Hl.
    apply resolve_clients_all, list.Forall2_nil_inv_r in Hl. by apply (valid_introspection _ Hv).
  - apply session_build_spec in HS as [[? ?]|(? & k & c & _ & _ & ? & ?)]; [by left|right; eauto].
  - by apply registry_from_config_inv.
Qed.

(** C11: A start that reaches the listening socket changes no stored state and leaves a
    well-formed service: a validated configuration, the signing keys with the configured
    and distinct key identifiers, gates with non-empty secrets, the configured store
    with a 32-byte key and exactly the configured providers; its address is the
    configured one. *)
Theorem boot_well_formed path w run w' :
  boot path w = (Ret (Ok run), w') ->
  well_formed (run_state run) /\ ConfigLoad.load path = Ok (config (run_state run)) /\ same_state w w' /\
  parse_socket_addr (listen_text (server (config (run_state run)))) = Some (run_addr run).
Proof.
  intros [Hst Hs]%boot_Ok. split; [by eapply started_well_formed|]. by destruct Hst.
Qed.

Lemma well_formed_keeps s : well_formed s -> KeepsTokens (app_sessions s).
Proof.
  intros Hw. destruct (wf_sessions s Hw) as [[_ ->]|(_ & c & _ & ->)];
    [apply memory_keeps|apply postgres_keeps].
Qed.

(** C2: From the start to the tables: a service that was started with
    require_admin_token has a non-empty secret from its environment variable, no request
    ever removes or changes a row of the token tables, and a request that does not
    present the secret leaves them as they are. *)
Theorem booted_tokens_guarded path w0 run w1 :
  boot path w0 = (Ret (Ok run), w1) ->
  require_admin_token (security (config (run_state run))) = true ->
  exists secret, secret ≠ "" /\
    env_var (admin_token_env (security (config (run_state run)))) = Some secret /\
    forall req w o w', serve (run_state run) req w = (o, w') ->
      tokens_grow w w' /\
      (admin_presented (p_headers (rq_parts req)) ≠ Some secret -> tokens_kept w w').
Proof.
  intros [Hwf%started_well_formed _]%boot_Ok Hr.
  destruct (wf_admin _ Hwf Hr) as (t & Ht & Hne & He). exists t. split; [done|]. split; [done|].
  intros req w o w' Hserve. pose proof (well_formed_keeps _ Hwf).
  apply tokens_guarded in Hserve as [Hg Hk]; [|done]. split; [done|]. intros Hno.
  destruct Hk as [Hk|(r & _ & _ & _ & Ha)]; [done|]. exfalso. apply Hno. revert Ha.
  unfold admin_auth, admin_enforced, admin_verify. rewrite Ht, bool_decide_true by done. simpl.
  destruct (admin_presented _) as [p|]; [|done]. by case_bool_decide; [subst|].
Qed.

(** ** Starts that are refused *)

(** Without a file the defaults require client authentication and have no client. *)
Theorem defaults_refused w :
  path_exists "tim.yaml" = false -> path_exists "tim.yml" = false ->
  main None None w = (Ret (Exited 2), w) /\
  (forall strict o w', main None (Some (DoctorCmd strict)) w = (o, w') -> o = Ret (Exited 1)).
Proof.
  intros Hyaml Hyml. assert (ConfigLoad.load None = Ok app_default) as Hl
    by (unfold ConfigLoad.load; cbn [load_candidates]; by rewrite Hyaml, Hyml).

  split.
  - unfold main, boot, try_bind, load_config. rewrite Hl. reflexivity.
  - intros strict o w'. unfold main. cbn [default from_option id]. unfold mbind, M_bind.
    assert (exists r w1, Doctor.run None w = (Ret r, w1) /\ exit_code r strict = 1) as (r & w1 & -> & Hc).
    { unfold Doctor.run. rewrite Hl. unfold checks_of, check_previous_key. simpl.
      eexists _, _. split; [reflexivity|]. apply exit_code_one. left. exists (check_validate app_default).
      rewrite pushed. split; [right; left|done]. }
    rewrite Hc. by intros [= <- <-].
Qed.

Lemma digit_or_not_l a : to_ascii_lower a = "l"%char -> to_digit 10 a = None /\ a ≠ "["%char.
Proof. by destruct a as [[] [] [] [] [] [] [] []]. Qed.

(** The service cannot listen on two spellings it recognises as loopback. *)
Theorem loopback_names_refused path c w run w' :
  ConfigLoad.load path = Ok c ->
  bind (server c) = "::1" \/ eq_ignore_ascii_case (bind (server c)) "localhost" = true ->
  boot path w ≠ (Ret (Ok run), w').
Proof.
  intros Hl Hb [[_ Hl' _ _ Haddr _ _] _]%boot_Ok. rewrite Hl in Hl'. injection Hl' as ->.
  revert Haddr. unfold listen_text. destruct Hb as [->|Hb%bool_decide_eq_true].
  - change ("::1" +:+ ?s) with (String ":" (":1" +:+ s)). by rewrite not_socket_addr.
  - destruct (bind _) as [|a b]; [done|]. injection Hb as [Hd Hn]%digit_or_not_l _.
    change (String a b +:+ ?s) with (String a (b +:+ s)). by rewrite not_socket_addr.
Qed.

(** Nor with an explicit list of CORS origins. *)
Theorem cors_list_refused `{!HttpLaws _} path c w run w' :
  ConfigLoad.load path = Ok c ->
  cors_allowed_origins (security c) ≠ [] -> "*" ∉ cors_allowed_origins (security c) ->
  boot path w ≠ (Ret (Ok run), w').
Proof.
  intros Hl Hne Hstar [[_ Hl' _ _ _ Hr _] _]%boot_Ok. rewrite Hl in Hl'. injection Hl' as ->.
  revert Hr. unfold router_builds, build_layers, build_cors. simpl. rewrite bool_decide_false by done.
  destruct (existsb _ _) eqn:E; [apply existsb_exists_bool in E as (x & Hx & ->%bool_decide_eq_true); done|].
  rewrite cors_no_wildcard by done. done.
Qed.

(** ** The doctor and a later start *)

Lemma nonempty_env_true name : nonempty_env name = true <-> exists v, env_var name = Some v /\ v ≠ "".
Proof.
  unfold nonempty_env. destruct (env_var name) as [v|]; [|naive_solver].
  rewrite negb_true_iff, bool_decide_eq_false. naive_solver.
Qed.

Lemma check_private_key_passes j :
  severity (check_private_key j) ≠ Fail -> exists s, load_from_pem (private_key_path j) (cfg_key_id j) = Ok s.
Proof.
  unfold check_private_key. destruct (negb (path_exists _)); [done|].
  destruct (load_from_pem _ _); [by eexists|done].
Qed.

(** The previous key: what the doctor answers about it. *)
Lemma check_previous_key_run j w :
  exists l w', check_previous_key j w = (Ret l, w') /\
    (no_fail l -> forall prev, previous_key j = Some prev ->
       pk_key_id prev ≠ cfg_key_id j /\ exists s, load_from_pem (pk_private_key_path prev) (pk_key_id prev) = Ok s).
Proof.
  unfold check_previous_key. destruct (previous_key j) as [prev|]; [|by exists [], w].
  assert (forall c : Check, severity c = Fail -> ~ no_fail [c]) as Hno
    by (intros c Hc Hall; apply (Hall c); [left|done]).
  case_bool_decide; [eexists _, _; split; [reflexivity|]; intros Hf; by apply Hno in Hf|].
  destruct (negb (path_exists _)); [eexists _, _; split; [reflexivity|]; intros Hf; by apply Hno in Hf|].
  destruct (load_from_pem _ _) as [s|e] eqn:E.
  - eexists _, _. split; [reflexivity|]. intros _ prev' [= <-]. eauto.
  - eexists _, _. split; [reflexivity|]. intros Hf; by apply Hno in Hf.
Qed.

(** The doctor always reports. *)
Lemma doctor_run_Ret path w :
  exists r w', Doctor.run path w = (Ret r, w') /\
    match ConfigLoad.load path with
    | Err _ => exit_code r false = 1
    | Ok c => exists prev, check_previous_key (jwt c) w = (Ret prev, w') /\
        checks r = [pass "config" (loaded_from path); check_validate c; check_private_key (jwt c)] ++ prev
              ++ [check_database (database c); check_admin (security c)]
              ++ check_session_key (oauth2 c) ++ check_providers (oauth2 c)
              ++ check_introspection (introspection c) ++ check_posture c
    end.
Proof.
  unfold Doctor.run. destruct (ConfigLoad.load path) as [c|e].
  - destruct (check_previous_key_run (jwt c) w) as (prev & w' & E & _). unfold checks_of, mbind, M_bind. rewrite E.
    eexists _, _. split; [reflexivity|]. exists prev. by rewrite pushed.
  - eexists _, _. split; [reflexivity|]. apply exit_code_one. left. eexists. split; [left|done].
Qed.

Lemma load_signer_total j w :
  (exists s, load_from_pem (private_key_path j) (cfg_key_id j) = Ok s) ->
  (forall prev, previous_key j = Some prev ->
     pk_key_id prev ≠ cfg_key_id j /\ exists s, load_from_pem (pk_private_key_path prev) (pk_key_id prev) = Ok s) ->
  exists sl w', load_signer j w = (Ret (Ok sl), w').
Proof.
  intros [s Hs] Hprev. destruct (previous_key j) as [prev|] eqn:Ep.
  2: { exists (s, []), w. apply try_bind_Ok. exists s, w. rewrite Hs. split; [done|]. by rewrite Ep. }
  destruct (Hprev prev eq_refl) as (Hne & s' & Hs'). apply load_from_pem_Ok in Hs' as (pem & kp & Hr & Hk & ->).
  pose proof Hs as Hs0.
  apply load_from_pem_Ok in Hs as (? & kp0 & _ & Hk0%KeyPair_kid & ->).
  assert (load_previous_from_pem (mkSigner kp0 None None) (pk_private_key_path prev) (pk_key_id prev)
            (pk_retires_at prev) = Ok (mkSigner kp0 (Some kp) (Some (pk_retires_at prev)))) as Hl.
  { unfold load_previous_from_pem, read_pem. rewrite Hr. simpl. apply with_previous_Ok. simpl. split; [congruence|].
    eauto. }
  eexists _, _. apply try_bind_Ok. eexists _, w. rewrite Hs0, Ep. split; [reflexivity|].
  apply try_bind_Ok. eexists _, w. rewrite Hl. by split.
Qed.

Lemma check_admin_passes c :
  env_var "" = None -> severity (check_admin c) ≠ Fail -> exists g, admin_from_config c = Ok g.
Proof.
  intros He. unfold check_admin, admin_from_config. destruct (require_admin_token c).
  - destruct (nonempty_env (admin_token_env c)) eqn:En; [|done]. intros _.
    apply nonempty_env_true in En as (v & Hv & Hne). rewrite bool_decide_false by (intros E; congruence).
    rewrite Hv, bool_decide_false by done. by eexists.
  - intros _. case_bool_decide; [by eexists|]. destruct (env_var (admin_token_env c)); [|by eexists].
    destruct (negb _); by eexists.
Qed.

Lemma resolve_providers_total l ttl acc :
  (forall id pc, (id, pc) ∈ l -> exists p, resolve_provider id pc = Ok p) ->
  exists r, resolve_providers l ttl acc = Ok r.
Proof.
  revert ttl acc. induction l as [|[id pc] l IH]; intros ttl acc Hall; cbn [resolve_providers]; [by eexists|].
  destruct (Hall id pc) as [p ->]; [left|]. simpl. apply IH. intros. apply Hall. by right.
Qed.

Lemma check_credential_severity id name env :
  severity (check_credential id name env) = if nonempty_env env then Pass else Fail.
Proof. unfold check_credential. by destruct (nonempty_env env). Qed.

Lemma check_client_severity c :
  severity (check_client c) = if nonempty_env (ic_client_secret_env c) then Pass else Fail.
Proof. unfold check_client. by destruct (nonempty_env _). Qed.

Lemma check_providers_elem o ch :
  ch ∈ check_providers o <->
  exists id pc, providers o !! id = Some pc /\
    (ch = check_credential id "client_id_env" (client_id_env pc) \/
     ch = check_credential id "client_secret_env" (client_secret_env pc)).
Proof.
  unfold check_providers. rewrite list_elem_of_In, in_concat. split.
  - intros (l & Hl & Hch). apply list_elem_of_In, list_elem_of_fmap in Hl as ([id pc] & -> & Hin).
    apply elem_of_map_to_list in Hin. exists id, pc. split; [done|]. destruct Hch as [<-|[<-|[]]]; auto.
  - intros (id & pc & Hpc & Hch). eexists. split.
    + apply list_elem_of_In, list_elem_of_fmap. exists (id, pc). split; [done|]. by apply elem_of_map_to_list.
    + simpl. destruct Hch as [->| ->]; auto.
Qed.

Lemma check_providers_pass o :
  no_fail (check_providers o) ->
  (forall id pc, providers o !! id = Some pc ->
     starts_with "https://" (discovery_url pc) = true \/ allow_http_discovery pc = true) ->
  exists r, registry_from_config o = Ok r.
Proof.
  intros Hno Hhttps. unfold registry_from_config.
  destruct (resolve_providers_total (map_to_list (providers o)) 60 ∅) as [[ps ttl] ->]; [|by eexists].
  intros id pc Hin%elem_of_map_to_list.
  assert (forall name env, check_credential id name env ∈ check_providers o -> nonempty_env env = true) as Hne.
  { intros name env Hc%Hno. rewrite check_credential_severity in Hc. by destruct (nonempty_env env). }
  assert (nonempty_env (client_id_env pc) = true) as (v1 & E1 & _)%nonempty_env_true
    by (apply (Hne "client_id_env"), check_providers_elem; eauto).
  assert (nonempty_env (client_secret_env pc) = true) as (v2 & E2 & _)%nonempty_env_true
    by (apply (Hne "client_secret_env"), check_providers_elem; eauto).
  exists (mkProvider id pc v1 v2). apply resolve_provider_ok. split; [done|]. split; [done|]. eauto.
Qed.

Lemma check_session_key_passes c :
  valid_config c -> no_fail (check_session_key (oauth2 c)) ->
  (session_store (oauth2 c) = "postgres" -> forall v,
     env_var (session_encryption_key_env (oauth2 c)) = Some v -> slen v = 64 -> exists k, from_hex_key v = Ok k) ->
  exists S, session_build c = Ok S.
Proof.
  intros Hv Hno Hkey. unfold session_build.
  destruct (valid_store _ Hv) as [->|Hp]; [rewrite bool_decide_true by done; by eexists|].
  rewrite Hp, bool_decide_false, bool_decide_true by done. unfold check_session_key in Hno.
  rewrite Hp, bool_decide_true in Hno by done.
  assert (forall c : Check, severity c = Fail -> ~ no_fail [c]) as Hbad
    by (intros ch Hc Hall; apply (Hall ch); [left|done]).
  destruct (env_var (session_encryption_key_env (oauth2 c))) as [v|]; [|by apply Hbad in Hno].
  destruct (Z.eqb_spec (slen v) 64) as [Hl|]; [|by apply Hbad in Hno].
  destruct (Hkey Hp v eq_refl Hl) as [k Hk]. simpl. rewrite Hk. by eexists.
Qed.

Lemma resolve_clients_total any cs :
  (any = true -> forall cl, cl ∈ cs -> nonempty_env (ic_client_secret_env cl) = true) ->
  exists l, resolve_clients any cs = Ok l.
Proof.
  intros Hall. induction cs as [|c cs IH]; cbn [resolve_clients]; [by eexists|].
  destruct IH as [l Hl]; [intros; apply Hall; [done|by right]|]. rewrite Hl.
  destruct (v ← env_var (ic_client_secret_env c); _) as [v|] eqn:E; [by eexists|].
  destruct any; [|by eexists]. exfalso. pose proof (Hall eq_refl c (list_elem_of_here _ _)) as Hc.
  apply nonempty_env_true in Hc as (v & Hv & Hne). rewrite Hv in E. simpl in E. by rewrite bool_decide_false in E.
Qed.

Lemma check_introspection_passes i :
  no_fail (check_introspection i) ->
  (required_client_auth i = false -> any_required i = true ->
     forall cl, cl ∈ clients i -> nonempty_env (ic_client_secret_env cl) = true) ->
  exists g, gate_from_config i = Ok g.
Proof.
  intros Hno Hun. unfold gate_from_config. destruct (resolve_clients_total (any_required i) (clients i)) as [l ->].
  - intros Hany cl Hcl. destruct (required_client_auth i) eqn:Er; [|by apply Hun].
    unfold check_introspection in Hno. rewrite Er in Hno.
    assert (check_client cl ∈ map check_client (clients i)) as Hin by (apply list_elem_of_fmap; eauto).
    assert (severity (check_client cl) ≠ Fail) as Hs by (apply Hno, elem_of_app; by right).
    rewrite check_client_severity in Hs. by destruct (nonempty_env _).
  - by eexists.
Qed.

(** What a start depends on and the doctor does not look at. *)
Record unchecked (c : AppConfig) : Prop := {
  un_hex : session_store (oauth2 c) = "postgres" -> forall v,
    env_var (session_encryption_key_env (oauth2 c)) = Some v -> slen v = 64 -> exists k, from_hex_key v = Ok k;
  un_https : forall id pc, providers (oauth2 c) !! id = Some pc ->
    starts_with "https://" (discovery_url pc) = true \/ allow_http_discovery pc = true;
  un_gates : required_client_auth (introspection c) = false -> any_required (introspection c) = true ->
    forall cl, cl ∈ clients (introspection c) -> nonempty_env (ic_client_secret_env cl) = true;
  un_addr : is_Some (parse_socket_addr (listen_text (server c)));
  un_cors : router_builds c = true;
}.

(** The database answers and the port is free. *)
Definition infrastructure_up : Prop :=
  (forall n o u, pool_connect n o u = None) /\ (forall n, migrate n = None) /\ (forall n a, bind_listener n a = None).

Lemma boot_total path c w :
  infrastructure_up -> ConfigLoad.load path = Ok c -> valid_config c ->
  (exists sl w1, load_signer (jwt c) w = (Ret (Ok sl), w1)) ->
  (exists u, env_var (url_env (database c)) = Some u) ->
  (forall sg, exists s, build_state c sg = Ok s) ->
  is_Some (parse_socket_addr (listen_text (server c))) -> router_builds c = true ->
  exists run w', boot path w = (Ret (Ok run), w').
Proof.
  intros (Hconn & Hmig & Hbind) Hl Hv (sl & w1 & Hsg) [u Hu] Hstate [addr Ha] Hr.
  destruct (Hstate (fst sl)) as [s Hs].
  assert (exists w2, open_database (database c) w1 = (Ret (Ok tt), w2)) as [w2 Hdb].
  { destruct (auto_migrate (database c)) eqn:Em; eexists; apply open_database_Ok; exists u; rewrite Em; by repeat split. }
  eexists _, _. unfold boot. apply try_bind_Ok. exists c, w. split; [by apply mret_Ok; split; [apply load_config_Ok|]|].
  apply try_bind_Ok. exists sl, w1. split; [done|]. apply try_bind_Ok. exists tt, w2. split; [done|].
  apply try_bind_Ok. exists s, w2. rewrite Hs. split; [done|]. apply try_bind_Ok. exists addr, w2. rewrite Ha.
  split; [done|]. rewrite Hr. apply try_bind_Ok. exists tt, (bump w2). split; [|reflexivity].
  unfold listen, ask, mbind, M_bind, mret, M_ret. by rewrite Hbind.
Qed.

(** Membership in a report, block by block. *)
Ltac in_report := repeat (rewrite elem_of_app || rewrite elem_of_cons); tauto.

(** C36: If tim doctor exits with 0, the service starts: for the same configuration,
    environment and files boot reaches the socket, provided the database and the port
    are there, no variable has the empty name, and what the doctor does not look at
    holds (a key that is hex, https discovery URLs, secrets of gates other than
    introspection, a parsable address, a usable CORS list). *)
Theorem doctor_foretells_start path c w r w1 w2 :
  ConfigLoad.load path = Ok c -> Doctor.run path w = (Ret r, w1) -> exit_code r false = 0 ->
  unchecked c -> infrastructure_up -> env_var "" = None ->
  exists run w3, boot path w2 = (Ret (Ok run), w3).
Proof.
  intros Hl Hrun Hno%exit_code_zero [Hhex Hhttps Hgates Haddr Hcors] Hinf Hempty.
  destruct (doctor_run_Ret path w) as (r' & w' & E & Hr). rewrite Hrun in E. injection E as <- <-. rewrite Hl in Hr.
  destruct Hr as (prev & Hprev & Er). unfold no_fail in Hno. rewrite Er in Hno.
  assert (forall ch : Check, ch ∈ [check_validate c; check_private_key (jwt c); check_database (database c);
      check_admin (security c)] -> severity ch ≠ Fail) as Hsingle
    by (intros ch Hch; apply Hno; rewrite !elem_of_cons, elem_of_nil in Hch; in_report).
  assert (valid_config c) as Hv.
  { apply validate_spec. pose proof (Hsingle (check_validate c) ltac:(left)) as Hc. unfold check_validate in Hc.
    by destruct (Config.validate c) as [[]|]. }
  apply (boot_total path c); try done.
  - apply load_signer_total; [by apply check_private_key_passes, Hsingle; in_report|].
    destruct (check_previous_key_run (jwt c) w) as (l & w'' & El & Hpass). rewrite Hprev in El. injection El as <- <-.
    apply Hpass. intros ch Hch. apply Hno. in_report.
  - pose proof (Hsingle (check_database (database c)) ltac:(in_report)) as Hc. unfold check_database in Hc.
    destruct (nonempty_env _) eqn:En; [|done]. apply nonempty_env_true in En as (v & ? & _). eauto.
  - intros sg. destruct (check_providers_pass (oauth2 c)) as [reg Hreg];
      [intros ch Hch; apply Hno; in_report|done|].
    destruct (check_session_key_passes c Hv) as [S HS]; [intros ch Hch; apply Hno; in_report|done|].
    destruct (check_admin_passes (security c) Hempty) as [a Ha]; [apply Hsingle; in_report|].
    destruct (check_introspection_passes (introspection c)) as [g Hg]; [intros ch Hch; apply Hno; in_report|done|].
    eexists. unfold build_state. rewrite Hreg. simpl. rewrite HS. simpl. rewrite Ha. simpl. by rewrite Hg.
Qed.

(** And when the service did start, each FAIL has one of three explanations. *)
Lemma posture_no_fail c ch : ch ∈ check_posture c -> severity ch ≠ Fail.
Proof.
  unfold check_posture, warn_when. repeat (rewrite elem_of_app || case_match); rewrite ?elem_of_cons, ?elem_of_nil;
    intros Hch; intuition (subst; done).
Qed.

Lemma started_key_passes j sg :
  (forall p t, read_to_string p = Ok t -> path_exists p = true) -> signer_for j sg ->
  severity (check_private_key j) ≠ Fail.
Proof.
  intros Hex [Hcur _ _ _]. unfold check_private_key. pose proof Hcur as (pem & kp & Hr & _ & _)%load_from_pem_Ok.
  by rewrite (Hex _ _ Hr), Hcur.
Qed.

Lemma started_previous_passes j sg w l w' :
  (forall p t, read_to_string p = Ok t -> path_exists p = true) -> (forall prev, previous_key j = Some prev -> pk_key_id prev ≠ cfg_key_id j) -> signer_for j sg ->
  check_previous_key j w = (Ret l, w') -> no_fail l.
Proof.
  intros Hex Hne [_ _ _ Hprev]. unfold check_previous_key. destruct (previous_key j) as [prev|] eqn:Ep.
  - destruct Hprev as (kp & _ & _ & Hload & _). rewrite bool_decide_false by (by apply Hne).
    pose proof Hload as (pem & ? & Hr & _ & _)%load_from_pem_Ok. rewrite (Hex _ _ Hr), Hload. simpl.
    unfold utc_now, ask, mbind, M_bind, mret, M_ret. intros [= <- <-] ch ->%list_elem_of_singleton.
    unfold retirement_check. by destruct (retirement _ _ _).
  - intros [= <- <-] ch Hch. by apply not_elem_of_nil in Hch.
Qed.

Lemma started_introspection_passes i g :
  (required_client_auth i = true -> clients i ≠ []) -> gate_from_config i = Ok g -> no_fail (check_introspection i).
Proof.
  unfold gate_from_config, check_introspection. intros Hne (l & Hl & _)%rbind_Ok ch.
  destruct (required_client_auth i) eqn:Er; [|by intros ->%list_elem_of_singleton].
  rewrite bool_decide_false by auto. simpl. intros (cl & -> & Hcl)%list_elem_of_fmap.
  assert (any_required i = true) as Ha by (unfold any_required; by rewrite Er). rewrite Ha in Hl.
  apply resolve_clients_all in Hl.
  rewrite check_client_severity. assert (nonempty_env (ic_client_secret_env cl) = true) as ->; [|done].
  apply list_elem_of_lookup_1 in Hcl as [n Hn]. destruct (Forall2_lookup_l _ _ _ _ _ Hl Hn) as (rc & _ & _ & Hrc & He).
  apply nonempty_env_true. eauto.
Qed.

Lemma started_admin_passes c g : admin_from_config c = Ok g -> severity (check_admin c) ≠ Fail.
Proof.
  intros Hg. unfold check_admin. destruct (require_admin_token c) eqn:Er; [|done].
  destruct (admin_resolved c g Hg Er) as (t & _ & Hne & He).
  assert (nonempty_env (admin_token_env c) = true) as ->; [|done]. apply nonempty_env_true. eauto.
Qed.

Lemma empty_env_fails name v :
  env_var name = Some v -> (if nonempty_env name then Pass else Fail) = Fail -> env_var name = Some "".
Proof.
  intros Hv. destruct (nonempty_env name) eqn:En; [done|]. intros _. rewrite Hv. f_equal.
  unfold nonempty_env in En. rewrite Hv in En. by apply negb_false_iff, bool_decide_eq_true in En.
Qed.

(** The three explanations. *)
Definition explained (c : AppConfig) (ch : Check) : Prop :=
  (ch = check_database (database c) /\ env_var (url_env (database c)) = Some "") \/
  (exists id pc name env, providers (oauth2 c) !! id = Some pc /\ ch = check_credential id name env /\
     env_var env = Some "") \/
  (ch ∈ check_session_key (oauth2 c) /\ exists v k,
     env_var (session_encryption_key_env (oauth2 c)) = Some v /\ slen v ≠ 64 /\ from_hex_key v = Ok k).

Lemma started_session_key c S ch :
  session_build c = Ok S -> ch ∈ check_session_key (oauth2 c) -> severity ch = Fail -> explained c ch.
Proof.
  intros HS Hch Hf. right; right. split; [done|]. revert HS Hch. unfold session_build, check_session_key.
  destruct (decide (session_store (oauth2 c) = "postgres")) as [Hp|Hp];
    [|rewrite (bool_decide_false _ Hp); by intros _ Hch%not_elem_of_nil].
  rewrite Hp, bool_decide_false, bool_decide_true by done. intros (v & ->%ok_or_Ok & (k & Hk & _)%rbind_Ok)%rbind_Ok.
  intros ->%list_elem_of_singleton. destruct (Z.eqb_spec (slen v) 64); [done|]. eauto.
Qed.

(** C37: If the service starts, every FAIL of the doctor has one of three explanations:
    an empty but set database URL, an empty but set provider credential, or a session
    key with white space around its 64 digits (anything that is not 64 bytes long and
    yet decodes). *)
Theorem start_explains_fails path w run w1 w0 r w2 ch :
  (forall p t, read_to_string p = Ok t -> path_exists p = true) ->
  boot path w = (Ret (Ok run), w1) -> Doctor.run path w0 = (Ret r, w2) ->
  ch ∈ checks r -> severity ch = Fail -> explained (config (run_state run)) ch.
Proof.
  intros Hex Hboot Hrun Hch Hf. assert (exists u, env_var (url_env (database (config (run_state run)))) = Some u) as [u Hu].
  { revert Hboot. unfold boot. intros (c & ? & [Hc ->]%mret_Ok & (sl & ? & _ & (x & ? & Hdb & Hr)%try_bind_Ok)%try_bind_Ok)%try_bind_Ok.
    apply open_database_Ok in Hdb as (u & Hu & _).
    apply try_bind_Ok in Hr as (s & ? & [Hs%of_tim_Ok%build_state_parts ->]%mret_Ok & Hr).
    apply try_bind_Ok in Hr as (a & ? & _ & Hr). destruct (router_builds c); [|done].
    apply try_bind_Ok in Hr as (? & ? & _ & [[= <-] _]%mret_Ok). destruct Hs as (Ec & _). simpl in *. rewrite Ec. eauto. }
  apply boot_Ok in Hboot as [[Hv Hl Hsg (_ & _ & _ & Hp & HS & Ha & Hg)%build_state_parts _ _ _] _].
  destruct (doctor_run_Ret path w0) as (r' & w' & E & Hr). rewrite Hrun in E. injection E as <- <-. rewrite Hl in Hr.
  set (c := config (run_state run)) in *. destruct Hr as (prev & Hprev & Er). rewrite Er in Hch.
  pose proof (started_key_passes _ _ Hex Hsg) as Hk.
  pose proof (started_previous_passes _ _ _ _ _ Hex (fun p E => proj2 (valid_previous _ Hv p E)) Hsg Hprev ch) as Hpv.
  pose proof (started_admin_passes _ _ Ha) as Had.
  pose proof (started_introspection_passes _ _ (valid_introspection _ Hv) Hg ch) as Hin.
  pose proof (posture_no_fail c ch) as Hpo.
  assert (severity (check_validate c) ≠ Fail) as Hva
    by (unfold check_validate; by rewrite (proj2 (validate_spec c) Hv)).
  repeat (rewrite elem_of_app in Hch || rewrite elem_of_cons in Hch).
  destruct Hch as [[->|[->|[->|Hnil]]]|[Hch|[[->|[->|Hnil]]|[Hch|[Hch|[Hch|Hch]]]]]]; try tauto;
    try (by apply not_elem_of_nil in Hnil); try done.
  - left. split; [done|]. revert Hf. unfold check_database.
    intros Hf. eapply empty_env_fails; [exact Hu|]. by destruct (nonempty_env _).
  - by eapply started_session_key.
  - right; left. apply check_providers_elem in Hch as (id & pc & Hpc & Hch).
    destruct (registry_resolves _ _ _ _ Hp Hpc) as (p & _ & _ & _ & E1 & E2).
    destruct Hch as [->| ->]; rewrite check_credential_severity in Hf;
      eexists id, pc, _, _; (split; [done|]); (split; [reflexivity|]); by eapply empty_env_fails.
Qed.
End BootTheorems.
