(* ===== verification/StackTheorems.v ===== *)
(** What the layers around the routes promise: the trace context and the log
    line of an answer, what a log line can tell about a request, and what pages
    of other origins see of a service that was started. *)
From S2P Require Import Prelude Str Chrono Json Error World Effects Jose Claims Config ConfigLoad Crypto.
From S2P Require Import JwtApi JwtService Introspect Security SessionCrypto SessionStore Outbound Registry IdToken.
From S2P Require Import Flow Axum AccessLog Router RouterTheorems Boot BootTheorems.

Section Stack.
Context `{Env, J : Jose, Chrono, UuidLib, SerdeJson, ChronoSerde, HttpLib, Net, FlowLib, AxumLib} {JK : JwkKeys J}.
Implicit Type s : AppState.

(** ** Headers through the outer layers *)

Lemma static_header_kept l hs name v :
  header hs name = Some v -> header (add_static_headers l hs) name = Some v.
Proof. intros Hh. unfold add_static_headers. by rewrite !set_if_not_present_header, Hh. Qed.

Lemma set_allow_header req hs name : name ≠ "allow" -> header (set_allow req hs) name = header hs name.
Proof.
  intros Hne. unfold set_allow. destruct (requested req) as [r|]; [|done].
  destruct (method_allowed r (rq_method req)); [done|]. rewrite set_if_not_present_header.
  rewrite bool_decide_false by done. by destruct (header hs name).
Qed.

(** A header that is none of the CORS protocol. *)
Definition plain_header (name : string) : Prop :=
  starts_with "access-control-" name = false /\ name ≠ "vary" /\ name ≠ "allow".

(** An answer is logged if and only if it is none to a preflight; what the middleware
    put on it is still there at the end. *)
Lemma serve_logged_Ret `{!HttpLaws _} s req w resp line w' :
  serve_logged s req w = (Ret (resp, line), w') ->
  match line with
  | None => exists l hs, cors (build_layers (security (config s))) = Some l /\
      cors_preflight l (rq_method req) (rq_headers req) = Some hs /\ w' = w /\
      resp = mkResponse 200 (set_allow req hs) (BText "")
  | Some l => preflight s req = None /\
      exists r, access_log_middleware req (matched_path req) (limited s req) w = (Ret (r, l), w') /\
        resp_status resp = resp_status r /\
        forall name v, plain_header name -> header (resp_headers r) name = Some v ->
          header (resp_headers resp) name = Some v
  end.
Proof.
  unfold serve_logged, cors_layer, preflight. destruct (cors _) as [l|]; simpl.
  1: destruct (cors_preflight l _ _) as [hs|] eqn:Ep; [intros [= <- <- <-]; by exists l, hs|].
  all: intros Hrun; unfold logged in Hrun; minv.
  all: repeat match goal with E : (_, _) = (_, _) |- _ => injection E as ?; subst | x : (Response * _)%type |- _ => destruct x end.
  all: simpl in *; injection Hrun; intros; subst; (split; [done|]); eexists; (split; [eassumption|]); (split; [done|]).
  all: intros name v (Hc & Hv & Ha) Hh; simpl; rewrite set_allow_header by done; rewrite ?extend_other by done;
    by apply static_header_kept.
Qed.


(** ** What a log line can tell *)

Definition route_patterns : list string :=
  map fst static_routes ++ map (fun kv => fst kv +:+ ":id") param_routes.

Lemma matched_pattern req p : matched_path req = Some p -> p ∈ route_patterns.
Proof.
  unfold matched_path, match_route, route_patterns. set (path := uri_path _). intros Hm.
  apply elem_of_app. change (map ?f ?l) with (f <$> l). destruct (assoc path static_routes) as [r|] eqn:E.
  - injection Hm as <-. left. apply list_elem_of_fmap. unfold assoc in E.
    destruct (find_first _ static_routes) as [[k r']|] eqn:Ef; [|done].
    apply find_first_Some in Ef as [Hin Hk%bool_decide_eq_true]. by exists (k, r').
  - right. clear E. induction param_routes as [|[prefix f] l IH]; [done|].
    rewrite fmap_cons, elem_of_cons. cbn [param_route] in Hm.
    destruct (strip_prefix prefix path) as [id|]; [destruct (_ || _)|]; [right; by apply IH| |right; by apply IH].
    left. by injection Hm as <-.
Qed.

(** The trace identifier of a request that is served at an instant. *)
Definition trace_id_of (req : Request) (t : nat) : string :=
  match (tp ← header_str (rq_headers req) "traceparent"; well_formed_traceparent (split_on "-" tp)) with
  | Some (tid, _) => tid
  | None => hex_encode (random_bytes t 16)
  end.

Lemma parse_trace_id req w tid flags w' :
  parse_or_generate_trace_id req w = (Ret (tid, flags), w') -> tid = trace_id_of req (tick w).
Proof.
  unfold parse_or_generate_trace_id, trace_id_of.
  destruct (header_str (rq_headers req) "traceparent" ≫= _) as [[t f]|]; by intros [= <- _ _].
Qed.

Lemma access_line_fields req matched next w r line w' :
  access_log_middleware req matched next w = (Ret (r, line), w') ->
  line = mkAccessLine (rq_method req) (default "<unmatched>" matched) (resp_status r) (al_duration_us line)
           (trace_id_of req (tick w)).
Proof.
  intros Hrun. unfold access_log_middleware, elapsed in Hrun. minv. subst.
  match goal with E : parse_or_generate_trace_id _ _ = (Ret ?x, _) |- _ =>
    destruct x as [tid flags]; apply parse_trace_id in E as -> end.
  minv. by injection Hrun as <- <- _.
Qed.

(** C39: The access log tells no more of a request than its method, the pattern of its
    route, the status, the duration and the trace identifier: two requests of one
    pattern that are answered with one status and carry the same traceparent leave the
    same line but for its duration, whatever their paths, queries, bodies and other
    headers hold. *)
Theorem log_reveals_pattern_only `{!HttpLaws _} s req1 req2 w1 w2 r1 r2 l1 l2 w1' w2' :
  matched_path req1 = matched_path req2 -> rq_method req1 = rq_method req2 ->
  header_str (rq_headers req1) "traceparent" = header_str (rq_headers req2) "traceparent" ->
  tick w1 = tick w2 ->
  serve_logged s req1 w1 = (Ret (r1, Some l1), w1') -> serve_logged s req2 w2 = (Ret (r2, Some l2), w2') ->
  resp_status r1 = resp_status r2 ->
  al_route l1 ∈ "<unmatched>" :: route_patterns /\
  l2 = mkAccessLine (al_method l1) (al_route l1) (al_status l1) (al_duration_us l2) (al_trace_id l1).
Proof.
  intros Hroute Hmethod Htp Htick (_ & x1 & Hx1 & Hs1 & _)%serve_logged_Ret (_ & x2 & Hx2 & Hs2 & _)%serve_logged_Ret Hst.
  apply access_line_fields in Hx1 as ->, Hx2 as ->. simpl. split.
  - destruct (matched_path req1) as [p|] eqn:E; simpl; [|by left]. right. by eapply matched_pattern.
  - unfold trace_id_of. rewrite Hroute, Hmethod, Htp, Htick. f_equal. congruence.
Qed.
End Stack.

(** ** Pages of other origins *)

Section Origins.
Context `{Env, J : Jose, Chrono, UuidLib, SerdeJson, ChronoSerde, HttpLib, Net, FlowLib, AxumLib, Aead} {JK : JwkKeys J}.
Context `{Files, YamlLib, PgLib, ChronoText}.

(** The CORS layer of a router that was built. *)
Lemma built_cors `{!HttpLaws _} c :
  router_builds c = true ->
  (cors (build_layers (security c)) = None /\ cors_allowed_origins (security c) = []) \/
  (cors (build_layers (security c)) = Some (mkCors OriginAny true true false) /\ "*" ∈ cors_allowed_origins (security c)).
Proof.
  unfold router_builds, build_layers, build_cors. simpl. case_bool_decide as He; [by left|].
  destruct (existsb _ _) eqn:E.
  - intros _. right. split; [done|]. by apply existsb_exists_bool in E as (x & Hx & ->%bool_decide_eq_true).
  - by rewrite cors_no_wildcard.
Qed.

End Origins.
