(* ===== verification/SweeperLiveness.v ===== *)
(** The background task never stops: [spawn] of [src/oauth2/state_sweeper.rs].

    An execution of the task is an infinite sequence of rounds ([sweep_round] of
    Flow.v) with the traffic of requests between them.  A round may fail; as
    long as rounds keep succeeding now and then and the clock moves on, every
    session that is not created anew is eventually removed for good. *)
From S2P Require Import Prelude Str Chrono Json Error World Effects Jose Claims Config Crypto.
From S2P Require Import SessionCrypto SessionStore MemoryStore PostgresStore Outbound Registry IdToken Flow.

(** What a sweep may do to a store, also when it fails. *)
Class SweepSafe (S : SessionStore) (stored : World -> gmap string Session) (well : World -> Prop) : Prop :=
  sweep_any : forall w o w', well w -> ss_sweep_expired w = (o, w') ->
    well w' /\ forall id, stored w' !! id = stored w !! id \/ stored w' !! id = None.

Section Stores.
Context `{Env, Aead, SerdeJson}.

#[export] Instance memory_sweep_safe ttl : SweepSafe (MemoryStore ttl) mem_sessions (fun _ => True).
Proof.
  intros w o w' _. simpl. unfold memory_sweep_expired, mem_map, set_mem_map, mbind, M_bind, utc_now, ask. simpl.
  intros [= <- <-]. split; [done|]. intros id. simpl. rewrite sweep_map, map_lookup_filter.
  destruct (mem_sessions w !! id) as [s|]; simpl; [|by left]. case_guard; auto.
Qed.

#[export] Instance postgres_sweep_safe ttl c : SweepSafe (PostgresStore ttl c) (pg_stored c) (pg_well c).
Proof.
  intros w o w' Hw Hrun.
  assert (forall id, session_rows (pg w') !! id = session_rows (pg w) !! id \/ session_rows (pg w') !! id = None) as Hr.
  { revert Hrun. simpl. unfold postgres_sweep_expired. intros Hrun.
    refine (wp_eq _ _ _ _ (fun _ w' => forall id, session_rows (pg w') !! id = session_rows (pg w) !! id \/
      session_rows (pg w') !! id = None) Hrun _). apply wp_sql. intros now. apply wp_stmt.
    1: intros a p [= _ <-] id. 2: intros o1 _ id; by left. 2: intros o1 r p _ [= _ <-] id.
    all: simpl; rewrite map_lookup_filter; destruct (session_rows (pg w) !! id); simpl; [|auto]; case_guard; auto. }
  split.
  - intros id r Hid. apply (Hw id r). destruct (Hr id) as [<-|E]; [done|by rewrite E in Hid].
  - intros id. rewrite !pg_stored_lookup. destruct (Hr id) as [->| ->]; auto.
Qed.
End Stores.

Section Sweeper.
Context `{Env} {S : SessionStore} {stored : World -> gmap string Session} {store_now : World -> Z}
  {well : World -> Prop} {Spec : StoreSpec S stored store_now well} {Safe : SweepSafe S stored well}
  {Frame : StoreFrame stored well}.

Lemma sweep_oauth_frame age w o w' :
  sweep_oauth_state age w = (o, w') ->
  mem_sessions w' = mem_sessions w /\ session_rows (pg w') = session_rows (pg w).
Proof.
  intros Hrun. refine (wp_eq _ _ _ _ (fun _ w' => mem_sessions w' = mem_sessions w /\
    session_rows (pg w') = session_rows (pg w)) Hrun _).
  apply wp_sql. intros now. apply wp_stmt; [intros a p [= _ <-]|intros o1 _|intros o1 r p _ [= _ <-]]; done.
Qed.

(** One round, whether its sweeps succeed or not. *)
Lemma sweep_round_step age w o w' :
  well w -> sweep_round S age w = (o, w') ->
  well w' /\ (forall id, stored w' !! id = stored w !! id \/ stored w' !! id = None) /\
  forall n w1 id s, ss_sweep_expired w = (Ret n, w1) -> stored w !! id = Some s ->
    is_expired s (store_now w) = true -> stored w' !! id = None.
Proof.
  intros Hw Hrun. destruct (ss_sweep_expired w) as [o1 w1] eqn:Es.
  pose proof (sweep_any w o1 w1 Hw Es) as [Hw1 Hone].
  assert (w' = w1 \/ exists o2, sweep_oauth_state age w1 = (o2, w')) as Hend.
  { revert Hrun. unfold sweep_round, attempt, mbind, M_bind. rewrite Es.
    destruct o1 as [a|e| |c]; [| |by intros [= _ <-]; left|by intros [= _ <-]; left];
      (destruct (sweep_oauth_state age w1) as [[]]; intros [= _ <-]; right; by eexists). }
  assert (well w' /\ stored w' = stored w1) as [Hw' Hst].
  { destruct Hend as [->|(o2 & [Hm Hr]%sweep_oauth_frame)]; [done|]. by apply (store_frame w1). }
  split; [done|]. rewrite Hst. split; [done|]. intros n w1' id s [= -> <-] Hs He.
  apply (@sweep_law _ _ _ _ Spec) in Es as (_ & -> & _); [|done].
  apply map_lookup_filter_None. right. intros s' Hs'. simplify_eq. simpl. by rewrite He.
Qed.

(** What a session can meet between two rounds: it is not created anew and its
    expiry does not move. *)
Definition leaves_session (id : string) (w w' : World) : Prop :=
  well w -> well w' /\
  forall s', stored w' !! id = Some s' -> exists s, stored w !! id = Some s /\ s_expires_at s' = s_expires_at s.

#[export] Instance leaves_session_preorder id : PreOrder (leaves_session id).
Proof.
  split; [intros w Hw; split; [done|eauto]|]. intros w1 w2 w3 H12 H23 Hw1.
  destruct (H12 Hw1) as [Hw2 He2]. destruct (H23 Hw2) as [Hw3 He3]. split; [done|].
  intros s3 (s2 & (s1 & Hs1 & E1)%He2 & E2)%He3. exists s1. split; [done|congruence].
Qed.

(** Every operation of the store leaves it, and so does the creation of another. *)
Lemma store_op_leaves op w w' id : run_store_op op w = (Ret tt, w') -> leaves_session id w w'.
Proof.
  intros Hrun Hw. destruct op as [i|i|i|]; simpl in Hrun; minv.
  - apply (@get_law _ _ _ _ Spec) in E as (Hw' & _ & Hs); [|done]. split; [done|]. intros s' Hs'.
    destruct (Hs id) as [E|[E _]]; rewrite E in Hs'; [eauto|done].
  - apply (@touch_law _ _ _ _ Spec) in Hrun as (Hw' & Ho & t & Ht); [|done]. split; [done|]. intros s' Hs'.
    destruct (decide (id = i)) as [->|]; [|rewrite Ho in Hs' by done; eauto].
    destruct Ht as [Ht|[Ht _]]; rewrite Ht in Hs'; [|eauto].
    apply fmap_Some in Hs' as (s & Hs & ->). eauto.
  - apply (@revoke_law _ _ _ _ Spec) in E as (Hw' & E & _); [|done]. split; [done|]. intros s' Hs'.
    rewrite E in Hs'. apply lookup_delete_Some in Hs' as [_ Hs']. eauto.
  - apply (@sweep_law _ _ _ _ Spec) in E as (Hw' & E & _); [|done]. split; [done|]. intros s' Hs'.
    rewrite E in Hs'. apply map_lookup_filter_Some in Hs' as [Hs' _]. eauto.
Qed.

Lemma create_leaves s w w' id :
  s_id s ≠ id -> canonical (VObject (map_fields (s_profile s))) = true ->
  ss_create s w = (Ret tt, w') -> leaves_session id w w'.
Proof.
  intros Hne Hc Hrun Hw. apply (@create_law _ _ _ _ Spec) in Hrun as [Hw' E]; [|done..]. split; [done|].
  intros s' Hs'. rewrite E, lookup_insert_ne in Hs' by done. eauto.
Qed.

(** An execution of the background task: [W n] is the state in which its n-th
    round begins and [V n] the one in which it ends. *)
Record execution (age : Z) (id : string) (W V : nat -> World) : Prop := {
  ex_well : well (W 0%nat);
  ex_round : forall n, sweep_round S age (W n) = (Ret tt, V n);
  ex_traffic : forall n, leaves_session id (V n) (W (Datatypes.S n));
}.

(** Rounds keep succeeding and the clock passes every instant. *)
Definition fair (W : nat -> World) : Prop :=
  (forall k, exists n m w, (k <= n)%nat /\ ss_sweep_expired (W n) = (Ret m, w)) /\
  (forall t, exists k, forall n, (k <= n)%nat -> t <= store_now (W n)).

Lemma execution_well age id W V : execution age id W V -> forall n, well (W n) /\ well (V n).
Proof.
  intros [H0' Hr Ht] n. assert (forall n, well (W n) -> well (V n)) as HV
    by (intros k Hk; by destruct (sweep_round_step age (W k) _ _ Hk (Hr k))).
  induction n as [|n [_ IH]]; [by split; [|apply HV]|].
  destruct (Ht n IH) as [HW _]. split; [done|by apply HV].
Qed.

(** What is stored later was there before, with the same expiry. *)
Lemma execution_back age id W V n k s :
  execution age id W V -> stored (W (n + k)%nat) !! id = Some s ->
  exists s0, stored (W n) !! id = Some s0 /\ s_expires_at s = s_expires_at s0.
Proof.
  intros Hex. revert s. induction k as [|k IH]; intros s; [rewrite Nat.add_0_r; eauto|].
  rewrite Nat.add_succ_r. intros Hs. destruct (execution_well _ _ _ _ Hex (n + k)) as [HW HV].
  destruct (proj2 (ex_traffic _ _ _ _ Hex (n + k)%nat HV) s Hs) as (s1 & Hs1 & E1).
  destruct (sweep_round_step age _ _ _ HW (ex_round _ _ _ _ Hex (n + k)%nat)) as (_ & Hsub & _).
  destruct (Hsub id) as [E|E]; rewrite E in Hs1; [|done].
  destruct (IH s1 Hs1) as (s0 & ? & ?). exists s0. split; [done|congruence].
Qed.

Lemma execution_gone age id W V n k :
  execution age id W V -> stored (V n) !! id = None -> stored (V (n + k)%nat) !! id = None.
Proof.
  intros Hex Hn. destruct k as [|k]; [by rewrite Nat.add_0_r|]. rewrite Nat.add_succ_r.
  destruct (execution_well _ _ _ _ Hex (Datatypes.S (n + k))) as [HW _].
  destruct (sweep_round_step age _ _ _ HW (ex_round _ _ _ _ Hex _)) as (_ & Hsub & _).
  destruct (Hsub id) as [->|]; [|done].
  destruct (stored (W (Datatypes.S (n + k))) !! id) as [s|] eqn:E; [exfalso|done].
  rewrite <- Nat.add_succ_l in E. apply (execution_back _ _ _ _ _ _ _ Hex) in E as (s0 & Hs0 & _).
  destruct (execution_well _ _ _ _ Hex n) as [_ HV].
  destruct (proj2 (ex_traffic _ _ _ _ Hex n HV) s0 Hs0) as (s1 & Hs1 & _). congruence.
Qed.

(** C33: However requests and failing rounds interleave with it: as long as rounds of
    the background task keep succeeding and the clock moves on, a session that is not
    created anew is eventually removed and stays removed. *)
Theorem sweeper_removes age id W V :
  execution age id W V -> fair W -> exists n, forall m, (n <= m)%nat -> stored (V m) !! id = None.
Proof.
  intros Hex [Hfair Hclock]. destruct (execution_well _ _ _ _ Hex 0) as [HW0 _].
  set (t := match stored (W 0%nat) !! id with Some s => s_expires_at s | None => 0 end).
  destruct (Hclock t) as (k & Hk). destruct (Hfair k) as (n & m & w & Hn & Hsweep).
  assert (stored (V n) !! id = None) as Hgone.
  { destruct (execution_well _ _ _ _ Hex n) as [HW _].
    destruct (sweep_round_step age _ _ _ HW (ex_round _ _ _ _ Hex n)) as (_ & Hsub & Hsw).
    destruct (stored (W n) !! id) as [s|] eqn:Es.
    - eapply Hsw; [done..|]. unfold is_expired. apply Z.leb_le.
      destruct (execution_back _ _ _ _ 0 n s Hex Es) as (s0 & Hs0 & ->). specialize (Hk n Hn).
      unfold t in Hk. by rewrite Hs0 in Hk.
    - destruct (Hsub id) as [->|]; [done|done]. }
  exists n. intros m' Hm'. replace m' with (n + (m' - n))%nat by lia. by eapply execution_gone.
Qed.
End Sweeper.
