(* ===== verification/ToyWeb.v ===== *)
(** The concrete deployment of Toy.v, continued: an identity provider, an AEAD
    that does not encrypt, header texts that are always readable. *)
From S2P Require Import Prelude Str Chrono Json Error World Effects Jose Claims Config Crypto.
From S2P Require Import JwtApi JwtService JwtTheorems Toy Security SessionCrypto SessionStore.
From S2P Require Import MemoryStore PostgresStore Outbound Registry IdToken Flow.

#[export] Instance toy_serde_laws : SerdeLaws toy_serde.
Proof.
  split. intros v _. exists (bits_of_pos (countable.encode v)). split; [done|].
  simpl. rewrite pos_of_bits_of_pos. simpl. apply decode_encode.
Qed.

#[export] Instance toy_aead : Aead := {
  encrypt _ _ p := Ok p;
  decrypt _ _ c := Ok c;
}.
#[export] Instance toy_aead_laws : AeadLaws toy_aead.
Proof. split; intros k n p c [= ->]; done. Qed.

#[export] Instance toy_http : HttpLib := {
  header_to_str v := Some v;
  header_value_ok _ := true;
  query_session_id _ := None;
  b64_decode s := strip_prefix "=" s;
  b64_encode s := "=" +:+ s;
  cors_usable l := negb (cors_credentials l && cors_headers_any l);
  cors_preflight l m _ := if bool_decide (m = "OPTIONS") then Some [("access-control-allow-origin", "*")] else None;
  cors_extend l _ hs := ("access-control-allow-origin", "*") :: hs;
}.

Lemma trim_start_equals s : trim_start ("=" +:+ s) = "=" +:+ s.
Proof.
  unfold trim_start. destruct (chars ("=" +:+ s)) as [|c cs] eqn:E.
  - by rewrite <- (concat_chars ("=" +:+ s)), E.
  - rewrite drop_while_head; [by rewrite <- E, concat_chars|].
    unfold is_whitespace. apply bool_decide_eq_false. intros Hin.
    assert (exists r, c = String "=" r) as [r ->].
    { change ("=" +:+ s) with (String "=" s) in E. cbn [chars] in E.
      destruct (starts_cont s), (chars s); simplify_eq; by eexists. }
    assert (Forall (fun w => forall r, w <> String "=" r) white_space) as Hall
      by (vm_compute; repeat constructor; intros r' H'; discriminate H').
    rewrite list.Forall_forall in Hall. exact (Hall _ Hin r eq_refl).
Qed.

#[export] Instance toy_http_laws : HttpLaws toy_http.
Proof.
  split; simpl.
  - by intros v s [= ->].
  - intros s. done.
  - apply trim_start_equals.
  - done.
  - by intros l -> ->.
  - intros l m rq hs. case_bool_decide; [done|by intros [=]].
  - intros l m rq hs _ _. case_bool_decide; [|by intros [=]]. intros [= <-]. split; [done|]. split; [done|].
    intros name Hn _. simpl. case_bool_decide; [by subst|done].
  - done.
  - done.
  - intros l rq hs name Hn _. case_bool_decide; [by subst|done].
Qed.

(** ** The provider *)

Definition toy_discovery : Discovery :=
  mkDiscovery "https://idp" "https://idp/auth" "https://idp/token" None "https://idp/jwks" [] [].

Definition toy_text (v : Value) : string := default "" (json_to_vec v).

Definition toy_discovery_json : Value :=
  VObject [("issuer", VString "https://idp"); ("authorization_endpoint", VString "https://idp/auth");
           ("token_endpoint", VString "https://idp/token"); ("jwks_uri", VString "https://idp/jwks")].

(** The provider's key is 7; its ID token answers the nonce that the toy random
    source draws. *)
Definition toy_nonce : string := hex_encode (zeros 32).
Definition toy_id_token_for (nonce : string) : string :=
  match jwt_encode (mkHeader RS256 None)
          [("iss", VString "https://idp"); ("sub", VString "bob"); ("aud", VString "client");
           ("exp", VInt 1700000060); ("iat", VInt 1700000000); ("nonce", VString nonce)] 7%N with
  | Ok t => t
  | Err _ => ""
  end.
Definition toy_id_token : string := toy_id_token_for toy_nonce.

Definition toy_net_for (nonce : string) : Net := {|
  http_get _ url :=
    HttpResponse 200 (toy_text (if bool_decide (url = "https://idp/jwks") then VObject [] else toy_discovery_json));
  http_post _ _ _ _ :=
    HttpResponse 200 (toy_text (VObject [("access_token", VString "at"); ("id_token", VString (toy_id_token_for nonce))]));
  http_build_error _ := None;
  status_display _ := "200 OK";
  json_error _ := "json";
  jwk_set_of_json _ := Some [mkJwk None None (RSA (pem_of_key 7) "AQAB")];
|}.
#[export] Instance toy_net : Net := toy_net_for toy_nonce.

#[export] Instance toy_jwk_keys : JwkKeys toy_jose := {
  from_rsa_components n _ := ok_or (key_of_pem n) InvalidKeyFormat;
  from_ec_components _ _ := Err InvalidKeyFormat;
}.

#[export] Instance toy_flow : FlowLib := {
  url_with_query u _ := Ok u;
  sha256 s := s;
  b64url s := s;
}.

Definition toy_provider_config : ProviderConfig :=
  mkProviderConfig "IdP" "https://idp/.well-known" "ID" "SECRET" ["openid"] ∅ token_validation_default [] false None.
Definition toy_provider : Provider := mkProvider "idp" toy_provider_config "client" "secret".
Definition toy_registry : ProviderRegistry := mkRegistry {["idp" := toy_provider]} 3600 3600.

Definition toy_state_row : StateRow := mkState toy_now "idp" toy_nonce (Some "v") (Some "https://app/cb").

(** A login is under way: its state row is there. *)
Definition toy_login_world : World :=
  with_pg (with_oauth_state {["st" := toy_state_row]} empty_pg) initial_world.

Definition toy_callback := complete_callback toy_registry (MemoryStore 3600) 300 "idp" "code" "st".
Definition toy_callback_end : Outcome CallbackResult * World := Eval vm_compute in toy_callback toy_login_world.

Lemma toy_callback_run : toy_callback toy_login_world = toy_callback_end.
Proof. vm_compute. reflexivity. Qed.

(** Neither store adds state rows. *)
Lemma memory_create_shrinks ttl s : preserves states_shrink (@ss_create (MemoryStore ttl) s).
Proof. intros w. unfold wp, states_shrink. simpl. done. Qed.
