(* ===== verification/ToyApp.v ===== *)
(** The concrete deployment of Toy.v and ToyWeb.v, continued: a configuration
    file, a key file, the environment of a process, and requests. *)
From S2P Require Import Prelude Str NetAddr Chrono Json Error World Effects Jose Claims Config ConfigLoad Crypto.
From S2P Require Import Doctor JwtApi JwtService JwtTheorems Toy Introspect Security SessionCrypto SessionStore.
From S2P Require Import MemoryStore PostgresStore Outbound Registry IdToken Flow Axum AccessLog Router.
From S2P Require Import RouterTheorems Boot BootTheorems ToyWeb.

#[export] Instance toy_axum : AxumLib := {
  json_content_type hs := bool_decide (header_str hs "content-type" = Some "application/json");
  missing_json_content_type := mkResponse 415 [] (BText "");
  json_rejection _ := mkResponse 422 [] (BText "");
  length_limit_rejection := mkResponse 413 [] (BText "");
  utf8_rejection := mkResponse 400 [] (BText "");
  query_rejection _ := mkResponse 400 [] (BText "");
  path_rejection := mkResponse 400 [] (BText "");
  form_pairs s := if bool_decide (s = "") then Some [] else None;
  json_error_text _ := "json";
  form_error_text _ := "form";
  percent_decode s := Some s;
}.
#[export] Instance toy_axum_laws : AxumLaws toy_axum.
Proof. split; simpl; auto. Qed.

#[export] Instance toy_chrono_serde : ChronoSerde := { rfc3339 _ := "instant"; parse_rfc3339 _ := None }.
#[export] Instance toy_chrono_text : ChronoText := { instant_text _ := "instant" }.

(** ** The process *)

(** [database_url] is the value of the variable of that name. *)
Definition app_vars (database_url : string) (name : string) : option string :=
  snd <$> find_first (fun kv => bool_decide (fst kv = name))
    [("TIM_DATABASE_URL", database_url); ("ADMIN", "s3cret"); ("CLIENT", "pw")].

Definition app_env (database_url : string) : Env := {|
  clock := clock; pg_clock := pg_clock; monotonic := monotonic; db_fault := db_fault; dropped := dropped; uuid_v4 := uuid_v4;
  random_bytes := random_bytes; cache_live := cache_live;
  env_var := app_vars database_url;
|}.

Definition config_for (origins : list string) : AppConfig :=
  mkAppConfig server_default database_default jwt_default oauth2_default
    (mkSecurityConfig "ADMIN" true origins default_csp default_hsts default_referrer_policy default_frame_options
       default_content_type_options)
    (mkIntrospectionConfig true true false [mkIntrospectionClient "ruuter" "CLIENT"]).

Definition app_config : AppConfig := config_for [].

(** One that lets pages of every origin in. *)
Definition open_config : AppConfig := config_for ["*"].

Definition app_files : list (string * string) :=
  [("tim.yaml", "yaml"); ("open.yaml", "open"); (default_private_key_path, pem_of_key 5)].

#[export] Instance toy_files : Files := {
  read_to_string p := ok_or (assoc p app_files) "no such file";
  path_exists p := bool_decide (is_Some (assoc p app_files));
}.
#[export] Instance toy_yaml : YamlLib := {
  yaml_config s :=
    if bool_decide (s = "yaml") then Ok app_config else if bool_decide (s = "open") then Ok open_config else Err "yaml";
}.
#[export] Instance toy_pg : PgLib := {
  pool_connect _ _ _ := None;
  migrate _ := None;
  bind_listener _ _ := None;
}.

Lemma toy_files_exist p t : read_to_string p = Ok t -> path_exists p = true.
Proof. simpl. destruct (assoc p app_files); [|done]. intros _. by apply bool_decide_eq_true. Qed.

(** The services that start. *)
Definition state_for (c : AppConfig) : AppState :=
  mkAppState c toy_signer toy_service (mkRegistry ∅ 3600 60) (MemoryStore 86400)
    (mkAdminGate (Some "s3cret")) (mkGate true true false [mkResolved "ruuter" "pw"]).

Definition running_for (c : AppConfig) (url : string) : Running :=
  mkRunning (state_for c) (mkSocketAddr (V4 [0; 0; 0; 0]) 8085 0) (Some 60) (boot_log (H := app_env url) c []).

Definition app_state : AppState := state_for app_config.
Definition app_running (url : string) : Running := running_for app_config url.

(** One step of [boot] whose outcome is known. *)
Tactic Notation "boot_step" uconstr(a) constr(w) := apply try_bind_Ok; exists a; exists w; split; [reflexivity|].

Lemma app_boots url w : boot (H := app_env url) None w = (Ret (Ok (app_running url)), bump (bump (bump w))).
Proof.
  boot_step app_config w. boot_step (toy_signer, []) w. boot_step tt (bump (bump w)).
  boot_step app_state (bump (bump w)). boot_step (mkSocketAddr (V4 [0; 0; 0; 0]) 8085 0) (bump (bump w)). reflexivity.
Qed.

Lemma open_boots url w :
  boot (H := app_env url) (Some "open.yaml") w = (Ret (Ok (running_for open_config url)), bump (bump (bump w))).
Proof.
  boot_step open_config w. boot_step (toy_signer, []) w. boot_step tt (bump (bump w)).
  boot_step (state_for open_config) (bump (bump w)).
  boot_step (mkSocketAddr (V4 [0; 0; 0; 0]) 8085 0) (bump (bump w)). reflexivity.
Qed.

(** ** Requests *)

Definition json_body (v : Value) : string := toy_text v.

Definition request (method uri : string) (hs : HeaderMap) (body : string) : Request :=
  mkRequest method (mkParts hs uri) body.

Definition json_post (uri : string) (hs : HeaderMap) (v : Value) : Request :=
  request "POST" uri (("content-type", "application/json") :: hs) (json_body v).

Definition as_admin : HeaderMap := [("x-tim-admin-token", "s3cret")].
Definition as_client : HeaderMap := [("authorization", "Basic =ruuter:pw")].

Definition health_request : Request := request "GET" "/health" [] "".
