(* ===== verification/Witnesses.v ===== *)
(** The theorems at work on the deployment of Toy.v and ToyWeb.v: for every
    property with a hypothesis, one closed instance whose hypotheses are
    discharged by evaluation. *)
From S2P Require Import Prelude Str Chrono Json Error World Effects Jose Claims Config Crypto.
From S2P Require Import JwtApi JwtService JwtTheorems Toy JwtList JwtChain Introspect Security.
From S2P Require Import SessionCrypto SessionStore MemoryStore PostgresStore Outbound Registry.
From S2P Require Import IdToken Flow ToyWeb.

(** Close a run of a closed program. *)
Ltac run := vm_compute; reflexivity.

(** ** The token service *)

Module Tokens.

(** The claims of the token of Toy.v and its identifier. *)
Definition claims : StandardClaims :=
  generate_claims toy_service toy_content [""] (uuid_v4 0) toy_now (toy_now + 3600 * MICROS).
Definition token : string := tr_token toy_response.
Definition token_jti : Uuid := Eval vm_compute in uuid_v4 0.

Definition vreq : ValidateRequest := mkValidateRequest token None (Some "TIM") None.

Lemma claims_signed : signed toy_service token claims.
Proof.
  apply generate_claims_signed; [done..| |run]. intros k v Hv.
  assert (map_Forall (fun _ v => float_free v = true) toy_content) as Hall
    by (apply (bool_decide_unpack _); by vm_compute).
  by eapply Hall.
Qed.

Lemma claims_acceptable : acceptable (audience (cfg toy_service)) vreq claims.
Proof. split; [intros want [= <-]; reflexivity|discriminate..]. Qed.

Lemma validate_active_witness : exists r w' c n,
  validate toy_service vreq toy_world = (Ret r, w') /\ r = response_from_valid c /\
  live_token toy_service token c toy_world w' /\ timestamp (clock n) <= exp c.
Proof.
  eexists _, _. destruct (validate_active toy_service vreq toy_world (response_from_valid claims)
    (snd (validate toy_service vreq toy_world))) as (c & n & Hr & Hl & _ & _ & He); [run..|].
  exists c, n. split; [|split; [exact Hr|split; [exact Hl|exact He]]]. run.
Defined.

Definition generated_lookup k v : toy_content !! k = Some v -> float_free v = true.
Proof.
  assert (map_Forall (fun _ v => float_free v = true) toy_content) as Hall
    by (apply (bool_decide_unpack _); by vm_compute).
  intros Hv. by eapply Hall.
Qed.

Lemma nobody_revoked j : ~ is_revoked j toy_world.
Proof. intros [d Hd]. by vm_compute in Hd. Qed.

Lemma generate_valid_witness : exists c w3,
  validate toy_service vreq toy_world = (Ret (response_from_valid c), w3) /\ pg w3 = pg toy_world.
Proof.
  destruct (generate_valid toy_service toy_generate initial_world toy_response toy_world toy_signer_good
    toy_sane toy_healthy generated_lookup toy_generated_run) as (aud & j & now & _ & _ & H).
  destruct (H vreq toy_world) as [[w3 ?] _]; [reflexivity| |apply nobody_revoked| |by eauto].
  - split; [intros want [= <-]; reflexivity|discriminate..].
  - intros n _. by vm_compute.
Defined.

Definition revoked_world : World := Eval vm_compute in snd (revoke toy_service token (Some "lost") toy_world).

Lemma revoke_final_witness :
  is_revoked token_jti revoked_world /\
  exists v w3, validate toy_service vreq revoked_world = (Ret v, w3) /\ active v = false.
Proof.
  destruct (revoke_final toy_service token claims token_jti (Some "lost") toy_world true revoked_world
    toy_signer_good claims_signed) as (Hr & _ & Hv); [run..|].
  split; [exact Hr|].
  destruct (validate toy_service vreq revoked_world) as [[v| | |] w3] eqn:E; try (by vm_compute in E).
  exists v, w3. split; [done|]. apply (Hv revoked_world vreq v w3); [reflexivity|reflexivity|exact E].
Defined.

Definition ereq : ExtendRequest := mkExtendRequest token (Some 30) None.
Definition extended := Eval vm_compute in extend toy_service ereq toy_world.
Definition extended_world : World := Eval vm_compute in snd extended.
Definition extended_response : TokenResponse := Eval vm_compute in ret_of extended toy_response.

Lemma extend_atomic_witness : exists row,
  metadata (pg extended_world) = metadata (pg toy_world) ++ [row] /\ m_subject row = Some "alice" /\
  m_original row = token_jti.
Proof.
  destruct (extend_atomic toy_service ereq toy_world (Ret extended_response) extended_world)
    as [[_ H]|(x & row & old_exp & begun & Hck & Hm & _ & Ho & Hs & _)]; [run|by destruct (H extended_response)|].
  exists row. split; [exact Hm|]. vm_compute in Hm. injection Hm as <-. by split.
Defined.

Lemma extend_hands_over_witness : exists c w3,
  validate toy_service (mkValidateRequest (tr_token extended_response) None None None) extended_world
    = (Ret (response_from_valid c), w3) /\ sub c = Some "alice" /\ is_revoked token_jti extended_world.
Proof.
  destruct (extend_hands_over toy_service ereq claims token_jti toy_world extended_response extended_world
    toy_signer_good toy_sane toy_healthy claims_signed)
    as (j & now & Hsub & _ & (n & Hn & ->) & _ & H); [run..|].
  destruct (H (mkValidateRequest (tr_token extended_response) None None None) extended_world) as [_ Hnew];
    [reflexivity|].
  destruct Hnew as [w3 E]; [reflexivity|split; discriminate| |intros m _; vm_compute; discriminate|].
  - intros [d Hd]. assert (denylist (pg extended_world) = {[token_jti := default (mkDeny 0 0 0 None)
      (denylist (pg extended_world) !! token_jti)]}) as Hone by (vm_compute; reflexivity).
    rewrite Hone in Hd. apply lookup_singleton_Some in Hd as [Hd _]. revert Hd Hn.
    unfold token_jti, uuid_v4. simpl. vm_compute (tick toy_world). lia.
  - eexists _, w3. split; [exact E|]. split; [exact Hsub|]. vm_compute. by eexists.
Defined.

(** *** Chains *)

Definition row0 : MetaRow := Eval vm_compute in nth 0 (metadata (pg extended_world)) (mkMeta 0 0 0 "" 0 0 None None None None None 0).
Definition row1 : MetaRow := Eval vm_compute in nth 1 (metadata (pg extended_world)) (mkMeta 0 0 0 "" 0 0 None None None None None 0).

Lemma reachable_extended : seq_reachable toy_service extended_world.
Proof.
  eapply rtc_l; [eapply (seq_op _ (OGenerate toy_generate) _ (Ret tt)); run|].
  eapply rtc_l; [eapply (seq_extend _ ereq); run|]. apply rtc_refl.
Qed.

Lemma chain_single_live_witness : m_original row0 = m_original row1 /\
  (is_revoked (m_jwt_uuid row0) extended_world \/ is_revoked (m_jwt_uuid row1) extended_world).
Proof.
  split; [reflexivity|].
  destruct (chain_single_live toy_distinct toy_service extended_world reachable_extended) as [H _].
  destruct (decide (is_revoked (m_jwt_uuid row0) extended_world)) as [?|Hr0]; [by left|].
  destruct (decide (is_revoked (m_jwt_uuid row1) extended_world)) as [?|Hr1]; [by right|].
  discriminate (H row0 row1 ltac:(left) ltac:(right; left) eq_refl Hr0 Hr1).
Defined.

Lemma reachable_raced : reachable toy_service (mkSys (snd race_issue1) [(toy_extend, race_x race_check1)]).
Proof.
  eapply rtc_l; [eapply (step_op _ (OGenerate toy_generate) _ (Ret tt) toy_world); run|].
  eapply rtc_l; [eapply (step_begin _ toy_extend _ (race_x race_check1) (snd race_check1)); run|].
  eapply rtc_l; [eapply (step_begin _ toy_extend _ (race_x race_check2) (snd race_check2)); run|].
  eapply rtc_l; [eapply (step_finish _ toy_extend (race_x race_check2) _ (fst race_issue1) (snd race_issue1) []); run|].
  apply rtc_refl.
Qed.

Definition raced_row : MetaRow := Eval vm_compute in nth 1 (metadata (pg (snd race_issue1))) row0.

Lemma chains_rooted_witness : exists r0,
  rtc (supersedes_in (metadata (pg (snd race_issue1)))) raced_row r0 /\ m_supersedes r0 = None /\
  is_revoked (m_jwt_uuid r0) (snd race_issue1).
Proof.
  destruct (chains_rooted toy_distinct toy_service _ raced_row reachable_raced)
    as (_ & _ & r0 & Hr & Hn & _ & Hd); [right; left|].
  exists r0. split; [exact Hr|]. split; [exact Hn|]. apply Hd. intros ->. discriminate Hn.
Defined.

Lemma revoked_forever_witness :
  is_Some (denylist (pg extended_world) !! token_jti) /\
  forall y', rtc (step toy_service) (mkSys extended_world []) y' ->
    denylist (pg (world y')) !! token_jti = denylist (pg extended_world) !! token_jti.
Proof.
  assert (denylist (pg extended_world) !! token_jti
    = Some (default (mkDeny 0 0 0 None) (denylist (pg extended_world) !! token_jti))) as E by run.
  rewrite E. split; [by eexists|]. intros y' Hs. by apply (revoked_forever _ _ _ _ _ Hs).
Defined.

(** *** Bulk revocation and the bearer *)

Definition breq : BulkRevokeRequest := mkBulkRevokeRequest [token; "no token"; token] (Some "logout").
Definition bulk := Eval vm_compute in bulk_revoke toy_service breq toy_world.

Lemma bulk_revoke_tallies_witness : exists r w',
  bulk_revoke toy_service breq toy_world = (Ret r, w') /\ map bi_token (results r) = br_tokens breq /\ tallied r.
Proof.
  destruct (bulk_revoke_tallies toy_service breq toy_world) as (o & w' & E & [[c ->]|(r & -> & Ht & Hm & _)]);
    [vm_compute; lia|vm_compute; discriminate|by vm_compute in E|].
  exists r, w'. split; [exact E|]. split; [exact Hm|exact Ht].
Defined.

Lemma bulk_revoke_size_witness : exists r w',
  bulk_revoke toy_service breq toy_world = (Ret r, w') /\ newly_revoked r = 1 /\
  Z.of_nat (base.size (denylist (pg w'))) = 1.
Proof.
  destruct bulk as [[r| | |] w'] eqn:E; try discriminate E. exists r, w'.
  assert (bulk_revoke toy_service breq toy_world = (Ret r, w')) as Hrun by (rewrite <- E; run).
  split; [exact Hrun|]. assert (newly_revoked r = 1) as Hn by (by injection E as <- _).
  split; [exact Hn|]. rewrite (bulk_revoke_size _ _ _ _ _ toy_healthy Hrun), Hn. reflexivity.
Defined.

Lemma authenticate_bearer_sound_witness : exists c w1,
  authenticate_bearer toy_service token toy_world = (Ret "alice", w1) /\ sub c = Some "alice" /\
  exists j, uuid_parse (jti c) = Some j /\ ~ is_revoked j toy_world.
Proof.
  destruct (authenticate_bearer_sound toy_service token toy_world "alice"
    (snd (authenticate_bearer toy_service token toy_world))) as (h & c & n & _ & Hs & Hj & _); [run|].
  eexists c, _. split; [|split; [exact Hs|exact Hj]]. run.
Defined.

(** *** Introspection *)

Definition ireq : IntrospectRequest := mkIntrospectRequest token None.

Lemma introspect_sound_witness : exists c w',
  introspect toy_service ireq toy_world = (Ret (introspected c), w') /\
  live_token toy_service token c toy_world w'.
Proof.
  destruct (introspect_sound toy_service ireq toy_world (introspected claims)
    (snd (introspect toy_service ireq toy_world))) as [[H _]|(c & n & Hc & Hl & _)]; [run|discriminate H|].
  eexists c, _. split; [|exact Hl]. rewrite <- Hc. run.
Defined.

Lemma introspect_signed_witness :
  fst (introspect toy_service ireq toy_world) = Ret (introspected claims) /\
  fst (introspect toy_service ireq revoked_world) = Ret inactive.
Proof.
  destruct (introspect_signed toy_service ireq claims token_jti toy_world toy_healthy toy_signer_good
    claims_signed) as (n & w' & _ & _ & ->); [run..|].
  destruct (introspect_signed toy_service ireq claims token_jti revoked_world toy_healthy toy_signer_good
    claims_signed) as (n' & w'' & _ & _ & ->); [run..|].
  split; run.
Defined.

(** *** Listing *)

Definition lreq : ListRequest := mkListRequest (Some 0) (Some 1) false None None None None (Some "session").




(** *** Key rotation *)

Definition rotated : JwtSigner :=
  mkSigner (toy_key "tim-rs-2" 7%N) (Some (toy_key "tim-rs-1" 5%N)) (Some (toy_now + 1)).

Lemma rotation_grace_witness : exists d,
  fst (verify_raw rotated claims_of_json token permissive_validation toy_world) = Ret (Ok d) /\ td_claims d = claims.
Proof.
  destruct (rotation_grace toy_signer rotated claims_of_json (claims_to_json claims) token claims
    permissive_validation toy_world (toy_now + 1)) as [H _]; try reflexivity.
  - intros p [= <-]. discriminate.
  - discriminate.
  - repeat split.
  - left.
  - eexists. split; [apply H|reflexivity]. reflexivity.
Defined.
End Tokens.

(** ** The gates *)

Module Gates.

Definition secrets (name : string) : option string :=
  match name with
  | "ADMIN" => Some "s3cret"
  | "CLIENT" => Some "pw"
  | "KEY" => Some (hex_encode (zeros 32))
  | _ => None
  end.

Definition env : Env := {|
  clock := clock; pg_clock := pg_clock; monotonic := monotonic; db_fault := db_fault; dropped := dropped; uuid_v4 := uuid_v4;
  random_bytes := random_bytes; env_var := secrets; cache_live := cache_live;
|}.

Definition security : SecurityConfig := mkSecurityConfig "ADMIN" true [] "" "" "" "" "".
Definition parts : Parts := mkParts [("authorization", "Bearer s3cret")] "/".

Lemma admin_gate_exact_witness : exists g,
  @admin_from_config env security = Ok g /\ admin_auth g parts = Ok tt /\
  admin_auth g (mkParts [] "/") = Err Unauthorized.
Proof.
  assert (@admin_from_config env security = Ok (mkAdminGate (Some "s3cret"))) as E by reflexivity.
  eexists. split; [exact E|].
  destruct (@admin_gate_exact env toy_http security _ parts E eq_refl) as (t & [= <-] & _ & ->).
  destruct (@admin_gate_exact env toy_http security _ (mkParts [] "/") E eq_refl) as (t & [= <-] & _ & ->).
  by split.
Defined.

Definition introspection : IntrospectionConfig :=
  mkIntrospectionConfig true false false [mkIntrospectionClient "app" "CLIENT"].

Lemma gate_admits_configured_witness : exists g,
  @gate_from_config env introspection = Ok g /\ verify_basic g ("Basic " +:+ b64_encode "app:pw") = Ok tt.
Proof.
  assert (@gate_from_config env introspection = Ok (mkGate true false false [mkResolved "app" "pw"])) as E
    by reflexivity.
  eexists. split; [exact E|].
  destruct (@gate_admits_configured env toy_http _ introspection _ E eq_refl) as [_ H].
  apply (H (mkResolved "app" "pw")); [left|reflexivity..].
Defined.

Lemma session_auth_precedence_witness :
  session_auth (mkParts [("x-tim-session", "sess_1"); ("authorization", "Bearer sess_2")] "/")
    = Ok (mkSessionAuth "sess_1" false).
Proof.
  destruct (session_auth_precedence
    (mkParts [("x-tim-session", "sess_1"); ("authorization", "Bearer sess_2")] "/")) as (_ & H & _).
  apply (H "sess_1"); [reflexivity|discriminate].
Defined.

Lemma cors_list_unusable_witness : exists l,
  build_cors ["https://app.example"] = Some l /\ cors_usable l = false.
Proof. apply (cors_list_unusable ["https://app.example"]); [discriminate|]. by apply (bool_decide_unpack _). Defined.

Lemma into_response_no_leak_witness :
  resp_body (into_response (Database "password authentication failed for user tim"))
    = BJson (VObject [("error", VString "internal_error")]).
Proof. rewrite into_response_no_leak; [reflexivity|]. vm_compute. discriminate. Defined.
End Gates.

(** ** The login flow *)

Module Web.
Import Gates.

Definition logged_in : CallbackResult :=
  Eval vm_compute in ret_of toy_callback_end (mkCallbackResult "" "" "" 0 ∅).
Definition after_login : World := Eval vm_compute in snd toy_callback_end.

Lemma callback_run : toy_callback toy_login_world = (Ret logged_in, after_login).
Proof. rewrite toy_callback_run. reflexivity. Qed.

Definition is_ok_run {A} (o : Outcome A * World) : bool :=
  match fst o with Ret _ => true | _ => false end.



Lemma callback_single_use_witness : oauth_state (pg after_login) !! "st" = None /\
  is_ok_run (toy_callback after_login) = false.
Proof.
  destruct (callback_single_use toy_registry (MemoryStore 3600) 300 "idp" "code" "st"
    toy_login_world logged_in after_login (memory_create_shrinks 3600) callback_run) as [Hn H].
  split; [exact Hn|]. destruct (toy_callback after_login) as [[res| | |] w3] eqn:E; [|reflexivity..].
  exfalso. apply (H 300 "idp" "code" after_login res w3); [red; reflexivity|exact E].
Defined.

Lemma sweep_keeps_fresh_witness : exists n p',
  delete_stale_states (as_i32 300) toy_now (pg toy_login_world) = (Ok n, p') /\
  oauth_state p' !! "st" = Some toy_state_row.
Proof.
  eexists _, _. split; [reflexivity|].
  apply (sweep_keeps_fresh 300 toy_now toy_now "idp" "st" (pg toy_login_world) 0 _ toy_state_row);
    [reflexivity|run|run|run].
Defined.

Lemma state_age_wraps_witness : state_fresh toy_now (as_i32 (2 ^ 31)) toy_state_row = false.
Proof. apply state_age_wraps; [vm_compute; split; congruence|vm_compute; discriminate]. Defined.

Definition https_url : string := "https://idp/.well-known".

Lemma fetch_with_spec_witness : exists d w',
  fetch_with https_url false initial_world = (Ret d, w') /\ usable d false.
Proof.
  destruct (fetch_with https_url false initial_world) as [[d| | |] w'] eqn:E; try (by vm_compute in E).
  exists d, w'. split; [reflexivity|].
  destruct (fetch_with_spec _ _ _ _ _ E) as [_ [H|[H _]]]; [|exact H]. by vm_compute in H.
Defined.

Definition offline : Env := {|
  clock := clock; pg_clock := pg_clock; monotonic := monotonic; db_fault := db_fault; dropped := dropped; uuid_v4 := uuid_v4;
  random_bytes := random_bytes; cache_live := cache_live;
  env_var n := if bool_decide (n = "TIM_OFFLINE") then Some " yes " else None;
|}.


Definition idp_env : Env := {|
  clock := clock; pg_clock := pg_clock; monotonic := monotonic; db_fault := db_fault; dropped := dropped; uuid_v4 := uuid_v4;
  random_bytes := random_bytes; cache_live := cache_live;
  env_var n := if bool_decide (n = "ID") then Some "client" else if bool_decide (n = "SECRET") then Some "secret" else None;
|}.

Definition idp_config : OAuth2Config :=
  mkOAuth2Config "memory" 3600 3600 60 300 "KEY" {["idp" := toy_provider_config]}.

Lemma registry_from_config_spec_witness : exists r p,
  @registry_from_config idp_env idp_config = Ok r /\ registry_get r "idp" = Some p.
Proof.
  destruct (@registry_from_config idp_env idp_config) as [r|] eqn:E; [|by vm_compute in E].
  destruct (@registry_from_config_spec idp_env idp_config r E) as (Hget & _).
  exists r, toy_provider. split; [reflexivity|]. apply Hget. exists toy_provider_config.
  split; [reflexivity|]. by apply (proj1 (@resolve_provider_ok idp_env _ _ _)).
Defined.

(** *** Sessions *)

Definition sess : Session := mkSession "s1" "idp" "bob" toy_now toy_now (toy_now + 3600 * MICROS) ∅.
Definition cipher : SessionCipher := mkCipher (zeros 32).

Lemma random_zeros : random_lengths.
Proof. intros t n. simpl. induction n as [|n IH]; simpl; [done|by rewrite IH]. Qed.

Lemma envelope_exact_witness : exists blob w',
  seal cipher "profile" initial_world = (Ret blob, w') /\ open cipher blob = Ok "profile".
Proof.
  destruct (seal cipher "profile" initial_world) as [[blob| | |] w'] eqn:E; try (by vm_compute in E).
  exists blob, w'. split; [reflexivity|]. destruct (envelope_exact cipher random_zeros) as [H _].
  exact (H _ _ _ _ E).
Defined.

Definition with_session : World := Eval vm_compute in snd (@ss_create (MemoryStore 3600) sess initial_world).
Definition without : World := Eval vm_compute in snd (@ss_revoke (MemoryStore 3600) "s1" with_session).

Definition swept : World := Eval vm_compute in snd (@ss_sweep_expired (MemoryStore 3600) without).

Lemma revoked_session_gone_witness : exists w3,
  @ss_get (MemoryStore 3600) "s1" swept = (Ret None, w3).
Proof.
  destruct (@ss_get (MemoryStore 3600) "s1" swept) as [[o| | |] w3] eqn:E; try (by vm_compute in E).
  destruct (revoked_session_gone (Spec := memory_spec 3600) "s1" with_session true without swept o w3)
    as [-> _]; [exact I|run| |exact E|by exists w3].
  eapply (ss_more SSweep); [run|apply ss_done].
Defined.

Lemma cleanup_unobservable_witness : exists w',
  @run_store_op (MemoryStore 3600) SSweep with_session = (Ret tt, w') /\
  visible toy_now (mem_sessions w' !! "s1") = Some sess.
Proof.
  eexists. split; [run|].
  rewrite (cleanup_unobservable (Spec := memory_spec 3600) SSweep with_session _ toy_now "s1");
    [run|exact I|run|by left|reflexivity].
Defined.

Lemma create_get_witness : exists w2,
  @ss_get (MemoryStore 3600) "s1" with_session = (Ret (Some sess), w2).
Proof.
  destruct (@ss_get (MemoryStore 3600) "s1" with_session) as [[o| | |] w2] eqn:E; try (by vm_compute in E).
  rewrite (create_get (Spec := memory_spec 3600) sess initial_world with_session o w2);
    [by eexists|exact I|reflexivity|run|exact E].
Defined.

Lemma pg_well_initial : pg_well cipher initial_world.
Proof. intros id r Hr. discriminate Hr. Qed.


Lemma session_build_spec_witness : exists S, @session_build env toy_aead toy_serde app_default = Ok S /\
  S = MemoryStore 86400.
Proof.
  assert (@session_build env toy_aead toy_serde app_default = Ok (MemoryStore 86400)) as E by reflexivity.
  eexists. split; [exact E|].
  destruct (@session_build_spec env toy_aead toy_serde app_default _ E) as [[_ H]|[H _]];
    [exact H|discriminate H].
Defined.

Definition stale : Session := mkSession "s1" "idp" "bob" 0 0 0 ∅.
Definition with_stale : World := with_mem_sessions {["s1" := stale]} initial_world.

Lemma memory_touch_expired_witness : exists w',
  memory_touch "s1" with_stale = (Ret tt, w') /\ mem_sessions w' !! "s1" = Some (touched toy_now stale).
Proof.
  destruct (memory_touch_expired "s1" stale with_stale) as (w' & E & Ht); [run..|].
  exists w'. split; [exact E|exact Ht].
Defined.
End Web.
