(* ===== verification/ServiceWitnesses.v ===== *)
(** The theorems about the HTTP interface and the start of the service at work
    on the deployment of ToyApp.v. *)
From S2P Require Import Prelude Str NetAddr Chrono Json Error World Effects Jose Claims Config ConfigLoad Crypto.
From S2P Require Import Doctor JwtApi JwtService JwtTheorems JwtChain Toy Introspect Security SessionCrypto SessionStore.
From S2P Require Import MemoryStore PostgresStore Outbound Registry IdToken Flow LoginRace Axum AccessLog Router.
From S2P Require Import Ledger RouterTheorems LedgerHttp HttpChain Answers Boot BootTheorems StackTheorems SweeperLiveness.
From S2P Require Import ToyWeb ToyApp Witnesses.

Module Service.

Definition url : string := "postgres://tim".
#[local] Instance env : Env := app_env url.

(** ** Requests *)

Definition validate_request : Request :=
  json_post "/jwt/custom/validate" as_client (VObject [("token", VString Tokens.token)]).
Definition anonymous_request : Request :=
  json_post "/jwt/custom/validate" [] (VObject [("token", VString Tokens.token)]).

Definition answer (o : Outcome Response * World) : Response := ret_of o (mkResponse 0 [] (BText "")).

Definition validated := Eval vm_compute in serve app_state validate_request toy_world.

Lemma validate_request_run : serve app_state validate_request toy_world = (Ret (answer validated), snd validated).
Proof. vm_compute. reflexivity. Qed.


Lemma gates_closed_witness : exists resp w',
  serve app_state anonymous_request toy_world = (Ret resp, w') /\ client_error (resp_status resp) /\ pg w' = pg toy_world.
Proof.
  destruct (serve app_state anonymous_request toy_world) as [o w'] eqn:E.
  destruct (gates_closed app_state RValidate anonymous_request toy_world Unauthorized o w')
    as [[Hpg _] [(resp & -> & Hc)| ->]]; [run|run|run|run|exact E| |vm_compute in E; discriminate E].
  exists resp, w'. split; [reflexivity|]. split; [exact Hc|exact Hpg].
Defined.

Lemma memory_app_keeps : KeepsTokens (app_sessions app_state).
Proof. apply memory_keeps. Qed.

Definition after_health : World := Eval vm_compute in snd (serve app_state health_request Tokens.revoked_world).

Lemma served_health : served app_state Tokens.revoked_world after_health.
Proof. exists health_request. eexists. vm_compute. reflexivity. Qed.

Definition refused := Eval vm_compute in serve app_state validate_request after_health.

Lemma revoked_over_http_witness : exists resp w',
  serve app_state validate_request after_health = (Ret resp, w') /\ resp_status resp ≠ 200.
Proof.
  exists (answer refused), (snd refused).
  assert (serve app_state validate_request after_health = (Ret (answer refused), snd refused)) as E by run.
  split; [exact E|].
  apply (revoked_over_http app_state Tokens.token Tokens.claims Tokens.token_jti Tokens.revoked_world after_health
    RValidate validate_request (answer refused) (snd refused) memory_app_keeps toy_signer_good Tokens.claims_signed);
    [run|by vm_compute; eexists|exact (rtc_once _ _ served_health)|run|run|run| |exact E].
  eexists. split; run.
Defined.

Definition generate_request : Request :=
  json_post "/jwt/custom/generate" as_admin
    (VObject [("JWTName", VString "session"); ("content", VObject [("role", VString "admin"); ("sub", VString "alice")]);
              ("expirationInMinutes", VInt 60)]).
Definition issued := Eval vm_compute in handler app_state RGenerate generate_request initial_world.

Definition issued_token : string := Eval vm_compute in
  match fst (generate toy_service toy_generate (bump initial_world)) with Ret r => tr_token r | _ => "" end.
Definition validate_issued : Request :=
  json_post "/jwt/custom/validate" as_client (VObject [("token", VString issued_token)]).

Lemma issued_token_accepted_witness : exists answer w, serve app_state validate_issued (snd issued) = (Ret answer, w) /\
  resp_status answer = 200 /\ pg w = pg (snd issued).
Proof.
  destruct (issued_token_accepted app_state generate_request toy_generate initial_world (answer issued) (snd issued))
    as (tr & aud & j & n & _ & Hbody & Haud & _ & Hexp & Hserve);
    [exact toy_signer_good|exact toy_sane|exact toy_healthy|run|exact Tokens.generated_lookup|run|].
  destruct (Hserve validate_issued (mkValidateRequest issued_token None None None) (snd issued))
    as (r & w & Hr & Hst & _ & Hpg); [run|run|run|run| |run|split; discriminate|apply Tokens.nobody_revoked| |].
  - vm_compute in Hbody. injection Hbody as _ _ Htok. destruct tr; cbn in *; rewrite <- Htok; run.
  - intros m _. rewrite Hexp. vm_compute. discriminate.
  - exists r, w. split; [exact Hr|]. split; [exact Hst|exact Hpg].
Defined.

Lemma toy_uuid_distinct n m : uuid_v4 n = uuid_v4 m -> n = m.
Proof. simpl. lia. Qed.

Definition served_generate := Eval vm_compute in serve app_state generate_request initial_world.

Lemma generate_request_run :
  serve app_state generate_request initial_world = (Ret (answer served_generate), snd served_generate).
Proof. run. Qed.

Lemma http_refines_ledger_witness : exists e,
  run_moves empty_ledger [Issue e] = Some (ledger (snd served_generate)).
Proof.
  destruct (http_refines_ledger toy_uuid_distinct app_state generate_request initial_world
    (Ret (answer served_generate)) (snd served_generate) memory_app_keeps (initial_sound) generate_request_run)
    as (_ & ms & Hms & _ & Hp).
  rewrite ledger_initial in Hms. vm_compute (requested generate_request) in Hp.
  destruct Hp as [[->|[e ->]] Ht]; [|exists e; exact Hms].
  exfalso. exact (Ht _ eq_refl eq_refl eq_refl eq_refl).
Defined.


Definition bulk_request : Request :=
  json_post "/jwt/custom/revoke/bulk" as_admin (VObject [("tokens", VArray [VString Tokens.token; VString "no"])]).
Definition bulk_body : BulkRevokeRequest := mkBulkRevokeRequest [Tokens.token; "no"] None.
Definition bulk_run := Eval vm_compute in jwt_revoke_bulk app_state bulk_request toy_world.


Definition session_header : HeaderMap := [("x-tim-session", "s1")].
Definition logout_request : Request := request "POST" "/auth/logout" session_header "".
Definition profile_request : Request := request "GET" "/auth/profile" session_header "".
Definition logged_out := Eval vm_compute in auth_logout app_state logout_request Web.with_session.


(** The same service with the provider of ToyWeb.v. *)
Definition login_state : AppState :=
  mkAppState app_config toy_signer toy_service toy_registry (MemoryStore 3600)
    (mkAdminGate (Some "s3cret")) (mkGate true true false [mkResolved "ruuter" "pw"]).
Definition callback := Eval vm_compute in
  complete_callback (app_providers login_state) (app_sessions login_state) 300 "idp" "code" "st" toy_login_world.
Definition login : CallbackResult := Eval vm_compute in ret_of callback Web.logged_in.
Definition with_login : World := Eval vm_compute in snd callback.
Definition login_request : Request := request "GET" "/auth/profile" [("x-tim-session", cb_session_id login)] "".

Lemma memory_touch_no_panic i w : fst (@ss_touch (MemoryStore 3600) i w) ≠ Panic.
Proof.
  simpl. unfold memory_touch, mem_map, set_mem_map, mbind, M_bind, utc_now, ask.
  by destruct (mem_sessions w !! i).
Qed.

Lemma login_profile_canonical k v : cb_user_profile login !! k = Some v -> canonical v = true.
Proof.
  assert (map_Forall (fun _ v => canonical v = true) (cb_user_profile login)) as Hall
    by (apply (bool_decide_unpack _); by vm_compute).
  intros Hv. by eapply Hall.
Qed.


Lemma cookies_read_back_witness :
  cookie_value [("cookie", "a=1; jwt=tok; b=2")] "jwt" = Some "tok".
Proof.
  rewrite (cookies_read_back _ [("a", "1"); ("jwt", "tok"); ("b", "2")]); [run| |run].
  repeat constructor; try run; intros E; discriminate E.
Defined.

Definition traceparent : string := "00-4bf92f3577b34da6a3ce929d0e0e4736-00f067aa0ba902b7-01".
Definition traced_request : Request := request "GET" "/health" [("traceparent", traceparent)] "".
(** ** The start *)

Lemma boot_well_formed_witness : exists run w',
  boot None initial_world = (Ret (Ok run), w') /\ well_formed (run_state run) /\
  config (run_state run) = app_config /\ pg w' = empty_pg.
Proof.
  destruct (boot_well_formed None initial_world (app_running url) _ (app_boots url initial_world))
    as (Hwf & _ & [Hpg _] & _).
  eexists _, _. split; [exact (app_boots url initial_world)|]. split; [exact Hwf|]. split; [reflexivity|exact Hpg].
Defined.

Lemma booted_tokens_guarded_witness : exists secret,
  env_var "ADMIN" = Some secret /\
  tokens_kept toy_world (snd (serve app_state (json_post "/jwt/custom/revoke" []
    (VObject [("token", VString Tokens.token)])) toy_world)).
Proof.
  destruct (booted_tokens_guarded None initial_world (app_running url) _ (app_boots url initial_world) eq_refl)
    as (secret & Hne & Hs & Hall).
  exists secret. split; [exact Hs|]. eapply (proj2 (Hall _ _ _ _ (surjective_pairing _))).
  vm_compute. discriminate.
Defined.

Definition report := Eval vm_compute in fst (Doctor.run None initial_world).

Lemma app_unchecked : unchecked app_config.
Proof.
  split; try discriminate.
  - vm_compute. by eexists.
  - reflexivity.
Qed.

Lemma toy_infrastructure : infrastructure_up.
Proof. by repeat split. Qed.

Lemma doctor_foretells_start_witness : exists r w1 run w3,
  Doctor.run None initial_world = (Ret r, w1) /\ exit_code r false = 0 /\
  boot None initial_world = (Ret (Ok run), w3).
Proof.
  destruct (Doctor.run None initial_world) as [[r| | |] w1] eqn:E; try (by vm_compute in E).
  assert (exit_code r false = 0) as Hc by (vm_compute in E; injection E as <- _; run).
  destruct (doctor_foretells_start None app_config initial_world r w1 initial_world) as (go & w3 & Hb);
    [reflexivity|exact E|exact Hc|exact app_unchecked|exact toy_infrastructure|reflexivity|].
  exists r, w1, go, w3. split; [reflexivity|]. split; [exact Hc|exact Hb].
Defined.

(** With an empty database URL the service starts here and the doctor complains. *)
Lemma start_explains_fails_witness : exists r w1 ch,
  Doctor.run (H := app_env "") None initial_world = (Ret r, w1) /\ ch ∈ checks r /\
  severity ch = Fail /\ explained (H := app_env "") app_config ch.
Proof.
  destruct (Doctor.run (H := app_env "") None initial_world) as [[r| | |] w1] eqn:E; try (by vm_compute in E).
  set (ch := check_database (H := app_env "") (database app_config)).
  assert (ch ∈ checks r) as Hch by (vm_compute in E; injection E as <- _; do 3 right; left).
  assert (severity ch = Fail) as Hf by run.
  exists r, w1, ch. split; [reflexivity|]. split; [exact Hch|]. split; [exact Hf|].
  exact (start_explains_fails (H := app_env "") None initial_world (app_running "") _ initial_world r w1 ch
    toy_files_exist (app_boots "" initial_world) E Hch Hf).
Defined.

(** ** The background task *)

(** A clock that moves on by a second with every interaction. *)
#[local] Instance ticking : Env := {|
  clock t := Z.of_nat t * MICROS; pg_clock t := Z.of_nat t * MICROS; monotonic _ := 0; db_fault _ := None; dropped _ := None; uuid_v4 _ := 0%N;
  random_bytes _ n := ToyEnv.zeros n; env_var _ := None; cache_live _ := true;
|}.

Fixpoint begins (n : nat) : World :=
  match n with
  | O => Web.with_session
  | Datatypes.S n' => snd (sweep_round (MemoryStore 3600) 300 (begins n'))
  end.

Lemma memory_round w : exists w', sweep_round (MemoryStore 3600) 300 w = (Ret tt, w') /\ (tick w < tick w')%nat.
Proof. eexists. split; [reflexivity|]. simpl. lia. Qed.

Lemma begins_tick n : (n <= tick (begins n))%nat.
Proof.
  induction n as [|n IH]; [lia|]. cbn [begins]. destruct (memory_round (begins n)) as (w' & -> & Ht). simpl. lia.
Qed.

Lemma sweeper_removes_witness : exists n, forall m, (n <= m)%nat ->
  mem_sessions (begins (Datatypes.S m)) !! "s1" = None.
Proof.
  apply (sweeper_removes (S := MemoryStore 3600) (Spec := memory_spec 3600) (Safe := memory_sweep_safe 3600)
    (Frame := memory_frame) 300 "s1" begins (fun n => begins (Datatypes.S n))).
  - split; [exact I| |intros n; reflexivity].
    intros n. cbn [begins]. destruct (memory_round (begins n)) as (w' & -> & _). reflexivity.
  - split.
    + intros k. eexists k, _, _. split; [lia|]. simpl. unfold memory_sweep_expired, mem_map, set_mem_map, mbind, M_bind, utc_now, ask.
      reflexivity.
    + intros t. exists (Z.to_nat t). intros n Hn. pose proof (begins_tick n).
      change (t <= Z.of_nat (tick (begins n)) * 1000000). lia.
Defined.
End Service.

(** ** Overlapping logins *)

Module Overlap.

(** Every draw of random bytes differs. *)
#[local] Instance drawing : Env := {|
  clock _ := toy_now; pg_clock _ := toy_now; monotonic _ := 0; db_fault _ := None; dropped _ := None; uuid_v4 t := N.of_nat t;
  random_bytes t _ := bits_of_pos (Pos.of_succ_nat t); env_var _ := None; cache_live _ := true;
|}.

Definition began := Eval vm_compute in build_login_url toy_registry "idp" "https://app/cb" initial_world.
Definition state : string := "3131".
Definition row : StateRow := mkState toy_now "idp" "303031" (Some "101") (Some "https://app/cb").
Definition after_begin : World := Eval vm_compute in snd (callback_begin toy_registry 300 "idp" state (snd began)).

(** The provider answers with the nonce of the first login. *)
#[local] Instance provider_net : Net := toy_net_for "303031".
Definition finished := Eval vm_compute in callback_finish (MemoryStore 3600) "idp" "code" toy_provider row after_begin.

Lemma drawing_distinct n n' : random_bytes n 32 = random_bytes n' 32 -> n = n'.
Proof.
  simpl. intros E. pose proof (pos_of_bits_of_pos (Pos.of_succ_nat n)) as Hn.
  rewrite E, pos_of_bits_of_pos in Hn. injection Hn. lia.
Qed.

Lemma memory_create_quiet ttl s : preserves quiet (@ss_create (MemoryStore ttl) s).
Proof. intros w. split; [by red|simpl; lia]. Qed.

Definition opened_system : Sys :=
  mkSys (snd finished) [] [mkLogin state "idp" row] {[state := row]}.

Lemma opened_reachable : reachable toy_registry (MemoryStore 3600) 300 opened_system.
Proof.
  eapply rtc_l; [eapply (step_login _ _ _ "idp" "https://app/cb" _ (fst began) (snd began)); run|].
  eapply rtc_l; [eapply (step_begin _ _ _ "idp" state _ toy_provider row after_begin); run|].
  eapply rtc_l; [eapply (step_open _ _ _ (mkLogin state "idp" row) "code" toy_provider after_begin
    (ret_of finished (mkCallbackResult "" "" "" 0 ∅)) (snd finished) [] []); run|].
  apply rtc_refl.
Qed.

End Overlap.

(** ** The layers *)

Module Layers.

#[local] Instance env : Env := app_env "postgres://tim".

(** The same traced request, to the service every origin may read. *)
Definition traceparent : string := "00-4bf92f3577b34da6a3ce929d0e0e4736-00f067aa0ba902b7-01".
Definition traced_request : Request := request "GET" "/health" [("traceparent", traceparent)] "".
Definition nothing : Response * option AccessLine := (mkResponse 0 [] (BText ""), None).
Definition traced := Eval vm_compute in serve_logged app_state traced_request initial_world.


(** Two logins of different providers, with a secret in the query of one. *)
Definition login1 : Request := request "GET" "/auth/login/corporate" [] "".
Definition login2 : Request := request "GET" "/auth/login/other" [("cookie", "jwt=secret")] "".
Definition line_of (req : Request) : AccessLine :=
  default (mkAccessLine "" "" 0 0 "") (snd (ret_of (serve_logged app_state req initial_world) nothing)).

Lemma log_reveals_pattern_only_witness :
  al_route (line_of login1) = "/auth/login/:id" /\ al_route (line_of login1) ∈ route_patterns /\
  line_of login1 = line_of login2.
Proof.
  destruct (log_reveals_pattern_only app_state login1 login2 initial_world initial_world
    (fst (ret_of (serve_logged app_state login1 initial_world) nothing))
    (fst (ret_of (serve_logged app_state login2 initial_world) nothing)) (line_of login1) (line_of login2)
    (snd (serve_logged app_state login1 initial_world)) (snd (serve_logged app_state login2 initial_world)))
    as [Hin Heq]; [run..|].
  split; [run|]. split; [apply elem_of_cons in Hin as [Hin|Hin]; [by vm_compute in Hin|exact Hin]|].
  rewrite Heq. run.
Defined.

Definition preflight_request : Request := request "OPTIONS" "/jwt/custom/generate" [("origin", "https://evil")] "".
Definition open_state : AppState := state_for open_config.
Definition preflighted := Eval vm_compute in serve_logged open_state preflight_request initial_world.

End Layers.

(** ** Requests that are cut off *)

Module CutOff.

(** The time of the request is up while it waits for the commit of an extension, which
    takes effect. *)
#[local] Instance cut_env : Env := {|
  clock _ := toy_now; pg_clock _ := toy_now; monotonic _ := 0; db_fault _ := None;
  dropped t := if bool_decide (t = 19%nat) then Some (TimeUp, true) else None;
  uuid_v4 t := (1000 + N.of_nat t)%N; random_bytes _ n := ToyEnv.zeros n; env_var _ := None; cache_live _ := true;
|}.

Definition generate_request : Request :=
  json_post "/jwt/custom/generate" as_admin
    (VObject [("JWTName", VString "session"); ("content", VObject [("sub", VString "alice")]);
              ("expirationInMinutes", VInt 60)]).
Definition issued := Eval vm_compute in serve app_state generate_request initial_world.
Definition issued_world : World := Eval vm_compute in snd issued.
Definition token : string := Eval vm_compute in
  match resp_body (fst (ret_of (serve_logged app_state generate_request initial_world) Layers.nothing)) with
  | BJson (VObject l) => match assoc "token" l with Some (VString t) => t | _ => "" end
  | _ => ""
  end.
Definition extend_request : Request := json_post "/jwt/custom/extend" as_admin (VObject [("token", VString token)]).
Definition late := Eval vm_compute in serve_logged app_state extend_request issued_world.

Lemma cut_uuids_distinct n m : uuid_v4 n = uuid_v4 m -> n = m.
Proof. simpl. lia. Qed.

Lemma before_sound : sound issued_world.
Proof.
  assert (serve app_state generate_request initial_world = (fst issued, issued_world)) as E by run.
  apply (http_refines_ledger cut_uuids_distinct app_state generate_request initial_world _ _ (memory_keeps _)
    initial_sound E).
Qed.


Lemma every_request_answered_witness : exists resp,
  serve app_state extend_request issued_world = (Ret resp, snd late) /\ resp_status resp = 408.
Proof.
  destruct (serve app_state extend_request issued_world) as [o w'] eqn:E.
  destruct (every_request_answered (H := cut_env) app_state extend_request issued_world o w')
    as [[resp ->]|[->|[-> _]]]; [apply (memory_calm (H := cut_env))|exact E| |vm_compute in E; discriminate E..].
  exists resp. vm_compute in E. injection E as <- <-. split; run.
Defined.
End CutOff.

(** ** Extensions that overlap over HTTP *)

Module Fork.

#[local] Instance fork_env : Env := app_env "postgres://tim".

Definition generated := Eval vm_compute in serve app_state Service.generate_request initial_world.
Definition token : string := Eval vm_compute in
  match fst generated with
  | Ret resp =>
      match resp_body resp with
      | BJson (VObject l) => match assoc "token" l with Some (VString t) => t | _ => "" end
      | _ => ""
      end
  | _ => ""
  end.
Definition extend_request : Request := json_post "/jwt/custom/extend" as_admin (VObject [("token", VString token)]).
Definition asked : ExtendRequest := mkExtendRequest token None None.

(** Both requests read, then both write. *)
Definition check1 := Eval vm_compute in extend_check toy_service token (snd generated).
Definition check2 := Eval vm_compute in extend_check toy_service token (snd check1).
Definition issue1 := Eval vm_compute in extend_issue toy_service asked (race_x check1) (snd check2).
Definition issue2 := Eval vm_compute in extend_issue toy_service asked (race_x check2) (snd issue1).
Definition forked : JwtChain.Sys := JwtChain.mkSys (snd issue2) [].

Lemma forked_reachable : http_reachable app_state forked.
Proof.
  eapply rtc_l; [apply (hs_serve _ Service.generate_request (fst generated) _ (snd generated)); run|].
  eapply rtc_l; [apply (hs_begin _ extend_request RExtend asked (race_x check1) _ (snd check1)); run|].
  eapply rtc_l; [apply (hs_begin _ extend_request RExtend asked (race_x check2) _ (snd check2)); run|].
  eapply rtc_l; [apply (hs_finish _ asked (race_x check1) (fst issue1) _ (snd issue1) [(asked, race_x check2)] []); run|].
  apply rtc_once, (hs_finish _ asked (race_x check2) (fst issue2) _ (snd issue2) [] []). run.
Qed.

Definition no_row : MetaRow := mkMeta 0%N 0%N 0 "" 0 0 None None None None None 0%N.
Definition fork (i : nat) : MetaRow := Eval vm_compute in default no_row (metadata (pg (JwtChain.world forked)) !! i).

(** Two live successors of one token, with the same root. *)
Lemma http_chains_rooted_witness :
  metadata (pg (JwtChain.world forked)) = [fork 0; fork 1; fork 2] /\
  ~ is_revoked (m_jwt_uuid (fork 1)) (JwtChain.world forked) /\ ~ is_revoked (m_jwt_uuid (fork 2)) (JwtChain.world forked) /\
  exists r0, rtc (supersedes_in (metadata (pg (JwtChain.world forked)))) (fork 2) r0 /\ m_original r0 = m_original (fork 1) /\
    is_revoked (m_jwt_uuid r0) (JwtChain.world forked).
Proof.
  split; [run|]. split; [apply (proj1 (bool_decide_eq_false _)); run|]. split; [apply (proj1 (bool_decide_eq_false _)); run|].
  destruct (http_chains_rooted Service.toy_uuid_distinct app_state forked (fork 2) Service.memory_app_keeps forked_reachable)
    as (_ & _ & r0 & Hr & Hs & Ho & Hrev); [right; right; left|].
  exists r0. split; [exact Hr|]. split; [rewrite Ho; run|]. apply Hrev. intros ->. vm_compute in Hs. discriminate Hs.
Defined.
End Fork.
